(** * MBASIC interpreter core: value system, runtime and statement execution

    A shallow embedding of the C++ sources (value.hpp, runtime.hpp/.cpp,
    parser.cpp, interpreter.cpp) together with the properties of the
    specification that are checked against them.

    Conventions.
    - [int16_t], [int], [int64_t] and [size_t] values are integers of [Z]
      with the range or wrap-around written where the source relies on it.
    - [float] and [double] are IEEE 754 binary32 / binary64 numbers in the
      representation of the standard library's [SpecFloat] (sign, mantissa,
      exponent), with round-to-nearest-even arithmetic.
    - [std::string] is [string]; [std::vector] is [list].
    - [std::unordered_map] objects that the code only looks up are finite
      maps ([gmap]); the two that the code iterates ([for_states],
      [data_line_map]) go through the interface [UnorderedMap], whose
      iteration order is left to the implementation as in C++. *)

From Stdlib Require Import ZArith String Ascii List Bool Lia.
From Stdlib Require Import Floats.SpecFloat.
From stdpp Require Import gmap strings list sorting.

#[local] Set Warnings "-register-all".

Local Open Scope Z_scope.

(* ===================================================================== *)
(** * IEEE 754 numbers as the C++ code uses them                          *)
(* ===================================================================== *)

Module IEEE.

(** [double]: binary64, 53 bits of precision, exponent bound 1024. *)
Definition double := spec_float.
(** [float]: binary32, 24 bits of precision, exponent bound 128. *)
Definition single := spec_float.

Definition d_prec := 53.
Definition d_emax := 1024.
Definition s_prec := 24.
Definition s_emax := 128.

Definition d_zero : double := S754_zero false.

Definition d_add : double -> double -> double := SFadd d_prec d_emax.
Definition d_sub : double -> double -> double := SFsub d_prec d_emax.
Definition d_mul : double -> double -> double := SFmul d_prec d_emax.
Definition d_div : double -> double -> double := SFdiv d_prec d_emax.
Definition d_neg : double -> double := SFopp.
Definition d_fabs : double -> double := SFabs.

(** Comparisons; every comparison with a NaN is false, as in C++. *)
Definition d_eq (a b : double) : bool := SFeqb a b.
Definition d_lt (a b : double) : bool := SFltb a b.
Definition d_le (a b : double) : bool := SFleb a b.
Definition d_gt (a b : double) : bool := SFltb b a.
Definition d_ge (a b : double) : bool := SFleb b a.

Definition is_nan (d : double) : bool :=
  match d with S754_nan => true | _ => false end.

Definition is_finite (d : double) : bool :=
  match d with S754_zero _ | S754_finite _ _ _ => true | _ => false end.

(** [std::fmax]: a NaN operand is treated as missing data. *)
Definition d_fmax (a b : double) : double :=
  if is_nan a then b
  else if is_nan b then a
  else if d_lt a b then b else a.

(** Conversion of an integer to [double] (exact below 2^53, rounded to
    nearest even above). *)
Definition d_of_Z (n : Z) : double := binary_normalize d_prec d_emax n 0 false.

(** A decimal or binary scaled integer [n * 2^e] as [double]. *)
Definition d_of_scaled (n e : Z) : double := binary_normalize d_prec d_emax n e false.

(** The correctly rounded quotient of two positive integers, with sign
    [s]; this is how a decimal fraction [num / 10^k] becomes a double. *)
Definition d_of_ratio (s : bool) (num den : positive) : double :=
  let '(mz, ez, lz) := SFdiv_core_binary d_prec d_emax (Zpos num) 0 (Zpos den) 0 in
  binary_round_aux d_prec d_emax s mz ez lz.

(** Truncation toward zero of a finite number, as an unbounded integer.
    [None] for NaN and the infinities. *)
Definition d_trunc (d : double) : option Z :=
  match d with
  | S754_zero _ => Some 0
  | S754_finite s m e => Some (cond_Zopp s (Z.shiftl (Zpos m) e))
  | _ => None
  end.

(** [static_cast<T>(d)] for a signed integer type of [w] bits.  The value
    is truncated toward zero; when the truncated value does not fit the
    destination type (or [d] is not finite) the behaviour is undefined
    in C++, which is [None] here. *)
Definition cast_signed (w : Z) (d : double) : option Z :=
  match d_trunc d with
  | Some z => if (- 2 ^ (w - 1) <=? z) && (z <? 2 ^ (w - 1)) then Some z else None
  | None => None
  end.

Definition cast_int16 := cast_signed 16.
Definition cast_int := cast_signed 32.
Definition cast_int64 := cast_signed 64.

(** [static_cast<size_t>(d)]: defined when the truncated value is in
    [0, 2^64). *)
Definition cast_size_t (d : double) : option Z :=
  match d_trunc d with
  | Some z => if (0 <=? z) && (z <? 2 ^ 64) then Some z else None
  | None => None
  end.

(** Round-half-to-even of [m / 2^k] for [k > 0]. *)
Definition round_half_even_shift (m : Z) (k : Z) : Z :=
  let q := Z.shiftr m k in
  let r := m - Z.shiftl q k in
  let half := Z.shiftl 1 (k - 1) in
  if r <? half then q
  else if half <? r then q + 1
  else if Z.even q then q else q + 1.

(** [std::rint] in the default rounding mode: the nearest integer, ties
    to even, the sign of the argument kept. *)
Definition d_rint (d : double) : double :=
  match d with
  | S754_finite s m e =>
      if 0 <=? e then d
      else
        let n := round_half_even_shift (Zpos m) (- e) in
        if n =? 0 then S754_zero s
        else binary_normalize d_prec d_emax (cond_Zopp s n) 0 s
  | _ => d
  end.

(** [static_cast<float>(d)]: rounding to binary32. *)
Definition to_single (d : double) : single :=
  match d with
  | S754_finite s m e => binary_round s_prec s_emax s m e
  | _ => d
  end.

(** [static_cast<double>(f)]: exact, the mantissa is re-aligned to 53
    bits. *)
Definition of_single (f : single) : double :=
  match f with
  | S754_finite s m e => binary_round d_prec d_emax s m e
  | _ => f
  end.

End IEEE.

Import IEEE.

(* ===================================================================== *)
(** * Text helpers: what [std::to_string] and ["%f"] print               *)
(* ===================================================================== *)

Definition digit_char (n : Z) : ascii := ascii_of_nat (Z.to_nat (48 + n)).

(** Decimal digits of a non-negative integer, most significant first,
    in front of [acc]. *)
Fixpoint dec_digits (fuel : nat) (n : Z) (acc : string) : string :=
  match fuel with
  | O => acc
  | S fuel' =>
      let acc' := String (digit_char (n mod 10)) acc in
      if n <? 10 then acc' else dec_digits fuel' (n / 10) acc'
  end.

Definition dec_of_nonneg (n : Z) : string :=
  dec_digits (S (Z.to_nat (Z.log2 n))) n EmptyString.

(** [std::to_string] on an integer type. *)
Definition string_of_Z (n : Z) : string :=
  if n <? 0 then String "-" (dec_of_nonneg (- n)) else dec_of_nonneg n.

(** The six fractional digits of ["%f"], zero padded. *)
Definition frac6 (n : Z) : string :=
  match dec_of_nonneg (1000000 + n) with
  | String _ rest => rest
  | EmptyString => EmptyString
  end.

(** [std::to_string(double)], that is [sprintf("%f")]: fixed notation with
    six digits after the point, the exact binary value rounded to nearest
    (ties to even). *)
Definition fmt_f (d : double) : string :=
  match d with
  | S754_nan => "nan"
  | S754_infinity s => if s then "-inf" else "inf"
  | S754_zero s => ((if s then "-" else "") ++ "0.000000")%string
  | S754_finite s m e =>
      let scaled :=
        if 0 <=? e then Z.shiftl (Zpos m * 1000000) e
        else round_half_even_shift (Zpos m * 1000000) (- e) in
      ((if s then "-" else "") ++ dec_of_nonneg (scaled / 1000000)
         ++ "." ++ frac6 (scaled mod 1000000))%string
  end.

Fixpoint string_contains (c : ascii) (s : string) : bool :=
  match s with
  | EmptyString => false
  | String c' s' => if Ascii.eqb c c' then true else string_contains c s'
  end.

Fixpoint string_rev_onto (s acc : string) : string :=
  match s with
  | EmptyString => acc
  | String c s' => string_rev_onto s' (String c acc)
  end.

Definition string_rev (s : string) : string := string_rev_onto s EmptyString.

(** [while (s.back() == c) s.pop_back();] on the reversed string. *)
Fixpoint drop_leading (c : ascii) (s : string) : string :=
  match s with
  | String c' s' => if Ascii.eqb c c' then drop_leading c s' else s
  | EmptyString => EmptyString
  end.

(** [if (s.back() == c) s.pop_back();] on the reversed string. *)
Definition drop_one_leading (c : ascii) (s : string) : string :=
  match s with
  | String c' s' => if Ascii.eqb c c' then s' else s
  | EmptyString => EmptyString
  end.

(* ===================================================================== *)
(** * value.hpp                                                          *)
(* ===================================================================== *)

Inductive VarType := INTEGER | SINGLE | DOUBLE | STRING.

#[global] Instance VarType_eq_dec : EqDecision VarType.
Proof. solve_decision. Defined.

(** [std::variant<int16_t, float, double, std::string>]. *)
Inductive Value :=
| VInteger (i : Z)
| VSingle (f : single)
| VDouble (d : double)
| VString (s : string).

Definition get_type (v : Value) : VarType :=
  match v with
  | VInteger _ => INTEGER
  | VSingle _ => SINGLE
  | VDouble _ => DOUBLE
  | VString _ => STRING
  end.

Definition is_numeric (v : Value) : bool :=
  match v with VString _ => false | _ => true end.

Definition is_string (v : Value) : bool :=
  match v with VString _ => true | _ => false end.

(** A string operand counts as [0.0]; no error is raised. *)
Definition to_number (v : Value) : double :=
  match v with
  | VInteger i => d_of_Z i
  | VSingle f => of_single f
  | VDouble d => d
  | VString _ => d_zero
  end.

Definition d_32767_5 : double := d_of_ratio false 65535 2.
Definition d_m32768_5 : double := d_of_ratio true 65537 2.

(** [None] is the undefined conversion of a NaN to [int16_t]. *)
Definition to_integer (v : Value) : option Z :=
  let d := to_number v in
  if d_ge d d_32767_5 then Some 32767
  else if d_le d d_m32768_5 then Some (-32768)
  else cast_int16 (d_rint d).

Definition d_1e10 : double := d_of_Z 10000000000.

(** Formatting of a [float] or [double] already widened to [double].
    The test [d == static_cast<int64_t>(d)] is evaluated first, so the
    result is undefined ([None]) whenever that cast is. *)
Definition number_to_string (d : double) : option string :=
  match cast_int64 d with
  | None => None
  | Some n =>
      let s :=
        if d_eq d (d_of_Z n) && d_lt (d_fabs d) d_1e10 then string_of_Z n
        else
          let s := fmt_f d in
          if string_contains "." s then
            string_rev (drop_one_leading "." (drop_leading "0" (string_rev s)))
          else s in
      let s := if d_ge d d_zero then String " " s else s in
      Some (s ++ " ")%string
  end.

Definition to_string (v : Value) : option string :=
  match v with
  | VString s => Some s
  | VInteger i =>
      let s := string_of_Z i in
      let s := if 0 <=? i then String " " s else s in
      Some (s ++ " ")%string
  | VSingle f => number_to_string (of_single f)
  | VDouble d => number_to_string d
  end.

Definition to_bool (v : Value) : bool :=
  match v with
  | VString s => negb (String.eqb s EmptyString)
  | VInteger i => negb (i =? 0)
  | VSingle f => negb (d_eq f d_zero)
  | VDouble d => negb (d_eq d d_zero)
  end.

(** [coerce_to]: never raises; a string becomes [0], a number becomes the
    empty string.  [None] only where [to_integer] is undefined. *)
Definition coerce_to (v : Value) (target : VarType) : option Value :=
  match target with
  | INTEGER => VInteger <$> to_integer v
  | SINGLE => Some (VSingle (to_single (to_number v)))
  | DOUBLE => Some (VDouble (to_number v))
  | STRING => Some (if is_string v then v else VString EmptyString)
  end.

Definition type_suffix (t : VarType) : ascii :=
  match t with
  | INTEGER => "%"
  | SINGLE => "!"
  | DOUBLE => "#"
  | STRING => "$"
  end%char.

Definition type_from_suffix (suffix : ascii) : VarType :=
  if Ascii.eqb suffix "%" then INTEGER
  else if Ascii.eqb suffix "!" then SINGLE
  else if Ascii.eqb suffix "#" then DOUBLE
  else if Ascii.eqb suffix "$" then STRING
  else SINGLE.

Definition default_value (t : VarType) : Value :=
  match t with
  | INTEGER => VInteger 0
  | SINGLE => VSingle d_zero
  | DOUBLE => VDouble d_zero
  | STRING => VString EmptyString
  end.

(* ===================================================================== *)
(** * [std::stod]                                                        *)
(* ===================================================================== *)

(** The library function is embedded as far as the interpreter depends on
    it: leading white space, sign, decimal and hexadecimal floating
    literals, [inf] and [nan], correct rounding to nearest even, and the
    two exceptions ([std::invalid_argument] when nothing converts,
    [std::out_of_range] on overflow or inexact underflow), both of which
    are [None] here.  Characters after the literal are ignored. *)

Definition is_space (c : ascii) : bool :=
  let n := Z.of_nat (nat_of_ascii c) in (n =? 32) || ((9 <=? n) && (n <=? 13)).

Definition is_digit (c : ascii) : bool :=
  let n := Z.of_nat (nat_of_ascii c) in (48 <=? n) && (n <=? 57).

Definition to_lower_char (c : ascii) : ascii :=
  let n := Z.of_nat (nat_of_ascii c) in
  if (65 <=? n) && (n <=? 90) then ascii_of_nat (Z.to_nat (n + 32)) else c.

Definition hex_digit_val (c : ascii) : option Z :=
  let n := Z.of_nat (nat_of_ascii (to_lower_char c)) in
  if (48 <=? n) && (n <=? 57) then Some (n - 48)
  else if (97 <=? n) && (n <=? 102) then Some (n - 87)
  else None.

Fixpoint skip_spaces (s : string) : string :=
  match s with
  | String c s' => if is_space c then skip_spaces s' else s
  | EmptyString => EmptyString
  end.

(** Reads a run of decimal digits: the accumulated value, the number of
    digits read and the rest of the text. *)
Fixpoint read_digits (s : string) (acc cnt : Z) : Z * Z * string :=
  match s with
  | String c s' =>
      if is_digit c
      then read_digits s' (acc * 10 + (Z.of_nat (nat_of_ascii c) - 48)) (cnt + 1)
      else (acc, cnt, s)
  | EmptyString => (acc, cnt, EmptyString)
  end.

Fixpoint read_hex_digits (s : string) (acc cnt : Z) : Z * Z * string :=
  match s with
  | String c s' =>
      match hex_digit_val c with
      | Some v => read_hex_digits s' (acc * 16 + v) (cnt + 1)
      | None => (acc, cnt, s)
      end
  | EmptyString => (acc, cnt, EmptyString)
  end.

(** Case-insensitive test that [s] starts with the lower-case [p]. *)
Fixpoint starts_with_ci (p s : string) : bool :=
  match p, s with
  | EmptyString, _ => true
  | String a p', String b s' => Ascii.eqb a (to_lower_char b) && starts_with_ci p' s'
  | String _ _, EmptyString => false
  end.

(** An optional exponent part introduced by [mark] (given in lower case):
    it counts only when at least one digit follows the optional sign. *)
Definition read_exponent (mark : ascii) (s : string) : Z :=
  match s with
  | String c s' =>
      if Ascii.eqb (to_lower_char c) mark then
        let '(neg, s'') :=
          match s' with
          | String "-" r => (true, r)
          | String "+" r => (false, r)
          | _ => (false, s')
          end in
        let '(v, cnt, _) := read_digits s'' 0 0 in
        if 0 <? cnt then (if neg then - v else v) else 0
      else 0
  | EmptyString => 0
  end.

(** Whether the finite result [r] is exactly [num / den]. *)
Definition exactly (r : double) (num den : Z) : bool :=
  match r with
  | S754_zero _ => num =? 0
  | S754_finite _ m e =>
      if 0 <=? e then Zpos m * 2 ^ e * den =? num
      else Zpos m * den =? num * 2 ^ (- e)
  | _ => false
  end.

(** Zero or subnormal results. *)
Definition is_tiny (r : double) : bool :=
  match r with
  | S754_zero _ => true
  | S754_finite _ m _ => Zpos (digits2_pos m) <? d_prec
  | _ => false
  end.

(** The rounded value of [(-1)^s * num / den] with the range check of
    [strtod] ([ERANGE] becomes [std::out_of_range]).  An integer is
    rounded directly, a proper fraction through the quotient. *)
Definition stod_round (s : bool) (num den : Z) : option double :=
  match num, den with
  | Z0, _ => Some (S754_zero s)
  | Zpos n, Zpos d =>
      let r :=
        match d with
        | xH => binary_round d_prec d_emax s n 0
        | _ => d_of_ratio s n d
        end in
      if negb (is_finite r) then None
      else if is_tiny r && negb (exactly r num den) then None
      else Some r
  | _, _ => None
  end.

(** A hexadecimal literal [0x...]: the mantissa and the binary exponent. *)
Definition hex_literal (t : string) : option (Z * Z) :=
  match t with
  | String z (String x r) =>
      if Ascii.eqb z "0" && Ascii.eqb (to_lower_char x) "x" then
        let '(ip, n1, r1) := read_hex_digits r 0 0 in
        let '(m, n2, r2) :=
          match r1 with
          | String "." r1' => read_hex_digits r1' ip 0
          | _ => (ip, 0, r1)
          end in
        if 0 <? n1 + n2 then Some (m, read_exponent "p" r2 - 4 * n2) else None
      else None
  | _ => None
  end.

(** A decimal literal: the digits as an integer and the decimal exponent. *)
Definition dec_literal (t : string) : option (Z * Z) :=
  let '(ip, n1, r1) := read_digits t 0 0 in
  let '(m, n2, r2) :=
    match r1 with
    | String "." r1' => read_digits r1' ip 0
    | _ => (ip, 0, r1)
    end in
  if 0 <? n1 + n2 then Some (m, read_exponent "e" r2 - n2) else None.

Definition stod_unsigned (s : bool) (t : string) : option double :=
  if starts_with_ci "inf" t then Some (S754_infinity s)
  else if starts_with_ci "nan" t then Some S754_nan
  else
    match hex_literal t with
    | Some (m, e) =>
        if 0 <=? e then stod_round s (m * 2 ^ e) 1 else stod_round s m (2 ^ (- e))
    | None =>
        match dec_literal t with
        | Some (m, e) =>
            if 0 <=? e then stod_round s (m * 10 ^ e) 1 else stod_round s m (10 ^ (- e))
        | None => None
        end
    end.

Definition stod (str : string) : option double :=
  match skip_spaces str with
  | String "-" t => stod_unsigned true t
  | String "+" t => stod_unsigned false t
  | t => stod_unsigned false t
  end.

(* ===================================================================== *)
(** * [std::unordered_map] where the code iterates it                    *)
(* ===================================================================== *)

(** The container's contract, as far as the interpreter observes it.
    [um_items] lists the elements from [begin()] to [end()].  The order
    is the implementation's: assigning through [operator[]] to a key
    that is present changes no position, a new key may land anywhere
    (and a rehash may permute the rest), erasing keeps the relative
    order of the remaining elements. *)
Class UnorderedMap (K V : Type) `{EqDecision K} := {
  umap : Type;
  um_empty : umap;
  um_items : umap -> list (K * V);
  um_assign : K -> V -> umap -> umap;
  um_erase : K -> umap -> umap;
  um_items_empty : um_items um_empty = [];
  um_assign_present : forall k v m,
    k ∈ (um_items m).*1 ->
    um_items (um_assign k v m)
    = (fun kv => if decide (kv.1 = k) then (k, v) else kv) <$> um_items m;
  um_assign_fresh : forall k v m,
    k ∉ (um_items m).*1 ->
    um_items (um_assign k v m) ≡ₚ (k, v) :: um_items m;
  um_erase_items : forall k m,
    um_items (um_erase k m) = filter (fun kv => kv.1 ≠ k) (um_items m)
}.

Arguments umap K V {_ _}.

Section UnorderedMapOps.
Context {K V : Type} `{UnorderedMap K V}.

(** [m.find(k)] *)
Definition um_find (k : K) (m : umap K V) : option V :=
  snd <$> List.find (fun kv => bool_decide (kv.1 = k)) (um_items m).

(** [m.begin()->first] *)
Definition um_begin (m : umap K V) : option K := fst <$> head (um_items m).

(** [m.empty()] *)
Definition um_is_empty (m : umap K V) : bool :=
  match um_items m with [] => true | _ => false end.
End UnorderedMapOps.

(** An implementation that links a new element in front of the others,
    which is where the hash table of libstdc++ puts the node of a key
    whose bucket is empty. *)
Section FrontInsertion.
Context {K V : Type} `{EqDecision K}.

Definition alist_assign (k : K) (v : V) (l : list (K * V)) : list (K * V) :=
  if decide (k ∈ l.*1)
  then (fun kv => if decide (kv.1 = k) then (k, v) else kv) <$> l
  else (k, v) :: l.

Definition alist_erase (k : K) (l : list (K * V)) : list (K * V) :=
  filter (fun kv => kv.1 ≠ k) l.

Lemma alist_assign_present (k : K) (v : V) (l : list (K * V)) :
  k ∈ l.*1 ->
  alist_assign k v l = (fun kv => if decide (kv.1 = k) then (k, v) else kv) <$> l.
Proof. intros Hin. unfold alist_assign. by rewrite decide_True. Qed.

Lemma alist_assign_fresh (k : K) (v : V) (l : list (K * V)) :
  k ∉ l.*1 -> alist_assign k v l ≡ₚ (k, v) :: l.
Proof. intros Hin. unfold alist_assign. by rewrite decide_False. Qed.

#[export] Instance front_umap : UnorderedMap K V := {|
  umap := list (K * V);
  um_empty := [];
  um_items := fun l => l;
  um_assign := alist_assign;
  um_erase := alist_erase;
  um_items_empty := eq_refl;
  um_assign_present := alist_assign_present;
  um_assign_fresh := alist_assign_fresh;
  um_erase_items := fun _ _ => eq_refl
|}.
End FrontInsertion.

(* ===================================================================== *)
(** * tokens.hpp                                                         *)
(* ===================================================================== *)

(** [enum class TokenType]; the enumerators carry the prefix [T_]. *)
Inductive TokenType :=
  | T_NUMBER | T_STRING | T_IDENTIFIER | T_AUTO | T_CONT | T_DELETE
  | T_EDIT | T_FILES | T_LIST | T_LLIST | T_LOAD | T_MERGE
  | T_NEW | T_RENUM | T_RUN | T_SAVE | T_AS | T_CLOSE
  | T_FIELD | T_GET | T_INPUT | T_KILL | T_LINE_INPUT | T_LSET
  | T_NAME | T_OPEN | T_OUTPUT | T_PUT | T_RESET | T_RSET
  | T_APPEND | T_ALL | T_CALL | T_CHAIN | T_ELSE | T_END
  | T_FOR | T_GOSUB | T_GOTO | T_IF | T_NEXT | T_ON
  | T_RESUME | T_RETURN | T_STEP | T_STOP | T_SYSTEM | T_CLS
  | T_THEN | T_TO | T_WHILE | T_WEND | T_BASE | T_CLEAR
  | T_COMMON | T_DATA | T_DEF | T_DEFINT | T_DEFSNG | T_DEFDBL
  | T_DEFSTR | T_DIM | T_ERASE | T_FN | T_LET | T_OPTION
  | T_READ | T_RESTORE | T_PRINT | T_LPRINT | T_WRITE | T_USING
  | T_ERROR | T_ERR | T_ERL | T_FRE | T_HELP | T_OUT
  | T_POKE | T_RANDOMIZE | T_REM | T_REMARK | T_SWAP | T_TRON
  | T_TROFF | T_WAIT | T_WIDTH | T_PLUS | T_MINUS | T_MULTIPLY
  | T_DIVIDE | T_POWER | T_BACKSLASH | T_MOD | T_EQUAL | T_NOT_EQUAL
  | T_LESS_THAN | T_GREATER_THAN | T_LESS_EQUAL | T_GREATER_EQUAL | T_NOT | T_AND
  | T_OR | T_XOR | T_EQV | T_IMP | T_ABS | T_ATN
  | T_CDBL | T_CINT | T_COS | T_CSNG | T_CVD | T_CVI
  | T_CVS | T_EXP | T_FIX | T_INT | T_LOG | T_RND
  | T_SGN | T_SIN | T_SQR | T_TAN | T_ASC | T_CHR
  | T_HEX | T_INKEY | T_INPUT_FUNC | T_INSTR | T_LEFT | T_LEN
  | T_MID | T_MKD | T_MKI | T_MKS | T_OCT | T_RIGHT
  | T_SPACE | T_STR | T_STRING_FUNC | T_VAL | T_DATE_FUNC | T_EOF_FUNC
  | T_ENVIRON_FUNC | T_ERROR_FUNC | T_INP | T_LOC | T_LOF | T_LPOS
  | T_PEEK | T_POS | T_SPC | T_TAB | T_TIME_FUNC | T_TIMER
  | T_USR | T_VARPTR | T_LPAREN | T_RPAREN | T_COMMA | T_SEMICOLON
  | T_COLON | T_HASH | T_AMPERSAND | T_NEWLINE | T_LINE_NUMBER | T_END_OF_FILE
  | T_QUESTION | T_APOSTROPHE.

(** The enumerator's underlying value, in declaration order. *)
Definition token_code (t : TokenType) : Z :=
  match t with
  | T_NUMBER => 0 | T_STRING => 1 | T_IDENTIFIER => 2 | T_AUTO => 3
  | T_CONT => 4 | T_DELETE => 5 | T_EDIT => 6 | T_FILES => 7
  | T_LIST => 8 | T_LLIST => 9 | T_LOAD => 10 | T_MERGE => 11
  | T_NEW => 12 | T_RENUM => 13 | T_RUN => 14 | T_SAVE => 15
  | T_AS => 16 | T_CLOSE => 17 | T_FIELD => 18 | T_GET => 19
  | T_INPUT => 20 | T_KILL => 21 | T_LINE_INPUT => 22 | T_LSET => 23
  | T_NAME => 24 | T_OPEN => 25 | T_OUTPUT => 26 | T_PUT => 27
  | T_RESET => 28 | T_RSET => 29 | T_APPEND => 30 | T_ALL => 31
  | T_CALL => 32 | T_CHAIN => 33 | T_ELSE => 34 | T_END => 35
  | T_FOR => 36 | T_GOSUB => 37 | T_GOTO => 38 | T_IF => 39
  | T_NEXT => 40 | T_ON => 41 | T_RESUME => 42 | T_RETURN => 43
  | T_STEP => 44 | T_STOP => 45 | T_SYSTEM => 46 | T_CLS => 47
  | T_THEN => 48 | T_TO => 49 | T_WHILE => 50 | T_WEND => 51
  | T_BASE => 52 | T_CLEAR => 53 | T_COMMON => 54 | T_DATA => 55
  | T_DEF => 56 | T_DEFINT => 57 | T_DEFSNG => 58 | T_DEFDBL => 59
  | T_DEFSTR => 60 | T_DIM => 61 | T_ERASE => 62 | T_FN => 63
  | T_LET => 64 | T_OPTION => 65 | T_READ => 66 | T_RESTORE => 67
  | T_PRINT => 68 | T_LPRINT => 69 | T_WRITE => 70 | T_USING => 71
  | T_ERROR => 72 | T_ERR => 73 | T_ERL => 74 | T_FRE => 75
  | T_HELP => 76 | T_OUT => 77 | T_POKE => 78 | T_RANDOMIZE => 79
  | T_REM => 80 | T_REMARK => 81 | T_SWAP => 82 | T_TRON => 83
  | T_TROFF => 84 | T_WAIT => 85 | T_WIDTH => 86 | T_PLUS => 87
  | T_MINUS => 88 | T_MULTIPLY => 89 | T_DIVIDE => 90 | T_POWER => 91
  | T_BACKSLASH => 92 | T_MOD => 93 | T_EQUAL => 94 | T_NOT_EQUAL => 95
  | T_LESS_THAN => 96 | T_GREATER_THAN => 97 | T_LESS_EQUAL => 98 | T_GREATER_EQUAL => 99
  | T_NOT => 100 | T_AND => 101 | T_OR => 102 | T_XOR => 103
  | T_EQV => 104 | T_IMP => 105 | T_ABS => 106 | T_ATN => 107
  | T_CDBL => 108 | T_CINT => 109 | T_COS => 110 | T_CSNG => 111
  | T_CVD => 112 | T_CVI => 113 | T_CVS => 114 | T_EXP => 115
  | T_FIX => 116 | T_INT => 117 | T_LOG => 118 | T_RND => 119
  | T_SGN => 120 | T_SIN => 121 | T_SQR => 122 | T_TAN => 123
  | T_ASC => 124 | T_CHR => 125 | T_HEX => 126 | T_INKEY => 127
  | T_INPUT_FUNC => 128 | T_INSTR => 129 | T_LEFT => 130 | T_LEN => 131
  | T_MID => 132 | T_MKD => 133 | T_MKI => 134 | T_MKS => 135
  | T_OCT => 136 | T_RIGHT => 137 | T_SPACE => 138 | T_STR => 139
  | T_STRING_FUNC => 140 | T_VAL => 141 | T_DATE_FUNC => 142 | T_EOF_FUNC => 143
  | T_ENVIRON_FUNC => 144 | T_ERROR_FUNC => 145 | T_INP => 146 | T_LOC => 147
  | T_LOF => 148 | T_LPOS => 149 | T_PEEK => 150 | T_POS => 151
  | T_SPC => 152 | T_TAB => 153 | T_TIME_FUNC => 154 | T_TIMER => 155
  | T_USR => 156 | T_VARPTR => 157 | T_LPAREN => 158 | T_RPAREN => 159
  | T_COMMA => 160 | T_SEMICOLON => 161 | T_COLON => 162 | T_HASH => 163
  | T_AMPERSAND => 164 | T_NEWLINE => 165 | T_LINE_NUMBER => 166 | T_END_OF_FILE => 167
  | T_QUESTION => 168 | T_APOSTROPHE => 169
  end.

(** [==] on token types. *)
Definition token_eqb (a b : TokenType) : bool := token_code a =? token_code b.

(* ===================================================================== *)
(** * error.hpp                                                          *)
(* ===================================================================== *)

Module ErrorCode.
Definition NEXT_WITHOUT_FOR := 1.
Definition SYNTAX_ERROR := 2.
Definition RETURN_WITHOUT_GOSUB := 3.
Definition OUT_OF_DATA := 4.
Definition ILLEGAL_FUNCTION_CALL := 5.
Definition OVERFLOW_ERROR := 6.
Definition OUT_OF_MEMORY := 7.
Definition UNDEFINED_LINE := 8.
Definition SUBSCRIPT_OUT_OF_RANGE := 9.
Definition DUPLICATE_DEFINITION := 10.
Definition DIVISION_BY_ZERO := 11.
Definition ILLEGAL_DIRECT := 12.
Definition TYPE_MISMATCH := 13.
Definition OUT_OF_STRING_SPACE := 14.
Definition STRING_TOO_LONG := 15.
Definition UNDEFINED_USER_FUNCTION := 18.
Definition NO_RESUME := 19.
Definition RESUME_WITHOUT_ERROR := 20.
Definition FOR_WITHOUT_NEXT := 26.
Definition WHILE_WITHOUT_WEND := 29.
Definition WEND_WITHOUT_WHILE := 30.
Definition INTERNAL_ERROR := 51.
End ErrorCode.

(* ===================================================================== *)
(** * ast.hpp                                                            *)
(* ===================================================================== *)

(** Source positions ([line], [column], [original]) serve diagnostics
    only and are left out of the nodes. *)
Inductive Expr :=
| NumberExpr (value : double)
| StringExpr (value : string)
| VariableExpr (name : string) (type : VarType)
| BinaryExpr (op : TokenType) (left right : Expr)
| UnaryExpr (op : TokenType) (operand : Expr)
| FunctionCallExpr (name : string) (args : list Expr)
| ArrayAccessExpr (name : string) (indices : list Expr) (type : VarType).

(** [std::variant<VariableExpr, ArrayAccessExpr>] *)
Inductive LValue :=
| LVariable (name : string) (type : VarType)
| LArrayAccess (name : string) (indices : list Expr) (type : VarType).

Inductive ResumeType := RESUME_NEXT | RESUME_LINE | RESUME_IMPLICIT.

Record ArrayDecl := {
  decl_name : string;
  decl_dimensions : list Expr;
  decl_type : VarType
}.

(** The statements of the core that run without the console and file
    collaborators. *)
Inductive Stmt :=
| LetStmt (target : LValue) (expression : Expr)
| IfStmt (condition : Expr) (then_stmts : list Stmt) (then_line : option Z)
         (else_stmts : list Stmt) (else_line : option Z)
| ForStmt (variable : string) (start_expr end_expr : Expr) (step_expr : option Expr)
| NextStmt (variables : list string)
| WhileStmt (condition : Expr)
| WendStmt
| GotoStmt (target_line : Z)
| GosubStmt (target_line : Z)
| ReturnStmt (target_line : option Z)
| OnGotoStmt (selector : Expr) (targets : list Z)
| OnGosubStmt (selector : Expr) (targets : list Z)
| DataStmt (values : list Value)
| ReadStmt (variables : list LValue)
| RestoreStmt (target_line : option Z)
| DimStmt (arrays : list ArrayDecl)
| DefFnStmt (name : string) (params : list string) (body : Expr)
| DefTypeStmt
| EndStmt
| StopStmt
| RemStmt
| SwapStmt (var1 var2 : LValue)
| EraseStmt (arrays : list string)
| ClearStmt
| OptionBaseStmt (base : Z)
| TronStmt
| TroffStmt
| ErrorStmt (error_code : Expr)
| OnErrorStmt (target_line : option Z) (is_gosub : bool)
| ResumeStmt (resume_type : ResumeType) (target_line : option Z).

Record Line := {
  line_number : Z;
  line_statements : list Stmt;   (* [Line::statements] *)
  source_text : string
}.

Record Program := {
  lines : list Line;
  def_type_map_of : gmap ascii VarType
}.

(* ===================================================================== *)
(** * runtime.hpp: program counter, loop records, stack entries          *)
(* ===================================================================== *)

Inductive StopReason :=
| RUNNING | END | STOP | BREAKPOINT | ERROR | INPUT | BREAK.

#[global] Instance StopReason_eq_dec : EqDecision StopReason.
Proof. solve_decision. Defined.

Record PC := {
  pc_line : Z;
  pc_stmt : Z;
  pc_reason : StopReason
}.

Definition is_running (p : PC) : bool := bool_decide (pc_reason p = RUNNING).
Definition is_halted (p : PC) : bool := negb (is_running p).
Definition running_at (l s : Z) : PC := {| pc_line := l; pc_stmt := s; pc_reason := RUNNING |}.
Definition halted (r : StopReason) : PC := {| pc_line := 0; pc_stmt := 0; pc_reason := r |}.
Definition with_reason (r : StopReason) (p : PC) : PC :=
  {| pc_line := pc_line p; pc_stmt := pc_stmt p; pc_reason := r |}.

(** [PC::operator==] and [operator<] look at (line, stmt) only. *)
Definition pc_key (p : PC) : Z * Z := (pc_line p, pc_stmt p).

Record ForLoopState := {
  resume_pc : PC;
  end_value : double;
  step_value : double
}.

Inductive StackEntryType := GOSUB | WHILE.

#[global] Instance StackEntryType_eq_dec : EqDecision StackEntryType.
Proof. solve_decision. Defined.

Record StackEntry := {
  entry_type : StackEntryType;
  return_pc : PC;
  loop_pc : PC
}.

(** A default-constructed [PC]. *)
Definition PC_default : PC := {| pc_line := 0; pc_stmt := 0; pc_reason := RUNNING |}.

(* ===================================================================== *)
(** * runtime.cpp: StatementTable                                        *)
(* ===================================================================== *)

Record StatementTable := {
  table_ : gmap (Z * Z) Stmt;        (* (line, stmt) -> statement *)
  line_first_stmt_ : gmap Z Z;       (* line -> first statement offset *)
  line_numbers_ : list Z;            (* ordered list of line numbers *)
  line_text_ : gmap Z string
}.

Definition StatementTable_empty : StatementTable :=
  {| table_ := ∅; line_first_stmt_ := ∅; line_numbers_ := []; line_text_ := ∅ |}.

(** The inner loop of [build]: [table_[{line_num, i}] = &line.statements[i]]. *)
Fixpoint add_statements (line_num : Z) (i : Z) (stmts : list Stmt)
    (t : gmap (Z * Z) Stmt) : gmap (Z * Z) Stmt :=
  match stmts with
  | [] => t
  | s :: rest => add_statements line_num (i + 1) rest (<[(line_num, i) := s]> t)
  end.

Definition build_line (st : StatementTable) (line : Line) : StatementTable :=
  let line_num := line_number line in
  {| table_ := add_statements line_num 0 (line_statements line) (table_ st);
     line_first_stmt_ := <[line_num := 0]> (line_first_stmt_ st);
     line_numbers_ := line_numbers_ st ++ [line_num];
     line_text_ := <[line_num := source_text line]> (line_text_ st) |}.

Definition build (program : Program) : StatementTable :=
  let st := foldl build_line StatementTable_empty (lines program) in
  {| table_ := table_ st;
     line_first_stmt_ := line_first_stmt_ st;
     line_numbers_ := merge_sort Z.le (line_numbers_ st);
     line_text_ := line_text_ st |}.

Definition get (st : StatementTable) (p : PC) : option Stmt :=
  table_ st !! (pc_line p, pc_stmt p).

Definition first (st : StatementTable) : PC :=
  match line_numbers_ st with
  | [] => halted END
  | l :: _ => running_at l 0
  end.

(** [std::upper_bound] on the ordered line numbers: the first element
    greater than [x]. *)
Definition upper_bound (x : Z) (l : list Z) : option Z :=
  List.find (fun y => x <? y) l.

Definition next (st : StatementTable) (current : PC) : PC :=
  match table_ st !! (pc_line current, pc_stmt current + 1) with
  | Some _ => running_at (pc_line current) (pc_stmt current + 1)
  | None =>
      match upper_bound (pc_line current) (line_numbers_ st) with
      | None => halted END
      | Some l => running_at l 0
      end
  end.

Definition find_line (st : StatementTable) (line_num : Z) : PC :=
  match line_first_stmt_ st !! line_num with
  | None => halted ERROR
  | Some s => running_at line_num s
  end.

Definition valid (st : StatementTable) (p : PC) : bool :=
  bool_decide (is_Some (table_ st !! (pc_line p, pc_stmt p))).

(* ===================================================================== *)
(** * runtime.hpp: Runtime                                               *)
(* ===================================================================== *)

Record ArrayData := {
  arr_dimensions : list Z;
  arr_data : list Value;
  arr_type : VarType
}.

Record DefFn := {
  fn_params : list string;
  fn_body : Expr
}.

Record FieldBuffer := {
  fb_buffer : list ascii;
  fb_fields : gmap string (Z * Z);
  fb_current_record : Z
}.

(** What makes a C++ evaluation undefined in the code embedded here. *)
Inductive UBKind :=
| DivideByZero     (* integer [/] or [%] with a zero divisor *)
| IntOverflow      (* an [int] result outside the type: [INT_MIN / -1], [dim + 1] *)
| FloatToInt       (* conversion of an unrepresentable floating value *)
| OutOfBounds      (* [operator[]] outside a vector *)
| NoProgress.      (* a scan loop that never leaves the program *)

(** How a call returns: normally, by a [RuntimeError] with its error code
    (which the tick loop catches; the message text serves diagnostics
    only and is left out), by another C++ exception that nothing in the
    interpreter catches ([std::bad_variant_access], [std::length_error]),
    or not at all because the behaviour is undefined. *)
Inductive Res (A : Type) :=
| Ok (a : A)
| Throw (code : Z)
| Abort
| Undefined (why : UBKind).

Arguments Ok {A} a.
Arguments Throw {A} code.
Arguments Abort {A}.
Arguments Undefined {A} why.

(** [std::isalpha] and [std::tolower] in the C locale. *)
Definition is_alpha (c : ascii) : bool :=
  let n := Z.of_nat (nat_of_ascii c) in
  ((65 <=? n) && (n <=? 90)) || ((97 <=? n) && (n <=? 122)).

Fixpoint string_back (s : string) : option ascii :=
  match s with
  | EmptyString => None
  | String c EmptyString => Some c
  | String _ s' => string_back s'
  end.

(** The map built by the constructors of [Runtime], [Parser] and
    [Program]: every letter is SINGLE. *)
Definition all_single : gmap ascii VarType :=
  list_to_map ((fun n => (ascii_of_nat n, SINGLE)) <$> seq 97 26).

(** [sizeof(Value)]-dependent bound of [std::vector<Value>::resize]
    (LP64, 40-byte variant): larger requests throw [std::length_error]. *)
Definition vector_max_size : Z := 2 ^ 63 `div` 40.

(** [std::allocator<Value>]: whether a request for [n] elements is
    granted.  A refused request throws [std::bad_alloc]; which requests
    are refused depends on the machine, not on the program. *)
Class Allocator := allocates : Z -> bool.

Definition INT_MIN : Z := - 2 ^ 31.
Definition INT_MAX : Z := 2 ^ 31 - 1.

(** The value of an [int] expression whose mathematical value is [z];
    [None] when it is outside the type (signed overflow is undefined). *)
Definition int_of (z : Z) : option Z :=
  if (INT_MIN <=? z) && (z <=? INT_MAX) then Some z else None.

(** [size_t] arithmetic is modulo 2^64. *)
Definition wrap_size_t (z : Z) : Z := z `mod` 2 ^ 64.

Section Interp.

(** The two containers whose iteration order the code observes. *)
Context {UF : UnorderedMap string ForLoopState} {UD : UnorderedMap Z Z}.

(** The allocator behind the array vectors. *)
Context {AL : Allocator}.

#[projections(primitive)] Record Runtime := {
  variables_ : gmap string Value;  (* scalar store *)
  arrays_ : gmap string ArrayData;  (* array store *)
  pc : PC;  (* current program counter *)
  next_pc : option PC;  (* jump target set by the statement *)
  statements : StatementTable;
  exec_stack : list StackEntry;  (* GOSUB/WHILE stack, the top is the last element *)
  for_states : umap string ForLoopState;
  data_values : list Value;
  data_ptr : Z;
  data_line_map : umap Z Z;  (* line -> first data index *)
  user_functions : gmap string DefFn;
  files : gmap Z bool;  (* open flag of each stream *)
  field_buffers : gmap Z FieldBuffer;
  error_handler_line : option Z;
  error_handler_is_gosub : bool;
  last_error_code : Z;
  last_error_line : Z;
  error_pc : option PC;
  array_base : Z;
  trace_on : bool;
  breakpoints : gset (Z * Z);
  break_requested : bool;
  direct_mode : bool;
  def_type_map : gmap ascii VarType
}.

(** Field updates. *)
Definition set_variables_ (v : gmap string Value) (r : Runtime) : Runtime :=
  {| variables_ := v; arrays_ := arrays_ r; pc := pc r; next_pc := next_pc r; statements :=
  statements r; exec_stack := exec_stack r; for_states := for_states r; data_values :=
  data_values r; data_ptr := data_ptr r; data_line_map := data_line_map r; user_functions :=
  user_functions r; files := files r; field_buffers := field_buffers r; error_handler_line :=
  error_handler_line r; error_handler_is_gosub := error_handler_is_gosub r; last_error_code :=
  last_error_code r; last_error_line := last_error_line r; error_pc := error_pc r; array_base
  := array_base r; trace_on := trace_on r; breakpoints := breakpoints r; break_requested :=
  break_requested r; direct_mode := direct_mode r; def_type_map := def_type_map r |}.
Definition set_arrays_ (v : gmap string ArrayData) (r : Runtime) : Runtime :=
  {| variables_ := variables_ r; arrays_ := v; pc := pc r; next_pc := next_pc r; statements :=
  statements r; exec_stack := exec_stack r; for_states := for_states r; data_values :=
  data_values r; data_ptr := data_ptr r; data_line_map := data_line_map r; user_functions :=
  user_functions r; files := files r; field_buffers := field_buffers r; error_handler_line :=
  error_handler_line r; error_handler_is_gosub := error_handler_is_gosub r; last_error_code :=
  last_error_code r; last_error_line := last_error_line r; error_pc := error_pc r; array_base
  := array_base r; trace_on := trace_on r; breakpoints := breakpoints r; break_requested :=
  break_requested r; direct_mode := direct_mode r; def_type_map := def_type_map r |}.
Definition set_pc (v : PC) (r : Runtime) : Runtime :=
  {| variables_ := variables_ r; arrays_ := arrays_ r; pc := v; next_pc := next_pc r;
  statements := statements r; exec_stack := exec_stack r; for_states := for_states r;
  data_values := data_values r; data_ptr := data_ptr r; data_line_map := data_line_map r;
  user_functions := user_functions r; files := files r; field_buffers := field_buffers r;
  error_handler_line := error_handler_line r; error_handler_is_gosub := error_handler_is_gosub
  r; last_error_code := last_error_code r; last_error_line := last_error_line r; error_pc :=
  error_pc r; array_base := array_base r; trace_on := trace_on r; breakpoints := breakpoints
  r; break_requested := break_requested r; direct_mode := direct_mode r; def_type_map :=
  def_type_map r |}.
Definition set_next_pc (v : option PC) (r : Runtime) : Runtime :=
  {| variables_ := variables_ r; arrays_ := arrays_ r; pc := pc r; next_pc := v; statements :=
  statements r; exec_stack := exec_stack r; for_states := for_states r; data_values :=
  data_values r; data_ptr := data_ptr r; data_line_map := data_line_map r; user_functions :=
  user_functions r; files := files r; field_buffers := field_buffers r; error_handler_line :=
  error_handler_line r; error_handler_is_gosub := error_handler_is_gosub r; last_error_code :=
  last_error_code r; last_error_line := last_error_line r; error_pc := error_pc r; array_base
  := array_base r; trace_on := trace_on r; breakpoints := breakpoints r; break_requested :=
  break_requested r; direct_mode := direct_mode r; def_type_map := def_type_map r |}.
Definition set_statements (v : StatementTable) (r : Runtime) : Runtime :=
  {| variables_ := variables_ r; arrays_ := arrays_ r; pc := pc r; next_pc := next_pc r;
  statements := v; exec_stack := exec_stack r; for_states := for_states r; data_values :=
  data_values r; data_ptr := data_ptr r; data_line_map := data_line_map r; user_functions :=
  user_functions r; files := files r; field_buffers := field_buffers r; error_handler_line :=
  error_handler_line r; error_handler_is_gosub := error_handler_is_gosub r; last_error_code :=
  last_error_code r; last_error_line := last_error_line r; error_pc := error_pc r; array_base
  := array_base r; trace_on := trace_on r; breakpoints := breakpoints r; break_requested :=
  break_requested r; direct_mode := direct_mode r; def_type_map := def_type_map r |}.
Definition set_exec_stack (v : list StackEntry) (r : Runtime) : Runtime :=
  {| variables_ := variables_ r; arrays_ := arrays_ r; pc := pc r; next_pc := next_pc r;
  statements := statements r; exec_stack := v; for_states := for_states r; data_values :=
  data_values r; data_ptr := data_ptr r; data_line_map := data_line_map r; user_functions :=
  user_functions r; files := files r; field_buffers := field_buffers r; error_handler_line :=
  error_handler_line r; error_handler_is_gosub := error_handler_is_gosub r; last_error_code :=
  last_error_code r; last_error_line := last_error_line r; error_pc := error_pc r; array_base
  := array_base r; trace_on := trace_on r; breakpoints := breakpoints r; break_requested :=
  break_requested r; direct_mode := direct_mode r; def_type_map := def_type_map r |}.
Definition set_for_states (v : umap string ForLoopState) (r : Runtime) : Runtime :=
  {| variables_ := variables_ r; arrays_ := arrays_ r; pc := pc r; next_pc := next_pc r;
  statements := statements r; exec_stack := exec_stack r; for_states := v; data_values :=
  data_values r; data_ptr := data_ptr r; data_line_map := data_line_map r; user_functions :=
  user_functions r; files := files r; field_buffers := field_buffers r; error_handler_line :=
  error_handler_line r; error_handler_is_gosub := error_handler_is_gosub r; last_error_code :=
  last_error_code r; last_error_line := last_error_line r; error_pc := error_pc r; array_base
  := array_base r; trace_on := trace_on r; breakpoints := breakpoints r; break_requested :=
  break_requested r; direct_mode := direct_mode r; def_type_map := def_type_map r |}.
Definition set_data_values (v : list Value) (r : Runtime) : Runtime :=
  {| variables_ := variables_ r; arrays_ := arrays_ r; pc := pc r; next_pc := next_pc r;
  statements := statements r; exec_stack := exec_stack r; for_states := for_states r;
  data_values := v; data_ptr := data_ptr r; data_line_map := data_line_map r; user_functions
  := user_functions r; files := files r; field_buffers := field_buffers r; error_handler_line
  := error_handler_line r; error_handler_is_gosub := error_handler_is_gosub r; last_error_code
  := last_error_code r; last_error_line := last_error_line r; error_pc := error_pc r;
  array_base := array_base r; trace_on := trace_on r; breakpoints := breakpoints r;
  break_requested := break_requested r; direct_mode := direct_mode r; def_type_map :=
  def_type_map r |}.
Definition set_data_ptr (v : Z) (r : Runtime) : Runtime :=
  {| variables_ := variables_ r; arrays_ := arrays_ r; pc := pc r; next_pc := next_pc r;
  statements := statements r; exec_stack := exec_stack r; for_states := for_states r;
  data_values := data_values r; data_ptr := v; data_line_map := data_line_map r;
  user_functions := user_functions r; files := files r; field_buffers := field_buffers r;
  error_handler_line := error_handler_line r; error_handler_is_gosub := error_handler_is_gosub
  r; last_error_code := last_error_code r; last_error_line := last_error_line r; error_pc :=
  error_pc r; array_base := array_base r; trace_on := trace_on r; breakpoints := breakpoints
  r; break_requested := break_requested r; direct_mode := direct_mode r; def_type_map :=
  def_type_map r |}.
Definition set_data_line_map (v : umap Z Z) (r : Runtime) : Runtime :=
  {| variables_ := variables_ r; arrays_ := arrays_ r; pc := pc r; next_pc := next_pc r;
  statements := statements r; exec_stack := exec_stack r; for_states := for_states r;
  data_values := data_values r; data_ptr := data_ptr r; data_line_map := v; user_functions :=
  user_functions r; files := files r; field_buffers := field_buffers r; error_handler_line :=
  error_handler_line r; error_handler_is_gosub := error_handler_is_gosub r; last_error_code :=
  last_error_code r; last_error_line := last_error_line r; error_pc := error_pc r; array_base
  := array_base r; trace_on := trace_on r; breakpoints := breakpoints r; break_requested :=
  break_requested r; direct_mode := direct_mode r; def_type_map := def_type_map r |}.
Definition set_user_functions (v : gmap string DefFn) (r : Runtime) : Runtime :=
  {| variables_ := variables_ r; arrays_ := arrays_ r; pc := pc r; next_pc := next_pc r;
  statements := statements r; exec_stack := exec_stack r; for_states := for_states r;
  data_values := data_values r; data_ptr := data_ptr r; data_line_map := data_line_map r;
  user_functions := v; files := files r; field_buffers := field_buffers r; error_handler_line
  := error_handler_line r; error_handler_is_gosub := error_handler_is_gosub r; last_error_code
  := last_error_code r; last_error_line := last_error_line r; error_pc := error_pc r;
  array_base := array_base r; trace_on := trace_on r; breakpoints := breakpoints r;
  break_requested := break_requested r; direct_mode := direct_mode r; def_type_map :=
  def_type_map r |}.
Definition set_files (v : gmap Z bool) (r : Runtime) : Runtime :=
  {| variables_ := variables_ r; arrays_ := arrays_ r; pc := pc r; next_pc := next_pc r;
  statements := statements r; exec_stack := exec_stack r; for_states := for_states r;
  data_values := data_values r; data_ptr := data_ptr r; data_line_map := data_line_map r;
  user_functions := user_functions r; files := v; field_buffers := field_buffers r;
  error_handler_line := error_handler_line r; error_handler_is_gosub := error_handler_is_gosub
  r; last_error_code := last_error_code r; last_error_line := last_error_line r; error_pc :=
  error_pc r; array_base := array_base r; trace_on := trace_on r; breakpoints := breakpoints
  r; break_requested := break_requested r; direct_mode := direct_mode r; def_type_map :=
  def_type_map r |}.
Definition set_field_buffers (v : gmap Z FieldBuffer) (r : Runtime) : Runtime :=
  {| variables_ := variables_ r; arrays_ := arrays_ r; pc := pc r; next_pc := next_pc r;
  statements := statements r; exec_stack := exec_stack r; for_states := for_states r;
  data_values := data_values r; data_ptr := data_ptr r; data_line_map := data_line_map r;
  user_functions := user_functions r; files := files r; field_buffers := v; error_handler_line
  := error_handler_line r; error_handler_is_gosub := error_handler_is_gosub r; last_error_code
  := last_error_code r; last_error_line := last_error_line r; error_pc := error_pc r;
  array_base := array_base r; trace_on := trace_on r; breakpoints := breakpoints r;
  break_requested := break_requested r; direct_mode := direct_mode r; def_type_map :=
  def_type_map r |}.
Definition set_error_handler_line (v : option Z) (r : Runtime) : Runtime :=
  {| variables_ := variables_ r; arrays_ := arrays_ r; pc := pc r; next_pc := next_pc r;
  statements := statements r; exec_stack := exec_stack r; for_states := for_states r;
  data_values := data_values r; data_ptr := data_ptr r; data_line_map := data_line_map r;
  user_functions := user_functions r; files := files r; field_buffers := field_buffers r;
  error_handler_line := v; error_handler_is_gosub := error_handler_is_gosub r; last_error_code
  := last_error_code r; last_error_line := last_error_line r; error_pc := error_pc r;
  array_base := array_base r; trace_on := trace_on r; breakpoints := breakpoints r;
  break_requested := break_requested r; direct_mode := direct_mode r; def_type_map :=
  def_type_map r |}.
Definition set_error_handler_is_gosub (v : bool) (r : Runtime) : Runtime :=
  {| variables_ := variables_ r; arrays_ := arrays_ r; pc := pc r; next_pc := next_pc r;
  statements := statements r; exec_stack := exec_stack r; for_states := for_states r;
  data_values := data_values r; data_ptr := data_ptr r; data_line_map := data_line_map r;
  user_functions := user_functions r; files := files r; field_buffers := field_buffers r;
  error_handler_line := error_handler_line r; error_handler_is_gosub := v; last_error_code :=
  last_error_code r; last_error_line := last_error_line r; error_pc := error_pc r; array_base
  := array_base r; trace_on := trace_on r; breakpoints := breakpoints r; break_requested :=
  break_requested r; direct_mode := direct_mode r; def_type_map := def_type_map r |}.
Definition set_last_error_code (v : Z) (r : Runtime) : Runtime :=
  {| variables_ := variables_ r; arrays_ := arrays_ r; pc := pc r; next_pc := next_pc r;
  statements := statements r; exec_stack := exec_stack r; for_states := for_states r;
  data_values := data_values r; data_ptr := data_ptr r; data_line_map := data_line_map r;
  user_functions := user_functions r; files := files r; field_buffers := field_buffers r;
  error_handler_line := error_handler_line r; error_handler_is_gosub := error_handler_is_gosub
  r; last_error_code := v; last_error_line := last_error_line r; error_pc := error_pc r;
  array_base := array_base r; trace_on := trace_on r; breakpoints := breakpoints r;
  break_requested := break_requested r; direct_mode := direct_mode r; def_type_map :=
  def_type_map r |}.
Definition set_last_error_line (v : Z) (r : Runtime) : Runtime :=
  {| variables_ := variables_ r; arrays_ := arrays_ r; pc := pc r; next_pc := next_pc r;
  statements := statements r; exec_stack := exec_stack r; for_states := for_states r;
  data_values := data_values r; data_ptr := data_ptr r; data_line_map := data_line_map r;
  user_functions := user_functions r; files := files r; field_buffers := field_buffers r;
  error_handler_line := error_handler_line r; error_handler_is_gosub := error_handler_is_gosub
  r; last_error_code := last_error_code r; last_error_line := v; error_pc := error_pc r;
  array_base := array_base r; trace_on := trace_on r; breakpoints := breakpoints r;
  break_requested := break_requested r; direct_mode := direct_mode r; def_type_map :=
  def_type_map r |}.
Definition set_error_pc (v : option PC) (r : Runtime) : Runtime :=
  {| variables_ := variables_ r; arrays_ := arrays_ r; pc := pc r; next_pc := next_pc r;
  statements := statements r; exec_stack := exec_stack r; for_states := for_states r;
  data_values := data_values r; data_ptr := data_ptr r; data_line_map := data_line_map r;
  user_functions := user_functions r; files := files r; field_buffers := field_buffers r;
  error_handler_line := error_handler_line r; error_handler_is_gosub := error_handler_is_gosub
  r; last_error_code := last_error_code r; last_error_line := last_error_line r; error_pc :=
  v; array_base := array_base r; trace_on := trace_on r; breakpoints := breakpoints r;
  break_requested := break_requested r; direct_mode := direct_mode r; def_type_map :=
  def_type_map r |}.
Definition set_array_base (v : Z) (r : Runtime) : Runtime :=
  {| variables_ := variables_ r; arrays_ := arrays_ r; pc := pc r; next_pc := next_pc r;
  statements := statements r; exec_stack := exec_stack r; for_states := for_states r;
  data_values := data_values r; data_ptr := data_ptr r; data_line_map := data_line_map r;
  user_functions := user_functions r; files := files r; field_buffers := field_buffers r;
  error_handler_line := error_handler_line r; error_handler_is_gosub := error_handler_is_gosub
  r; last_error_code := last_error_code r; last_error_line := last_error_line r; error_pc :=
  error_pc r; array_base := v; trace_on := trace_on r; breakpoints := breakpoints r;
  break_requested := break_requested r; direct_mode := direct_mode r; def_type_map :=
  def_type_map r |}.
Definition set_trace_on (v : bool) (r : Runtime) : Runtime :=
  {| variables_ := variables_ r; arrays_ := arrays_ r; pc := pc r; next_pc := next_pc r;
  statements := statements r; exec_stack := exec_stack r; for_states := for_states r;
  data_values := data_values r; data_ptr := data_ptr r; data_line_map := data_line_map r;
  user_functions := user_functions r; files := files r; field_buffers := field_buffers r;
  error_handler_line := error_handler_line r; error_handler_is_gosub := error_handler_is_gosub
  r; last_error_code := last_error_code r; last_error_line := last_error_line r; error_pc :=
  error_pc r; array_base := array_base r; trace_on := v; breakpoints := breakpoints r;
  break_requested := break_requested r; direct_mode := direct_mode r; def_type_map :=
  def_type_map r |}.
Definition set_breakpoints (v : gset (Z * Z)) (r : Runtime) : Runtime :=
  {| variables_ := variables_ r; arrays_ := arrays_ r; pc := pc r; next_pc := next_pc r;
  statements := statements r; exec_stack := exec_stack r; for_states := for_states r;
  data_values := data_values r; data_ptr := data_ptr r; data_line_map := data_line_map r;
  user_functions := user_functions r; files := files r; field_buffers := field_buffers r;
  error_handler_line := error_handler_line r; error_handler_is_gosub := error_handler_is_gosub
  r; last_error_code := last_error_code r; last_error_line := last_error_line r; error_pc :=
  error_pc r; array_base := array_base r; trace_on := trace_on r; breakpoints := v;
  break_requested := break_requested r; direct_mode := direct_mode r; def_type_map :=
  def_type_map r |}.
Definition set_break_requested (v : bool) (r : Runtime) : Runtime :=
  {| variables_ := variables_ r; arrays_ := arrays_ r; pc := pc r; next_pc := next_pc r;
  statements := statements r; exec_stack := exec_stack r; for_states := for_states r;
  data_values := data_values r; data_ptr := data_ptr r; data_line_map := data_line_map r;
  user_functions := user_functions r; files := files r; field_buffers := field_buffers r;
  error_handler_line := error_handler_line r; error_handler_is_gosub := error_handler_is_gosub
  r; last_error_code := last_error_code r; last_error_line := last_error_line r; error_pc :=
  error_pc r; array_base := array_base r; trace_on := trace_on r; breakpoints := breakpoints
  r; break_requested := v; direct_mode := direct_mode r; def_type_map := def_type_map r |}.
Definition set_direct_mode (v : bool) (r : Runtime) : Runtime :=
  {| variables_ := variables_ r; arrays_ := arrays_ r; pc := pc r; next_pc := next_pc r;
  statements := statements r; exec_stack := exec_stack r; for_states := for_states r;
  data_values := data_values r; data_ptr := data_ptr r; data_line_map := data_line_map r;
  user_functions := user_functions r; files := files r; field_buffers := field_buffers r;
  error_handler_line := error_handler_line r; error_handler_is_gosub := error_handler_is_gosub
  r; last_error_code := last_error_code r; last_error_line := last_error_line r; error_pc :=
  error_pc r; array_base := array_base r; trace_on := trace_on r; breakpoints := breakpoints
  r; break_requested := break_requested r; direct_mode := v; def_type_map := def_type_map r
  |}.
Definition set_def_type_map (v : gmap ascii VarType) (r : Runtime) : Runtime :=
  {| variables_ := variables_ r; arrays_ := arrays_ r; pc := pc r; next_pc := next_pc r;
  statements := statements r; exec_stack := exec_stack r; for_states := for_states r;
  data_values := data_values r; data_ptr := data_ptr r; data_line_map := data_line_map r;
  user_functions := user_functions r; files := files r; field_buffers := field_buffers r;
  error_handler_line := error_handler_line r; error_handler_is_gosub := error_handler_is_gosub
  r; last_error_code := last_error_code r; last_error_line := last_error_line r; error_pc :=
  error_pc r; array_base := array_base r; trace_on := trace_on r; breakpoints := breakpoints
  r; break_requested := break_requested r; direct_mode := direct_mode r; def_type_map := v |}.

(** [Runtime::Runtime()] *)
Definition Runtime_new : Runtime :=
  {| variables_ := <["erl%" := VInteger 0]> (<["err%" := VInteger 0]> ∅);
     arrays_ := ∅;
     pc := PC_default;
     next_pc := None;
     statements := StatementTable_empty;
     exec_stack := [];
     for_states := um_empty;
     data_values := [];
     data_ptr := 0;
     data_line_map := um_empty;
     user_functions := ∅;
     files := ∅;
     field_buffers := ∅;
     error_handler_line := None;
     error_handler_is_gosub := false;
     last_error_code := 0;
     last_error_line := 0;
     error_pc := None;
     array_base := 0;
     trace_on := false;
     breakpoints := ∅;
     break_requested := false;
     direct_mode := false;
     def_type_map := all_single |}.

(** ** Helpers *)

Definition resolve_type (rt : Runtime) (name : string) : VarType :=
  let by_letter :=
    match name with
    | String c _ =>
        if is_alpha c then
          match def_type_map rt !! to_lower_char c with
          | Some t => t
          | None => SINGLE
          end
        else SINGLE
    | EmptyString => SINGLE
    end in
  match string_back name with
  | Some "%"%char => INTEGER
  | Some "!"%char => SINGLE
  | Some "#"%char => DOUBLE
  | Some "$"%char => STRING
  | _ => by_letter
  end.

Definition default_for_type (t : VarType) : Value := default_value t.

(** ** Variable access *)

Definition get_variable (rt : Runtime) (name : string) : Value :=
  match variables_ rt !! name with
  | Some v => v
  | None => default_for_type (resolve_type rt name)
  end.

(** [None]: the coercion is undefined (a NaN stored to an integer
    variable). *)
Definition set_variable (name : string) (value : Value) (rt : Runtime) : option Runtime :=
  v ← coerce_to value (resolve_type rt name);
  Some (set_variables_ (<[name := v]> (variables_ rt)) rt).


(** ** DATA / READ *)

Definition collect_stmt (line_num : Z) (acc : list Value * umap Z Z) (s : Stmt)
    : list Value * umap Z Z :=
  match s with
  | DataStmt values =>
      let start_idx := Z.of_nat (length acc.1) in
      (acc.1 ++ values, um_assign line_num start_idx acc.2)
  | _ => acc
  end.

Definition collect_line (acc : list Value * umap Z Z) (line : Line)
    : list Value * umap Z Z :=
  foldl (collect_stmt (line_number line)) acc (line_statements line).

Definition collect_data (program : Program) (rt : Runtime) : Runtime :=
  let acc := foldl collect_line ([], um_empty) (lines program) in
  set_data_ptr 0 (set_data_line_map acc.2 (set_data_values acc.1 rt)).

Definition read_data (rt : Runtime) : Runtime * Res Value :=
  if Z.of_nat (length (data_values rt)) <=? data_ptr rt
  then (rt, Throw ErrorCode.OUT_OF_DATA)
  else
    match data_values rt !! Z.to_nat (data_ptr rt) with
    | Some v => (set_data_ptr (data_ptr rt + 1) rt, Ok v)
    | None => (rt, Undefined OutOfBounds)
    end.

Definition restore_data (line : option Z) (rt : Runtime) : Runtime :=
  match line with
  | None => set_data_ptr 0 rt
  | Some l =>
      match um_find l (data_line_map rt) with
      | Some idx => set_data_ptr idx rt
      | None =>
          (* first entry, in iteration order, at or after the line *)
          match List.find (fun kv => l <=? kv.1) (um_items (data_line_map rt)) with
          | Some (_, idx) => set_data_ptr idx rt
          | None => set_data_ptr (Z.of_nat (length (data_values rt))) rt
          end
      end
  end.

(** ** Array access *)

(** [dim + 1 - array_base], an [int] expression. *)
Definition dim_extent (base dim : Z) : option Z :=
  s ← int_of (dim + 1); int_of (s - base).

(** The loop [total *= (dim + 1 - array_base)]: each factor is an
    [int], converted to [size_t] for the product, which wraps. *)
Fixpoint array_total_from (base : Z) (dimensions : list Z) (total : Z) : option Z :=
  match dimensions with
  | [] => Some total
  | dim :: rest =>
      e ← dim_extent base dim;
      array_total_from base rest (wrap_size_t (total * wrap_size_t e))
  end.

Definition array_total (base : Z) (dimensions : list Z) : option Z :=
  array_total_from base dimensions 1.

(** [resize] throws [std::length_error] above [max_size()] and
    [std::bad_alloc] when the allocator refuses the request; nothing
    catches either, and the array store is not touched before. *)
Definition dim_array (name : string) (dimensions : list Z) (type : VarType)
    (rt : Runtime) : Runtime * Res unit :=
  match arrays_ rt !! name with
  | Some _ =>
      (rt, Throw ErrorCode.DUPLICATE_DEFINITION)
  | None =>
      match array_total (array_base rt) dimensions with
      | None => (rt, Undefined IntOverflow)
      | Some total =>
          if vector_max_size <? total then (rt, Abort)
          else if (0 <? total) && negb (allocates total) then (rt, Abort)
          else
            let arr := {| arr_dimensions := dimensions;
                          arr_data := replicate (Z.to_nat total) (default_for_type type);
                          arr_type := type |} in
            (set_arrays_ (<[name := arr]> (arrays_ rt)) rt, Ok tt)
      end
  end.

Definition erase_array (name : string) (rt : Runtime) : Runtime :=
  set_arrays_ (delete name (arrays_ rt)) rt.

Definition has_array (rt : Runtime) (name : string) : bool :=
  bool_decide (is_Some (arrays_ rt !! name)).

(** The loop of [array_index], from the last subscript to the first;
    the two lists are given reversed.  [index] and [dim] are [int]s,
    [idx] and [multiplier] are [size_t] and wrap. *)
Fixpoint array_index_loop (base : Z) (rev_indices rev_dims : list Z)
    (idx multiplier : Z) : Res Z :=
  match rev_indices, rev_dims with
  | i :: is', d :: ds' =>
      match int_of (i - base), dim_extent base d with
      | Some index, Some dim =>
          if (index <? 0) || (dim <=? index)
          then Throw ErrorCode.SUBSCRIPT_OUT_OF_RANGE
          else array_index_loop base is' ds'
                 (wrap_size_t (idx + wrap_size_t (index * multiplier)))
                 (wrap_size_t (multiplier * dim))
      | _, _ => Undefined IntOverflow
      end
  | _, _ => Ok idx
  end.

Definition array_index (rt : Runtime) (arr : ArrayData) (indices : list Z) : Res Z :=
  if negb (length indices =? length (arr_dimensions arr))%nat
  then Throw ErrorCode.SUBSCRIPT_OUT_OF_RANGE
  else array_index_loop (array_base rt) (rev indices) (rev (arr_dimensions arr)) 0 1.

(** The first half of [get_array] and [set_array]: dimension the array
    to 10 per subscript when it does not exist yet. *)
Definition auto_dim (name : string) (indices : list Z) (rt : Runtime)
    : Runtime * Res ArrayData :=
  match arrays_ rt !! name with
  | Some arr => (rt, Ok arr)
  | None =>
      let dims := replicate (length indices) 10 in
      match dim_array name dims (resolve_type rt name) rt with
      | (rt', Ok _) =>
          match arrays_ rt' !! name with
          | Some arr => (rt', Ok arr)
          | None => (rt', Undefined OutOfBounds)
          end
      | (rt', Throw c) => (rt', Throw c)
      | (rt', Abort) => (rt', Abort)
      | (rt', Undefined k) => (rt', Undefined k)
      end
  end.

Definition get_array (name : string) (indices : list Z) (rt : Runtime)
    : Runtime * Res Value :=
  match auto_dim name indices rt with
  | (rt', Ok arr) =>
      match array_index rt' arr indices with
      | Ok idx =>
          match arr_data arr !! Z.to_nat idx with
          | Some v => (rt', Ok v)
          | None => (rt', Undefined OutOfBounds)
          end
      | Throw c => (rt', Throw c)
      | Abort => (rt', Abort)
      | Undefined k => (rt', Undefined k)
      end
  | (rt', Throw c) => (rt', Throw c)
  | (rt', Abort) => (rt', Abort)
  | (rt', Undefined k) => (rt', Undefined k)
  end.

Definition set_array (name : string) (indices : list Z) (value : Value) (rt : Runtime)
    : Runtime * Res unit :=
  match auto_dim name indices rt with
  | (rt', Ok arr) =>
      match array_index rt' arr indices with
      | Ok idx =>
          match coerce_to value (arr_type arr) with
          | Some v =>
              if (Z.to_nat idx <? length (arr_data arr))%nat then
                let arr' := {| arr_dimensions := arr_dimensions arr;
                               arr_data := <[Z.to_nat idx := v]> (arr_data arr);
                               arr_type := arr_type arr |} in
                (set_arrays_ (<[name := arr']> (arrays_ rt')) rt', Ok tt)
              else (rt', Undefined OutOfBounds)
          | None => (rt', Undefined FloatToInt)
          end
      | Throw c => (rt', Throw c)
      | Abort => (rt', Abort)
      | Undefined k => (rt', Undefined k)
      end
  | (rt', Throw c) => (rt', Throw c)
  | (rt', Abort) => (rt', Abort)
  | (rt', Undefined k) => (rt', Undefined k)
  end.

(** ** load, reset, clear *)

(** Registers every DEF FN under its name; a later one replaces an
    earlier one. *)
Definition collect_functions (program : Program) : gmap string DefFn :=
  foldl (fun m line =>
           foldl (fun m s =>
                    match s with
                    | DefFnStmt name params body =>
                        <[name := {| fn_params := params; fn_body := body |}]> m
                    | _ => m
                    end) m (line_statements line))
        ∅ (lines program).

Definition load (program : Program) (rt : Runtime) : Runtime :=
  let rt := set_def_type_map (def_type_map_of program) rt in
  let rt := set_statements (build program) rt in
  let rt := collect_data program rt in
  let rt := set_user_functions (collect_functions program) rt in
  set_pc (first (statements rt)) rt.

(** [variables_[name]] as an rvalue: a missing entry is created with a
    value-initialised [Value], which is [int16_t{0}]. *)
Definition variables_at (rt : Runtime) (name : string) : Value :=
  default (VInteger 0) (variables_ rt !! name).

Definition reset (rt : Runtime) : Runtime :=
  let err := variables_at rt "err%" in
  let erl := variables_at rt "erl%" in
  let rt := set_variables_ (<["erl%" := erl]> (<["err%" := err]> ∅)) rt in
  let rt := set_arrays_ ∅ rt in
  let rt := set_pc (first (statements rt)) rt in
  let rt := set_next_pc None rt in
  let rt := set_exec_stack [] rt in
  let rt := set_for_states um_empty rt in
  let rt := set_data_ptr 0 rt in
  let rt := set_array_base 0 rt in
  let rt := set_trace_on false rt in
  let rt := set_break_requested false rt in
  let rt := set_error_handler_line None rt in
  let rt := set_error_handler_is_gosub false rt in
  let rt := set_files ∅ rt in
  set_field_buffers ∅ rt.

Definition clear (rt : Runtime) : Runtime :=
  let rt := reset rt in
  let rt := set_data_values [] rt in
  let rt := set_data_line_map um_empty rt in
  let rt := set_user_functions ∅ rt in
  set_breakpoints ∅ rt.

(* =================================================================== *)
(** ** interpreter.hpp: the interpreter object                         *)
(* =================================================================== *)

Record ErrorInfo := { err_code : Z; err_pc : PC }.

#[projections(primitive)] Record InterpreterState := {
  st_error : option ErrorInfo;
  statements_executed : Z;
  pause_requested : bool;
  skip_next_breakpoint : bool
}.

Definition InterpreterState_new : InterpreterState :=
  {| st_error := None; statements_executed := 0;
     pause_requested := false; skip_next_breakpoint := false |}.

(** [Interpreter]: the runtime it refers to, its own state, and the
    text handed to the console port so far. *)
#[projections(primitive)] Record Machine := {
  runtime_ : Runtime;
  state_ : InterpreterState;
  printed : list string
}.

Definition with_runtime (rt : Runtime) (m : Machine) : Machine :=
  {| runtime_ := rt; state_ := state_ m; printed := printed m |}.
Definition with_state (st : InterpreterState) (m : Machine) : Machine :=
  {| runtime_ := runtime_ m; state_ := st; printed := printed m |}.
Definition io_print (text : string) (m : Machine) : Machine :=
  {| runtime_ := runtime_ m; state_ := state_ m; printed := printed m ++ [text] |}.

(** Member functions mutate the interpreter and return as [Res] says. *)
Definition M (A : Type) : Type := Machine -> Machine * Res A.

Definition ret {A} (a : A) : M A := fun m => (m, Ok a).

Definition bind {A B} (c : M A) (k : A -> M B) : M B :=
  fun m =>
    match c m with
    | (m', Ok a) => k a m'
    | (m', Throw code) => (m', Throw code)
    | (m', Abort) => (m', Abort)
    | (m', Undefined why) => (m', Undefined why)
    end.

Notation "x <- c1 ;; c2" := (bind c1 (fun x => c2))
  (at level 100, c1 at next level, right associativity).
Notation "c1 ;;; c2" := (bind c1 (fun _ => c2))
  (at level 100, right associativity).

Definition get_rt : M Runtime := fun m => (m, Ok (runtime_ m)).
Definition modify_rt (f : Runtime -> Runtime) : M unit :=
  fun m => (with_runtime (f (runtime_ m)) m, Ok tt).
Definition lift_rt {A} (f : Runtime -> Runtime * Res A) : M A :=
  fun m => let '(rt', r) := f (runtime_ m) in (with_runtime rt' m, r).
Definition undefined {A} (why : UBKind) : M A := fun m => (m, Undefined why).
Definition abort {A} : M A := fun m => (m, Abort).
Definition defined {A} (why : UBKind) (o : option A) : M A :=
  match o with Some a => ret a | None => undefined why end.

(** [raise_error]: records the code and the current line, then throws. *)
Definition raise_error {A} (code : Z) : M A :=
  fun m =>
    let rt := runtime_ m in
    let rt := set_last_error_code code rt in
    let rt := set_last_error_line (pc_line (pc rt)) rt in
    (with_runtime rt m, Throw code).

Definition jump_to (line : Z) : M unit :=
  rt <- get_rt ;;
  let target := find_line (statements rt) line in
  if negb (valid (statements rt) target)
  then raise_error ErrorCode.UNDEFINED_LINE
  else modify_rt (set_next_pc (Some target)).

(* =================================================================== *)
(** ** Expression evaluation                                           *)
(* =================================================================== *)

(** [std::pow] of the C library. *)
Variable pow : double -> double -> double.

(** The dispatch of [eval_function] once the arguments are evaluated:
    the table of built-in functions and the calls of DEF FN functions.
    Of the built-ins, STR$ and VAL are embedded further down. *)
Variable call_function : string -> list Value -> M Value.

Definition rel_epsilon : double := d_of_ratio false 1 1000000.
Definition abs_epsilon : double := d_of_ratio false 1 1000000000.

Definition float_equal (a b : double) : bool :=
  if d_eq a b then true
  else
    let diff := d_fabs (d_sub a b) in
    let larger := d_fmax (d_fabs a) (d_fabs b) in
    d_le diff (d_fmax abs_epsilon (d_mul larger rel_epsilon)).

(** [cond ? -1.0 : 0.0] *)
Definition truth (b : bool) : Value := VDouble (if b then d_of_Z (-1) else d_zero).

(** [std::get<std::string>] *)
Definition get_string (v : Value) : M string :=
  match v with VString s => ret s | _ => abort end.

(** [static_cast<int>(left) op static_cast<int>(right)] for [/] and [%]. *)
Definition int_divide (rem : bool) (left right : double) : M Value :=
  a <- defined FloatToInt (cast_int left) ;;
  b <- defined FloatToInt (cast_int right) ;;
  if b =? 0 then undefined DivideByZero
  else if (a =? INT_MIN) && (b =? -1) then undefined IntOverflow
  else ret (VDouble (d_of_Z (if rem then Z.rem a b else Z.quot a b))).

(** The logical operators on the [int16_t] projections. *)
Definition int16_logic (f : Z -> Z -> Z) (left right : double) : M Value :=
  a <- defined FloatToInt (cast_int16 left) ;;
  b <- defined FloatToInt (cast_int16 right) ;;
  ret (VDouble (d_of_Z (f a b))).

(** [eval_binary]; [el] and [er] are the evaluations of the operands,
    which the source runs again wherever it writes [eval(e.left)]. *)
Definition eval_binary (op : TokenType) (el er : M Value) : M Value :=
  concatenated <-
    (if token_eqb op T_PLUS || token_eqb op T_AMPERSAND then
       left <- el ;;
       right <- er ;;
       if is_string left || is_string right then
         let l := match left with VString x => x | _ => EmptyString end in
         let r := match right with VString x => x | _ => EmptyString end in
         let result := (l ++ r)%string in
         if 255 <? Z.of_nat (String.length result)
         then raise_error ErrorCode.STRING_TOO_LONG
         else ret (Some (VString result))
       else ret None
     else ret None) ;;
  match concatenated with
  | Some v => ret v
  | None =>
      lv <- el ;;
      rv <- er ;;
      let left := to_number lv in
      let right := to_number rv in
      match op with
      | T_PLUS => ret (VDouble (d_add left right))
      | T_MINUS => ret (VDouble (d_sub left right))
      | T_MULTIPLY => ret (VDouble (d_mul left right))
      | T_DIVIDE =>
          if d_eq right d_zero then raise_error ErrorCode.DIVISION_BY_ZERO
          else ret (VDouble (d_div left right))
      | T_BACKSLASH =>
          if d_eq right d_zero then raise_error ErrorCode.DIVISION_BY_ZERO
          else int_divide false left right
      | T_MOD =>
          if d_eq right d_zero then raise_error ErrorCode.DIVISION_BY_ZERO
          else int_divide true left right
      | T_POWER => ret (VDouble (pow left right))
      | T_EQUAL =>
          l1 <- el ;;
          if is_string l1 then
            l2 <- el ;;
            a <- get_string l2 ;;
            r2 <- er ;;
            b <- get_string r2 ;;
            ret (truth (String.eqb a b))
          else ret (truth (float_equal left right))
      | T_NOT_EQUAL => ret (truth (negb (float_equal left right)))
      | T_LESS_THAN => ret (truth (d_lt left right && negb (float_equal left right)))
      | T_GREATER_THAN => ret (truth (d_gt left right && negb (float_equal left right)))
      | T_LESS_EQUAL => ret (truth (d_lt left right || float_equal left right))
      | T_GREATER_EQUAL => ret (truth (d_gt left right || float_equal left right))
      | T_AND => int16_logic Z.land left right
      | T_OR => int16_logic Z.lor left right
      | T_XOR => int16_logic Z.lxor left right
      | T_EQV => int16_logic (fun a b => Z.lnot (Z.lxor a b)) left right
      | T_IMP => int16_logic (fun a b => Z.lor (Z.lnot a) b) left right
      | _ => raise_error ErrorCode.INTERNAL_ERROR
      end
  end.

Definition eval_unary (op : TokenType) (e : M Value) : M Value :=
  operand <- e ;;
  match op with
  | T_MINUS => ret (VDouble (d_neg (to_number operand)))
  | T_NOT =>
      i <- defined FloatToInt (cast_int16 (to_number operand)) ;;
      ret (VDouble (d_of_Z (Z.lnot i)))
  | T_PLUS => ret (VDouble (to_number operand))
  | _ => raise_error ErrorCode.INTERNAL_ERROR
  end.

Fixpoint eval (expr : Expr) : M Value :=
  match expr with
  | NumberExpr value => ret (VDouble value)
  | StringExpr value => ret (VString value)
  | VariableExpr name _ => rt <- get_rt ;; ret (get_variable rt name)
  | BinaryExpr op l r => eval_binary op (eval l) (eval r)
  | UnaryExpr op operand => eval_unary op (eval operand)
  | FunctionCallExpr name args =>
      vals <- (fix eval_args (l : list Expr) : M (list Value) :=
                 match l with
                 | [] => ret []
                 | a :: l' => v <- eval a ;; vs <- eval_args l' ;; ret (v :: vs)
                 end) args ;;
      call_function name vals
  | ArrayAccessExpr name indices _ =>
      idxs <- (fix eval_indices (l : list Expr) : M (list Z) :=
                 match l with
                 | [] => ret []
                 | a :: l' =>
                     v <- eval a ;;
                     i <- defined FloatToInt (cast_int (to_number v)) ;;
                     is' <- eval_indices l' ;;
                     ret (i :: is')
                 end) indices ;;
      lift_rt (get_array name idxs)
  end.

(** [indices.push_back(static_cast<int>(to_number(eval(idx))))] *)
Fixpoint eval_ints (l : list Expr) : M (list Z) :=
  match l with
  | [] => ret []
  | a :: l' =>
      v <- eval a ;;
      i <- defined FloatToInt (cast_int (to_number v)) ;;
      is' <- eval_ints l' ;;
      ret (i :: is')
  end.

(** ** LValue helpers *)

Definition get_lvalue (lv : LValue) : M Value :=
  match lv with
  | LVariable name _ => rt <- get_rt ;; ret (get_variable rt name)
  | LArrayAccess name indices _ =>
      idxs <- eval_ints indices ;; lift_rt (get_array name idxs)
  end.

(** [runtime_.set_variable(name, value)] inside the interpreter. *)
Definition store_variable (name : string) (value : Value) : M unit :=
  rt <- get_rt ;;
  rt' <- defined FloatToInt (set_variable name value rt) ;;
  modify_rt (fun _ => rt').

Definition set_lvalue (lv : LValue) (val : Value) : M unit :=
  match lv with
  | LVariable name type =>
      v <- defined FloatToInt (coerce_to val type) ;;
      store_variable name v
  | LArrayAccess name indices _ =>
      idxs <- eval_ints indices ;; lift_rt (set_array name idxs val)
  end.

(* =================================================================== *)
(** ** Statement execution                                             *)
(* =================================================================== *)

(** The index of the last element that satisfies [P]: the search from
    [rbegin()] that [exec_wend] and [exec_return] do. *)
Fixpoint last_index_from {A} (P : A -> bool) (l : list A) (i : nat) (found : option nat)
    : option nat :=
  match l with
  | [] => found
  | x :: l' => last_index_from P l' (S i) (if P x then Some i else found)
  end.

Definition last_index {A} (P : A -> bool) (l : list A) : option nat :=
  last_index_from P l 0%nat None.

Definition is_gosub_entry (e : StackEntry) : bool := bool_decide (entry_type e = GOSUB).
Definition is_while_entry (e : StackEntry) : bool := bool_decide (entry_type e = WHILE).

Definition push_entry (e : StackEntry) : M unit :=
  modify_rt (fun rt => set_exec_stack (exec_stack rt ++ [e]) rt).

Definition gosub_entry (ret_pc : PC) : StackEntry :=
  {| entry_type := GOSUB; return_pc := ret_pc; loop_pc := PC_default |}.
Definition while_entry (at_pc : PC) : StackEntry :=
  {| entry_type := WHILE; return_pc := PC_default; loop_pc := at_pc |}.

(** Bound on the steps of the forward scans of [exec_for] and
    [exec_while].  A scan visits each statement after the current one
    once and then stops with an error; only when the program has a line
    0, so that the halted PC (0,0) is a valid address, can it go round,
    and it then either closes within this bound or never. *)
Definition scan_fuel (rt : Runtime) : nat :=
  let n := size (table_ (statements rt)) in ((n + 2) * (n + 2))%nat.

Definition exec_let (target : LValue) (expression : Expr) : M unit :=
  val <- eval expression ;;
  set_lvalue target val.

(** The [while (depth > 0)] loop of [exec_for]. *)
Fixpoint for_scan (fuel : nat) (for_var_name : string) (scan : PC) (depth : Z) : M PC :=
  match fuel with
  | O => undefined NoProgress
  | S fuel' =>
      rt <- get_rt ;;
      let scan := next (statements rt) scan in
      if negb (valid (statements rt) scan) then raise_error ErrorCode.FOR_WITHOUT_NEXT
      else
        match get (statements rt) scan with
        | None => undefined OutOfBounds
        | Some stmt =>
            let depth :=
              match stmt with
              | ForStmt _ _ _ _ => depth + 1
              | NextStmt variables =>
                  match variables with
                  | [] => depth - 1
                  | _ => if existsb (String.eqb for_var_name) variables
                         then depth - 1 else depth
                  end
              | _ => depth
              end in
            if 0 <? depth then for_scan fuel' for_var_name scan depth else ret scan
        end
  end.

Definition exec_for (variable : string) (start_expr end_expr : Expr)
    (step_expr : option Expr) : M unit :=
  sv <- eval start_expr ;;
  let start_val := to_number sv in
  ev <- eval end_expr ;;
  let end_val := to_number ev in
  step_val <- match step_expr with
              | Some e => v <- eval e ;; ret (to_number v)
              | None => ret (d_of_Z 1)
              end ;;
  store_variable variable (VDouble start_val) ;;;
  rt <- get_rt ;;
  let state := {| resume_pc := pc rt; end_value := end_val; step_value := step_val |} in
  modify_rt (fun rt => set_for_states (um_assign variable state (for_states rt)) rt) ;;;
  if (d_gt step_val d_zero && d_gt start_val end_val)
     || (d_lt step_val d_zero && d_lt start_val end_val) then
    scan <- for_scan (scan_fuel rt) variable (pc rt) 1 ;;
    modify_rt (fun rt => set_next_pc (Some (next (statements rt) scan)) rt) ;;;
    modify_rt (fun rt => set_for_states (um_erase variable (for_states rt)) rt)
  else ret tt.

(** The names that [exec_next] steps: the listed variables, or for a
    bare NEXT the key of [for_states.begin()]. *)
Definition next_var_names (variables : list string) : M (list string) :=
  match variables with
  | [] =>
      rt <- get_rt ;;
      if um_is_empty (for_states rt) then raise_error ErrorCode.NEXT_WITHOUT_FOR
      else defined OutOfBounds ((fun k => [k]) <$> um_begin (for_states rt))
  | _ => ret variables
  end.

Fixpoint next_loop (var_names : list string) : M unit :=
  match var_names with
  | [] => ret tt
  | var_name :: rest =>
      rt <- get_rt ;;
      match um_find var_name (for_states rt) with
      | None => raise_error ErrorCode.NEXT_WITHOUT_FOR
      | Some state =>
          let current := d_add (to_number (get_variable rt var_name)) (step_value state) in
          store_variable var_name (VDouble current) ;;;
          let done :=
            if d_gt (step_value state) d_zero
            then d_gt current (end_value state)
            else d_lt current (end_value state) in
          (if done
           then modify_rt (fun rt => set_for_states (um_erase var_name (for_states rt)) rt)
           else modify_rt (fun rt =>
                  set_next_pc (Some (next (statements rt) (resume_pc state))) rt)) ;;;
          next_loop rest
      end
  end.

Definition exec_next (variables : list string) : M unit :=
  var_names <- next_var_names variables ;;
  next_loop var_names.

(** The [while (depth > 0)] loop of [exec_while]. *)
Fixpoint while_scan (fuel : nat) (scan : PC) (depth : Z) : M PC :=
  match fuel with
  | O => undefined NoProgress
  | S fuel' =>
      rt <- get_rt ;;
      let scan := next (statements rt) scan in
      if negb (valid (statements rt) scan) then raise_error ErrorCode.WHILE_WITHOUT_WEND
      else
        match get (statements rt) scan with
        | None => undefined OutOfBounds
        | Some stmt =>
            let depth :=
              match stmt with
              | WhileStmt _ => depth + 1
              | WendStmt => depth - 1
              | _ => depth
              end in
            if 0 <? depth then while_scan fuel' scan depth else ret scan
        end
  end.

Definition exec_while (condition : Expr) : M unit :=
  cond <- eval condition ;;
  rt <- get_rt ;;
  if to_bool cond then push_entry (while_entry (pc rt))
  else
    scan <- while_scan (scan_fuel rt) (pc rt) 1 ;;
    modify_rt (fun rt => set_next_pc (Some (next (statements rt) scan)) rt).

Definition exec_wend : M unit :=
  rt <- get_rt ;;
  match last_index is_while_entry (exec_stack rt) with
  | Some i =>
      match exec_stack rt !! i with
      | Some it =>
          modify_rt (set_next_pc (Some (loop_pc it))) ;;;
          modify_rt (fun rt => set_exec_stack (delete i (exec_stack rt)) rt)
      | None => undefined OutOfBounds
      end
  | None => raise_error ErrorCode.WEND_WITHOUT_WHILE
  end.

Definition exec_goto (target_line : Z) : M unit := jump_to target_line.

Definition exec_gosub (target_line : Z) : M unit :=
  rt <- get_rt ;;
  push_entry (gosub_entry (next (statements rt) (pc rt))) ;;;
  jump_to target_line.

Definition exec_return (target_line : option Z) : M unit :=
  rt <- get_rt ;;
  match last_index is_gosub_entry (exec_stack rt) with
  | Some i =>
      match exec_stack rt !! i with
      | Some it =>
          let target :=
            match target_line with
            | Some l => find_line (statements rt) l
            | None => return_pc it
            end in
          modify_rt (set_next_pc (Some target)) ;;;
          modify_rt (fun rt => set_exec_stack (delete i (exec_stack rt)) rt)
      | None => undefined OutOfBounds
      end
  | None => raise_error ErrorCode.RETURN_WITHOUT_GOSUB
  end.

Definition exec_on_goto (selector : Expr) (targets : list Z) : M unit :=
  v <- eval selector ;;
  idx <- defined FloatToInt (cast_int (to_number v)) ;;
  if (1 <=? idx) && (idx <=? Z.of_nat (length targets)) then
    t <- defined OutOfBounds (targets !! Z.to_nat (idx - 1)) ;;
    jump_to t
  else ret tt.

Definition exec_on_gosub (selector : Expr) (targets : list Z) : M unit :=
  v <- eval selector ;;
  idx <- defined FloatToInt (cast_int (to_number v)) ;;
  if (1 <=? idx) && (idx <=? Z.of_nat (length targets)) then
    rt <- get_rt ;;
    push_entry (gosub_entry (next (statements rt) (pc rt))) ;;;
    t <- defined OutOfBounds (targets !! Z.to_nat (idx - 1)) ;;
    jump_to t
  else ret tt.

Definition exec_data : M unit :=
  rt <- get_rt ;;
  if direct_mode rt then raise_error ErrorCode.ILLEGAL_DIRECT else ret tt.

Fixpoint exec_read (variables : list LValue) : M unit :=
  match variables with
  | [] => ret tt
  | var :: rest =>
      val <- lift_rt read_data ;;
      set_lvalue var val ;;;
      exec_read rest
  end.

Definition exec_restore (target_line : option Z) : M unit :=
  modify_rt (restore_data target_line).

Fixpoint exec_dim (arrays : list ArrayDecl) : M unit :=
  match arrays with
  | [] => ret tt
  | decl :: rest =>
      dims <- eval_ints (decl_dimensions decl) ;;
      lift_rt (dim_array (decl_name decl) dims (decl_type decl)) ;;;
      exec_dim rest
  end.

Definition exec_def_fn : M unit :=
  rt <- get_rt ;;
  if direct_mode rt then raise_error ErrorCode.ILLEGAL_DIRECT else ret tt.

Definition exec_def_type : M unit := ret tt.

Definition exec_end : M unit :=
  rt <- get_rt ;;
  match error_pc rt with
  | Some _ => raise_error ErrorCode.NO_RESUME
  | None => modify_rt (set_pc (halted END))
  end.

Definition exec_stop : M unit :=
  modify_rt (fun rt => set_pc (with_reason STOP (pc rt)) rt).

Definition exec_rem : M unit := ret tt.

Definition exec_swap (var1 var2 : LValue) : M unit :=
  v1 <- get_lvalue var1 ;;
  v2 <- get_lvalue var2 ;;
  set_lvalue var1 v2 ;;;
  set_lvalue var2 v1.

Definition exec_erase (arrays : list string) : M unit :=
  modify_rt (fun rt => foldl (fun rt name => erase_array name rt) rt arrays).

Definition exec_clear : M unit := modify_rt reset.

Definition exec_option_base (base : Z) : M unit := modify_rt (set_array_base base).

Definition exec_tron : M unit := modify_rt (set_trace_on true).
Definition exec_troff : M unit := modify_rt (set_trace_on false).

Definition exec_error (error_code : Expr) : M unit :=
  v <- eval error_code ;;
  code <- defined FloatToInt (cast_int (to_number v)) ;;
  raise_error code.

Definition exec_on_error (target_line : option Z) (is_gosub : bool) : M unit :=
  modify_rt (set_error_handler_line target_line) ;;;
  modify_rt (set_error_handler_is_gosub is_gosub).

Definition exec_resume (resume_type : ResumeType) (target_line : option Z) : M unit :=
  store_variable "err%" (VInteger 0) ;;;
  rt <- get_rt ;;
  match error_pc rt with
  | None => raise_error ErrorCode.RESUME_WITHOUT_ERROR
  | Some epc =>
      (match resume_type, target_line with
       | RESUME_NEXT, _ => modify_rt (set_next_pc (Some (next (statements rt) epc)))
       | _, Some l => jump_to l
       | _, None => modify_rt (set_next_pc (Some epc))
       end) ;;;
      modify_rt (set_error_pc None)
  end.

(** [execute]: the dispatch on the statement kind.  The inline branches
    of IF run their statements in order and stop as soon as the PC is
    no longer running. *)
Fixpoint execute (stmt : Stmt) : M unit :=
  match stmt with
  | LetStmt target expression => exec_let target expression
  | IfStmt condition then_stmts then_line else_stmts else_line =>
      let run_inline :=
        fix run_inline (l : list Stmt) : M unit :=
          match l with
          | [] => ret tt
          | s :: l' =>
              execute s ;;;
              rt <- get_rt ;;
              if is_running (pc rt) then run_inline l' else ret tt
          end in
      cond <- eval condition ;;
      if to_bool cond then
        match then_line with
        | Some l => jump_to l
        | None => run_inline then_stmts
        end
      else
        match else_line with
        | Some l => jump_to l
        | None => run_inline else_stmts
        end
  | ForStmt variable start_expr end_expr step_expr =>
      exec_for variable start_expr end_expr step_expr
  | NextStmt variables => exec_next variables
  | WhileStmt condition => exec_while condition
  | WendStmt => exec_wend
  | GotoStmt target_line => exec_goto target_line
  | GosubStmt target_line => exec_gosub target_line
  | ReturnStmt target_line => exec_return target_line
  | OnGotoStmt selector targets => exec_on_goto selector targets
  | OnGosubStmt selector targets => exec_on_gosub selector targets
  | DataStmt _ => exec_data
  | ReadStmt variables => exec_read variables
  | RestoreStmt target_line => exec_restore target_line
  | DimStmt arrays => exec_dim arrays
  | DefFnStmt _ _ _ => exec_def_fn
  | DefTypeStmt => exec_def_type
  | EndStmt => exec_end
  | StopStmt => exec_stop
  | RemStmt => exec_rem
  | SwapStmt var1 var2 => exec_swap var1 var2
  | EraseStmt arrays => exec_erase arrays
  | ClearStmt => exec_clear
  | OptionBaseStmt base => exec_option_base base
  | TronStmt => exec_tron
  | TroffStmt => exec_troff
  | ErrorStmt error_code => exec_error error_code
  | OnErrorStmt target_line is_gosub => exec_on_error target_line is_gosub
  | ResumeStmt resume_type target_line => exec_resume resume_type target_line
  end.

(* =================================================================== *)
(** ** The tick loop                                                   *)
(* =================================================================== *)

Definition advance_pc : M unit :=
  rt <- get_rt ;;
  match next_pc rt with
  | Some target =>
      modify_rt (set_pc target) ;;;
      modify_rt (set_next_pc None)
  | None =>
      if is_running (pc rt)
      then modify_rt (set_pc (next (statements rt) (pc rt)))
      else ret tt
  end.

(** [int16_t(n)] for an [int] *)
Definition wrap16 (n : Z) : Z := (n + 32768) `mod` 65536 - 32768.

Definition newline : string := String (ascii_of_nat 10) EmptyString.

Definition modify_state (f : InterpreterState -> InterpreterState) : M unit :=
  fun m => (with_state (f (state_ m)) m, Ok tt).

Definition set_reason (r : StopReason) : M unit :=
  modify_rt (fun rt => set_pc (with_reason r (pc rt)) rt).

(** The [catch (const RuntimeError& e)] block of [tick]; [true] when a
    handler takes over, [false] when the interpreter halts. *)
Definition on_runtime_error (code : Z) : M bool :=
  rt <- get_rt ;;
  match error_handler_line rt with
  | Some handler =>
      store_variable "err%" (VInteger (wrap16 code)) ;;;
      rt <- get_rt ;;
      store_variable "erl%" (VInteger (wrap16 (pc_line (pc rt)))) ;;;
      modify_rt (fun rt => set_error_pc (Some (pc rt)) rt) ;;;
      (if error_handler_is_gosub rt
       then rt <- get_rt ;; push_entry (gosub_entry (next (statements rt) (pc rt)))
       else ret tt) ;;;
      modify_rt (fun rt => set_next_pc (Some (find_line (statements rt) handler)) rt) ;;;
      ret true
  | None =>
      rt <- get_rt ;;
      modify_state (fun st =>
        {| st_error := Some {| err_code := code; err_pc := pc rt |};
           statements_executed := statements_executed st;
           pause_requested := pause_requested st;
           skip_next_breakpoint := skip_next_breakpoint st |}) ;;;
      set_reason ERROR ;;;
      ret false
  end.

(** The [try] block of [tick]: the statement runs and is counted when
    it completes; a [RuntimeError] goes to the [catch] block. *)
Definition execute_guarded (stmt : Stmt) : M bool :=
  fun m =>
    match execute stmt m with
    | (m', Ok _) =>
        let st := state_ m' in
        (with_state {| st_error := st_error st;
                       statements_executed := statements_executed st + 1;
                       pause_requested := pause_requested st;
                       skip_next_breakpoint := skip_next_breakpoint st |} m',
         Ok true)
    | (m', Throw code) => on_runtime_error code m'
    | (m', Abort) => (m', Abort)
    | (m', Undefined why) => (m', Undefined why)
    end.

Definition set_skip_next_breakpoint (b : bool) : M unit :=
  modify_state (fun st =>
    {| st_error := st_error st;
       statements_executed := statements_executed st;
       pause_requested := pause_requested st;
       skip_next_breakpoint := b |}).

Definition tick : M bool :=
  fun m =>
    let rt := runtime_ m in
    if negb (is_running (pc rt)) then (m, Ok false)
    else if pause_requested (state_ m) then (set_reason STOP ;;; ret false) m
    else if break_requested rt then
      (modify_rt (set_break_requested false) ;;; set_reason BREAK ;;; ret false) m
    else if bool_decide (pc_key (pc rt) ∈ breakpoints rt)
            && negb (skip_next_breakpoint (state_ m)) then
      (set_reason BREAKPOINT ;;; set_skip_next_breakpoint true ;;; ret false) m
    else
      (set_skip_next_breakpoint false ;;;
       match get (statements rt) (pc rt) with
       | None => modify_rt (set_pc (halted END)) ;;; ret false
       | Some stmt =>
           (if trace_on rt
            then fun m => (io_print ("[" ++ string_of_Z (pc_line (pc rt)) ++ "]" ++ newline) m,
                           Ok tt)
            else ret tt) ;;;
           continue <- execute_guarded stmt ;;
           if continue then
             advance_pc ;;;
             rt <- get_rt ;;
             ret (is_running (pc rt))
           else ret false
       end) m.

(** [run]: [while (tick()) {}], for at most [fuel] ticks. *)
Fixpoint run (fuel : nat) : M unit :=
  match fuel with
  | O => ret tt
  | S fuel' => continue <- tick ;; if continue then run fuel' else ret tt
  end.

(* =================================================================== *)
(** ** Built-in functions STR$ and VAL                                 *)
(* =================================================================== *)

Definition builtin_str (args : list Value) : M Value :=
  match args with
  | [] => raise_error ErrorCode.ILLEGAL_FUNCTION_CALL
  | a :: _ => s <- defined FloatToInt (to_string a) ;; ret (VString s)
  end.

(** [try { return std::stod(s); } catch (...) { return 0.0; }] *)
Definition builtin_val (args : list Value) : M Value :=
  match args with
  | [] => raise_error ErrorCode.ILLEGAL_FUNCTION_CALL
  | a :: _ =>
      s <- get_string a ;;
      ret (VDouble (default d_zero (stod s)))
  end.

(* =================================================================== *)
(** ** Built-in string functions                                       *)
(* =================================================================== *)

(** [static_cast<int>(to_number(v))] *)
Definition int_arg (v : Value) : M Z := defined FloatToInt (cast_int (to_number v)).

(** [static_cast<int>(to_number(v)) - 1], the 1-based positions. *)
Definition position_arg (v : Value) : M Z :=
  i <- int_arg v ;;
  if i =? INT_MIN then undefined IntOverflow else ret (i - 1).

(** [static_cast<unsigned char>(c)] and [static_cast<char>(code)] *)
Definition char_code (c : ascii) : Z := Z.of_nat (nat_of_ascii c).
Definition char_of_int (code : Z) : ascii := ascii_of_nat (Z.to_nat (code `mod` 256)).

(** [std::string(n, c)] *)
Fixpoint string_of_count (n : nat) (c : ascii) : string :=
  match n with
  | O => EmptyString
  | S n' => String c (string_of_count n' c)
  end.

(** [s.length()] *)
Definition string_size (s : string) : Z := Z.of_nat (String.length s).

Definition builtin_asc (args : list Value) : M Value :=
  match args with
  | [] => raise_error ErrorCode.ILLEGAL_FUNCTION_CALL
  | a :: _ =>
      s <- get_string a ;;
      match s with
      | EmptyString => raise_error ErrorCode.ILLEGAL_FUNCTION_CALL
      | String c _ => ret (VDouble (d_of_Z (char_code c)))
      end
  end.

Definition builtin_chr (args : list Value) : M Value :=
  match args with
  | [] => raise_error ErrorCode.ILLEGAL_FUNCTION_CALL
  | a :: _ =>
      code <- int_arg a ;;
      if (code <? 0) || (255 <? code) then raise_error ErrorCode.ILLEGAL_FUNCTION_CALL
      else ret (VString (String (char_of_int code) EmptyString))
  end.

Definition builtin_left (args : list Value) : M Value :=
  match args with
  | a0 :: a1 :: _ =>
      s <- get_string a0 ;;
      n <- int_arg a1 ;;
      if n <? 0 then raise_error ErrorCode.ILLEGAL_FUNCTION_CALL
      else ret (VString (substring 0 (Z.to_nat (Z.min n (string_size s))) s))
  | _ => raise_error ErrorCode.ILLEGAL_FUNCTION_CALL
  end.

Definition builtin_right (args : list Value) : M Value :=
  match args with
  | a0 :: a1 :: _ =>
      s <- get_string a0 ;;
      n <- int_arg a1 ;;
      if n <? 0 then raise_error ErrorCode.ILLEGAL_FUNCTION_CALL
      else if string_size s <=? n then ret (VString s)
      else ret (VString (substring (Z.to_nat (string_size s - n)) (String.length s) s))
  | _ => raise_error ErrorCode.ILLEGAL_FUNCTION_CALL
  end.

Definition builtin_mid (args : list Value) : M Value :=
  match args with
  | a0 :: a1 :: rest =>
      s <- get_string a0 ;;
      start <- position_arg a1 ;;
      let start := if start <? 0 then 0 else start in
      if string_size s <=? start then ret (VString EmptyString)
      else
        len <- match rest with
               | a2 :: _ => defined FloatToInt (cast_size_t (to_number a2))
               | [] => ret (string_size s)
               end ;;
        ret (VString (substring (Z.to_nat start) (Z.to_nat len) s))
  | _ => raise_error ErrorCode.ILLEGAL_FUNCTION_CALL
  end.

Definition builtin_len (args : list Value) : M Value :=
  match args with
  | [] => raise_error ErrorCode.ILLEGAL_FUNCTION_CALL
  | a :: _ => s <- get_string a ;; ret (VDouble (d_of_Z (string_size s)))
  end.

Definition builtin_space (args : list Value) : M Value :=
  match args with
  | [] => raise_error ErrorCode.ILLEGAL_FUNCTION_CALL
  | a :: _ =>
      n <- int_arg a ;;
      if n <? 0 then raise_error ErrorCode.ILLEGAL_FUNCTION_CALL
      else if 255 <? n then raise_error ErrorCode.STRING_TOO_LONG
      else ret (VString (string_of_count (Z.to_nat n) " "))
  end.

Definition builtin_string (args : list Value) : M Value :=
  match args with
  | a0 :: a1 :: _ =>
      n <- int_arg a0 ;;
      if n <? 0 then raise_error ErrorCode.ILLEGAL_FUNCTION_CALL
      else if 255 <? n then raise_error ErrorCode.STRING_TOO_LONG
      else
        c <- match a1 with
             | VString s =>
                 ret (match s with EmptyString => " "%char | String c _ => c end)
             | _ => code <- int_arg a1 ;; ret (char_of_int code)
             end ;;
        ret (VString (string_of_count (Z.to_nat n) c))
  | _ => raise_error ErrorCode.ILLEGAL_FUNCTION_CALL
  end.

(** [haystack.find(needle, start)] is [String.index start needle haystack]:
    the first position at or after [start] where [needle] occurs. *)
Definition builtin_instr (args : list Value) : M Value :=
  match args with
  | a0 :: a1 :: rest =>
      found <-
        match rest with
        | a2 :: _ =>
            if is_numeric a0 then
              start <- position_arg a0 ;;
              haystack <- get_string a1 ;;
              needle <- get_string a2 ;;
              ret (start, haystack, needle)
            else
              haystack <- get_string a0 ;;
              needle <- get_string a1 ;;
              ret (0, haystack, needle)
        | [] =>
            haystack <- get_string a0 ;;
            needle <- get_string a1 ;;
            ret (0, haystack, needle)
        end ;;
      let '(start, haystack, needle) := found in
      let start := if start <? 0 then 0 else start in
      if string_size haystack <=? start then ret (VDouble d_zero)
      else
        match needle with
        | EmptyString => ret (VDouble (d_of_Z (start + 1)))
        | _ =>
            match String.index (Z.to_nat start) needle haystack with
            | Some pos => ret (VDouble (d_of_Z (Z.of_nat pos + 1)))
            | None => ret (VDouble d_zero)
            end
        end
  | _ => raise_error ErrorCode.ILLEGAL_FUNCTION_CALL
  end.

End Interp.

(* ===================================================================== *)
(** * parser.cpp: the expression parser                                  *)
(* ===================================================================== *)

Record Token := {
  tok_type : TokenType;
  tok_value : string;          (* normalised text *)
  tok_original_case : string
}.

(** How a parsing function returns: with a result and the new position,
    with a [ParseError], with an exception of [std::stod] that the parser
    does not catch, or not within the recursion bound of this model. *)
Inductive PRes (A : Type) :=
| POk (a : A) (pos : nat)
| PError (msg : string)
| PAbort
| POutOfFuel.

Arguments POk {A} a pos.
Arguments PError {A} msg.
Arguments PAbort {A}.
Arguments POutOfFuel {A}.

Section Parser.

Variable tokens_ : list Token.
(** The letter types collected by the first pass. *)
Variable def_type_map_ : gmap ascii VarType.

(** A parsing function reads from position [pos_]. *)
Definition P (A : Type) : Type := nat -> PRes A.

Definition pret {A} (a : A) : P A := fun pos => POk a pos.
Definition pbind {A B} (c : P A) (k : A -> P B) : P B :=
  fun pos =>
    match c pos with
    | POk a pos' => k a pos'
    | PError msg => PError msg
    | PAbort => PAbort
    | POutOfFuel => POutOfFuel
    end.
Definition parse_error {A} (msg : string) : P A := fun _ => PError msg.

Notation "x <- c1 ;; c2" := (pbind c1 (fun x => c2))
  (at level 100, c1 at next level, right associativity).
Notation "c1 ;;; c2" := (pbind c1 (fun _ => c2))
  (at level 100, right associativity).

Definition eof_token : Token :=
  {| tok_type := T_END_OF_FILE; tok_value := ""; tok_original_case := "" |}.

Definition current (pos : nat) : Token := default eof_token (tokens_ !! pos).

Definition advance : P Token :=
  fun pos =>
    if (pos <? length tokens_)%nat then POk (current pos) (S pos)
    else POk eof_token pos.

Definition check (type : TokenType) (pos : nat) : bool :=
  token_eqb (tok_type (current pos)) type.

Definition check_any (types : list TokenType) (pos : nat) : bool :=
  existsb (fun t => check t pos) types.

(** [match(type)] *)
Definition match_token (type : TokenType) : P bool :=
  fun pos => if check type pos then (advance ;;; pret true) pos else POk false pos.

Definition expect (type : TokenType) (msg : string) : P Token :=
  fun pos => if check type pos then advance pos else PError msg.

Definition parser_resolve_type (name : string) : VarType :=
  let by_letter :=
    match name with
    | String c _ =>
        if is_alpha c then default SINGLE (def_type_map_ !! to_lower_char c) else SINGLE
    | EmptyString => SINGLE
    end in
  match string_back name with
  | Some "%"%char => INTEGER
  | Some "!"%char => SINGLE
  | Some "#"%char => DOUBLE
  | Some "$"%char => STRING
  | _ => by_letter
  end.

(** The token types that [parse_primary] accepts as built-in function
    names. *)
Definition function_tokens : list TokenType :=
  [ T_ABS; T_ATN; T_COS; T_EXP; T_FIX; T_INT; T_LOG; T_RND;
    T_SGN; T_SIN; T_SQR; T_TAN; T_CINT; T_CSNG; T_CDBL;
    T_CVI; T_CVS; T_CVD; T_MKI; T_MKS; T_MKD;
    T_ASC; T_CHR; T_HEX; T_OCT; T_LEFT; T_RIGHT; T_MID;
    T_LEN; T_STR; T_VAL; T_SPACE; T_STRING_FUNC; T_INSTR;
    T_INKEY; T_INPUT_FUNC; T_EOF_FUNC; T_LOC; T_LOF;
    T_PEEK; T_POS; T_FRE; T_TAB; T_SPC; T_USR; T_VARPTR;
    T_INP; T_LPOS; T_TIMER; T_DATE_FUNC; T_TIME_FUNC;
    T_ENVIRON_FUNC; T_ERROR_FUNC ].

(** [while (check_any(ops)) { op = advance(); right = operand(); ... }],
    the loop of every left-associative level. *)
Fixpoint binary_loop (ops : list TokenType) (operand : P Expr) (fuel : nat)
    (lhs : Expr) : P Expr :=
  fun pos =>
    match fuel with
    | O => POutOfFuel
    | S fuel' =>
        if check_any ops pos then
          (op <- advance ;;
           rhs <- operand ;;
           binary_loop ops operand fuel' (BinaryExpr (tok_type op) lhs rhs)) pos
        else POk lhs pos
    end.

Definition left_assoc (ops : list TokenType) (operand : P Expr) (fuel : nat) : P Expr :=
  lhs <- operand ;; binary_loop ops operand fuel lhs.

Section Levels.

(** [parse_expression], as called from inside a primary. *)
Variable parse_expression_rec : P Expr.

(** [do { exprs.push_back(parse_expression()); } while (match(COMMA));] *)
Fixpoint parse_expression_list (fuel : nat) : P (list Expr) :=
  match fuel with
  | O => fun _ => POutOfFuel
  | S fuel' =>
      e <- parse_expression_rec ;;
      more <- match_token T_COMMA ;;
      if more : bool then rest <- parse_expression_list fuel' ;; pret (e :: rest)
      else pret [e]
  end.

(** The argument list shared by the three kinds of call: nothing
    between the parentheses, or an expression list. *)
Definition parse_call_args (fuel : nat) (msg : string) : P (list Expr) :=
  fun pos =>
    (args <- (if check T_RPAREN pos then pret [] else parse_expression_list fuel) ;;
     expect T_RPAREN msg ;;;
     pret args) pos.

Definition parse_optional_args (fuel : nat) : P (list Expr) :=
  opened <- match_token T_LPAREN ;;
  if opened : bool
  then parse_call_args fuel "Expected ')' after function arguments"
  else pret [].

Definition parse_primary (fuel : nat) : P Expr :=
  fun pos =>
    let tok := current pos in
    if check T_NUMBER pos then
      match stod (tok_value tok) with
      | Some value => (advance ;;; pret (NumberExpr value)) pos
      | None => PAbort
      end
    else if check T_STRING pos then
      (advance ;;; pret (StringExpr (tok_value tok))) pos
    else if check T_LPAREN pos then
      (advance ;;;
       expr <- parse_expression_rec ;;
       expect T_RPAREN "Expected ')' after expression" ;;;
       pret expr) pos
    else if check T_ERR pos then
      (advance ;;; pret (VariableExpr "err%" INTEGER)) pos
    else if check T_ERL pos then
      (advance ;;; pret (VariableExpr "erl%" INTEGER)) pos
    else if check T_FN pos then
      (advance ;;;
       fun pos =>
         if negb (check T_IDENTIFIER pos)
         then PError "Expected function name after FN"
         else
           let name := ("fn" ++ tok_value (current pos))%string in
           (advance ;;;
            args <- parse_optional_args fuel ;;
            pret (FunctionCallExpr name args)) pos) pos
    else if existsb (token_eqb (tok_type tok)) function_tokens then
      (advance ;;;
       args <- parse_optional_args fuel ;;
       pret (FunctionCallExpr (tok_value tok) args)) pos
    else if check T_IDENTIFIER pos then
      let name := tok_value tok in
      let type := parser_resolve_type name in
      (advance ;;;
       fun pos =>
         if (2 <? String.length name)%nat
            && String.eqb (substring 0 2 name) "fn"
            && check T_LPAREN pos then
           (advance ;;;
            args <- parse_call_args fuel "Expected ')' after function arguments" ;;
            pret (FunctionCallExpr name args)) pos
         else if check T_LPAREN pos then
           (advance ;;;
            indices <- parse_call_args fuel "Expected ')' after subscripts" ;;
            pret (ArrayAccessExpr name indices type)) pos
         else POk (VariableExpr name type) pos) pos
    else PError "Missing operand".

(** Right-associative: the exponent is again a power expression. *)
Fixpoint parse_power (fuel : nat) : P Expr :=
  match fuel with
  | O => fun _ => POutOfFuel
  | S fuel' =>
      lhs <- parse_primary fuel' ;;
      is_power <- match_token T_POWER ;;
      if is_power : bool
      then rhs <- parse_power fuel' ;; pret (BinaryExpr T_POWER lhs rhs)
      else pret lhs
  end.

(** A sign applies to the whole power expression that follows it. *)
Fixpoint parse_unary (fuel : nat) : P Expr :=
  match fuel with
  | O => fun _ => POutOfFuel
  | S fuel' =>
      fun pos =>
        if check_any [T_MINUS; T_PLUS] pos then
          (op <- advance ;;
           operand <- parse_unary fuel' ;;
           if token_eqb (tok_type op) T_MINUS
           then pret (UnaryExpr T_MINUS operand)
           else pret operand) pos
        else parse_power fuel' pos
  end.

Definition parse_multiplicative (fuel : nat) : P Expr :=
  left_assoc [T_MULTIPLY; T_DIVIDE] (parse_unary fuel) fuel.

Definition parse_int_div_expr (fuel : nat) : P Expr :=
  left_assoc [T_BACKSLASH] (parse_multiplicative fuel) fuel.

Definition parse_mod_expr (fuel : nat) : P Expr :=
  left_assoc [T_MOD] (parse_int_div_expr fuel) fuel.

Definition parse_additive (fuel : nat) : P Expr :=
  left_assoc [T_PLUS; T_MINUS] (parse_mod_expr fuel) fuel.

Definition parse_comparison (fuel : nat) : P Expr :=
  left_assoc [T_EQUAL; T_NOT_EQUAL; T_LESS_THAN; T_GREATER_THAN;
              T_LESS_EQUAL; T_GREATER_EQUAL] (parse_additive fuel) fuel.

Fixpoint parse_not_expr (fuel : nat) : P Expr :=
  match fuel with
  | O => fun _ => POutOfFuel
  | S fuel' =>
      negated <- match_token T_NOT ;;
      if negated : bool
      then operand <- parse_not_expr fuel' ;; pret (UnaryExpr T_NOT operand)
      else parse_comparison fuel'
  end.

Definition parse_and_expr (fuel : nat) : P Expr :=
  left_assoc [T_AND] (parse_not_expr fuel) fuel.

Definition parse_or_expr (fuel : nat) : P Expr :=
  left_assoc [T_OR] (parse_and_expr fuel) fuel.

Definition parse_xor_expr (fuel : nat) : P Expr :=
  left_assoc [T_XOR] (parse_or_expr fuel) fuel.

Definition parse_eqv_expr (fuel : nat) : P Expr :=
  left_assoc [T_EQV] (parse_xor_expr fuel) fuel.

Definition parse_imp_expr (fuel : nat) : P Expr :=
  left_assoc [T_IMP] (parse_eqv_expr fuel) fuel.

End Levels.

(** [parse_expression]; [fuel] bounds the nesting of parentheses and
    argument lists, and within one level the operators in a row. *)
Fixpoint parse_expression (fuel : nat) : P Expr :=
  match fuel with
  | O => fun _ => POutOfFuel
  | S fuel' => parse_imp_expr (parse_expression fuel') fuel'
  end.

End Parser.

(* ===================================================================== *)
(** * Programs and interpreter states used by the properties             *)
(* ===================================================================== *)

(** An allocator for concrete runs: it grants every request of up to
    2^32 elements. *)
#[global] Instance roomy : Allocator := fun n => n <=? 2 ^ 32.

(** A machine on the front-inserting containers, for concrete runs. *)
Definition Machine0 : Type :=
  @Machine (@front_umap string ForLoopState _) (@front_umap Z Z _).

(** The interpreter right after [Runtime::load] on a fresh runtime. *)
Definition boot {UF : UnorderedMap string ForLoopState} {UD : UnorderedMap Z Z}
    (program : Program) : Machine :=
  {| runtime_ := load program Runtime_new;
     state_ := InterpreterState_new;
     printed := [] |}.

Definition line (n : Z) (stmts : list Stmt) : Line :=
  {| line_number := n; line_statements := stmts; source_text := EmptyString |}.

Definition program_of (ls : list Line) : Program :=
  {| lines := ls; def_type_map_of := all_single |}.

(** A stand-in for [std::pow] in concrete runs: the product of [n] factors
    for an exponent that is a natural number [n] below 64, which is what
    [std::pow] returns whenever those products are exact; NaN elsewhere. *)
Fixpoint pow_nat (x : double) (n : nat) : double :=
  match n with
  | O => d_of_Z 1
  | S n' => d_mul x (pow_nat x n')
  end.

Definition pow_exact (x y : double) : double :=
  match d_trunc y with
  | Some n =>
      if d_eq y (d_of_Z n) && (0 <=? n) && (n <? 64) then pow_nat x (Z.to_nat n)
      else S754_nan
  | None => S754_nan
  end.

(** A stand-in for the function dispatch in concrete runs: the two
    embedded built-ins; every other name is an undefined function. *)
Definition call_embedded {UF : UnorderedMap string ForLoopState} {UD : UnorderedMap Z Z}
    (name : string) (args : list Value) : M Value :=
  if String.eqb name "str$" then builtin_str args
  else if String.eqb name "val" then builtin_val args
  else raise_error ErrorCode.UNDEFINED_USER_FUNCTION.

Definition d_one : double := d_of_Z 1.
Definition d_half : double := d_of_ratio false 1 2.

(** A machine whose ERR% still holds 11 from an error that was handled
    and resumed. *)
Definition machine_err11 : Machine0 :=
  {| runtime_ := set_variables_ (<["err%" := VInteger 11]> (variables_ Runtime_new)) Runtime_new;
     state_ := InterpreterState_new;
     printed := [] |}.

(** The state of
<<
    10 GOSUB 100
    20 END
    100 WHILE 1
    110 RETURN
>>
    when line 110 is about to run: the GOSUB entry with the WHILE entry
    of line 100 above it. *)
Definition gosub_while_program : Program :=
  program_of
    [ line 10 [GosubStmt 100];
      line 20 [EndStmt];
      line 100 [WhileStmt (NumberExpr d_one)];
      line 110 [ReturnStmt None] ].

Definition machine_at_return : Machine0 :=
  let rt := load gosub_while_program Runtime_new in
  let rt := set_pc (running_at 110 0) rt in
  let rt := set_exec_stack [gosub_entry (running_at 20 0); while_entry (running_at 100 0)] rt in
  {| runtime_ := rt;
     state_ := {| st_error := None; statements_executed := 2;
                  pause_requested := false; skip_next_breakpoint := false |};
     printed := [] |}.

(** <<
    10 DATA 1 : DATA 2
    20 RESTORE 10 : READ A
    >> *)
Definition data_twice_program : Program :=
  program_of
    [ line 10 [DataStmt [VDouble (d_of_Z 1)]; DataStmt [VDouble (d_of_Z 2)]];
      line 20 [RestoreStmt (Some 10); ReadStmt [LVariable "a" SINGLE]] ].


(** <<
    10 A = 1
    20 B = 2
    30 OPTION BASE 1 : ON ERROR GOTO 10 : CLEAR
    40 END
    >>
    and the interpreter when the CLEAR of line 30 is about to run. *)
Definition clear_program : Program :=
  program_of
    [ line 10 [LetStmt (LVariable "a" SINGLE) (NumberExpr d_one)];
      line 20 [LetStmt (LVariable "b" SINGLE) (NumberExpr (d_of_Z 2))];
      line 30 [OptionBaseStmt 1; OnErrorStmt (Some 10) false; ClearStmt];
      line 40 [EndStmt] ].


Definition machine_at_clear : Machine0 :=
  let rt := load clear_program Runtime_new in
  let rt := set_variables_
              (<["b" := VSingle (to_single (d_of_Z 2))]>
                 (<["a" := VSingle (to_single d_one)]> (variables_ rt))) rt in
  let rt := set_array_base 1 rt in
  let rt := set_error_handler_line (Some 10) rt in
  let rt := set_pc (running_at 30 2) rt in
  {| runtime_ := rt;
     state_ := {| st_error := None; statements_executed := 4;
                  pause_requested := false; skip_next_breakpoint := false |};
     printed := [] |}.

Section StoreTyping.
Context {UF : UnorderedMap string ForLoopState} {UD : UnorderedMap Z Z} {AL : Allocator}.
Variable pow : double -> double -> double.
Variable call_function : string -> list Value -> M Value.

(** What a variable of type [t] holds: the alternative of the variant
    that belongs to [t]; for INTEGER a 16-bit integer, for SINGLE a
    binary32 number. *)
Definition has_type (v : Value) (t : VarType) : Prop :=
  match v, t with
  | VInteger i, INTEGER => - 32768 <= i <= 32767
  | VSingle f, SINGLE => valid_binary s_prec s_emax f = true
  | VDouble _, DOUBLE => True
  | VString _, STRING => True
  | _, _ => False
  end.

(** The typing invariant of the scalar store: a stored value is of the
    resolved type of its name. *)
Definition typed_store (rt : Runtime) : Prop :=
  forall name v, variables_ rt !! name = Some v -> has_type v (resolve_type rt name).

(** A member function of the interpreter that leaves a typed store
    typed, however it returns. *)
Definition keeps_typed {A} (c : M A) : Prop :=
  forall m, typed_store (runtime_ m) -> typed_store (runtime_ (c m).1).

(** The runtimes that the interpreter can be in, as far as the scalar
    store is concerned: a new runtime, a program loaded into a new
    runtime (the only way the drivers call [load]), and from there the
    member functions that write the store ([set_variable], [reset],
    [clear]), any update of the other members, and the ticks of an
    interpreter that runs on the runtime. *)
Inductive store_reachable : Runtime -> Prop :=
| reach_new : store_reachable Runtime_new
| reach_load (p : Program) : store_reachable (load p Runtime_new)
| reach_set_variable (rt rt' : Runtime) (name : string) (value : Value) :
    store_reachable rt -> set_variable name value rt = Some rt' -> store_reachable rt'
| reach_reset (rt : Runtime) : store_reachable rt -> store_reachable (reset rt)
| reach_clear (rt : Runtime) : store_reachable rt -> store_reachable (clear rt)
| reach_other (rt rt' : Runtime) :
    store_reachable rt ->
    variables_ rt' = variables_ rt -> def_type_map rt' = def_type_map rt ->
    store_reachable rt'
| reach_tick (m : Machine) :
    store_reachable (runtime_ m) ->
    store_reachable (runtime_ (tick pow call_function m).1).
End StoreTyping.

(** <<
    10 DEFINT N
    20 N = 2.5 : X$ = "A" : Y = 0.1
    >> *)
Definition d_tenth : double := d_of_ratio false 1 10.

Definition defint_program : Program :=
  {| lines := [ line 10 [DefTypeStmt];
                line 20 [LetStmt (LVariable "n" INTEGER) (NumberExpr (d_of_ratio false 5 2));
                         LetStmt (LVariable "x$" STRING) (StringExpr "A");
                         LetStmt (LVariable "y" SINGLE) (NumberExpr d_tenth)] ];
     def_type_map_of := <["n"%char := INTEGER]> all_single |}.

Definition Runtime0 : Type :=
  @Runtime (@front_umap string ForLoopState _) (@front_umap Z Z _).

(** The runtime of the interpreter that has run [defint_program]. *)
Definition runtime_after_stores : Runtime0 :=
  runtime_ (fst (run pow_exact call_embedded 4 (boot defint_program))).

(** The tokens the lexer produces for [-a^b] and for [-(a^b)], where [a]
    and [b] are the texts of two number tokens. *)
Definition tok (t : TokenType) (v : string) : Token :=
  {| tok_type := t; tok_value := v; tok_original_case := v |}.
Definition minus_power_tokens (a b : string) : list Token :=
  [tok T_MINUS "-"; tok T_NUMBER a; tok T_POWER "^"; tok T_NUMBER b; tok T_END_OF_FILE ""].
Definition minus_paren_power_tokens (a b : string) : list Token :=
  [tok T_MINUS "-"; tok T_LPAREN "("; tok T_NUMBER a; tok T_POWER "^"; tok T_NUMBER b;
   tok T_RPAREN ")"; tok T_END_OF_FILE ""].
(** The token types after which no level of the expression grammar
    continues an operand. *)
Definition closes_operand (t : TokenType) : bool :=
  match t with
  | T_END_OF_FILE | T_RPAREN => true
  | _ => false
  end.

(** <<
    10 FOR I = 1 TO 9
    20 FOR J = 1 TO 9
    30 FOR I = 1 TO 9
    40 NEXT
    >>
    The FOR of line 30 is the one entered last when the NEXT runs. *)
Definition for_1_to_9 (v : string) : Stmt :=
  ForStmt v (NumberExpr (d_of_Z 1)) (NumberExpr (d_of_Z 9)) None.

Definition reentered_for_program : Program :=
  program_of
    [ line 10 [for_1_to_9 "i"];
      line 20 [for_1_to_9 "j"];
      line 30 [for_1_to_9 "i"];
      line 40 [NextStmt []] ].

(** The record that a FOR statement at [at_pc] with the default step
    leaves in [for_states]. *)
Definition for_record (at_pc : PC) (end_val : double) : ForLoopState :=
  {| resume_pc := at_pc; end_value := end_val; step_value := d_of_Z 1 |}.

(** The interpreter when line 30 of [reentered_for_program] is about to
    run: inside the loops on I and J. *)
Definition machine_in_two_loops : Machine0 :=
  fst (run pow_exact call_embedded 2 (boot reentered_for_program)).

(** [VAL(STR$(v))] *)
Definition val_of_str (v : double) : Expr :=
  FunctionCallExpr "val" [FunctionCallExpr "str$" [NumberExpr v]].

Definition d_1e15 : double := d_of_Z 1000000000000000.

(** 2^-25, about 2.98e-8. *)
Definition d_2_pow_m25 : double := d_of_scaled 1 (-25).

(** A text of decimal digits and the integer it denotes after the digits
    accumulated in [acc]. *)
Fixpoint all_digits (ds : string) : bool :=
  match ds with
  | EmptyString => true
  | String c r => is_digit c && all_digits r
  end.

Fixpoint digits_val (ds : string) (acc : Z) : Z :=
  match ds with
  | EmptyString => acc
  | String c r => digits_val r (acc * 10 + (Z.of_nat (nat_of_ascii c) - 48))
  end.

(** An interpreter with no program loaded. *)
Definition machine_idle : Machine0 := boot (program_of []).

(** ** Auxiliary notions for the rounding of [binary64] operations *)

(** What a rounding location says about a remainder [r] out of [d]. *)
Definition loc_ok (l : location) (r d : Z) : Prop :=
  0 <= r < d /\
  match l with
  | loc_Exact => r = 0
  | loc_Inexact Lt => 0 < 2 * r < d
  | loc_Inexact Eq => 2 * r = d
  | loc_Inexact Gt => d < 2 * r
  end.

(** A shift record [mrs] holds the quotient of [y] by [d], with the
    remainder described by its two bits. *)
Definition shr_inv (y d : Z) (mrs : shr_record) : Prop :=
  0 <= shr_m mrs /\
  exists r, shr_m mrs * d + r = y /\ loc_ok (loc_of_shr_record mrs) r d.

(** The value of a finite double with mantissa [m] and exponent [e], in
    units of 2^-200. *)
Definition at_scale (m : positive) (e : Z) : Z := Zpos m * 2 ^ (e + 200).

(** [j] zeros. *)
Fixpoint zeros (j : nat) : string :=
  match j with
  | O => EmptyString
  | S j' => String "0" (zeros j')
  end.

(** 3.14159265 *)
Definition d_pi_8 : double := d_of_ratio false 314159265 100000000.

(** ** Arrays *)

(** The number of elements of an array with upper bounds [dims] under
    OPTION BASE [base]. *)
Definition extent (base : Z) (dims : list Z) : Z :=
  foldr (fun d acc => (d + 1 - base) * acc) 1 dims.

(** Every subscript lies between the base and its upper bound (and there
    are as many subscripts as bounds). *)
Definition in_bounds (base : Z) (indices dims : list Z) : Prop :=
  Forall2 (fun i d => base <= i <= d) indices dims.

#[global] Instance in_bounds_dec (base : Z) (indices dims : list Z) :
  Decision (in_bounds base indices dims).
Proof. unfold in_bounds. apply _. Defined.

(** The row-major offset of subscripts, both lists given last subscript
    first: the last subscript varies fastest. *)
Fixpoint offset (base : Z) (rev_indices rev_dims : list Z) : Z :=
  match rev_indices, rev_dims with
  | i :: is', d :: ds' => (i - base) + (d + 1 - base) * offset base is' ds'
  | _, _ => 0
  end.

(** An upper bound that the [int] arithmetic of [dim_array] and
    [array_index] can work with: it is at or above the base, and
    [d + 1] and [d + 1 - base] are [int]s. *)
Definition bound_ok (base d : Z) : Prop :=
  base <= d /\ INT_MIN <= d + 1 <= INT_MAX /\ d + 1 - base <= INT_MAX.

#[global] Instance bound_ok_dec (base d : Z) : Decision (bound_ok base d).
Proof. unfold bound_ok. apply _. Defined.

(** A subscript whose distance from the base is an [int]. *)
Definition index_ok (base i : Z) : Prop := INT_MIN <= i - base <= INT_MAX.

#[global] Instance index_ok_dec (base i : Z) : Decision (index_ok base i).
Proof. unfold index_ok. apply _. Defined.

(** An array as [dim_array] makes it for the current base when no
    product wraps: one element per combination of subscripts, as many
    as a vector can hold. *)
Definition array_sized (base : Z) (arr : ArrayData) : Prop :=
  Forall (bound_ok base) (arr_dimensions arr)
  /\ Z.of_nat (length (arr_data arr)) = extent base (arr_dimensions arr)
  /\ extent base (arr_dimensions arr) <= vector_max_size.

(** A new runtime after [DIM A(2, 3)], and the array it holds. *)
Definition array_2_3 : ArrayData :=
  {| arr_dimensions := [2; 3];
     arr_data := replicate 12 (VSingle d_zero);
     arr_type := SINGLE |}.

Definition runtime_with_array : Runtime0 :=
  set_arrays_ (<["a" := array_2_3]> ∅) Runtime_new.

(** ** DATA *)

(** The values of the DATA statements of a program, in the order of the
    program text. *)
Definition data_of_stmt (s : Stmt) : list Value :=
  match s with
  | DataStmt values => values
  | _ => []
  end.

Definition data_of_line (ln : Line) : list Value :=
  concat (data_of_stmt <$> line_statements ln).

Definition data_of_program (p : Program) : list Value :=
  concat (data_of_line <$> lines p).

(** [n] calls of [read_data] in a row, with the values they return. *)
Fixpoint read_many {UF : UnorderedMap string ForLoopState} {UD : UnorderedMap Z Z}
    (n : nat) (rt : Runtime) : Runtime * Res (list Value) :=
  match n with
  | O => (rt, Ok [])
  | S n' =>
      match read_data rt with
      | (rt', Ok v) =>
          match read_many n' rt' with
          | (rt'', Ok vs) => (rt'', Ok (v :: vs))
          | other => other
          end
      | (rt', Throw c) => (rt', Throw c)
      | (rt', Abort) => (rt', Abort)
      | (rt', Undefined k) => (rt', Undefined k)
      end
  end.

Definition is_data_stmt (s : Stmt) : bool :=
  match s with
  | DataStmt _ => true
  | _ => false
  end.

(** The line holds a DATA statement. *)
Definition has_data (ln : Line) : bool := existsb is_data_stmt (line_statements ln).

(** Every entry of the line map for line [n] holds the index [idx], and
    there is one. *)
Definition maps_to {UD : UnorderedMap Z Z} (n idx : Z) (m : umap Z Z) : Prop :=
  (exists v, (n, v) ∈ um_items m) /\ forall v, (n, v) ∈ um_items m -> v = idx.

(** <<
    10 DATA 1, 2
    20 READ A
    30 DATA 3
    >> *)
Definition data_lines_program : Program :=
  program_of
    [ line 10 [DataStmt [VDouble (d_of_Z 1); VDouble (d_of_Z 2)]];
      line 20 [ReadStmt [LVariable "a" SINGLE]];
      line 30 [DataStmt [VDouble (d_of_Z 3)]] ].

(** ** Checking a predicate on a block of integers *)

(** [f] holds on the 2^n integers from [lo] on. *)
Fixpoint all_in_block (n : nat) (lo : Z) (f : Z -> bool) : bool :=
  match n with
  | O => f lo
  | S n' => all_in_block n' lo f && all_in_block n' (lo + 2 ^ Z.of_nat n') f
  end.

(** The conversions that the interpreter applies to a 16-bit integer give
    the integer back. *)
Definition int16_converts (i : Z) : bool :=
  match to_integer (VInteger i), cast_int16 (d_of_Z i), cast_int (d_of_Z i) with
  | Some a, Some b, Some c => (a =? i) && (b =? i) && (c =? i)
  | _, _, _ => false
  end.

(** <<
    10 RETURN
    20 END
    >> *)
Definition stray_return_program : Program :=
  program_of [ line 10 [ReturnStmt None]; line 20 [EndStmt] ].

(** ** Token sequences *)

(** From position [pos] the input continues with the operators and
    operands [steps] of one binary level, each operator one of [ops] and
    each operand parsed by [operand], and then with a token that is none
    of [ops], at position [final]. *)
Inductive operator_chain (tokens : list Token) (ops : list TokenType) (operand : P Expr)
    : nat -> list (TokenType * Expr) -> nat -> Prop :=
| chain_end (pos : nat) :
    check_any tokens ops pos = false ->
    operator_chain tokens ops operand pos [] pos
| chain_step (pos pos' final : nat) (e : Expr) (steps : list (TokenType * Expr)) :
    (pos < length tokens)%nat ->
    check_any tokens ops pos = true ->
    operand (S pos) = POk e pos' ->
    operator_chain tokens ops operand pos' steps final ->
    operator_chain tokens ops operand pos ((tok_type (current tokens pos), e) :: steps) final.

(** The tree that a binary level builds from its first operand and the
    operators and operands that follow. *)
Definition left_nested (e0 : Expr) (steps : list (TokenType * Expr)) : Expr :=
  foldl (fun acc step => BinaryExpr step.1 acc step.2) e0 steps.

(** The tokens of [a ^ b ^ c], of [a - b - c], and of [a ^] followed by a
    sign and anything else. *)
Definition power_chain_tokens (a b c : string) : list Token :=
  [tok T_NUMBER a; tok T_POWER "^"; tok T_NUMBER b; tok T_POWER "^"; tok T_NUMBER c;
   tok T_END_OF_FILE ""].
Definition minus_chain_tokens (a b c : string) : list Token :=
  [tok T_NUMBER a; tok T_MINUS "-"; tok T_NUMBER b; tok T_MINUS "-"; tok T_NUMBER c;
   tok T_END_OF_FILE ""].
Definition power_sign_tokens (a : string) (sign : Token) (rest : list Token) : list Token :=
  tok T_NUMBER a :: tok T_POWER "^" :: sign :: rest.

(** ** A counting loop *)

(** <<
    10 FOR v = a TO b
    20 NEXT v
    30 END
    >> *)
Definition count_program (v : string) (a b : Z) : Program :=
  program_of
    [ line 10 [ForStmt v (NumberExpr (d_of_Z a)) (NumberExpr (d_of_Z b)) None];
      line 20 [NextStmt [v]];
      line 30 [EndStmt] ].

(** The value of a variable of type [t] that holds the integer [j]. *)
Definition counter_value (t : VarType) (j : Z) : Value :=
  match t with
  | INTEGER => VInteger j
  | SINGLE => VSingle (to_single (d_of_Z j))
  | DOUBLE => VDouble (d_of_Z j)
  | STRING => VString EmptyString
  end.

(** The same representation (sign, mantissa, exponent). *)
Definition sf_same (x y : spec_float) : bool :=
  match x, y with
  | S754_zero s, S754_zero s' => Bool.eqb s s'
  | S754_infinity s, S754_infinity s' => Bool.eqb s s'
  | S754_nan, S754_nan => true
  | S754_finite s m e, S754_finite s' m' e' => Bool.eqb s s' && Pos.eqb m m' && Z.eqb e e'
  | _, _ => false
  end.

(** Counting with a 16-bit integer is exact: it survives the conversion
    to [float] and back, and adding 1 gives the next integer. *)
Definition counts_exactly (j : Z) : bool :=
  sf_same (of_single (to_single (d_of_Z j))) (d_of_Z j)
  && sf_same (d_add (d_of_Z j) (d_of_Z 1)) (d_of_Z (j + 1)).

Section CountingLoop.
Context {UF : UnorderedMap string ForLoopState} {UD : UnorderedMap Z Z} {AL : Allocator}.

(** The interpreter inside the loop of [count_program], about to run
    the NEXT of line 20 with the variable at [j]. *)
Definition loop_machine (v : string) (a b j : Z) : Machine :=
  let rt0 := load (count_program v a b) Runtime_new in
  let state := {| resume_pc := running_at 10 0;
                  end_value := d_of_Z b;
                  step_value := d_of_Z 1 |} in
  {| runtime_ :=
       set_pc (running_at 20 0)
         (set_for_states (um_assign v state um_empty)
            (set_variables_
               (<[v := counter_value (resolve_type rt0 v) j]> (variables_ rt0)) rt0));
     state_ := {| st_error := None; statements_executed := 1 + (j - a);
                  pause_requested := false; skip_next_breakpoint := false |};
     printed := [] |}.

(** The interpreter after the loop, about to run the END of line 30. *)
Definition after_loop_machine (v : string) (a b : Z) : Machine :=
  let m := loop_machine v a b (b + 1) in
  with_runtime
    (set_pc (running_at 30 0)
       (set_for_states (um_erase v (for_states (runtime_ m))) (runtime_ m))) m.
End CountingLoop.
(* ===================================================================== *)
(** * Properties                                                         *)
(* ===================================================================== *)

Section ErrorState.
Context {UF : UnorderedMap string ForLoopState} {UD : UnorderedMap Z Z} {AL : Allocator}.

Lemma resolve_type_err (rt : Runtime) : resolve_type rt "err%" = INTEGER.
Proof. reflexivity. Qed.

Lemma store_err_zero (m : Machine) :
  store_variable "err%" (VInteger 0) m
  = (with_runtime
       (set_variables_ (<["err%" := VInteger 0]> (variables_ (runtime_ m))) (runtime_ m)) m,
     Ok tt).
Proof. reflexivity. Qed.

(** C10.  RESUME with no captured error PC raises RESUME without error
    (code 20), and by then ERR% has been overwritten with 0: whatever
    code it held before is gone. *)
Theorem resume_without_error_clears_err
    (m : Machine) (resume_type : ResumeType) (target_line : option Z) :
  error_pc (runtime_ m) = None ->
  exists m',
    exec_resume resume_type target_line m = (m', Throw ErrorCode.RESUME_WITHOUT_ERROR)
    /\ variables_ (runtime_ m') = <["err%" := VInteger 0]> (variables_ (runtime_ m))
    /\ get_variable (runtime_ m') "err%" = VInteger 0
    /\ error_pc (runtime_ m') = None.
Proof.
  intros Hpc. unfold exec_resume, bind. rewrite store_err_zero.
  cbn [get_rt runtime_ with_runtime error_pc set_variables_].
  rewrite Hpc. eexists. split; [reflexivity|].
  cbn. unfold get_variable. cbn. rewrite lookup_insert_eq. auto.
Qed.
End ErrorState.

Lemma resume_without_error_witness :
  get_variable (runtime_ machine_err11) "err%" = VInteger 11
  /\ error_pc (runtime_ machine_err11) = None
  /\ exists m',
      exec_resume RESUME_IMPLICIT None machine_err11
      = (m', Throw ErrorCode.RESUME_WITHOUT_ERROR)
      /\ variables_ (runtime_ m')
         = <["err%" := VInteger 0]> (variables_ (runtime_ machine_err11))
      /\ get_variable (runtime_ m') "err%" = VInteger 0
      /\ error_pc (runtime_ m') = None.
Proof.
  split; [reflexivity|]. split; [reflexivity|].
  apply (resume_without_error_clears_err machine_err11 RESUME_IMPLICIT None).
  reflexivity.
Defined.

Section ExecStack.
Context {UF : UnorderedMap string ForLoopState} {UD : UnorderedMap Z Z} {AL : Allocator}.

Lemma last_index_from_none {A} (P : A -> bool) (l : list A) (i : nat) (found : option nat) :
  Forall (fun x => P x = false) l -> last_index_from P l i found = found.
Proof.
  intros Hl. revert i found.
  induction Hl as [|x l Hx _ IH]; intros i found; cbn; [done|].
  rewrite Hx. apply IH.
Qed.

Lemma last_index_from_middle {A} (P : A -> bool) (l1 l2 : list A) (x : A)
    (i : nat) (found : option nat) :
  P x = true -> Forall (fun y => P y = false) l2 ->
  last_index_from P (l1 ++ x :: l2) i found = Some (i + length l1)%nat.
Proof.
  intros Hx Hl2. revert i found.
  induction l1 as [|y l1 IH]; intros i found; cbn.
  - rewrite Hx, last_index_from_none by done. f_equal. lia.
  - rewrite IH. f_equal. lia.
Qed.

Lemma last_index_middle {A} (P : A -> bool) (l1 l2 : list A) (x : A) :
  P x = true -> Forall (fun y => P y = false) l2 ->
  last_index P (l1 ++ x :: l2) = Some (length l1).
Proof. intros. unfold last_index. by rewrite last_index_from_middle. Qed.

Lemma while_is_not_gosub (above : list StackEntry) :
  Forall (fun e => entry_type e = WHILE) above ->
  Forall (fun e => is_gosub_entry e = false) above.
Proof.
  intros H. eapply Forall_impl; [exact H|].
  intros e He. unfold is_gosub_entry. rewrite He. done.
Qed.

(** C3, as the code has it.  With [g] the nearest GOSUB entry (only
    WHILE entries above it), RETURN removes [g] alone: the entries
    below and the WHILE entries above stay, in order; the jump target
    is [g]'s return_pc, or what [find_line] gives for RETURN n; nothing
    else in the interpreter changes. *)
Theorem return_removes_only_the_gosub
    (m : Machine) (below above : list StackEntry) (g : StackEntry)
    (target_line : option Z) :
  exec_stack (runtime_ m) = below ++ g :: above ->
  entry_type g = GOSUB ->
  Forall (fun e => entry_type e = WHILE) above ->
  let target :=
    match target_line with
    | Some l => find_line (statements (runtime_ m)) l
    | None => return_pc g
    end in
  exec_return target_line m
  = (with_runtime
       (set_exec_stack (below ++ above) (set_next_pc (Some target) (runtime_ m))) m,
     Ok tt).
Proof.
  intros Hstack Hg Habove target.
  unfold exec_return, bind, get_rt. cbn [runtime_].
  rewrite Hstack, last_index_middle;
    [| by unfold is_gosub_entry; rewrite Hg | by apply while_is_not_gosub].
  rewrite list_lookup_middle by done.
  unfold modify_rt. cbn [runtime_ with_runtime exec_stack set_next_pc].
  rewrite Hstack, delete_middle. reflexivity.
Qed.
End ExecStack.

Example machine_at_return_reached pow call_function :
  fst (run pow call_function 2 (boot gosub_while_program)) = machine_at_return.
Proof. vm_compute. reflexivity. Qed.

(** After RETURN the WHILE entry pushed inside the subroutine is still
    on the stack. *)
Lemma return_leaves_while_entry :
  let m' := fst (exec_return None machine_at_return) in
  snd (exec_return None machine_at_return) = Ok tt
  /\ exec_stack (runtime_ m') = [while_entry (running_at 100 0)]
  /\ next_pc (runtime_ m') = Some (running_at 20 0)
  /\ ~ Forall (fun e => entry_type e <> WHILE) (exec_stack (runtime_ m')).
Proof.
  vm_compute. repeat split.
  intros H. inversion H as [|e l He _]; subst. by apply He.
Qed.

Lemma return_removes_only_the_gosub_witness :
  exec_stack (runtime_ machine_at_return)
  = [] ++ gosub_entry (running_at 20 0) :: [while_entry (running_at 100 0)]
  /\ entry_type (gosub_entry (running_at 20 0)) = GOSUB
  /\ Forall (fun e => entry_type e = WHILE) [while_entry (running_at 100 0)]
  /\ exec_return None machine_at_return
     = (with_runtime
          (set_exec_stack ([] ++ [while_entry (running_at 100 0)])
             (set_next_pc (Some (running_at 20 0)) (runtime_ machine_at_return)))
          machine_at_return,
        Ok tt).
Proof.
  split; [reflexivity|]. split; [reflexivity|].
  split; [repeat constructor|].
  apply (return_removes_only_the_gosub machine_at_return []
           [while_entry (running_at 100 0)] (gosub_entry (running_at 20 0)) None).
  - reflexivity.
  - reflexivity.
  - repeat constructor.
Defined.

Section Assignment.
Context {UF : UnorderedMap string ForLoopState} {UD : UnorderedMap Z Z} {AL : Allocator}.
Variable pow : double -> double -> double.
Variable call_function : string -> list Value -> M Value.

Lemma coerce_string_to_numeric (s : string) (t : VarType) :
  t <> STRING -> coerce_to (VString s) t = Some (default_value t).
Proof. destruct t; intros Ht; try done; reflexivity. Qed.

Lemma coerce_zero_to_numeric (t t' : VarType) :
  t <> STRING -> t' <> STRING ->
  coerce_to (default_value t) t' = Some (default_value t').
Proof. destruct t, t'; intros Ht Ht'; try done; reflexivity. Qed.

Lemma coerce_numeric_to_string (v : Value) :
  is_string v = false -> coerce_to v STRING = Some (VString EmptyString).
Proof. intros Hv. cbn. by rewrite Hv. Qed.

Lemma coerce_string_to_string (s : string) :
  coerce_to (VString s) STRING = Some (VString s).
Proof. reflexivity. Qed.

(** LET with a string on the right and a numeric scalar on the left
    completes normally and stores the zero of the variable's type. *)
Lemma string_into_numeric_stores_zero (m : Machine) (name s : string) (type : VarType) :
  type <> STRING -> resolve_type (runtime_ m) name <> STRING ->
  set_lvalue pow call_function (LVariable name type) (VString s) m
  = (with_runtime
       (set_variables_
          (<[name := default_value (resolve_type (runtime_ m) name)]>
             (variables_ (runtime_ m)))
          (runtime_ m)) m,
     Ok tt).
Proof.
  intros Ht Hr.
  unfold set_lvalue, store_variable, bind, defined, get_rt, set_variable.
  rewrite coerce_string_to_numeric by done. cbn [ret runtime_].
  rewrite coerce_zero_to_numeric by done. reflexivity.
Qed.

(** LET with a number on the right and a string scalar on the left
    completes normally and stores the empty string. *)
Lemma numeric_into_string_stores_empty (m : Machine) (name : string) (v : Value) :
  is_string v = false -> resolve_type (runtime_ m) name = STRING ->
  set_lvalue pow call_function (LVariable name STRING) v m
  = (with_runtime
       (set_variables_ (<[name := VString EmptyString]> (variables_ (runtime_ m)))
          (runtime_ m)) m,
     Ok tt).
Proof.
  intros Hv Hr.
  unfold set_lvalue, store_variable, bind, defined, get_rt, set_variable.
  rewrite coerce_numeric_to_string by done. cbn [ret runtime_].
  rewrite Hr, coerce_string_to_string. reflexivity.
Qed.

(** C1 fails on the code.  An assignment to a scalar variable never
    raises a runtime error at all, whatever the value and the type of
    the target are: it completes (coercing silently), or the
    conversion of a NaN to an integer is undefined.  In particular it
    never raises Type mismatch (13). *)
Theorem scalar_assignment_never_raises
    (m : Machine) (name : string) (type : VarType) (val : Value) :
  let r := snd (set_lvalue pow call_function (LVariable name type) val m) in
  (r = Ok tt \/ r = Undefined FloatToInt)
  /\ r <> Throw ErrorCode.TYPE_MISMATCH.
Proof.
  cbn zeta.
  assert (H : snd (set_lvalue pow call_function (LVariable name type) val m) = Ok tt
              \/ snd (set_lvalue pow call_function (LVariable name type) val m)
                 = Undefined FloatToInt).
  { unfold set_lvalue, store_variable, bind, defined, get_rt.
    destruct (coerce_to val type) as [v|]; cbn; [|by right].
    destruct (set_variable name v (runtime_ m)) as [rt'|]; cbn; [by left|by right]. }
  split; [exact H|]. destruct H as [-> | ->]; discriminate.
Qed.
End Assignment.

(** [10 A = "HELLO"] and [10 N$ = 5] run to completion: no error is
    recorded, A reads 0 and N$ reads the empty string. *)
Example let_string_into_single pow call_function :
  let m := fst (run pow call_function 5
                  (boot (program_of
                           [line 10 [LetStmt (LVariable "a" SINGLE) (StringExpr "HELLO")]])))
             : Machine0 in
  st_error (state_ m) = None
  /\ get_variable (runtime_ m) "a" = VSingle d_zero
  /\ pc (runtime_ m) = halted END.
Proof. vm_compute. auto. Qed.

Example let_number_into_string pow call_function :
  let m := fst (run pow call_function 5
                  (boot (program_of
                           [line 10 [LetStmt (LVariable "n$" STRING) (NumberExpr (d_of_Z 5))]])))
             : Machine0 in
  st_error (state_ m) = None
  /\ get_variable (runtime_ m) "n$" = VString EmptyString
  /\ pc (runtime_ m) = halted END.
Proof. vm_compute. auto. Qed.

Section Division.
Context {UF : UnorderedMap string ForLoopState} {UD : UnorderedMap Z Z} {AL : Allocator}.
Variable pow : double -> double -> double.
Variable call_function : string -> list Value -> M Value.

(** [a / b]: the guard is the whole story, a floating division follows. *)
Lemma divide_guarded (m : Machine) (a b : double) :
  eval pow call_function (BinaryExpr T_DIVIDE (NumberExpr a) (NumberExpr b)) m
  = if d_eq b d_zero
    then raise_error ErrorCode.DIVISION_BY_ZERO m
    else (m, Ok (VDouble (d_div a b))).
Proof.
  cbn [eval]. unfold eval_binary.
  cbn [token_eqb token_code Z.eqb orb]. unfold bind, ret. cbn [to_number].
  destruct (d_eq b d_zero); reflexivity.
Qed.

(** [a \ b] and [a MOD b] with an exactly zero divisor raise error 11. *)
Lemma integer_division_zero_divisor (m : Machine) (rem : bool) (a b : double) :
  d_eq b d_zero = true ->
  eval pow call_function
    (BinaryExpr (if rem then T_MOD else T_BACKSLASH) (NumberExpr a) (NumberExpr b)) m
  = raise_error ErrorCode.DIVISION_BY_ZERO m.
Proof.
  intros Hb. destruct rem; cbn [eval]; unfold eval_binary;
    cbn [token_eqb token_code Z.eqb orb]; unfold bind, ret; cbn [to_number];
    rewrite Hb; reflexivity.
Qed.

(** A divisor that is not zero but truncates to zero passes the guard
    and reaches the integer division. *)
Lemma integer_division_truncated_divisor
    (m : Machine) (rem : bool) (a b : double) (ia : Z) :
  d_eq b d_zero = false -> cast_int b = Some 0 -> cast_int a = Some ia ->
  eval pow call_function
    (BinaryExpr (if rem then T_MOD else T_BACKSLASH) (NumberExpr a) (NumberExpr b)) m
  = (m, Undefined DivideByZero).
Proof.
  intros Hb Hcb Hca. destruct rem; cbn [eval]; unfold eval_binary;
    cbn [token_eqb token_code Z.eqb orb]; unfold bind, ret; cbn [to_number];
    rewrite Hb; unfold int_divide, bind, defined; rewrite Hca, Hcb; reflexivity.
Qed.

(** C6 fails on the code.  [1 \ 0.5] and [1 MOD 0.5] raise nothing:
    the guard compares the divisor with zero before truncating it, so
    the machine division [1 / 0] and [1 % 0] on [int] is performed. *)
Theorem integer_division_by_fraction_unguarded (m : Machine) :
  eval pow call_function
    (BinaryExpr T_BACKSLASH (NumberExpr d_one) (NumberExpr d_half)) m
  = (m, Undefined DivideByZero)
  /\ eval pow call_function
       (BinaryExpr T_MOD (NumberExpr d_one) (NumberExpr d_half)) m
     = (m, Undefined DivideByZero).
Proof.
  split.
  - apply (integer_division_truncated_divisor m false d_one d_half 1); reflexivity.
  - apply (integer_division_truncated_divisor m true d_one d_half 1); reflexivity.
Qed.
End Division.

(** ** The statement table built by [build] *)






Section Clear.
Context {UF : UnorderedMap string ForLoopState} {UD : UnorderedMap Z Z} {AL : Allocator}.
Variable pow : double -> double -> double.
Variable call_function : string -> list Value -> M Value.





End Clear.

Example machine_at_clear_reached pow call_function :
  fst (run pow call_function 4 (boot clear_program)) = machine_at_clear.
Proof. vm_compute. reflexivity. Qed.



Section DataPool.
Context {UF : UnorderedMap string ForLoopState} {UD : UnorderedMap Z Z} {AL : Allocator}.

Lemma um_items_first_assign {K V} `{UnorderedMap K V} (k : K) (v : V) :
  um_items (um_assign k v um_empty) = [(k, v)].
Proof.
  apply Permutation_singleton_r.
  rewrite um_assign_fresh; [by rewrite um_items_empty|].
  rewrite um_items_empty. apply not_elem_of_nil.
Qed.

Lemma load_data (p : Program) (rt : Runtime) :
  data_values (load p rt) = (foldl collect_line ([], um_empty) (lines p)).1
  /\ data_line_map (load p rt) = (foldl collect_line ([], um_empty) (lines p)).2
  /\ data_ptr (load p rt) = 0.
Proof. repeat split. Qed.

Lemma data_twice_collected :
  foldl collect_line ([], um_empty) (lines data_twice_program)
  = ([VDouble (d_of_Z 1); VDouble (d_of_Z 2)], um_assign 10 1 (um_assign 10 0 um_empty)).
Proof. reflexivity. Qed.

Lemma data_twice_line_10 : um_find 10 (um_assign 10 1 (um_assign 10 0 um_empty)) = Some 1.
Proof.
  unfold um_find. rewrite um_assign_present.
    - rewrite um_items_first_assign. reflexivity.
    - rewrite um_items_first_assign. cbn. left. 
Qed.

(** READ at a cursor inside the pool. *)
Lemma read_data_at (rt : Runtime) (i : Z) (v : Value) :
  0 <= i -> data_values rt !! Z.to_nat i = Some v ->
  read_data (set_data_ptr i rt) = (set_data_ptr (i + 1) (set_data_ptr i rt), Ok v).
Proof.
  intros Hi Hv. unfold read_data. cbn [data_values set_data_ptr data_ptr]. rewrite Hv.
  apply lookup_lt_Some in Hv.
  destruct (Z.leb_spec (Z.of_nat (length (data_values rt))) i); [lia|reflexivity].
Qed.

(** C4 fails on the code.  With two DATA statements on line 10 the map
    sends 10 to index 1, the start of the second statement, because
    every DATA statement overwrites the entry of its line; RESTORE 10
    followed by READ yields 2, not the first value 1 of the line.
    This holds for every implementation of the map. *)
Theorem restore_selects_last_data_statement :
  let rt := load data_twice_program Runtime_new in
  data_values rt = [VDouble (d_of_Z 1); VDouble (d_of_Z 2)]
  /\ um_find 10 (data_line_map rt) = Some 1
  /\ snd (read_data (restore_data (Some 10) rt)) = Ok (VDouble (d_of_Z 2)).
Proof.
  cbn zeta. destruct (load_data data_twice_program Runtime_new) as (Hv & Hm & Hp).
  rewrite data_twice_collected in Hv, Hm. cbn [fst snd] in Hv, Hm.
  assert (Hfind : um_find 10 (data_line_map (load data_twice_program Runtime_new)) = Some 1).
  { rewrite Hm. apply data_twice_line_10. }
  split; [exact Hv|]. split; [exact Hfind|].
  unfold restore_data. rewrite Hfind.
  rewrite (read_data_at _ 1 (VDouble (d_of_Z 2))); [reflexivity|lia|].
  rewrite Hv. reflexivity.
Qed.
End DataPool.

(** The same program run by the tick loop: A ends up as 2. *)
Example restore_then_read_gives_second pow call_function :
  let m := fst (run pow call_function 5 (boot data_twice_program)) : Machine0 in
  get_variable (runtime_ m) "a" = VSingle (to_single (d_of_Z 2))
  /\ st_error (state_ m) = None.
Proof. vm_compute. auto. Qed.

Section ParserSteps.
Variable toks : list Token.
Variable dmap : gmap ascii VarType.

Lemma advance_at (pos : nat) (t : Token) :
  toks !! pos = Some t -> advance toks pos = POk t (S pos).
Proof.
  intros H. unfold advance, current. rewrite H.
  apply lookup_lt_Some in H. apply Nat.ltb_lt in H. rewrite H. reflexivity.
Qed.

Lemma check_at (pos : nat) (t : Token) (ty : TokenType) :
  toks !! pos = Some t -> check toks ty pos = token_eqb (tok_type t) ty.
Proof. intros H. unfold check, current. rewrite H. reflexivity. Qed.

Lemma match_token_at (pos : nat) (t : Token) (ty : TokenType) :
  toks !! pos = Some t ->
  match_token toks ty pos
  = if token_eqb (tok_type t) ty then POk true (S pos) else POk false pos.
Proof.
  intros H. unfold match_token. rewrite (check_at _ _ _ H).
  destruct (token_eqb (tok_type t) ty); [|reflexivity].
  unfold pbind. rewrite (advance_at _ _ H). reflexivity.
Qed.

Lemma left_assoc_pass (ops : list TokenType) (operand : P Expr) (fuel pos pos' : nat)
    (e : Expr) :
  operand pos = POk e pos' ->
  check_any toks ops pos' = false ->
  left_assoc toks ops operand (S fuel) pos = POk e pos'.
Proof.
  intros Ho Hc. unfold left_assoc, pbind. rewrite Ho.
  cbn [binary_loop]. rewrite Hc. reflexivity.
Qed.

Lemma closes_no_operator (ops : list TokenType) (pos : nat) :
  closes_operand (tok_type (current toks pos)) = true ->
  forallb (fun t => negb (closes_operand t)) ops = true ->
  check_any toks ops pos = false.
Proof.
  intros Hc Ho. unfold check_any, check.
  induction ops as [|o ops IH]; [reflexivity|].
  cbn [existsb forallb] in *. apply andb_prop in Ho. destruct Ho as [Ho1 Ho2].
  rewrite (IH Ho2), orb_false_r.
  destruct (tok_type (current toks pos)); try discriminate Hc;
    destruct o; try discriminate Ho1; reflexivity.
Qed.

Section WithRec.
Variable rec : P Expr.

Lemma parse_primary_number (fuel pos : nat) (v : string) (val : double) :
  toks !! pos = Some (tok T_NUMBER v) ->
  stod v = Some val ->
  parse_primary toks dmap rec fuel pos = POk (NumberExpr val) (S pos).
Proof.
  intros H Hv. unfold parse_primary. rewrite (check_at _ _ _ H).
  unfold current. rewrite H. cbn [tok tok_type tok_value default from_option].
  change (token_eqb T_NUMBER T_NUMBER) with true. cbv iota.
  change (tok_value (id (tok T_NUMBER v))) with v.
  rewrite Hv. unfold pbind. rewrite (advance_at _ _ H). reflexivity.
Qed.

Lemma parse_primary_paren (fuel pos pos' : nat) (e : Expr) (t : Token) :
  toks !! pos = Some (tok T_LPAREN "(") ->
  rec (S pos) = POk e pos' ->
  toks !! pos' = Some (tok T_RPAREN ")") ->
  parse_primary toks dmap rec fuel pos = POk e (S pos').
Proof.
  intros H Hr Hc. unfold parse_primary. rewrite !(check_at _ _ _ H).
  cbn [tok tok_type]. 
  change (token_eqb T_LPAREN T_NUMBER) with false.
  change (token_eqb T_LPAREN T_STRING) with false.
  change (token_eqb T_LPAREN T_LPAREN) with true. cbv iota.
  unfold pbind. rewrite (advance_at _ _ H), Hr.
  unfold expect. rewrite (check_at _ _ _ Hc).
  change (token_eqb (tok_type (tok T_RPAREN ")")) T_RPAREN) with true. cbv iota.
  rewrite (advance_at _ _ Hc). reflexivity.
Qed.

(** [a ^ b] followed by a token that is not [^]. *)
Lemma parse_power_pair (fuel pos : nat) (a b : string) (va vb : double) (t : Token) :
  toks !! pos = Some (tok T_NUMBER a) ->
  toks !! S pos = Some (tok T_POWER "^") ->
  toks !! S (S pos) = Some (tok T_NUMBER b) ->
  toks !! S (S (S pos)) = Some t ->
  token_eqb (tok_type t) T_POWER = false ->
  stod a = Some va -> stod b = Some vb ->
  parse_power toks dmap rec (S (S fuel)) pos
  = POk (BinaryExpr T_POWER (NumberExpr va) (NumberExpr vb)) (S (S (S pos))).
Proof.
  intros H0 H1 H2 H3 Ht Ha Hb. cbn [parse_power]. unfold pbind.
  rewrite (parse_primary_number _ _ _ _ H0 Ha).
  rewrite (match_token_at _ _ _ H1).
  change (token_eqb (tok_type (tok T_POWER "^")) T_POWER) with true. cbv iota beta.
  rewrite (parse_primary_number _ _ _ _ H2 Hb).
  rewrite (match_token_at _ _ _ H3), Ht. reflexivity.
Qed.

(** A primary followed by a token that is not [^]. *)
Lemma parse_power_primary (fuel pos pos' : nat) (e : Expr) (t : Token) :
  parse_primary toks dmap rec fuel pos = POk e pos' ->
  toks !! pos' = Some t ->
  token_eqb (tok_type t) T_POWER = false ->
  parse_power toks dmap rec (S fuel) pos = POk e pos'.
Proof.
  intros Hp H Ht. cbn [parse_power]. unfold pbind. rewrite Hp.
  rewrite (match_token_at _ _ _ H), Ht. reflexivity.
Qed.

Lemma parse_unary_plain (fuel pos : nat) (t : Token) :
  toks !! pos = Some t ->
  token_eqb (tok_type t) T_MINUS = false ->
  token_eqb (tok_type t) T_PLUS = false ->
  parse_unary toks dmap rec (S fuel) pos = parse_power toks dmap rec fuel pos.
Proof.
  intros H Hm Hp. cbn [parse_unary]. unfold check_any. cbn [existsb].
  rewrite !(check_at _ _ _ H), Hm, Hp. reflexivity.
Qed.

Lemma parse_unary_signed (fuel pos : nat) :
  check_any toks [T_MINUS; T_PLUS] pos = true ->
  parse_unary toks dmap rec (S fuel) pos
  = pbind (advance toks)
      (fun op => pbind (parse_unary toks dmap rec fuel)
         (fun operand =>
            if token_eqb (tok_type op) T_MINUS
            then pret (UnaryExpr T_MINUS operand)
            else pret operand)) pos.
Proof. intros H. cbn [parse_unary]. rewrite H. reflexivity. Qed.

(** A minus sign in front of an operand that does not start with a sign. *)
Lemma parse_unary_minus (fuel pos pos' : nat) (e : Expr) (t : Token) :
  toks !! pos = Some (tok T_MINUS "-") ->
  toks !! S pos = Some t ->
  token_eqb (tok_type t) T_MINUS = false ->
  token_eqb (tok_type t) T_PLUS = false ->
  parse_power toks dmap rec fuel (S pos) = POk e pos' ->
  parse_unary toks dmap rec (S (S fuel)) pos = POk (UnaryExpr T_MINUS e) pos'.
Proof.
  intros H0 H1 Hm Hp He. rewrite parse_unary_signed.
  - unfold pbind. rewrite (advance_at _ _ H0).
    rewrite (parse_unary_plain _ _ _ H1 Hm Hp), He. reflexivity.
  - unfold check_any. cbn [existsb]. rewrite (check_at _ _ _ H0). reflexivity.
Qed.

(** An operand that does not start with NOT and is followed by the end
    of the input or a closing parenthesis is the whole expression. *)
Lemma levels_pass (fuel pos pos' : nat) (e : Expr) (t : Token) :
  toks !! pos = Some t ->
  token_eqb (tok_type t) T_NOT = false ->
  parse_unary toks dmap rec (S fuel) pos = POk e pos' ->
  closes_operand (tok_type (current toks pos')) = true ->
  parse_imp_expr toks dmap rec (S (S fuel)) pos = POk e pos'.
Proof.
  intros H Hn Hu Hc.
  unfold parse_imp_expr, parse_eqv_expr, parse_xor_expr, parse_or_expr, parse_and_expr.
  do 5 (apply left_assoc_pass; [|apply closes_no_operator; [exact Hc|reflexivity]]).
  cbn [parse_not_expr]. unfold pbind at 1.
  rewrite (match_token_at _ _ _ H), Hn.
  unfold parse_comparison, parse_additive, parse_mod_expr, parse_int_div_expr,
    parse_multiplicative.
  do 5 (apply left_assoc_pass; [|apply closes_no_operator; [exact Hc|reflexivity]]).
  exact Hu.
Qed.
End WithRec.
End ParserSteps.

Lemma parse_minus_power (dmap : gmap ascii VarType) (a b : string) (va vb : double) (k : nat) :
  stod a = Some va -> stod b = Some vb ->
  parse_expression (minus_power_tokens a b) dmap (6 + k)%nat 0%nat
  = POk (UnaryExpr T_MINUS (BinaryExpr T_POWER (NumberExpr va) (NumberExpr vb))) 4%nat.
Proof.
  intros Ha Hb. change (6 + k)%nat with (S (S (S (S (S (S k)))))).
  cbn [parse_expression].
  eapply levels_pass; [reflexivity|reflexivity| |reflexivity].
  eapply parse_unary_minus; [reflexivity|reflexivity|reflexivity|reflexivity|].
  eapply parse_power_pair; [reflexivity|reflexivity|reflexivity|reflexivity|reflexivity|exact Ha|exact Hb].
Qed.

Lemma parse_minus_paren_power (dmap : gmap ascii VarType) (a b : string) (va vb : double) (k : nat) :
  stod a = Some va -> stod b = Some vb ->
  parse_expression (minus_paren_power_tokens a b) dmap (7 + k)%nat 0%nat
  = POk (UnaryExpr T_MINUS (BinaryExpr T_POWER (NumberExpr va) (NumberExpr vb))) 6%nat.
Proof.
  intros Ha Hb. change (7 + k)%nat with (S (S (S (S (S (S (S k))))))).
  cbn [parse_expression].
  eapply levels_pass; [reflexivity|reflexivity| |reflexivity].
  eapply parse_unary_minus; [reflexivity|reflexivity|reflexivity|reflexivity|].
  eapply parse_power_primary; [|reflexivity|reflexivity].
  eapply (parse_primary_paren _ _ _ _ 1 5); [exact (tok T_MINUS "-")|reflexivity| |reflexivity].
  eapply levels_pass; [reflexivity|reflexivity| |reflexivity].
  rewrite (parse_unary_plain _ _ _ _ 2 (tok T_NUMBER a)); [|reflexivity..].
  eapply parse_power_pair; [reflexivity|reflexivity|reflexivity|reflexivity|reflexivity|exact Ha|exact Hb].
Qed.

Section MinusPower.
Context {UF : UnorderedMap string ForLoopState} {UD : UnorderedMap Z Z} {AL : Allocator}.
Variable pow : double -> double -> double.
Variable call_function : string -> list Value -> M Value.

Lemma eval_minus_power (m : Machine) (va vb : double) :
  eval pow call_function
    (UnaryExpr T_MINUS (BinaryExpr T_POWER (NumberExpr va) (NumberExpr vb))) m
  = (m, Ok (VDouble (d_neg (pow va vb)))).
Proof. reflexivity. Qed.

(** C8.  Unary minus binds looser than [^]: for two number tokens whose
    texts convert to [va] and [vb], the tokens of [-a^b] parse to the
    negation of the power, the same tree as the tokens of [-(a^b)], and
    that tree evaluates to the negated result of [std::pow], leaving
    the machine as it was. *)
Theorem unary_minus_looser_than_power
    (dmap : gmap ascii VarType) (a b : string) (va vb : double) (k : nat) (m : Machine) :
  stod a = Some va ->
  stod b = Some vb ->
  let negated_power :=
    UnaryExpr T_MINUS (BinaryExpr T_POWER (NumberExpr va) (NumberExpr vb)) in
  parse_expression (minus_power_tokens a b) dmap (6 + k)%nat 0%nat
  = POk negated_power 4%nat
  /\ parse_expression (minus_paren_power_tokens a b) dmap (7 + k)%nat 0%nat
     = POk negated_power 6%nat
  /\ eval pow call_function negated_power m = (m, Ok (VDouble (d_neg (pow va vb)))).
Proof.
  intros Ha Hb negated_power. split; [|split].
  - exact (parse_minus_power dmap a b va vb k Ha Hb).
  - exact (parse_minus_paren_power dmap a b va vb k Ha Hb).
  - apply eval_minus_power.
Qed.
End MinusPower.

Lemma unary_minus_looser_than_power_witness :
  stod "2" = Some (d_of_Z 2)
  /\ pow_exact (d_of_Z 2) (d_of_Z 2) = d_of_Z 4
  /\ d_neg (d_of_Z 4) = d_of_Z (-4)
  /\ let negated_power :=
       UnaryExpr T_MINUS (BinaryExpr T_POWER (NumberExpr (d_of_Z 2)) (NumberExpr (d_of_Z 2))) in
     parse_expression (minus_power_tokens "2" "2") all_single 6%nat 0%nat
     = POk negated_power 4%nat
     /\ parse_expression (minus_paren_power_tokens "2" "2") all_single 7%nat 0%nat
        = POk negated_power 6%nat
     /\ eval pow_exact call_embedded negated_power machine_idle
        = (machine_idle,
           Ok (VDouble (d_neg (pow_exact (d_of_Z 2) (d_of_Z 2))))).
Proof.
  split; [vm_compute; reflexivity|]. split; [vm_compute; reflexivity|].
  split; [vm_compute; reflexivity|].
  apply (unary_minus_looser_than_power pow_exact call_embedded all_single "2" "2"
           (d_of_Z 2) (d_of_Z 2) 0%nat machine_idle);
    vm_compute; reflexivity.
Defined.

Section BareNext.
Context {UF : UnorderedMap string ForLoopState} {UD : UnorderedMap Z Z} {AL : Allocator}.
Variable pow : double -> double -> double.
Variable call_function : string -> list Value -> M Value.

(** Assigning to a key that is present leaves [begin()] where it was. *)
Lemma um_begin_assign_present (k : string) (v : ForLoopState) (fs : umap string ForLoopState) :
  k ∈ (um_items fs).*1 -> um_begin (um_assign k v fs) = um_begin fs.
Proof.
  intros Hin. unfold um_begin. rewrite (um_assign_present _ _ _ Hin).
  destruct (um_items fs) as [|[k0 v0] l]; [reflexivity|].
  cbn. destruct (decide (k0 = k)) as [->|]; reflexivity.
Qed.

Lemma um_begin_is_key (fs : umap string ForLoopState) :
  um_is_empty fs = false -> exists k, um_begin fs = Some k /\ k ∈ (um_items fs).*1.
Proof.
  unfold um_is_empty, um_begin. destruct (um_items fs) as [|[k v] l]; [discriminate|].
  intros _. exists k. split; [reflexivity|]. cbn. apply list_elem_of_here.
Qed.

Lemma um_not_empty (k : string) (fs : umap string ForLoopState) :
  k ∈ (um_items fs).*1 -> um_is_empty fs = false.
Proof.
  unfold um_is_empty. destruct (um_items fs); [|reflexivity].
  intros H. cbn in H. inversion H.
Qed.

Lemma um_find_assign_present (k : string) (v : ForLoopState) (fs : umap string ForLoopState) :
  k ∈ (um_items fs).*1 -> um_find k (um_assign k v fs) = Some v.
Proof.
  intros Hin. unfold um_find. rewrite (um_assign_present _ _ _ Hin).
  induction (um_items fs) as [|[k0 v0] l IH]; [inversion Hin|].
  cbn. destruct (decide (k0 = k)) as [->|Hne].
  - cbn. rewrite bool_decide_eq_true_2; reflexivity.
  - cbn. rewrite bool_decide_eq_false_2 by exact Hne.
    apply IH. cbn in Hin. apply elem_of_cons in Hin. destruct Hin as [->|]; [congruence|assumption].
Qed.

(** A bare NEXT names the key of [for_states.begin()]. *)
Lemma next_var_names_bare (m : Machine) (k : string) :
  um_begin (for_states (runtime_ m)) = Some k ->
  next_var_names [] m = (m, Ok [k]).
Proof.
  intros Hb. unfold next_var_names, bind, get_rt.
  assert (um_is_empty (for_states (runtime_ m)) = false) as ->.
  { unfold um_is_empty. unfold um_begin in Hb.
    destruct (um_items (for_states (runtime_ m))); [discriminate|reflexivity]. }
  rewrite Hb. reflexivity.
Qed.

(** With no FOR record a bare NEXT raises NEXT without FOR. *)
Lemma bare_next_without_for (m : Machine) :
  um_is_empty (for_states (runtime_ m)) = true ->
  exists m', exec_next [] m = (m', Throw ErrorCode.NEXT_WITHOUT_FOR)
             /\ for_states (runtime_ m') = for_states (runtime_ m).
Proof.
  intros He. unfold exec_next, next_var_names, bind, get_rt. rewrite He.
  eexists. split; reflexivity.
Qed.

(** A FOR with literal bounds whose body is entered stores the start
    value and assigns the loop's record. *)
Lemma exec_for_entered (m : Machine) (v : string) (a b : double) :
  resolve_type (runtime_ m) v = SINGLE ->
  d_gt a b = false ->
  exec_for pow call_function v (NumberExpr a) (NumberExpr b) None m
  = (with_runtime
       (set_for_states
          (um_assign v (for_record (pc (runtime_ m)) b) (for_states (runtime_ m)))
          (set_variables_ (<[v := VSingle (to_single a)]> (variables_ (runtime_ m)))
             (runtime_ m))) m,
     Ok tt).
Proof.
  intros Ht Hgt. unfold exec_for, bind. cbn [eval ret to_number].
  unfold store_variable, bind, get_rt, set_variable. rewrite Ht.
  cbn [coerce_to mbind option_bind defined ret modify_rt].
  rewrite Hgt. reflexivity.
Qed.

(** C2.  A bare NEXT does not follow the order in which the FOR loops
    were entered.  In a state with two active loops, on variables [i]
    and [j] of the default type, entering a FOR on [i] and entering a
    FOR on [j] (literal bounds, body entered) lead to two states in which
    the bare NEXT steps the same variable [k]: re-assigning a record that
    is present does not move it in the table.  So in at least one of the
    two states the variable stepped is not the one of the FOR entered
    last. *)
Theorem bare_next_ignores_entry_order (m : Machine) (i j : string) (a b : double) :
  i <> j ->
  i ∈ (um_items (for_states (runtime_ m))).*1 ->
  j ∈ (um_items (for_states (runtime_ m))).*1 ->
  resolve_type (runtime_ m) i = SINGLE ->
  resolve_type (runtime_ m) j = SINGLE ->
  d_gt a b = false ->
  exists (mi mj : Machine) (k : string),
    exec_for pow call_function i (NumberExpr a) (NumberExpr b) None m = (mi, Ok tt)
    /\ exec_for pow call_function j (NumberExpr a) (NumberExpr b) None m = (mj, Ok tt)
    /\ um_find i (for_states (runtime_ mi)) = Some (for_record (pc (runtime_ m)) b)
    /\ um_find j (for_states (runtime_ mj)) = Some (for_record (pc (runtime_ m)) b)
    /\ exec_next [] mi = next_loop [k] mi
    /\ exec_next [] mj = next_loop [k] mj
    /\ (k <> i \/ k <> j).
Proof.
  intros Hij Hi Hj Hti Htj Hgt.
  destruct (um_begin_is_key (for_states (runtime_ m)) (um_not_empty _ _ Hi))
    as (k & Hk & _).
  eexists _, _, k.
  split; [apply (exec_for_entered m i a b Hti Hgt)|].
  split; [apply (exec_for_entered m j a b Htj Hgt)|].
  cbn [runtime_ with_runtime for_states set_for_states].
  split; [apply um_find_assign_present; exact Hi|].
  split; [apply um_find_assign_present; exact Hj|].
  split; [|split].
  - unfold exec_next, bind. rewrite (next_var_names_bare _ k); [reflexivity|].
    cbn [runtime_ with_runtime for_states set_for_states].
    rewrite um_begin_assign_present; assumption.
  - unfold exec_next, bind. rewrite (next_var_names_bare _ k); [reflexivity|].
    cbn [runtime_ with_runtime for_states set_for_states].
    rewrite um_begin_assign_present; assumption.
  - destruct (decide (k = i)) as [->|]; [right; exact Hij|left; assumption].
Qed.
End BareNext.

(** [reentered_for_program] on the front-inserting table: the NEXT of
    line 40 steps J and jumps back to line 30, although the FOR entered
    last is the one on I at line 30. *)
Example bare_next_steps_outer_loop :
  let m := fst (run pow_exact call_embedded 4 (boot reentered_for_program)) : Machine0 in
  get_variable (runtime_ m) "i" = VSingle (to_single (d_of_Z 1))
  /\ get_variable (runtime_ m) "j" = VSingle (to_single (d_of_Z 2))
  /\ pc (runtime_ m) = running_at 30 0
  /\ st_error (state_ m) = None.
Proof. vm_compute. auto. Qed.

Lemma bare_next_ignores_entry_order_witness :
  exists (mi mj : Machine0) (k : string),
    exec_for pow_exact call_embedded "i" (NumberExpr (d_of_Z 1)) (NumberExpr (d_of_Z 9)) None
      machine_in_two_loops = (mi, Ok tt)
    /\ exec_for pow_exact call_embedded "j" (NumberExpr (d_of_Z 1)) (NumberExpr (d_of_Z 9)) None
         machine_in_two_loops = (mj, Ok tt)
    /\ um_find "i" (for_states (runtime_ mi))
       = Some (for_record (pc (runtime_ machine_in_two_loops)) (d_of_Z 9))
    /\ um_find "j" (for_states (runtime_ mj))
       = Some (for_record (pc (runtime_ machine_in_two_loops)) (d_of_Z 9))
    /\ exec_next [] mi = next_loop [k] mi
    /\ exec_next [] mj = next_loop [k] mj
    /\ (k <> "i" \/ k <> "j").
Proof.
  apply (bare_next_ignores_entry_order pow_exact call_embedded machine_in_two_loops
           "i" "j" (d_of_Z 1) (d_of_Z 9)).
  - discriminate.
  - apply (bool_decide_unpack _). vm_compute. exact I.
  - apply (bool_decide_unpack _). vm_compute. exact I.
  - reflexivity.
  - reflexivity.
  - vm_compute. reflexivity.
Defined.

(** ** Integers below 2^53 are represented exactly *)

Lemma digits2_pos_size (p : positive) : digits2_pos p = Pos.size p.
Proof. induction p; cbn; congruence. Qed.

Lemma digits2_pos_iter (p d : positive) :
  digits2_pos (Pos.iter xO p d) = (digits2_pos p + d)%positive.
Proof.
  induction d as [|d IH] using Pos.peano_ind.
  - cbn. lia.
  - rewrite Pos.iter_succ. cbn. rewrite IH. lia.
Qed.

Lemma Zpos_iter_xO (p d : positive) : Zpos (Pos.iter xO p d) = Zpos p * 2 ^ Zpos d.
Proof.
  induction d as [|d IH] using Pos.peano_ind.
  - cbn. lia.
  - rewrite Pos.iter_succ, Pos2Z.inj_succ, Z.pow_succ_r by lia.
    rewrite Pos2Z.inj_xO, IH. lia.
Qed.

Lemma digits2_pos_bound (p : positive) (k : Z) :
  0 <= k -> Zpos p < 2 ^ k -> Zpos (digits2_pos p) <= k.
Proof.
  intros Hk Hp. rewrite digits2_pos_size.
  pose proof (Pos.size_le p) as Hle.
  assert (2 ^ Zpos (Pos.size p) <= 2 * Zpos p) as H2.
  { change 2 with (Zpos 2) at 1. rewrite <- Pos2Z.inj_pow. lia. }
  destruct (Z.le_gt_cases (Zpos (Pos.size p)) k) as [|Hgt]; [assumption|].
  assert (2 ^ (k + 1) <= 2 ^ Zpos (Pos.size p)) by (apply Z.pow_le_mono_r; lia).
  rewrite Z.pow_add_r in * by lia. lia.
Qed.

Lemma digits2_pos_lower (p : positive) : 2 ^ (Zpos (digits2_pos p) - 1) <= Zpos p.
Proof.
  rewrite digits2_pos_size.
  pose proof (Pos.size_le p) as Hle.
  assert (2 ^ Zpos (Pos.size p) <= 2 * Zpos p) as H2.
  { change 2 with (Zpos 2) at 1. rewrite <- Pos2Z.inj_pow. lia. }
  replace (Zpos (Pos.size p)) with (Z.succ (Zpos (Pos.size p) - 1)) in H2 by lia.
  rewrite Z.pow_succ_r in H2 by lia. lia.
Qed.

(** A mantissa of exactly 53 bits in the exponent range needs no rounding. *)
Lemma binary_round_aux_exact (s : bool) (mz : positive) (ez : Z) :
  digits2_pos mz = 53%positive ->
  -1074 <= ez <= 971 ->
  binary_round_aux d_prec d_emax s (Zpos mz) ez loc_Exact = S754_finite s mz ez.
Proof.
  intros Hd He. unfold binary_round_aux, shr_fexp.
  cbn [Zdigits2 shr_record_of_loc]. rewrite Hd.
  replace (fexp d_prec d_emax (53 + ez) - ez) with 0
    by (unfold fexp, emin, d_prec, d_emax; lia).
  cbn [shr shr_m loc_of_shr_record round_nearest_even Zdigits2]. rewrite Hd.
  replace (fexp d_prec d_emax (53 + ez) - ez) with 0
    by (unfold fexp, emin, d_prec, d_emax; lia).
  cbn [shr shr_m].
  replace (ez <=? d_emax - d_prec) with true; [reflexivity|].
  symmetry. apply Z.leb_le. unfold d_emax, d_prec. lia.
Qed.

(** The double of a positive integer below 2^53: the integer shifted up
    to 53 bits. *)
Lemma binary_round_integer (s : bool) (p : positive) :
  Zpos p < 2 ^ 53 ->
  exists (mz : positive) (k : Z),
    binary_round d_prec d_emax s p 0 = S754_finite s mz (- k)
    /\ 0 <= k <= 52
    /\ Zpos mz = Zpos p * 2 ^ k
    /\ digits2_pos mz = 53%positive.
Proof.
  intros Hp.
  pose proof (digits2_pos_bound p 53 ltac:(lia) Hp) as Hdg.
  unfold binary_round, shl_align.
  replace (fexp d_prec d_emax (Zpos (digits2_pos p) + 0)) with (Zpos (digits2_pos p) - 53)
    by (unfold fexp, emin, d_prec, d_emax; lia).
  destruct (Zpos (digits2_pos p) - 53 - 0) as [|d|d] eqn:Hsh; [|lia|].
  - exists p, 0. rewrite binary_round_aux_exact; [|lia|lia].
    repeat split; try lia.
  - exists (Pos.iter xO p d), (Zpos d).
    replace (Zpos (digits2_pos p) - 53) with (- Zpos d) by lia.
    rewrite binary_round_aux_exact; [| rewrite digits2_pos_iter; lia | lia].
    repeat split; try lia.
    + apply Zpos_iter_xO.
    + rewrite digits2_pos_iter; lia.
Qed.

Lemma d_of_Z_pos (p : positive) : d_of_Z (Zpos p) = binary_round d_prec d_emax false p 0.
Proof. reflexivity. Qed.

Lemma d_of_Z_neg (p : positive) : d_of_Z (Zneg p) = binary_round d_prec d_emax true p 0.
Proof. reflexivity. Qed.

Lemma d_trunc_shifted (s : bool) (mz p : positive) (k : Z) :
  0 <= k -> Zpos mz = Zpos p * 2 ^ k ->
  d_trunc (S754_finite s mz (- k)) = Some (cond_Zopp s (Zpos p)).
Proof.
  intros Hk Hm. unfold d_trunc. rewrite Hm.
  rewrite <- Z.shiftr_opp_r, Z.opp_involutive, Z.shiftr_div_pow2 by lia.
  rewrite Z.div_mul by lia. reflexivity.
Qed.

Lemma SFcompare_refl_finite (s : bool) (m : positive) (e : Z) :
  SFcompare (S754_finite s m e) (S754_finite s m e) = Some Eq.
Proof.
  cbn. rewrite Z.compare_refl, Pos.compare_cont_refl. destruct s; reflexivity.
Qed.

Lemma cast_int64_shifted (s : bool) (mz p : positive) (k : Z) :
  0 <= k -> Zpos mz = Zpos p * 2 ^ k -> Zpos p < 2 ^ 53 ->
  cast_int64 (S754_finite s mz (- k)) = Some (cond_Zopp s (Zpos p)).
Proof.
  intros Hk Hm Hp. unfold cast_int64, cast_signed.
  rewrite (d_trunc_shifted _ _ p) by assumption.
  assert (- 2 ^ (64 - 1) <= cond_Zopp s (Zpos p) < 2 ^ (64 - 1)) as [Hlo Hhi].
  { change (2 ^ (64 - 1)) with 9223372036854775808.
    change (2 ^ 53) with 9007199254740992 in Hp. destruct s; cbn [cond_Zopp]; lia. }
  apply Z.leb_le in Hlo. apply Z.ltb_lt in Hhi. rewrite Hlo, Hhi. reflexivity.
Qed.

(** ** Decimal numerals *)

Lemma is_digit_cases (c : ascii) :
  is_digit c = true ->
  (c = "0" \/ c = "1" \/ c = "2" \/ c = "3" \/ c = "4"
   \/ c = "5" \/ c = "6" \/ c = "7" \/ c = "8" \/ c = "9")%char.
Proof.
  destruct c as [[] [] [] [] [] [] [] []]; intros H; vm_compute in H;
    try discriminate H; tauto.
Qed.

Lemma digit_char_spec (k : Z) :
  0 <= k < 10 ->
  is_digit (digit_char k) = true /\ Z.of_nat (nat_of_ascii (digit_char k)) - 48 = k.
Proof.
  intros Hk.
  assert (k = 0 \/ k = 1 \/ k = 2 \/ k = 3 \/ k = 4
          \/ k = 5 \/ k = 6 \/ k = 7 \/ k = 8 \/ k = 9) as Hcases by lia.
  repeat (destruct Hcases as [->|Hcases]; [vm_compute; split; reflexivity|]).
  subst k. vm_compute. split; reflexivity.
Qed.

Lemma string_app_cons (c : ascii) (a b : string) :
  (String c a ++ b)%string = String c (a ++ b)%string.
Proof. reflexivity. Qed.

Lemma all_digits_app (a b : string) :
  all_digits (a ++ b) = all_digits a && all_digits b.
Proof.
  induction a as [|c a IH]; [reflexivity|].
  rewrite string_app_cons. cbn [all_digits]. rewrite IH, andb_assoc. reflexivity.
Qed.

Lemma digits_val_app (a b : string) (acc : Z) :
  digits_val (a ++ b) acc = digits_val b (digits_val a acc).
Proof.
  revert acc. induction a as [|c a IH]; intros acc; [reflexivity|].
  rewrite string_app_cons. cbn [digits_val]. apply IH.
Qed.

Lemma string_app_assoc (a b c : string) : ((a ++ b) ++ c = a ++ (b ++ c))%string.
Proof. induction a as [|x a IH]; [reflexivity|]. rewrite !string_app_cons, IH. reflexivity. Qed.

Lemma string_app_nil_r (a : string) : (a ++ "")%string = a.
Proof. induction a as [|x a IH]; [reflexivity|]. rewrite !string_app_cons, IH. reflexivity. Qed.

Lemma string_length_app (a b : string) :
  String.length (a ++ b) = (String.length a + String.length b)%nat.
Proof. induction a as [|x a IH]; [reflexivity|]. rewrite string_app_cons. cbn [String.length]. rewrite IH. reflexivity. Qed.

(** [dec_digits] writes the numeral of [n] in front of [acc]. *)
Lemma dec_digits_spec (fuel : nat) :
  forall (n : Z) (acc : string),
    0 <= n < 2 ^ Z.of_nat (S fuel) ->
    exists ds : string,
      dec_digits (S fuel) n acc = (ds ++ acc)%string
      /\ all_digits ds = true
      /\ ds <> EmptyString
      /\ forall a, digits_val ds a = a * 10 ^ Z.of_nat (String.length ds) + n.
Proof.
  induction fuel as [|fuel IH]; intros n acc Hn.
  - exists (String (digit_char (n mod 10)) EmptyString).
    change (2 ^ Z.of_nat 1) with 2 in Hn.
    rewrite Z.mod_small by lia.
    destruct (digit_char_spec n ltac:(lia)) as [Hd Hv].
    split; [cbn [dec_digits]; rewrite Z.mod_small by lia; destruct (n <? 10); reflexivity|].
    split; [cbn [all_digits]; rewrite Hd; reflexivity|].
    split; [discriminate|].
    intros a. cbn [digits_val String.length]. rewrite Hv.
    change (10 ^ Z.of_nat 1) with 10. reflexivity.
  - change (dec_digits (S (S fuel)) n acc)
      with (let acc' := String (digit_char (n mod 10)) acc in
            if n <? 10 then acc' else dec_digits (S fuel) (n / 10) acc').
    cbv zeta.
    assert (0 <= n mod 10 < 10) as Hmod by (apply Z.mod_pos_bound; lia).
    destruct (digit_char_spec (n mod 10) Hmod) as [Hd Hv].
    destruct (Z.ltb_spec n 10) as [Hlt|Hge].
    + exists (String (digit_char (n mod 10)) EmptyString).
      split; [reflexivity|].
      split; [cbn [all_digits]; rewrite Hd; reflexivity|].
      split; [discriminate|].
      intros a. cbn [digits_val String.length]. rewrite Hv.
      change (10 ^ Z.of_nat 1) with 10. rewrite Z.mod_small by lia. reflexivity.
    + destruct (IH (n / 10) (String (digit_char (n mod 10)) acc)) as (ds & Heq & Hall & Hne & Hval).
      { split; [apply Z.div_pos; lia|].
        apply Z.div_lt_upper_bound; [lia|].
        rewrite (Nat2Z.inj_succ (S fuel)), Z.pow_succ_r in Hn by lia. lia. }
      exists (ds ++ String (digit_char (n mod 10)) EmptyString)%string.
      split; [rewrite Heq, string_app_assoc; reflexivity|].
      split; [rewrite all_digits_app, Hall; cbn [all_digits]; rewrite Hd; reflexivity|].
      split; [destruct ds; [congruence|discriminate]|].
      intros a. rewrite digits_val_app, Hval. cbn [digits_val]. rewrite Hv.
      rewrite string_length_app. cbn [String.length].
      rewrite Nat2Z.inj_add, Z.pow_add_r by lia.
      change (10 ^ Z.of_nat 1) with 10.
      pose proof (Z.div_mod n 10 ltac:(lia)). lia.
Qed.

Lemma dec_of_nonneg_spec (n : Z) :
  0 <= n ->
  all_digits (dec_of_nonneg n) = true
  /\ dec_of_nonneg n <> EmptyString
  /\ digits_val (dec_of_nonneg n) 0 = n.
Proof.
  intros Hn. unfold dec_of_nonneg.
  destruct (dec_digits_spec (Z.to_nat (Z.log2 n)) n EmptyString) as (ds & Heq & Hall & Hne & Hval).
  { split; [assumption|].
    rewrite Nat2Z.inj_succ, Z2Nat.id by apply Z.log2_nonneg.
    destruct (Z.eq_dec n 0) as [->|]; [reflexivity|].
    apply Z.log2_spec. lia. }
  rewrite Heq, string_app_nil_r.
  split; [assumption|]. split; [assumption|].
  rewrite Hval. lia.
Qed.

Lemma read_digits_app (ds rest : string) (acc cnt : Z) :
  all_digits ds = true ->
  read_digits (ds ++ rest) acc cnt
  = read_digits rest (digits_val ds acc) (cnt + Z.of_nat (String.length ds)).
Proof.
  revert acc cnt. induction ds as [|c ds IH]; intros acc cnt Hall.
  - cbn. rewrite Z.add_0_r. reflexivity.
  - cbn [all_digits] in Hall. apply andb_true_iff in Hall. destruct Hall as [Hc Hall].
    rewrite string_app_cons. cbn [read_digits digits_val String.length]. rewrite Hc.
    rewrite IH by assumption. f_equal. lia.
Qed.

(** ** [std::stod] on a numeral followed by a space *)

Ltac digit_cases c H :=
  destruct (is_digit_cases c H) as [->|[->|[->|[->|[->|[->|[->|[->|[->| ->]]]]]]]]].

Lemma not_inf_nan (c : ascii) (r : string) :
  is_digit c = true ->
  starts_with_ci "inf" (String c r) = false /\ starts_with_ci "nan" (String c r) = false.
Proof. intros Hc. digit_cases c Hc; split; reflexivity. Qed.

Lemma hex_literal_numeral (c : ascii) (ds : string) :
  is_digit c = true -> all_digits ds = true ->
  hex_literal (String c (ds ++ " ")) = None.
Proof.
  intros Hc Hall. destruct ds as [|c2 ds].
  - digit_cases c Hc; reflexivity.
  - cbn [all_digits] in Hall. apply andb_true_iff in Hall. destruct Hall as [Hc2 _].
    rewrite string_app_cons. unfold hex_literal.
    replace (Ascii.eqb (to_lower_char c2) "x") with false
      by (digit_cases c2 Hc2; reflexivity).
    rewrite andb_false_r. reflexivity.
Qed.

Lemma dec_literal_numeral (ds : string) :
  all_digits ds = true -> ds <> EmptyString ->
  dec_literal (ds ++ " ") = Some (digits_val ds 0, 0).
Proof.
  intros Hall Hne. unfold dec_literal. rewrite read_digits_app by assumption.
  cbn [read_digits]. change (is_digit " ") with false. cbv iota.
  replace (0 <? 0 + Z.of_nat (String.length ds) + 0) with true; [reflexivity|].
  symmetry. apply Z.ltb_lt. destruct ds; [congruence|]. cbn [String.length]. lia.
Qed.

Lemma stod_unsigned_numeral (s : bool) (ds : string) :
  all_digits ds = true -> ds <> EmptyString ->
  stod_unsigned s (ds ++ " ") = stod_round s (digits_val ds 0) 1.
Proof.
  intros Hall Hne. unfold stod_unsigned.
  rewrite (dec_literal_numeral ds Hall Hne).
  destruct ds as [|c ds]; [congruence|].
  cbn [all_digits] in Hall. apply andb_true_iff in Hall. destruct Hall as [Hc Hall].
  rewrite string_app_cons.
  destruct (not_inf_nan c (ds ++ " ") Hc) as [-> ->].
  rewrite (hex_literal_numeral c ds Hc Hall).
  change (0 <=? 0) with true. cbv iota. change (10 ^ 0) with 1. rewrite Z.mul_1_r.
  reflexivity.
Qed.

Lemma stod_numeral (ds : string) :
  all_digits ds = true -> ds <> EmptyString ->
  stod (String " " (ds ++ " ")) = stod_round false (digits_val ds 0) 1
  /\ stod (String "-" (ds ++ " ")) = stod_round true (digits_val ds 0) 1.
Proof.
  intros Hall Hne. rewrite <- !(stod_unsigned_numeral _ ds Hall Hne).
  destruct ds as [|c ds]; [congruence|].
  cbn [all_digits] in Hall. apply andb_true_iff in Hall. destruct Hall as [Hc _].
  rewrite string_app_cons. split; [|reflexivity].
  digit_cases c Hc; reflexivity.
Qed.

Lemma stod_round_integer (s : bool) (p : positive) :
  Zpos p < 2 ^ 53 ->
  stod_round s (Zpos p) 1 = Some (binary_round d_prec d_emax s p 0).
Proof.
  intros Hp. unfold stod_round.
  destruct (binary_round_integer s p Hp) as (mz & k & -> & Hk & Hm & Hd).
  cbn [is_finite negb is_tiny]. rewrite Hd. reflexivity.
Qed.

(** ** What [to_string] prints for an integer-valued double *)

Lemma string_rev_onto_app (a b acc : string) :
  string_rev_onto (a ++ b) acc = string_rev_onto b (string_rev_onto a acc).
Proof.
  revert acc. induction a as [|c a IH]; intros acc; [reflexivity|].
  rewrite string_app_cons. cbn [string_rev_onto]. apply IH.
Qed.

Lemma string_rev_onto_rev (a b c : string) :
  string_rev_onto (string_rev_onto a b) c = string_rev_onto b (a ++ c).
Proof.
  revert b c. induction a as [|x a IH]; intros b c; [reflexivity|].
  cbn [string_rev_onto]. rewrite IH. cbn [string_rev_onto]. rewrite string_app_cons.
  reflexivity.
Qed.

Lemma string_rev_involutive (a : string) : string_rev (string_rev a) = a.
Proof.
  unfold string_rev. rewrite string_rev_onto_rev. cbn [string_rev_onto].
  apply string_app_nil_r.
Qed.

Lemma string_contains_app_r (c : ascii) (a b : string) :
  string_contains c b = true -> string_contains c (a ++ b) = true.
Proof.
  intros Hb. induction a as [|x a IH]; [exact Hb|].
  rewrite string_app_cons. cbn [string_contains]. rewrite IH.
  destruct (Ascii.eqb c x); reflexivity.
Qed.

(** Removing the zeros and the point that ["%f"] prints after an integer. *)
Lemma strip_integer_fraction (a : string) :
  string_rev (drop_one_leading "." (drop_leading "0" (string_rev (a ++ ".000000")))) = a.
Proof.
  unfold string_rev at 2. rewrite string_rev_onto_app.
  cbn [string_rev_onto drop_leading drop_one_leading].
  change (Ascii.eqb "0" "0") with true. change (Ascii.eqb "0" ".") with false.
  change (Ascii.eqb "." ".") with true. cbv iota.
  apply string_rev_involutive.
Qed.

Lemma fmt_f_integer (s : bool) (mz p : positive) (k : Z) :
  0 <= k -> Zpos mz = Zpos p * 2 ^ k ->
  fmt_f (S754_finite s mz (- k))
  = (((if s then "-" else "") ++ dec_of_nonneg (Zpos p)) ++ ".000000")%string.
Proof.
  intros Hk Hm. unfold fmt_f.
  assert (0 < 2 ^ k) as Hpow by (apply Z.pow_pos_nonneg; lia).
  assert ((if 0 <=? - k then Z.shiftl (Zpos mz * 1000000) (- k)
           else round_half_even_shift (Zpos mz * 1000000) (- - k))
          = Zpos p * 1000000) as ->.
  { destruct (Z.leb_spec 0 (- k)) as [Hle|Hgt].
    - assert (k = 0) as -> by lia. change (- 0) with 0. rewrite Z.shiftl_0_r, Hm.
      change (2 ^ 0) with 1. lia.
    - rewrite Z.opp_involutive. unfold round_half_even_shift.
      rewrite Z.shiftr_div_pow2, !Z.shiftl_mul_pow2 by lia.
      replace (Zpos mz * 1000000) with (Zpos p * 1000000 * 2 ^ k) by lia.
      rewrite Z.div_mul by lia. rewrite Z.sub_diag.
      replace (0 <? 1 * 2 ^ (k - 1)) with true; [reflexivity|].
      symmetry. apply Z.ltb_lt.
      assert (0 < 2 ^ (k - 1)) by (apply Z.pow_pos_nonneg; lia). lia. }
  rewrite Z.div_mul, Z.mod_mul by lia.
  change (frac6 0) with "000000"%string.
  rewrite string_app_assoc. reflexivity.
Qed.

Lemma number_to_string_integer (s : bool) (mz p : positive) (k : Z) :
  0 <= k -> Zpos mz = Zpos p * 2 ^ k -> Zpos p < 2 ^ 53 ->
  number_to_string (S754_finite s mz (- k))
  = Some (String (if s then "-" else " ") (dec_of_nonneg (Zpos p) ++ " "))%string.
Proof.
  intros Hk Hm Hp. unfold number_to_string.
  rewrite (cast_int64_shifted s mz p k Hk Hm Hp).
  cbv beta iota zeta.
  destruct (d_eq _ _ && d_lt _ _).
  - destruct s; reflexivity.
  - rewrite (fmt_f_integer s mz p k Hk Hm).
    rewrite string_contains_app_r by reflexivity.
    rewrite strip_integer_fraction.
    destruct s; reflexivity.
Qed.

Lemma float_equal_refl_finite (v : double) :
  is_finite v = true -> float_equal v v = true.
Proof.
  intros Hf. unfold float_equal, d_eq, SFeqb.
  destruct v as [s|s| |s m e]; try discriminate Hf; [reflexivity|].
  rewrite SFcompare_refl_finite. reflexivity.
Qed.

Section ValStr.
Context {UF : UnorderedMap string ForLoopState} {UD : UnorderedMap Z Z} {AL : Allocator}.

(** STR$ of an integer-valued double prints the integer, and VAL reads
    the same double back. *)
Lemma val_str_integer_repr (m : Machine) (s : bool) (p mz : positive) (k : Z) :
  Zpos p < 2 ^ 53 ->
  binary_round d_prec d_emax s p 0 = S754_finite s mz (- k) ->
  0 <= k -> Zpos mz = Zpos p * 2 ^ k ->
  let text := String (if s then "-" else " ") (dec_of_nonneg (Zpos p) ++ " ") in
  builtin_str [VDouble (S754_finite s mz (- k))] m = (m, Ok (VString text))
  /\ builtin_val [VString text] m = (m, Ok (VDouble (S754_finite s mz (- k)))).
Proof.
  intros Hp Hbr Hk Hm text. subst text.
  destruct (dec_of_nonneg_spec (Zpos p) ltac:(lia)) as (Hall & Hne & Hval).
  destruct (stod_numeral (dec_of_nonneg (Zpos p)) Hall Hne) as [Hpos Hneg].
  split.
  - unfold builtin_str, bind. cbn [to_string].
    rewrite (number_to_string_integer s mz p k Hk Hm Hp). reflexivity.
  - unfold builtin_val, bind. cbn [get_string ret].
    destruct s.
    + rewrite Hneg, Hval, (stod_round_integer true p Hp), Hbr. reflexivity.
    + rewrite Hpos, Hval, (stod_round_integer false p Hp), Hbr. reflexivity.
Qed.

(** Integer-valued doubles.  For the double of an integer [n] below
    1e15 in magnitude, STR$ prints a text of which VAL is the same
    double again; so the two are equal under the float-equality
    rule. *)
Theorem val_str_round_trip_integers (m : Machine) (n : Z) :
  - 1000000000000000 < n < 1000000000000000 ->
  exists (text : string) (x : double),
    builtin_str [VDouble (d_of_Z n)] m = (m, Ok (VString text))
    /\ builtin_val [VString text] m = (m, Ok (VDouble x))
    /\ x = d_of_Z n
    /\ float_equal x (d_of_Z n) = true.
Proof.
  intros Hn.
  assert (forall s p, Zpos p < 1000000000000000 ->
            exists text,
              builtin_str [VDouble (binary_round d_prec d_emax s p 0)] m
              = (m, Ok (VString text))
              /\ builtin_val [VString text] m
                 = (m, Ok (VDouble (binary_round d_prec d_emax s p 0)))
              /\ is_finite (binary_round d_prec d_emax s p 0) = true) as Hrepr.
  { intros s p Hp.
    assert (Zpos p < 2 ^ 53) as Hp53 by (change (2 ^ 53) with 9007199254740992; lia).
    destruct (binary_round_integer s p Hp53) as (mz & k & Hbr & Hk & Hm & Hd).
    destruct (val_str_integer_repr m s p mz k Hp53 Hbr ltac:(lia) Hm) as [Hs Hv].
    rewrite Hbr. eexists. split; [exact Hs|]. split; [exact Hv|reflexivity]. }
  destruct n as [|p|p].
  - exists " 0 "%string, d_zero. repeat split; reflexivity.
  - rewrite d_of_Z_pos. destruct (Hrepr false p ltac:(lia)) as (text & Hs & Hv & Hf).
    exists text, (binary_round d_prec d_emax false p 0).
    repeat split; try assumption. apply float_equal_refl_finite, Hf.
  - rewrite d_of_Z_neg. destruct (Hrepr true p ltac:(lia)) as (text & Hs & Hv & Hf).
    exists text, (binary_round d_prec d_emax true p 0).
    repeat split; try assumption. apply float_equal_refl_finite, Hf.
Qed.
End ValStr.

(** C5 as stated fails at 2^-25: STR$ prints it with six decimals as
    [ 0 ], VAL reads 0, and 0 is not float-equal to 2^-25 (the difference,
    about 2.98e-8, exceeds the absolute tolerance 1e-9). *)
Lemma val_str_loses_small_value :
  is_finite d_2_pow_m25 = true
  /\ d_lt (d_fabs d_2_pow_m25) d_1e15 = true
  /\ builtin_str [VDouble d_2_pow_m25] machine_idle = (machine_idle, Ok (VString " 0 "))
  /\ builtin_val [VString " 0 "] machine_idle = (machine_idle, Ok (VDouble d_zero))
  /\ eval pow_exact call_embedded (val_of_str d_2_pow_m25) machine_idle
     = (machine_idle, Ok (VDouble d_zero))
  /\ float_equal d_zero d_2_pow_m25 = false.
Proof.
  do 5 (split; [vm_compute; reflexivity|]). vm_compute. reflexivity.
Qed.

Lemma val_str_round_trip_integers_witness :
  exists (text : string) (x : double),
    builtin_str [VDouble (d_of_Z (-1234567))] machine_idle
    = (machine_idle, Ok (VString text))
    /\ builtin_val [VString text] machine_idle = (machine_idle, Ok (VDouble x))
    /\ x = d_of_Z (-1234567)
    /\ float_equal x (d_of_Z (-1234567)) = true.
Proof.
  apply (val_str_round_trip_integers machine_idle (-1234567)).
  lia.
Defined.

(* ===================================================================== *)
(** * STR$ and VAL through six decimals                                  *)
(* ===================================================================== *)


Lemma loc_of_record_of_loc (m : Z) (l : location) :
  loc_of_shr_record (shr_record_of_loc m l) = l /\ shr_m (shr_record_of_loc m l) = m.
Proof. destruct l as [|[]]; split; reflexivity. Qed.

Lemma shr_1_inv (y d : Z) (mrs : shr_record) :
  0 < d -> shr_inv y d mrs ->
  shr_inv y (2 * d) (shr_1 mrs) /\ shr_m (shr_1 mrs) = shr_m mrs / 2.
Proof.
  intros Hd (Hm & r & Hy & Hr & Hloc).
  destruct mrs as [m rb sb]. cbn [shr_m] in *.
  assert (rb || sb = negb (r =? 0)) as Hsticky.
  { destruct rb, sb; cbn in Hloc |- *; symmetry;
      try (apply negb_true_iff, Z.eqb_neq; lia).
    apply negb_false_iff, Z.eqb_eq. lia. }
  assert (forall b m', m = 2 * m' + (if b : bool then 1 else 0) -> 0 <= m' ->
            shr_inv y (2 * d) (Build_shr_record m' b (rb || sb)) /\ m' = m / 2) as Hstep.
  { intros b m' Hmm Hm'. split.
    - split; [exact Hm'|]. exists ((if b then d else 0) + r).
      split; [cbn [shr_m]; rewrite Hmm in Hy; destruct b; lia|].
      rewrite Hsticky. unfold loc_ok.
      destruct b, (Z.eqb_spec r 0); cbn [negb loc_of_shr_record]; lia.
    - destruct b; [apply (Z.div_unique m 2 m' 1); lia
                  |apply (Z.div_unique m 2 m' 0); lia]. }
  destruct m as [|p|p]; [|destruct p as [p|p|]|lia]; cbn [shr_1 shr_m].
  - apply (Hstep false 0); lia.
  - apply (Hstep true (Zpos p)); lia.
  - apply (Hstep false (Zpos p)); lia.
  - apply (Hstep true 0); lia.
Qed.

Lemma pow2_xI (p : positive) : 2 ^ Zpos p~1 = 2 * 2 ^ Zpos p * 2 ^ Zpos p.
Proof.
  change (Zpos p~1) with (2 * Zpos p + 1).
  replace (2 * Zpos p + 1) with (1 + Zpos p + Zpos p) by lia.
  rewrite !Z.pow_add_r by lia. reflexivity.
Qed.

Lemma pow2_xO (p : positive) : 2 ^ Zpos p~0 = 2 ^ Zpos p * 2 ^ Zpos p.
Proof.
  change (Zpos p~0) with (2 * Zpos p). replace (2 * Zpos p) with (Zpos p + Zpos p) by lia.
  rewrite Z.pow_add_r by lia. reflexivity.
Qed.

Lemma iter_pos_shr_1_inv (p : positive) :
  forall (y d : Z) (mrs : shr_record),
    0 < d -> shr_inv y d mrs ->
    shr_inv y (d * 2 ^ Zpos p) (SpecFloat.iter_pos shr_1 p mrs)
    /\ shr_m (SpecFloat.iter_pos shr_1 p mrs) = shr_m mrs / 2 ^ Zpos p.
Proof.
  induction p as [p IH|p IH|]; intros y d mrs Hd Hinv.
  - cbn [SpecFloat.iter_pos].
    destruct (shr_1_inv y d mrs Hd Hinv) as [H1 E1].
    destruct (IH y (2 * d) _ ltac:(lia) H1) as [H2 E2].
    assert (0 < 2 ^ Zpos p) as Hp by (apply Z.pow_pos_nonneg; lia).
    destruct (IH y (2 * d * 2 ^ Zpos p) _ ltac:(nia) H2) as [H3 E3].
    rewrite pow2_xI.
    split.
    + replace (d * (2 * 2 ^ Zpos p * 2 ^ Zpos p)) with (2 * d * 2 ^ Zpos p * 2 ^ Zpos p) by ring.
      exact H3.
    + rewrite E3, E2, E1, !Z.div_div by lia. f_equal. ring.
  - cbn [SpecFloat.iter_pos].
    assert (0 < 2 ^ Zpos p) as Hp by (apply Z.pow_pos_nonneg; lia).
    destruct (IH y d _ Hd Hinv) as [H2 E2].
    destruct (IH y (d * 2 ^ Zpos p) _ ltac:(nia) H2) as [H3 E3].
    rewrite pow2_xO.
    split.
    + replace (d * (2 ^ Zpos p * 2 ^ Zpos p)) with (d * 2 ^ Zpos p * 2 ^ Zpos p) by ring.
      exact H3.
    + rewrite E3, E2, !Z.div_div by lia. f_equal.
  - cbn [SpecFloat.iter_pos]. change (2 ^ 1) with 2.
    destruct (shr_1_inv y d mrs Hd Hinv) as [H1 E1].
    split; [rewrite Z.mul_comm; exact H1|exact E1].
Qed.

(** Shifting right by [n >= 0] bits. *)
Lemma shr_inv_shift (y d : Z) (mrs : shr_record) (e n : Z) :
  0 < d -> 0 <= n -> shr_inv y d mrs ->
  exists mrs',
    shr mrs e n = (mrs', e + n)
    /\ shr_inv y (d * 2 ^ n) mrs'
    /\ shr_m mrs' = shr_m mrs / 2 ^ n.
Proof.
  intros Hd Hn Hinv. destruct n as [|p|p]; [| |lia].
  - exists mrs. cbn [shr]. rewrite Z.add_0_r. change (2 ^ 0) with 1.
    rewrite Z.mul_1_r, Z.div_1_r. auto.
  - exists (SpecFloat.iter_pos shr_1 p mrs). cbn [shr].
    destruct (iter_pos_shr_1_inv p y d mrs Hd Hinv) as [H E]. auto.
Qed.

(** Rounding to nearest even moves the quotient by at most half a unit. *)
Lemma round_nearest_even_inv (y d : Z) (mrs : shr_record) :
  0 < d -> shr_inv y d mrs ->
  let q1 := round_nearest_even (shr_m mrs) (loc_of_shr_record mrs) in
  (q1 = shr_m mrs \/ q1 = shr_m mrs + 1) /\ 2 * Z.abs (q1 * d - y) <= d.
Proof.
  intros Hd (Hm & r & Hy & Hr & Hloc). cbv zeta.
  destruct (loc_of_shr_record mrs) as [|[]]; cbn [round_nearest_even].
  - split; [left; reflexivity|]. lia.
  - destruct (Z.even (shr_m mrs)); (split; [auto|]); lia.
  - split; [left; reflexivity|]. lia.
  - split; [right; reflexivity|]. lia.
Qed.

Lemma digits2_pos_upper (p : positive) : Zpos p < 2 ^ Zpos (digits2_pos p).
Proof.
  induction p as [p IH|p IH|]; cbn [digits2_pos]; [| |reflexivity];
    rewrite Pos2Z.inj_succ, Z.pow_succ_r by lia.
  - change (Zpos p~1) with (2 * Zpos p + 1). lia.
  - change (Zpos p~0) with (2 * Zpos p). lia.
Qed.

Lemma digits2_pos_lower' (p : positive) : 2 ^ (Zpos (digits2_pos p) - 1) <= Zpos p.
Proof.
  induction p as [p IH|p IH|]; cbn [digits2_pos]; [| |discriminate];
    rewrite Pos2Z.inj_succ; replace (Z.succ (Zpos (digits2_pos p)) - 1)
      with (Z.succ (Zpos (digits2_pos p) - 1)) by lia;
    rewrite Z.pow_succ_r by lia.
  - change (Zpos p~1) with (2 * Zpos p + 1). lia.
  - change (Zpos p~0) with (2 * Zpos p). lia.
Qed.

(** The number of bits from the magnitude. *)
Lemma digits2_pos_between (p : positive) (k : Z) :
  0 < k -> 2 ^ (k - 1) <= Zpos p < 2 ^ k -> Zpos (digits2_pos p) = k.
Proof.
  intros Hk [Hlo Hhi].
  pose proof (digits2_pos_upper p) as Hu. pose proof (digits2_pos_lower' p) as Hl.
  destruct (Z.lt_trichotomy (Zpos (digits2_pos p)) k) as [Hlt|[Heq|Hgt]]; [|exact Heq|].
  - assert (2 ^ Zpos (digits2_pos p) <= 2 ^ (k - 1)) by (apply Z.pow_le_mono_r; lia). lia.
  - assert (2 ^ k <= 2 ^ (Zpos (digits2_pos p) - 1)) by (apply Z.pow_le_mono_r; lia). lia.
Qed.

Lemma fexp_normal (dg e : Z) :
  - 1074 <= dg + e - 53 -> fexp d_prec d_emax (dg + e) - e = dg - 53.
Proof. intros H. unfold fexp, emin, d_prec, d_emax. lia. Qed.

(** The second normalisation of [binary_round_aux]: a rounded mantissa
    of 53 bits stays, the carry 2^53 becomes 2^52 one exponent up. *)
Lemma renormalise (s : bool) (q1 e1 : Z) :
  2 ^ 52 <= q1 <= 2 ^ 53 -> - 1074 <= e1 -> e1 + 1 <= 971 ->
  exists (mf : positive) (ef : Z),
    (let '(mrs, e2) := shr_fexp d_prec d_emax q1 e1 loc_Exact in
     match shr_m mrs with
     | Z0 => S754_zero s
     | Zpos m => if e2 <=? d_emax - d_prec then S754_finite s m e2 else S754_infinity s
     | Zneg _ => S754_nan
     end) = S754_finite s mf ef
    /\ digits2_pos mf = 53%positive
    /\ (ef = e1 \/ ef = e1 + 1)
    /\ Zpos mf * 2 ^ (ef - e1) = q1.
Proof.
  intros Hq He1 He2.
  change (2 ^ 52) with 4503599627370496 in Hq. change (2 ^ 53) with 9007199254740992 in Hq.
  destruct q1 as [|qp|qp]; [lia| |lia].
  unfold shr_fexp. cbn [Zdigits2 shr_record_of_loc].
  destruct (Z.eq_dec (Zpos qp) 9007199254740992) as [Heq|Hne].
  - injection Heq as ->. exists 4503599627370496%positive, (e1 + 1).
    change (Zpos (digits2_pos 9007199254740992)) with 54.
    rewrite (fexp_normal 54 e1) by lia. change (54 - 53) with 1.
    cbn [shr SpecFloat.iter_pos shr_1 shr_m].
    replace (e1 + 1 <=? d_emax - d_prec) with true
      by (symmetry; apply Z.leb_le; unfold d_emax, d_prec; lia).
    replace (e1 + 1 - e1) with 1 by lia.
    split; [reflexivity|]. split; [reflexivity|]. split; [right; reflexivity|reflexivity].
  - assert (Zpos (digits2_pos qp) = 53) as Hd.
    { apply digits2_pos_between; [lia|].
      change (2 ^ (53 - 1)) with 4503599627370496. change (2 ^ 53) with 9007199254740992. lia. }
    exists qp, e1. rewrite Hd, (fexp_normal 53 e1) by lia. change (53 - 53) with 0.
    cbn [shr shr_m].
    replace (e1 <=? d_emax - d_prec) with true
      by (symmetry; apply Z.leb_le; unfold d_emax, d_prec; lia).
    rewrite Z.sub_diag. change (2 ^ 0) with 1.
    split; [reflexivity|]. split; [lia|]. split; [left; reflexivity|lia].
Qed.

(** [binary_round_aux] on a mantissa of [53 + sigma] bits whose location
    describes the remainder [r] of [y = q * d + r]: the result has 53 bits
    and is within half a unit in the last place of [y / d]. *)
Lemma binary_round_aux_correct (s : bool) (qp : positive) (e0 : Z) (loc : location)
    (y d sigma : Z) :
  0 < d -> 0 <= sigma ->
  Zpos (digits2_pos qp) = 53 + sigma ->
  shr_inv y d (shr_record_of_loc (Zpos qp) loc) ->
  - 1074 <= e0 + sigma -> e0 + sigma + 1 <= 971 ->
  exists (mf : positive) (ef : Z),
    binary_round_aux d_prec d_emax s (Zpos qp) e0 loc = S754_finite s mf ef
    /\ digits2_pos mf = 53%positive
    /\ (ef = e0 + sigma \/ ef = e0 + sigma + 1)
    /\ 2 * Z.abs (Zpos mf * 2 ^ (ef - e0) * d - y) <= d * 2 ^ (ef - e0).
Proof.
  intros Hd Hs Hdg Hinv Hlo Hhi.
  unfold binary_round_aux. unfold shr_fexp at 1. cbn [Zdigits2].
  rewrite Hdg, fexp_normal by lia. replace (53 + sigma - 53) with sigma by lia.
  destruct (shr_inv_shift y d _ e0 sigma Hd Hs Hinv) as (mrs' & -> & Hinv' & Hm').
  destruct (loc_of_record_of_loc (Zpos qp) loc) as [_ Hq0]. rewrite Hq0 in Hm'.
  assert (0 < 2 ^ sigma) as Hpow by (apply Z.pow_pos_nonneg; lia).
  assert (2 ^ 52 <= shr_m mrs' < 2 ^ 53) as Hq'.
  { pose proof (digits2_pos_upper qp) as Hu. pose proof (digits2_pos_lower' qp) as Hl.
    rewrite Hdg in Hu, Hl. replace (53 + sigma - 1) with (52 + sigma) in Hl by lia.
    rewrite Z.pow_add_r in Hu, Hl by lia. rewrite Hm'. split.
    - apply Z.div_le_lower_bound; lia.
    - apply Z.div_lt_upper_bound; lia. }
  destruct (round_nearest_even_inv y (d * 2 ^ sigma) mrs' ltac:(nia) Hinv') as [Hq1 Hnear].
  set (q1 := round_nearest_even (shr_m mrs') (loc_of_shr_record mrs')) in *.
  destruct (renormalise s q1 (e0 + sigma)) as (mf & ef & Hres & Hmf & Hef & Hval);
    [change (2 ^ 52) with 4503599627370496 in *; change (2 ^ 53) with 9007199254740992 in *; lia
    |lia|lia|].
  exists mf, ef. split; [exact Hres|]. split; [exact Hmf|]. split; [exact Hef|].
  replace (ef - e0) with ((ef - (e0 + sigma)) + sigma) by lia.
  assert (0 <= ef - (e0 + sigma) <= 1) as Ht by lia.
  rewrite Z.pow_add_r by lia.
  assert (1 <= 2 ^ (ef - (e0 + sigma))) as Ht1.
  { destruct Hef as [->| ->]; [rewrite Z.sub_diag|replace (e0 + sigma + 1 - (e0 + sigma)) with 1 by lia];
      [change (2 ^ 0) with 1|change (2 ^ 1) with 2]; lia. }
  replace (Zpos mf * (2 ^ (ef - (e0 + sigma)) * 2 ^ sigma) * d)
    with (q1 * (d * 2 ^ sigma)) by (rewrite <- Hval; ring).
  nia.
Qed.

Lemma new_location_ok (d r : Z) : 0 <= r < d -> loc_ok (new_location d r) r d.
Proof.
  intros Hr. unfold loc_ok. split; [exact Hr|].
  unfold new_location, new_location_even, new_location_odd.
  destruct (Z.even d) eqn:Heven.
  - destruct (Z.eqb_spec r 0) as [->|Hne]; [reflexivity|].
    change (Z.pos 2 * r) with (2 * r).
    destruct (Z.compare_spec (2 * r) d); lia.
  - destruct (Z.eqb_spec r 0) as [->|Hne]; [reflexivity|].
    change (Z.pos 2 * r + Z.pos 1) with (2 * r + 1).
    assert (Z.odd d = true) as Hodd by (rewrite <- Z.negb_even, Heven; reflexivity).
    apply Z.odd_spec in Hodd. destruct Hodd as [h Hh].
    destruct (Z.compare_spec (2 * r + 1) d); lia.
Qed.


(** The correctly rounded quotient [n / d] for [1 <= n / d < 2^50]. *)
Lemma d_of_ratio_correct (s : bool) (n d : positive) :
  Zpos d <= Zpos n < Zpos d * 2 ^ 50 ->
  exists (mf : positive) (ef : Z),
    d_of_ratio s n d = S754_finite s mf ef
    /\ digits2_pos mf = 53%positive
    /\ - 53 <= ef <= - 1
    /\ 2 * Z.abs (at_scale mf ef * Zpos d - Zpos n * 2 ^ 200) <= Zpos d * 2 ^ (ef + 200).
Proof.
  intros [Hlo Hhi].
  pose proof (digits2_pos_upper n) as Hnu. pose proof (digits2_pos_lower' n) as Hnl.
  pose proof (digits2_pos_upper d) as Hdu. pose proof (digits2_pos_lower' d) as Hdl.
  set (d1 := Zpos (digits2_pos n)) in *. set (d2 := Zpos (digits2_pos d)) in *.
  assert (d2 <= d1 <= d2 + 50) as Hdd.
  { split.
    - destruct (Z.le_gt_cases d2 d1) as [|Hgt]; [assumption|exfalso].
      assert (2 ^ d1 <= 2 ^ (d2 - 1)) by (apply Z.pow_le_mono_r; lia). lia.
    - destruct (Z.le_gt_cases d1 (d2 + 50)) as [|Hgt]; [assumption|exfalso].
      assert (2 ^ (d2 + 50) <= 2 ^ (d1 - 1)) by (apply Z.pow_le_mono_r; lia).
      rewrite Z.pow_add_r in * by lia. nia. }
  set (sg := 53 + d2 - d1).
  assert (0 < 2 ^ sg) as Hsg by (apply Z.pow_pos_nonneg; lia).
  unfold d_of_ratio, SFdiv_core_binary. cbn [Zdigits2]. fold d1 d2.
  replace (Z.min (fexp d_prec d_emax (d1 + 0 - (d2 + 0))) (0 - 0)) with (- sg)
    by (unfold fexp, emin, d_prec, d_emax; lia).
  replace (0 - 0 - - sg) with sg by lia.
  assert (match sg with
          | 0 => Zpos n
          | Zpos _ => Z.shiftl (Zpos n) sg
          | Zneg _ => 0
          end = Zpos n * 2 ^ sg) as ->.
  { destruct sg eqn:E; [change (2 ^ 0) with 1; lia| |lia].
    rewrite Z.shiftl_mul_pow2 by lia. reflexivity. }
  pose proof (Z_div_mod (Zpos n * 2 ^ sg) (Zpos d) ltac:(lia)) as Hdiv.
  destruct (Z.div_eucl (Zpos n * 2 ^ sg) (Zpos d)) as [q r]. destruct Hdiv as [Hq Hr].
  assert (2 ^ 52 * 2 ^ sg <= 2 ^ sg * 2 ^ 52) as _ by lia.
  assert (2 ^ 52 <= q < 2 ^ 54) as Hqb.
  { assert (2 ^ (d1 - 1) * 2 ^ sg = 2 ^ 52 * 2 ^ d2) as E1.
    { rewrite <- !Z.pow_add_r by lia. f_equal. lia. }
    assert (2 ^ d1 * 2 ^ sg = 2 ^ 54 * 2 ^ (d2 - 1)) as E2.
    { rewrite <- !Z.pow_add_r by lia. f_equal. lia. }
    assert (0 < 2 ^ (d2 - 1)) by (apply Z.pow_pos_nonneg; lia).
    split; nia. }
  destruct q as [|qp|qp]; [lia| |lia].
  assert (Zpos (digits2_pos qp) = 53 \/ Zpos (digits2_pos qp) = 54) as Hdq.
  { destruct (Z.lt_ge_cases (Zpos qp) (2 ^ 53)).
    - left. apply digits2_pos_between; [lia|]. change (53 - 1) with 52. lia.
    - right. apply digits2_pos_between; [lia|]. change (54 - 1) with 53. lia. }
  destruct (binary_round_aux_correct s qp (- sg) (new_location (Zpos d) r)
              (Zpos n * 2 ^ sg) (Zpos d) (Zpos (digits2_pos qp) - 53))
    as (mf & ef & Hres & Hmf & Hef & Hnear); try lia.
  { split; [destruct (loc_of_record_of_loc (Zpos qp) (new_location (Zpos d) r)) as [_ ->]; lia|].
    exists r. destruct (loc_of_record_of_loc (Zpos qp) (new_location (Zpos d) r)) as [-> ->].
    split; [lia|]. apply new_location_ok. exact Hr. }
  exists mf, ef. split; [exact Hres|]. split; [exact Hmf|]. split; [lia|].
  unfold at_scale.
  replace (ef + 200) with ((ef - - sg) + (200 - sg)) by lia.
  replace (2 ^ 200) with (2 ^ sg * 2 ^ (200 - sg))
    by (rewrite <- Z.pow_add_r by lia; f_equal; lia).
  rewrite Z.pow_add_r by lia.
  assert (0 < 2 ^ (200 - sg)) as Hrest by (apply Z.pow_pos_nonneg; lia).
  set (u := 2 ^ (ef - - sg)) in *. set (w := 2 ^ (200 - sg)) in *.
  replace (Zpos mf * (u * w) * Zpos d - Zpos n * (2 ^ sg * w))
    with ((Zpos mf * u * Zpos d - Zpos n * 2 ^ sg) * w) by ring.
  rewrite Z.abs_mul, (Z.abs_eq w) by lia. nia.
Qed.

Lemma mantissa_53 (m : positive) :
  digits2_pos m = 53%positive -> 2 ^ 52 <= Zpos m < 2 ^ 53.
Proof.
  intros Hd. pose proof (digits2_pos_upper m) as Hu. pose proof (digits2_pos_lower' m) as Hl.
  rewrite Hd in Hu, Hl. change (53 - 1) with 52 in Hl. lia.
Qed.

Lemma rel_epsilon_eq : rel_epsilon = S754_finite false 4722366482869645 (-72).
Proof. vm_compute. reflexivity. Qed.

Lemma abs_epsilon_eq : abs_epsilon = S754_finite false 4835703278458517 (-82).
Proof. vm_compute. reflexivity. Qed.

Lemma scale_near (a b c : Z) :
  0 < c -> 2 * Z.abs a <= b -> 2 * Z.abs (a * c) <= b * c.
Proof. intros Hc H. rewrite Z.abs_mul, (Z.abs_eq c) by lia. nia. Qed.

(** [larger * rel_epsilon], rounded. *)
Lemma d_mul_rel_epsilon (mL : positive) (eL : Z) :
  digits2_pos mL = 53%positive -> - 60 <= eL <= 0 ->
  exists (mT : positive) (eT : Z),
    d_mul (S754_finite false mL eL) rel_epsilon = S754_finite false mT eT
    /\ digits2_pos mT = 53%positive
    /\ eL - 20 <= eT <= eL - 18
    /\ 2 * Z.abs (at_scale mT eT * 2 ^ 72 - at_scale mL eL * 4722366482869645)
       <= 2 ^ (eT + 272).
Proof.
  intros HdL HeL. rewrite rel_epsilon_eq. unfold d_mul. cbn [SFmul xorb].
  pose proof (mantissa_53 mL HdL) as HmL.
  change (2 ^ 52) with 4503599627370496 in HmL. change (2 ^ 53) with 9007199254740992 in HmL.
  set (P := (mL * 4722366482869645)%positive).
  assert (Zpos P = Zpos mL * 4722366482869645) as HP by (unfold P; rewrite Pos2Z.inj_mul; reflexivity).
  assert (Zpos (digits2_pos P) = 105 \/ Zpos (digits2_pos P) = 106) as HdP.
  { destruct (Z.lt_ge_cases (Zpos P) (2 ^ 105)) as [Hlt|Hge].
    - left. apply digits2_pos_between; [lia|]. split; [|exact Hlt].
      change (2 ^ (105 - 1)) with 20282409603651670423947251286016. lia.
    - right. apply digits2_pos_between; [lia|]. split; [exact Hge|].
      change (2 ^ 106) with 81129638414606681695789005144064. lia. }
  destruct (binary_round_aux_correct false P (eL + -72) loc_Exact (Zpos P) 1
              (Zpos (digits2_pos P) - 53))
    as (mT & eT & Hres & HmT & HeT & Hnear); try lia.
  { split; [cbn; lia|]. exists 0. cbn [shr_record_of_loc shr_m loc_of_shr_record].
    split; [lia|]. unfold loc_ok. lia. }
  exists mT, eT. split; [exact Hres|]. split; [exact HmT|]. split; [lia|].
  unfold at_scale. rewrite HP in Hnear.
  assert (0 < 2 ^ (eL + 128)) as Hw by (apply Z.pow_pos_nonneg; lia).
  assert (2 ^ (eT + 200) = 2 ^ (eT - (eL + -72)) * 2 ^ (eL + 128)) as E1
    by (rewrite <- Z.pow_add_r by lia; f_equal; lia).
  assert (2 ^ (eL + 200) = 2 ^ (eL + 128) * 2 ^ 72) as E2
    by (rewrite <- Z.pow_add_r by lia; f_equal; lia).
  assert (2 ^ (eT + 272) = 2 ^ (eT - (eL + -72)) * (2 ^ (eL + 128) * 2 ^ 72)) as E3
    by (rewrite <- !Z.pow_add_r by lia; f_equal; lia).
  rewrite E1, E2, E3.
  apply (scale_near _ _ (2 ^ (eL + 128) * 2 ^ 72)) in Hnear; [|lia].
  match goal with
  | |- 2 * Z.abs ?X <= ?Y =>
      match type of Hnear with
      | 2 * Z.abs ?X' <= ?Y' =>
          replace X with X' by ring; replace Y with Y' by ring; exact Hnear
      end
  end.
Qed.

(** Doubles with 53-bit mantissas compare as their values do. *)
Lemma SFcompare_normal (m1 m2 : positive) (e1 e2 : Z) :
  digits2_pos m1 = 53%positive -> digits2_pos m2 = 53%positive ->
  - 200 <= e1 -> - 200 <= e2 ->
  SFcompare (S754_finite false m1 e1) (S754_finite false m2 e2)
  = Some (at_scale m1 e1 ?= at_scale m2 e2).
Proof.
  intros H1 H2 He1 He2. cbn [SFcompare]. f_equal. unfold at_scale.
  pose proof (mantissa_53 m1 H1) as Hm1. pose proof (mantissa_53 m2 H2) as Hm2.
  change (2 ^ 52) with 4503599627370496 in *. change (2 ^ 53) with 9007199254740992 in *.
  assert (0 < 2 ^ (e1 + 200)) as Hp1 by (apply Z.pow_pos_nonneg; lia).
  assert (0 < 2 ^ (e2 + 200)) as Hp2 by (apply Z.pow_pos_nonneg; lia).
  destruct (Z.compare_spec e1 e2) as [->|Hlt|Hgt].
  - rewrite Pos.compare_cont_spec, Pos2Z.inj_compare.
    destruct (Z.compare_spec (Zpos m1) (Zpos m2)) as [E|L|G]; cbn [Pos.switch_Eq]; symmetry.
    + apply Z.compare_eq_iff. rewrite E. reflexivity.
    + apply Z.compare_lt_iff. apply Z.mul_lt_mono_pos_r; assumption.
    + apply Z.compare_gt_iff. apply Z.mul_lt_mono_pos_r; assumption.
  - symmetry. apply Z.compare_lt_iff.
    replace (e2 + 200) with ((e2 - e1 - 1) + 1 + (e1 + 200)) by lia.
    rewrite (Z.pow_add_r 2 (e2 - e1 - 1 + 1) (e1 + 200)), (Z.pow_add_r 2 (e2 - e1 - 1) 1) by lia.
    change (2 ^ 1) with 2.
    assert (0 < 2 ^ (e2 - e1 - 1)) by (apply Z.pow_pos_nonneg; lia).
    set (t := 2 ^ (e2 - e1 - 1)) in *. set (p := 2 ^ (e1 + 200)) in *.
    assert (Zpos m1 * p < 9007199254740992 * p) by (apply Z.mul_lt_mono_pos_r; lia).
    assert (9007199254740992 * p <= Zpos m2 * (2 * p)) by nia.
    assert (Zpos m2 * (2 * p) <= Zpos m2 * (t * (2 * p))) by nia.
    replace (Zpos m2 * (t * 2 * p)) with (Zpos m2 * (t * (2 * p))) by ring. lia.
  - symmetry. apply Z.compare_gt_iff.
    replace (e1 + 200) with ((e1 - e2 - 1) + 1 + (e2 + 200)) by lia.
    rewrite (Z.pow_add_r 2 (e1 - e2 - 1 + 1) (e2 + 200)), (Z.pow_add_r 2 (e1 - e2 - 1) 1) by lia.
    change (2 ^ 1) with 2.
    assert (0 < 2 ^ (e1 - e2 - 1)) by (apply Z.pow_pos_nonneg; lia).
    set (t := 2 ^ (e1 - e2 - 1)) in *. set (p := 2 ^ (e2 + 200)) in *.
    assert (Zpos m2 * p < 9007199254740992 * p) by (apply Z.mul_lt_mono_pos_r; lia).
    assert (9007199254740992 * p <= Zpos m1 * (2 * p)) by nia.
    assert (Zpos m1 * (2 * p) <= Zpos m1 * (t * (2 * p))) by nia.
    replace (Zpos m1 * (t * 2 * p)) with (Zpos m1 * (t * (2 * p))) by ring. lia.
Qed.




(** A number [p * 2^e0] with [p] below 2^53 is a double: [p] shifted up
    to 53 bits. *)
Lemma binary_round_exact (s : bool) (p : positive) (e0 : Z) :
  Zpos p < 2 ^ 53 -> - 1000 <= e0 <= 900 ->
  exists (mz : positive) (k : Z),
    binary_round d_prec d_emax s p e0 = S754_finite s mz (e0 - k)
    /\ 0 <= k <= 52
    /\ Zpos mz = Zpos p * 2 ^ k
    /\ digits2_pos mz = 53%positive.
Proof.
  intros Hp He.
  pose proof (digits2_pos_upper p) as Hu. pose proof (digits2_pos_lower' p) as Hl.
  assert (Zpos (digits2_pos p) <= 53) as Hdg.
  { destruct (Z.le_gt_cases (Zpos (digits2_pos p)) 53) as [|Hgt]; [assumption|exfalso].
    assert (2 ^ 53 <= 2 ^ (Zpos (digits2_pos p) - 1)) by (apply Z.pow_le_mono_r; lia). lia. }
  unfold binary_round, shl_align.
  replace (fexp d_prec d_emax (Zpos (digits2_pos p) + e0)) with (Zpos (digits2_pos p) + e0 - 53)
    by (unfold fexp, emin, d_prec, d_emax; lia).
  destruct (Zpos (digits2_pos p) + e0 - 53 - e0) as [|d|d] eqn:Hsh; [|lia|].
  - exists p, 0. rewrite binary_round_aux_exact; [|lia|lia].
    rewrite Z.sub_0_r. change (2 ^ 0) with 1. repeat split; lia.
  - exists (Pos.iter xO p d), (Zpos d).
    replace (Zpos (digits2_pos p) + e0 - 53) with (e0 - Zpos d) by lia.
    rewrite binary_round_aux_exact; [| rewrite digits2_pos_iter; lia | lia].
    split; [reflexivity|]. split; [lia|]. split; [apply Zpos_iter_xO|].
    rewrite digits2_pos_iter; lia.
Qed.

Lemma shl_align_fst (mx : positive) (ex ez : Z) :
  ez <= ex -> Zpos (fst (shl_align mx ex ez)) = Zpos mx * 2 ^ (ex - ez).
Proof.
  intros H. unfold shl_align. destruct (ez - ex) as [|d|d] eqn:E; [|lia|].
  - replace (ex - ez) with 0 by lia. cbn [fst]. change (2 ^ 0) with 1. lia.
  - cbn [fst]. rewrite Zpos_iter_xO. f_equal. f_equal. lia.
Qed.

(** The difference of two doubles of the same sign that are close is
    computed exactly. *)
Lemma d_sub_exact (s : bool) (mx m : positive) (ex e : Z) :
  - 100 <= ex <= 0 -> - 100 <= e <= 0 ->
  Z.abs (at_scale mx ex - at_scale m e) < 2 ^ 53 * 2 ^ (Z.min ex e + 200) ->
  (d_fabs (d_sub (S754_finite s mx ex) (S754_finite s m e)) = S754_zero false
   /\ at_scale mx ex = at_scale m e)
  \/ exists (mD : positive) (eD : Z),
       d_fabs (d_sub (S754_finite s mx ex) (S754_finite s m e)) = S754_finite false mD eD
       /\ digits2_pos mD = 53%positive
       /\ - 200 <= eD
       /\ at_scale mD eD = Z.abs (at_scale mx ex - at_scale m e).
Proof.
  intros Hex He Hclose. unfold d_sub, SFsub. cbv zeta.
  set (ez := Z.min ex e) in *.
  rewrite (shl_align_fst mx ex ez), (shl_align_fst m e ez) by lia.
  assert (0 < 2 ^ (ez + 200)) as Hp by (apply Z.pow_pos_nonneg; lia).
  assert (at_scale mx ex = Zpos mx * 2 ^ (ex - ez) * 2 ^ (ez + 200)) as Ex.
  { unfold at_scale. rewrite <- Z.mul_assoc, <- Z.pow_add_r by lia. do 2 f_equal. lia. }
  assert (at_scale m e = Zpos m * 2 ^ (e - ez) * 2 ^ (ez + 200)) as Ev.
  { unfold at_scale. rewrite <- Z.mul_assoc, <- Z.pow_add_r by lia. do 2 f_equal. lia. }
  rewrite Ex, Ev in *.
  set (a := Zpos mx * 2 ^ (ex - ez)) in *. set (b := Zpos m * 2 ^ (e - ez)) in *.
  rewrite <- Z.mul_sub_distr_r, Z.abs_mul, (Z.abs_eq (2 ^ (ez + 200))) in * by lia.
  assert (Z.abs (a - b) < 2 ^ 53) as Hab by nia.
  assert (Z.abs (cond_Zopp s a - cond_Zopp s b) = Z.abs (a - b)) as Hsign
    by (destruct s; cbn [cond_Zopp]; lia).
  destruct (cond_Zopp s a - cond_Zopp s b) as [|p|p] eqn:ED; cbn [binary_normalize].
  - left. split; [reflexivity|]. f_equal. lia.
  - right. destruct (binary_round_exact false p ez ltac:(lia) ltac:(lia))
      as (mz & k & -> & Hk & Hm & Hd).
    exists mz, (ez - k). cbn [d_fabs SFabs]. split; [reflexivity|]. split; [exact Hd|].
    split; [lia|]. unfold at_scale. rewrite Hm, <- Hsign.
    rewrite <- Z.mul_assoc, <- Z.pow_add_r by lia. cbn [Z.abs]. do 2 f_equal. lia.
  - right. destruct (binary_round_exact true p ez ltac:(lia) ltac:(lia))
      as (mz & k & -> & Hk & Hm & Hd).
    exists mz, (ez - k). cbn [d_fabs SFabs]. split; [reflexivity|]. split; [exact Hd|].
    split; [lia|]. unfold at_scale. rewrite Hm, <- Hsign.
    rewrite <- Z.mul_assoc, <- Z.pow_add_r by lia. cbn [Z.abs]. do 2 f_equal. lia.
Qed.

Lemma at_scale_bounds (m : positive) (e : Z) :
  digits2_pos m = 53%positive -> - 200 <= e ->
  2 ^ 52 * 2 ^ (e + 200) <= at_scale m e < 2 ^ 53 * 2 ^ (e + 200).
Proof.
  intros Hd He. pose proof (mantissa_53 m Hd) as [Hlo Hhi].
  assert (0 < 2 ^ (e + 200)) by (apply Z.pow_pos_nonneg; lia).
  unfold at_scale. split; [apply Z.mul_le_mono_nonneg_r; lia|apply Z.mul_lt_mono_pos_r; lia].
Qed.

Lemma pow2_ge (a b : Z) : 0 <= a <= b -> 2 ^ a <= 2 ^ b.
Proof. intros H. apply Z.pow_le_mono_r; lia. Qed.

(** Two doubles of at least 1 in magnitude that differ by at most half a
    unit of the sixth decimal plus half a unit in the last place are equal
    under [float_equal]. *)
Lemma float_equal_close (s : bool) (mx m : positive) (ex e : Z) :
  digits2_pos mx = 53%positive -> digits2_pos m = 53%positive ->
  - 53 <= ex <= 0 -> - 52 <= e <= 0 ->
  2 * 1000000 * Z.abs (at_scale mx ex - at_scale m e)
    <= 2 ^ 200 + 1000000 * 2 ^ (ex + 200) ->
  float_equal (S754_finite s mx ex) (S754_finite s m e) = true.
Proof.
  intros Hdx Hdv Hex He Hclose. unfold float_equal.
  destruct (d_eq _ _); [reflexivity|].
  pose proof (at_scale_bounds mx ex Hdx ltac:(lia)) as HX.
  pose proof (at_scale_bounds m e Hdv ltac:(lia)) as HV.
  pose proof (pow2_ge 147 (ex + 200) ltac:(lia)) as Hpx.
  pose proof (pow2_ge 148 (e + 200) ltac:(lia)) as Hpv.
  set (Xs := at_scale mx ex) in *. set (Vs := at_scale m e) in *.
  set (px := 2 ^ (ex + 200)) in *. set (pv := 2 ^ (e + 200)) in *.
  change (2 ^ 52) with 4503599627370496 in *. change (2 ^ 53) with 9007199254740992 in *.
  change (2 ^ 147) with 178405961588244985132285746181186892047843328 in *.
  change (2 ^ 148) with 356811923176489970264571492362373784095686656 in *.
  change (2 ^ 200) with 1606938044258990275541962092341162602522202993782792835301376 in *.
  (* the two exponents differ by at most one *)
  assert (2 ^ (Z.min ex e + 200) = px /\ px <= pv
          \/ 2 ^ (Z.min ex e + 200) = pv /\ px = 2 * pv) as Hmin.
  { destruct (Z.le_gt_cases ex e) as [Hle|Hgt].
    - left. rewrite Z.min_l by lia. split; [reflexivity|].
      apply Z.pow_le_mono_r; lia.
    - right. rewrite Z.min_r by lia. split; [reflexivity|].
      destruct (Z.eq_dec ex (e + 1)) as [->|Hne].
      + unfold px, pv. replace (e + 1 + 200) with (Z.succ (e + 200)) by lia.
        rewrite Z.pow_succ_r by lia. reflexivity.
      + exfalso.
        assert (4 * pv <= px) as H4.
        { unfold px, pv. replace (ex + 200) with ((ex - e - 2) + 2 + (e + 200)) by lia.
          rewrite (Z.pow_add_r 2 (ex - e - 2 + 2)), (Z.pow_add_r 2 (ex - e - 2) 2) by lia.
          change (2 ^ 2) with 4.
          assert (0 < 2 ^ (ex - e - 2)) by (apply Z.pow_pos_nonneg; lia).
          assert (0 < 2 ^ (e + 200)) by (apply Z.pow_pos_nonneg; lia). nia. }
        lia. }
  (* the difference *)
  destruct (d_sub_exact s mx m ex e ltac:(lia) ltac:(lia)) as [[-> _]|(mD & eD & -> & HdD & HeD & HD)].
  { fold Xs Vs. change (2 ^ 53) with 9007199254740992.
    destruct Hmin as [[-> ?]|[-> ?]]; lia. }
  { (* no difference at all *)
    unfold d_fmax at 2. cbn [d_fabs SFabs is_nan].
    destruct (d_lt _ _).
    - destruct (d_mul_rel_epsilon m e Hdv ltac:(lia)) as (mT & eT & -> & _).
      rewrite abs_epsilon_eq. unfold d_fmax. cbn [is_nan]. destruct (d_lt _ _); reflexivity.
    - destruct (d_mul_rel_epsilon mx ex Hdx ltac:(lia)) as (mT & eT & -> & _).
      rewrite abs_epsilon_eq. unfold d_fmax. cbn [is_nan]. destruct (d_lt _ _); reflexivity. }
  fold Xs Vs in HD.
  (* the tolerance, for either choice of the larger magnitude *)
  assert (forall (mL : positive) (eL : Z),
            digits2_pos mL = 53%positive -> - 53 <= eL <= 0 ->
            at_scale mL eL = Xs \/ at_scale mL eL = Vs ->
            d_le (S754_finite false mD eD)
              (d_fmax abs_epsilon (d_mul (S754_finite false mL eL) rel_epsilon)) = true) as Htol.
  { intros mL eL HdL HeL HL.
    destruct (d_mul_rel_epsilon mL eL HdL ltac:(lia)) as (mT & eT & -> & HdT & HeT & HT).
    pose proof (at_scale_bounds mT eT HdT ltac:(lia)) as HTs.
    pose proof (pow2_ge 127 (eT + 200) ltac:(lia)) as HpT.
    assert (2 ^ (eT + 272) = 2 ^ 72 * 2 ^ (eT + 200)) as EpT
      by (rewrite <- Z.pow_add_r by lia; f_equal; lia).
    rewrite EpT in HT.
    set (Ts := at_scale mT eT) in *. set (pT := 2 ^ (eT + 200)) in *.
    set (Ls := at_scale mL eL) in *.
    change (2 ^ 52) with 4503599627370496 in *. change (2 ^ 53) with 9007199254740992 in *.
    change (2 ^ 72) with 4722366482869645213696 in *.
    change (2 ^ 127) with 170141183460469231731687303715884105728 in *.
    assert (d_fmax abs_epsilon (S754_finite false mT eT) = S754_finite false mT eT) as ->.
    { rewrite abs_epsilon_eq. unfold d_fmax. cbn [is_nan]. unfold d_lt, SFltb.
      rewrite SFcompare_normal by (reflexivity || assumption || lia).
      fold Ts. change (at_scale 4835703278458517 (-82))
        with (4835703278458517 * 2 ^ 118).
      change (2 ^ 118) with 332306998946228968225951765070086144.
      assert (4835703278458517 * 332306998946228968225951765070086144 < Ts) as Hlt by lia.
      apply Z.compare_lt_iff in Hlt. rewrite Hlt. reflexivity. }
    unfold d_le, SFleb. rewrite SFcompare_normal by (assumption || lia).
    fold Ts. rewrite HD.
    assert (Z.abs (Xs - Vs) <= Ts) as Hfinal by (destruct HL as [HL|HL]; lia).
    destruct (Z.compare_spec (Z.abs (Xs - Vs)) Ts); [reflexivity|reflexivity|lia]. }
  unfold d_fmax at 2. cbn [d_fabs SFabs is_nan].
  destruct (d_lt _ _).
  - apply (Htol m e); auto; lia.
  - apply (Htol mx ex); auto; lia.
Qed.

(** ** The six decimals of ["%f"] *)

Lemma round_half_even_shift_near (A k : Z) :
  0 < k -> 0 <= A ->
  0 <= round_half_even_shift A k
  /\ 2 * Z.abs (round_half_even_shift A k * 2 ^ k - A) <= 2 ^ k.
Proof.
  intros Hk HA. unfold round_half_even_shift.
  rewrite Z.shiftr_div_pow2, !Z.shiftl_mul_pow2 by lia.
  assert (0 < 2 ^ k) as Hp by (apply Z.pow_pos_nonneg; lia).
  assert (2 ^ k = 2 * 2 ^ (k - 1)) as E.
  { replace k with (Z.succ (k - 1)) at 1 by lia. rewrite Z.pow_succ_r by lia. reflexivity. }
  pose proof (Z.div_mod A (2 ^ k) ltac:(lia)) as Hdm.
  pose proof (Z.mod_pos_bound A (2 ^ k) Hp) as Hmod.
  assert (0 <= A / 2 ^ k) as Hq by (apply Z.div_pos; lia).
  set (q := A / 2 ^ k) in *. set (r := A mod 2 ^ k) in *.
  replace (A - q * 2 ^ k) with r by lia.
  rewrite Z.mul_1_l.
  destruct (Z.ltb_spec r (2 ^ (k - 1))); [split; [lia|]; lia|].
  destruct (Z.ltb_spec (2 ^ (k - 1)) r); [split; lia|].
  destruct (Z.even q); split; lia.
Qed.

Lemma digits_val_linear (ds : string) (a : Z) :
  digits_val ds a = a * 10 ^ Z.of_nat (String.length ds) + digits_val ds 0.
Proof.
  revert a. induction ds as [|c ds IH]; intros a.
  - cbn. lia.
  - cbn [digits_val String.length]. rewrite IH, (IH (0 * 10 + _)).
    rewrite Nat2Z.inj_succ, Z.pow_succ_r by lia. ring.
Qed.

Lemma digits_val_bound (ds : string) :
  all_digits ds = true -> 0 <= digits_val ds 0 < 10 ^ Z.of_nat (String.length ds).
Proof.
  induction ds as [|c ds IH]; intros Hall; [cbn; lia|].
  cbn [all_digits] in Hall. apply andb_true_iff in Hall. destruct Hall as [Hc Hall].
  cbn [digits_val String.length]. rewrite digits_val_linear.
  rewrite Nat2Z.inj_succ, Z.pow_succ_r by lia.
  assert (0 <= 0 * 10 + (Z.of_nat (nat_of_ascii c) - 48) <= 9) as Hcv
    by (digit_cases c Hc; vm_compute; split; discriminate).
  specialize (IH Hall).
  assert (0 < 10 ^ Z.of_nat (String.length ds)) by (apply Z.pow_pos_nonneg; lia).
  nia.
Qed.

(** The numeral of [n] has no leading zero. *)
Lemma dec_digits_length (fuel : nat) :
  forall (n : Z) (acc : string),
    0 <= n < 2 ^ Z.of_nat (S fuel) ->
    exists ds : string,
      dec_digits (S fuel) n acc = (ds ++ acc)%string
      /\ all_digits ds = true
      /\ digits_val ds 0 = n
      /\ (String.length ds = 1%nat \/ 10 ^ (Z.of_nat (String.length ds) - 1) <= n).
Proof.
  induction fuel as [|fuel IH]; intros n acc Hn.
  - exists (String (digit_char (n mod 10)) EmptyString).
    change (2 ^ Z.of_nat 1) with 2 in Hn.
    rewrite Z.mod_small by lia.
    destruct (digit_char_spec n ltac:(lia)) as [Hd Hv].
    split; [cbn [dec_digits]; rewrite Z.mod_small by lia; destruct (n <? 10); reflexivity|].
    split; [cbn [all_digits]; rewrite Hd; reflexivity|].
    split; [cbn [digits_val]; lia|left; reflexivity].
  - change (dec_digits (S (S fuel)) n acc)
      with (let acc' := String (digit_char (n mod 10)) acc in
            if n <? 10 then acc' else dec_digits (S fuel) (n / 10) acc').
    cbv zeta.
    assert (0 <= n mod 10 < 10) as Hmod by (apply Z.mod_pos_bound; lia).
    destruct (digit_char_spec (n mod 10) Hmod) as [Hd Hv].
    destruct (Z.ltb_spec n 10) as [Hlt|Hge].
    + exists (String (digit_char (n mod 10)) EmptyString).
      split; [reflexivity|].
      split; [cbn [all_digits]; rewrite Hd; reflexivity|].
      split; [cbn [digits_val]; rewrite Hv, Z.mod_small by lia; lia|left; reflexivity].
    + destruct (IH (n / 10) (String (digit_char (n mod 10)) acc)) as (ds & Heq & Hall & Hval & Hlen).
      { split; [apply Z.div_pos; lia|].
        apply Z.div_lt_upper_bound; [lia|].
        rewrite (Nat2Z.inj_succ (S fuel)), Z.pow_succ_r in Hn by lia. lia. }
      exists (ds ++ String (digit_char (n mod 10)) EmptyString)%string.
      split; [rewrite Heq, string_app_assoc; reflexivity|].
      split; [rewrite all_digits_app, Hall; cbn [all_digits]; rewrite Hd; reflexivity|].
      pose proof (Z.div_mod n 10 ltac:(lia)) as Hdm.
      split; [rewrite digits_val_app, Hval; cbn [digits_val]; rewrite Hv; lia|].
      right. rewrite string_length_app. cbn [String.length].
      replace (Z.of_nat (String.length ds + 1) - 1) with (Z.of_nat (String.length ds)) by lia.
      destruct Hlen as [->|Hlen]; [change (10 ^ Z.of_nat 1) with 10; lia|].
      replace (Z.of_nat (String.length ds)) with (Z.succ (Z.of_nat (String.length ds) - 1)) by lia.
      rewrite Z.pow_succ_r; [lia|].
      destruct ds; [cbn in Hval; cbn in Hlen; change (10 ^ (0 - 1)) with 0 in Hlen|cbn [String.length]]; lia.
Qed.

Lemma string_length_6 (F : string) :
  String.length F = 6%nat ->
  exists c1 c2 c3 c4 c5 c6,
    F = String c1 (String c2 (String c3 (String c4 (String c5 (String c6 EmptyString))))).
Proof.
  intros H.
  do 6 (destruct F as [|? F]; [discriminate H|]).
  destruct F; [|discriminate H]. eauto 10.
Qed.

(** [frac6]: six digits, zero padded. *)
Lemma frac6_spec (r : Z) :
  0 <= r < 1000000 ->
  all_digits (frac6 r) = true
  /\ String.length (frac6 r) = 6%nat
  /\ digits_val (frac6 r) 0 = r.
Proof.
  intros Hr. unfold frac6, dec_of_nonneg.
  destruct (dec_digits_length (Z.to_nat (Z.log2 (1000000 + r))) (1000000 + r) EmptyString)
    as (ds & -> & Hall & Hval & Hlen).
  { split; [lia|]. rewrite Nat2Z.inj_succ, Z2Nat.id by apply Z.log2_nonneg.
    apply Z.log2_spec. lia. }
  rewrite string_app_nil_r.
  pose proof (digits_val_bound ds Hall) as Hb. rewrite Hval in Hb.
  assert (Z.of_nat (String.length ds) = 7) as Hlen7.
  { destruct (Z.lt_trichotomy (Z.of_nat (String.length ds)) 7) as [Hlt|[Heq|Hgt]]; [|exact Heq|].
    - assert (10 ^ Z.of_nat (String.length ds) <= 10 ^ 6) by (apply Z.pow_le_mono_r; lia).
      change (10 ^ 6) with 1000000 in *. lia.
    - destruct Hlen as [Hlen|Hlen]; [lia|].
      assert (10 ^ 7 <= 10 ^ (Z.of_nat (String.length ds) - 1)) by (apply Z.pow_le_mono_r; lia).
      change (10 ^ 7) with 10000000 in *. lia. }
  destruct ds as [|c F]; [cbn in Hlen7; lia|].
  cbn [all_digits] in Hall. apply andb_true_iff in Hall. destruct Hall as [Hc HF].
  cbn [String.length] in Hlen7.
  assert (String.length F = 6%nat) as HlF by lia.
  split; [exact HF|]. split; [exact HlF|].
  cbn [digits_val] in Hval. rewrite digits_val_linear, HlF in Hval.
  pose proof (digits_val_bound F HF) as HbF. rewrite HlF in HbF.
  change (10 ^ Z.of_nat 6) with 1000000 in *.
  assert (0 <= 0 * 10 + (Z.of_nat (nat_of_ascii c) - 48) <= 9) as Hcv
    by (digit_cases c Hc; vm_compute; split; discriminate).
  lia.
Qed.

(** ** Removing the trailing zeros *)


Lemma string_rev_app (a b : string) :
  string_rev (a ++ b) = (string_rev b ++ string_rev a)%string.
Proof.
  unfold string_rev. rewrite string_rev_onto_app.
  generalize (string_rev_onto a EmptyString) as acc. intros acc.
  revert acc. induction b as [|c b IH]; intros acc; [reflexivity|].
  cbn [string_rev_onto]. rewrite IH, (IH (String c EmptyString)).
  rewrite string_app_assoc. reflexivity.
Qed.

Lemma all_digits_rev (a : string) : all_digits (string_rev a) = all_digits a.
Proof.
  induction a as [|c a IH]; [reflexivity|].
  change (String c a) with (String c EmptyString ++ a)%string at 1.
  rewrite string_rev_app, all_digits_app, IH. cbn [all_digits string_rev string_rev_onto].
  rewrite andb_true_r, andb_comm. reflexivity.
Qed.

Lemma string_rev_zeros (j : nat) : string_rev (zeros j) = zeros j.
Proof.
  induction j as [|j IH]; [reflexivity|].
  cbn [zeros]. change (String "0" (zeros j)) with (String "0" EmptyString ++ zeros j)%string.
  rewrite string_rev_app, IH. clear IH.
  induction j as [|j IH]; [reflexivity|].
  cbn [zeros]. rewrite string_app_cons, IH. reflexivity.
Qed.

Lemma digits_val_zeros (j : nat) (a : Z) : digits_val (zeros j) a = a * 10 ^ Z.of_nat j.
Proof.
  revert a. induction j as [|j IH]; intros a; [cbn; lia|].
  cbn [zeros digits_val]. rewrite IH, Nat2Z.inj_succ, Z.pow_succ_r by lia.
  change (Z.of_nat (nat_of_ascii "0") - 48) with 0. ring.
Qed.

Lemma string_length_zeros (j : nat) : String.length (zeros j) = j.
Proof. induction j as [|j IH]; [reflexivity|]. cbn [zeros String.length]. rewrite IH. reflexivity. Qed.

(** [drop_leading "0"] on digits followed by a text that starts with
    another character. *)
Lemma drop_leading_zeros (G rest : string) :
  all_digits G = true ->
  drop_leading "0" (String "." rest) = String "." rest ->
  exists (j : nat) (G2 : string),
    G = (zeros j ++ G2)%string
    /\ drop_leading "0" (G ++ String "." rest) = (G2 ++ String "." rest)%string
    /\ drop_one_leading "." (G2 ++ String "." rest)
       = (if String.eqb G2 EmptyString then rest else G2 ++ String "." rest)%string.
Proof.
  intros Hall Hrest. induction G as [|c G IH].
  - exists O, EmptyString. split; [reflexivity|]. split; [exact Hrest|]. reflexivity.
  - cbn [all_digits] in Hall. apply andb_true_iff in Hall. destruct Hall as [Hc Hall].
    destruct (Ascii.eqb_spec "0" c) as [<-|Hne].
    + destruct (IH Hall) as (j & G2 & -> & Hdrop & Hone).
      exists (S j), G2. split; [reflexivity|]. split; [|exact Hone].
      rewrite string_app_cons. cbn [drop_leading]. change (Ascii.eqb "0" "0") with true.
      cbv iota. exact Hdrop.
    + exists O, (String c G). split; [reflexivity|]. split.
      * rewrite string_app_cons. cbn [drop_leading].
        destruct (Ascii.eqb_spec "0" c); [congruence|reflexivity].
      * rewrite string_app_cons. cbn [drop_one_leading String.eqb].
        digit_cases c Hc; reflexivity.
Qed.

(** What the zero stripping of [to_string] leaves of [X.F]. *)
Lemma strip_fraction (X F : string) :
  all_digits F = true ->
  exists (j : nat) (F' : string),
    F = (F' ++ zeros j)%string
    /\ all_digits F' = true
    /\ string_rev (drop_one_leading "." (drop_leading "0" (string_rev (X ++ String "." F))))
       = (if String.eqb F' EmptyString then X else X ++ String "." F')%string.
Proof.
  intros Hall. rewrite string_rev_app.
  change (String "." F) with (String "." EmptyString ++ F)%string.
  rewrite string_rev_app. cbn [string_rev string_rev_onto]. fold (string_rev F) (string_rev X).
  rewrite string_app_assoc, string_app_cons.
  change (EmptyString ++ string_rev X)%string with (string_rev X).
  destruct (drop_leading_zeros (string_rev F) (string_rev X)) as (j & G2 & HG & Hdrop & Hone);
    [rewrite all_digits_rev; exact Hall|reflexivity|].
  rewrite Hdrop, Hone.
  assert (F = (string_rev G2 ++ zeros j)%string) as HF.
  { rewrite <- (string_rev_involutive F), HG, string_rev_app, string_rev_zeros. reflexivity. }
  exists j, (string_rev G2).
  split; [exact HF|].
  split.
  { rewrite all_digits_rev. rewrite <- (all_digits_rev F), HG, all_digits_app in Hall.
    apply andb_true_iff in Hall. tauto. }
  destruct G2 as [|c G2].
  - cbn [String.eqb string_rev string_rev_onto]. apply string_rev_involutive.
  - replace (String.eqb (string_rev (String c G2)) EmptyString) with false.
    + cbn [String.eqb]. rewrite string_rev_app.
      change (String "." (string_rev X)) with (String "." EmptyString ++ string_rev X)%string.
      rewrite string_rev_app, string_rev_involutive.
      cbn [string_rev string_rev_onto]. rewrite string_app_assoc. reflexivity.
    + symmetry. apply String.eqb_neq.
      change (String c G2) with (String c EmptyString ++ G2)%string.
      rewrite string_rev_app. cbn [string_rev string_rev_onto].
      destruct (string_rev G2); discriminate.
Qed.

(** ** [std::stod] on a numeral with a fraction *)

Lemma hex_literal_not_x (c x : ascii) (r : string) :
  Ascii.eqb (to_lower_char x) "x" = false -> hex_literal (String c (String x r)) = None.
Proof. intros H. unfold hex_literal. rewrite H, andb_false_r. reflexivity. Qed.

Lemma hex_literal_fraction (Xd rest : string) :
  all_digits Xd = true -> Xd <> EmptyString ->
  hex_literal (Xd ++ String "." rest) = None.
Proof.
  intros Hall Hne. destruct Xd as [|c [|c2 Xd]]; [congruence| |].
  - apply hex_literal_not_x. reflexivity.
  - cbn [all_digits] in Hall. apply andb_true_iff in Hall. destruct Hall as [_ Hall].
    apply andb_true_iff in Hall. destruct Hall as [Hc2 _].
    rewrite !string_app_cons. apply hex_literal_not_x. digit_cases c2 Hc2; reflexivity.
Qed.

Lemma dec_literal_fraction (Xd F' : string) :
  all_digits Xd = true -> Xd <> EmptyString ->
  all_digits F' = true ->
  dec_literal (Xd ++ String "." (F' ++ " "))
  = Some (digits_val F' (digits_val Xd 0), - Z.of_nat (String.length F')).
Proof.
  intros Hall Hne HallF. unfold dec_literal. rewrite read_digits_app by assumption.
  cbn [read_digits]. change (is_digit ".") with false. cbv iota.
  rewrite read_digits_app by assumption.
  cbn [read_digits]. change (is_digit " ") with false. cbv iota.
  replace (0 <? 0 + Z.of_nat (String.length Xd) + (0 + Z.of_nat (String.length F'))) with true.
  - change (read_exponent "e" " ") with 0. f_equal.
  - symmetry. apply Z.ltb_lt. destruct Xd; [congruence|]. cbn [String.length]. lia.
Qed.

Lemma stod_unsigned_fraction (s : bool) (Xd F' : string) :
  all_digits Xd = true -> Xd <> EmptyString ->
  all_digits F' = true -> F' <> EmptyString ->
  stod_unsigned s (Xd ++ String "." (F' ++ " "))
  = stod_round s (digits_val F' (digits_val Xd 0)) (10 ^ Z.of_nat (String.length F')).
Proof.
  intros Hall Hne HallF HneF. unfold stod_unsigned.
  rewrite (dec_literal_fraction Xd F' Hall Hne HallF).
  rewrite (hex_literal_fraction Xd _ Hall Hne).
  destruct Xd as [|c Xd]; [congruence|].
  cbn [all_digits] in Hall. apply andb_true_iff in Hall. destruct Hall as [Hc Hall].
  rewrite string_app_cons.
  destruct (not_inf_nan c (Xd ++ String "." (F' ++ " ")) Hc) as [-> ->].
  replace (0 <=? - Z.of_nat (String.length F')) with false.
  - rewrite Z.opp_involutive. reflexivity.
  - symmetry. apply Z.leb_gt. destruct F'; [congruence|]. cbn [String.length]. lia.
Qed.

Lemma stod_fraction (Xd F' : string) :
  all_digits Xd = true -> Xd <> EmptyString ->
  all_digits F' = true -> F' <> EmptyString ->
  stod (String " " (Xd ++ String "." (F' ++ " ")))
  = stod_round false (digits_val F' (digits_val Xd 0)) (10 ^ Z.of_nat (String.length F'))
  /\ stod (String "-" (Xd ++ String "." (F' ++ " ")))
     = stod_round true (digits_val F' (digits_val Xd 0)) (10 ^ Z.of_nat (String.length F')).
Proof.
  intros Hall Hne HallF HneF.
  rewrite <- !(stod_unsigned_fraction _ Xd F' Hall Hne HallF HneF).
  destruct Xd as [|c Xd]; [congruence|].
  cbn [all_digits] in Hall. apply andb_true_iff in Hall. destruct Hall as [Hc _].
  rewrite string_app_cons. split; [|reflexivity].
  digit_cases c Hc; reflexivity.
Qed.

(** A proper decimal fraction goes through the rounded quotient. *)
Lemma stod_round_ratio (s : bool) (n : positive) (L : Z) :
  0 < L -> 10 ^ L <= Zpos n < 10 ^ L * 2 ^ 50 ->
  exists (d mf : positive) (ef : Z),
    Zpos d = 10 ^ L
    /\ stod_round s (Zpos n) (10 ^ L) = Some (S754_finite s mf ef)
    /\ digits2_pos mf = 53%positive
    /\ - 53 <= ef <= - 1
    /\ 2 * Z.abs (at_scale mf ef * 10 ^ L - Zpos n * 2 ^ 200) <= 10 ^ L * 2 ^ (ef + 200).
Proof.
  intros HL Hn.
  assert (10 <= 10 ^ L) as H10.
  { change 10 with (10 ^ 1) at 1. apply Z.pow_le_mono_r; lia. }
  destruct (10 ^ L) as [|d|d] eqn:Ed; [lia| |lia].
  destruct (d_of_ratio_correct s n d ltac:(lia)) as (mf & ef & Hres & Hmf & Hef & Hnear).
  exists d, mf, ef. split; [reflexivity|].
  split.
  - unfold stod_round.
    assert (match d with
            | 1%positive => binary_round d_prec d_emax s n 0
            | _ => d_of_ratio s n d
            end = d_of_ratio s n d) as -> by (destruct d; [reflexivity|reflexivity|lia]).
    rewrite Hres. cbn [is_finite negb is_tiny]. rewrite Hmf. reflexivity.
  - auto.
Qed.

(** ** The round trip through six decimals *)

(** The value printed by ["%f"] for a double in [1, 2^50): the integer
    [S] of its millionths, within half a millionth. *)
Lemma millionths_near (m : positive) (e : Z) :
  digits2_pos m = 53%positive -> - 52 <= e <= - 3 ->
  let S := round_half_even_shift (Zpos m * 1000000) (- e) in
  1000000 <= S < 1000000 * 2 ^ 50
  /\ 2 * Z.abs (S * 2 ^ 200 - 1000000 * at_scale m e) <= 2 ^ 200.
Proof.
  intros Hd He S.
  destruct (round_half_even_shift_near (Zpos m * 1000000) (- e) ltac:(lia) ltac:(lia))
    as [HS0 Hnear].
  fold S in HS0, Hnear.
  pose proof (mantissa_53 m Hd) as Hm.
  change (2 ^ 52) with 4503599627370496 in Hm. change (2 ^ 53) with 9007199254740992 in Hm.
  assert (0 < 2 ^ (- e)) as Hp by (apply Z.pow_pos_nonneg; lia).
  assert (8 <= 2 ^ (- e)) as Hp8 by (change 8 with (2 ^ 3); apply Z.pow_le_mono_r; lia).
  assert (2 ^ (- e) <= 4503599627370496) as Hp52
    by (change 4503599627370496 with (2 ^ 52); apply Z.pow_le_mono_r; lia).
  assert (2 ^ 200 = 2 ^ (- e) * 2 ^ (e + 200)) as E200
    by (rewrite <- Z.pow_add_r by lia; f_equal; lia).
  assert (0 < 2 ^ (e + 200)) as Hw by (apply Z.pow_pos_nonneg; lia).
  set (p := 2 ^ (- e)) in *. set (w := 2 ^ (e + 200)) in *.
  split; [split|].
  - destruct (Z.le_gt_cases 1000000 S) as [|Hlt]; [assumption|exfalso].
    assert (S * p <= 999999 * p) by (apply Z.mul_le_mono_nonneg_r; lia).
    assert (1000000 * p <= Zpos m * 1000000) by nia.
    lia.
  - change (2 ^ 50) with 1125899906842624.
    destruct (Z.lt_ge_cases S (1000000 * 1125899906842624)) as [|Hge]; [assumption|exfalso].
    assert (1000000 * 1125899906842624 * p <= S * p) by (apply Z.mul_le_mono_nonneg_r; lia).
    lia.
  - unfold at_scale. fold w. rewrite E200.
    replace (S * (p * w) - 1000000 * (Zpos m * w))
      with ((S * p - Zpos m * 1000000) * w) by ring.
    apply scale_near; assumption.
Qed.

Lemma String_eqb_empty (a : string) : String.eqb a EmptyString = true -> a = EmptyString.
Proof. destruct a; [reflexivity|discriminate]. Qed.

(** The text that the fixed-notation branch of [to_string] produces for
    a double in [1, 2^50), read back by [std::stod]. *)
Lemma fraction_path (s : bool) (m : positive) (e : Z) :
  digits2_pos m = 53%positive -> - 52 <= e <= - 3 ->
  let t := fmt_f (S754_finite s m e) in
  let stripped :=
    if string_contains "." t
    then string_rev (drop_one_leading "." (drop_leading "0" (string_rev t)))
    else t in
  exists x : double,
    stod ((if s then stripped else String " " stripped) ++ " ") = Some x
    /\ float_equal x (S754_finite s m e) = true.
Proof.
  intros Hd He t stripped. subst stripped t. unfold fmt_f.
  replace (0 <=? e) with false by (symmetry; apply Z.leb_gt; lia).
  destruct (millionths_near m e Hd He) as [[HSlo HShi] HSnear].
  set (S := round_half_even_shift (Zpos m * 1000000) (- e)) in *.
  pose proof (Z.div_mod S 1000000 ltac:(lia)) as Hdm.
  pose proof (Z.mod_pos_bound S 1000000 ltac:(lia)) as Hr.
  assert (1 <= S / 1000000 < 2 ^ 50) as Hip.
  { split; [apply Z.div_le_lower_bound; lia|apply Z.div_lt_upper_bound; lia]. }
  set (ip := S / 1000000) in *. set (r := S mod 1000000) in *.
  destruct (dec_of_nonneg_spec ip ltac:(lia)) as (HallX & HneX & HvalX).
  destruct (frac6_spec r Hr) as (HallF & HlenF & HvalF).
  set (Xd := dec_of_nonneg ip) in *. set (F := frac6 r) in *.
  set (sgn := (if s then "-" else "")%string).
  replace (sgn ++ Xd ++ "." ++ F)%string with ((sgn ++ Xd) ++ String "." F)%string
    by (rewrite string_app_assoc; reflexivity).
  rewrite string_contains_app_r by reflexivity.
  destruct (strip_fraction (sgn ++ Xd) F HallF) as (j & F' & HF & HallF' & ->).
  assert (Z.of_nat (String.length F') + Z.of_nat j = 6) as HLj.
  { rewrite <- (string_length_zeros j) at 1. rewrite <- Nat2Z.inj_add, <- string_length_app, <- HF.
    lia. }
  assert (r = digits_val F' 0 * 10 ^ Z.of_nat j) as Hrj.
  { rewrite <- HvalF, HF, digits_val_app, digits_val_zeros. reflexivity. }
  pose proof (at_scale_bounds m e Hd ltac:(lia)) as HV.
  destruct (String.eqb F' EmptyString) eqn:EF.
  - (* nothing but zeros after the point *)
    apply String_eqb_empty in EF. subst F'.
    assert (r = 0) as Hr0 by (rewrite Hrj; reflexivity).
    destruct ip as [|p|p] eqn:Eip; [lia| |lia].
    destruct (stod_numeral Xd HallX HneX) as [Hpos Hneg].
    assert (Zpos p < 2 ^ 53) as Hp53
      by (change (2 ^ 50) with 1125899906842624 in Hip;
          change (2 ^ 53) with 9007199254740992; lia).
    destruct (binary_round_exact s p 0 Hp53 ltac:(lia)) as (mz & k & Hbr & Hk & Hmz & Hdz).
    exists (S754_finite s mz (0 - k)). split.
    + destruct s; subst sgn.
      * change (("-" ++ Xd) ++ " ")%string with (String "-" (Xd ++ " ")).
        rewrite Hneg, HvalX, (stod_round_integer true p Hp53), Hbr. reflexivity.
      * change (String " " ("" ++ Xd) ++ " ")%string with (String " " (Xd ++ " ")).
        rewrite Hpos, HvalX, (stod_round_integer false p Hp53), Hbr. reflexivity.
    + apply float_equal_close; [exact Hdz|exact Hd|lia|lia|].
      assert (at_scale mz (0 - k) = Zpos p * 2 ^ 200) as ->.
      { unfold at_scale. rewrite Hmz, <- Z.mul_assoc, <- Z.pow_add_r by lia.
        do 2 f_equal. lia. }
      assert (0 < 2 ^ (0 - k + 200)) by (apply Z.pow_pos_nonneg; lia).
      replace (2 * 1000000 * Z.abs (Zpos p * 2 ^ 200 - at_scale m e))
        with (2 * Z.abs (S * 2 ^ 200 - 1000000 * at_scale m e)); [lia|].
      replace (S * 2 ^ 200 - 1000000 * at_scale m e)
        with (1000000 * (Zpos p * 2 ^ 200 - at_scale m e)) by lia.
      rewrite Z.abs_mul. lia.
  - (* digits after the point *)
    assert (F' <> EmptyString) as HneF' by (intros ->; discriminate EF).
    set (L := Z.of_nat (String.length F')) in *.
    assert (0 < L) as HL by (unfold L; destruct F'; [congruence|cbn [String.length]; lia]).
    destruct (stod_fraction Xd F' HallX HneX HallF' HneF') as [Hpos Hneg].
    fold L in Hpos, Hneg. rewrite HvalX in Hpos, Hneg.
    rewrite (digits_val_linear F' ip) in Hpos, Hneg. fold L in Hpos, Hneg.
    pose proof (digits_val_bound F' HallF') as HbF'. fold L in HbF'.
    set (f := digits_val F' 0) in *.
    assert (0 < 10 ^ Z.of_nat j) as Hj by (apply Z.pow_pos_nonneg; lia).
    assert (10 ^ L * 10 ^ Z.of_nat j = 1000000) as E6.
    { rewrite <- Z.pow_add_r, HLj by lia. reflexivity. }
    assert (0 < 10 ^ L) as HpL by (apply Z.pow_pos_nonneg; lia).
    set (M := ip * 10 ^ L + f) in *.
    assert (M * 10 ^ Z.of_nat j = S) as EM by (unfold M; nia).
    assert (10 ^ L <= M < 10 ^ L * 2 ^ 50) as HM.
    { change (2 ^ 50) with 1125899906842624 in *. split; nia. }
    destruct M as [|n|n] eqn:En; [lia| |lia].
    destruct (stod_round_ratio s n L HL HM) as (d & mf & ef & Ed & Hres & Hmf & Hef & Hnear).
    exists (S754_finite s mf ef). split.
    + destruct s; subst sgn.
      * change (("-" ++ Xd) ++ String "." F')%string with (String "-" (Xd ++ String "." F')).
        rewrite string_app_cons, string_app_assoc, string_app_cons.
        rewrite Hneg. exact Hres.
      * change (String " " (("" ++ Xd) ++ String "." F') ++ " ")%string
          with (String " " ((Xd ++ String "." F') ++ " ")).
        rewrite string_app_assoc, string_app_cons.
        rewrite Hpos. exact Hres.
    + apply float_equal_close; [exact Hmf|exact Hd|lia|lia|].
      apply (scale_near _ _ (10 ^ Z.of_nat j) Hj) in Hnear.
      replace ((at_scale mf ef * 10 ^ L - Zpos n * 2 ^ 200) * 10 ^ Z.of_nat j)
        with (at_scale mf ef * 1000000 - S * 2 ^ 200) in Hnear
        by (rewrite <- E6, <- EM; ring).
      replace (10 ^ L * 2 ^ (ef + 200) * 10 ^ Z.of_nat j)
        with (1000000 * 2 ^ (ef + 200)) in Hnear by (rewrite <- E6; ring).
      lia.
Qed.

Lemma SFeqb_finite_eq (s1 s2 : bool) (m1 m2 : positive) (e1 e2 : Z) :
  SFeqb (S754_finite s1 m1 e1) (S754_finite s2 m2 e2) = true ->
  s1 = s2 /\ m1 = m2 /\ e1 = e2.
Proof.
  unfold SFeqb. cbn [SFcompare].
  destruct s1, s2; try discriminate;
    destruct (Z.compare_spec e1 e2) as [->|?|?]; try discriminate;
    rewrite Pos.compare_cont_spec; cbn [Pos.switch_Eq];
    destruct (Pos.compare_spec m1 m2) as [->|?|?]; try discriminate; auto.
Qed.

Lemma cast_int64_normal (s : bool) (m : positive) (e : Z) :
  digits2_pos m = 53%positive -> - 52 <= e <= - 3 ->
  exists N : Z,
    cast_int64 (S754_finite s m e) = Some (cond_Zopp s N) /\ 0 <= N < 2 ^ 50.
Proof.
  intros Hd He. exists (Z.shiftl (Zpos m) e).
  pose proof (mantissa_53 m Hd) as Hm.
  assert (0 <= Z.shiftl (Zpos m) e < 2 ^ 50) as HN.
  { rewrite Z.shiftl_div_pow2 by lia.
    assert (8 <= 2 ^ (- e)) by (change 8 with (2 ^ 3); apply Z.pow_le_mono_r; lia).
    change (2 ^ 53) with 9007199254740992 in Hm. change (2 ^ 50) with 1125899906842624.
    split; [apply Z.div_pos; lia|apply Z.div_lt_upper_bound; lia]. }
  split; [|exact HN].
  unfold cast_int64, cast_signed, d_trunc.
  change (2 ^ 50) with 1125899906842624 in HN.
  assert (- 2 ^ (64 - 1) <= cond_Zopp s (Z.shiftl (Zpos m) e) < 2 ^ (64 - 1)) as [Hlo Hhi].
  { change (2 ^ (64 - 1)) with 9223372036854775808. destruct s; cbn [cond_Zopp]; lia. }
  apply Z.leb_le in Hlo. apply Z.ltb_lt in Hhi. rewrite Hlo, Hhi. reflexivity.
Qed.

Section RoundTrip.
Context {UF : UnorderedMap string ForLoopState} {UD : UnorderedMap Z Z} {AL : Allocator}.

(** A double with a full mantissa and 1 <= |v| < 2^50. *)
Lemma val_str_normal (mach : Machine) (s : bool) (m : positive) (e : Z) :
  digits2_pos m = 53%positive -> - 52 <= e <= - 3 ->
  exists (text : string) (x : double),
    builtin_str [VDouble (S754_finite s m e)] mach = (mach, Ok (VString text))
    /\ builtin_val [VString text] mach = (mach, Ok (VDouble x))
    /\ float_equal x (S754_finite s m e) = true.
Proof.
  intros Hd He.
  destruct (cast_int64_normal s m e Hd He) as (N & Hcast & HN).
  destruct (d_eq (S754_finite s m e) (d_of_Z (cond_Zopp s N))
            && d_lt (d_fabs (S754_finite s m e)) d_1e10) eqn:Hint.
  - (* printed as an integer *)
    apply andb_true_iff in Hint. destruct Hint as [Heq _].
    destruct N as [|p|p]; [destruct s; discriminate Heq| |lia].
    assert (d_of_Z (cond_Zopp s (Zpos p)) = binary_round d_prec d_emax s p 0) as Hof
      by (destruct s; reflexivity).
    assert (Zpos p < 2 ^ 53) as Hp53
      by (change (2 ^ 50) with 1125899906842624 in HN;
          change (2 ^ 53) with 9007199254740992; lia).
    destruct (binary_round_exact s p 0 Hp53 ltac:(lia)) as (mz & k & Hbr & Hk & Hmz & Hdz).
    rewrite Hof, Hbr in Heq. unfold d_eq in Heq.
    apply SFeqb_finite_eq in Heq. destruct Heq as (_ & -> & ->).
    replace (0 - k) with (- k) in * by lia.
    destruct (val_str_integer_repr mach s p mz k Hp53 Hbr ltac:(lia) Hmz) as [Hs Hv].
    eexists _, _. split; [exact Hs|]. split; [exact Hv|].
    apply float_equal_refl_finite. reflexivity.
  - (* printed with six decimals *)
    destruct (fraction_path s m e Hd He) as (x & Hx & Hfe).
    eexists _, x. split; [|split; [|exact Hfe]].
    + unfold builtin_str, bind. cbn [to_string]. unfold number_to_string.
      rewrite Hcast. cbv beta iota zeta. rewrite Hint. reflexivity.
    + unfold builtin_val, bind. cbn [get_string ret].
      replace (d_ge (S754_finite s m e) d_zero) with (negb s) by (destruct s; reflexivity).
      destruct s; cbn [negb]; rewrite Hx; reflexivity.
Qed.
End RoundTrip.

(** A valid double with 1 <= |v| < 1e15 has a full mantissa and an
    exponent between -52 and -3. *)
Lemma normal_range (v : double) :
  valid_binary d_prec d_emax v = true ->
  d_le d_one (d_fabs v) = true ->
  d_lt (d_fabs v) d_1e15 = true ->
  exists (s : bool) (m : positive) (e : Z),
    v = S754_finite s m e /\ digits2_pos m = 53%positive /\ - 52 <= e <= - 3.
Proof.
  intros Hvalid Hge Hlt.
  destruct v as [s|s| |s m e];
    [destruct s; discriminate Hge|destruct s; discriminate Hlt|discriminate Hge|].
  exists s, m, e. split; [reflexivity|].
  unfold d_le, SFleb, d_fabs, SFabs in Hge.
  change d_one with (S754_finite false 4503599627370496 (-52)) in Hge.
  unfold d_lt, SFltb, d_fabs, SFabs in Hlt.
  change d_1e15 with (S754_finite false 8000000000000000 (-3)) in Hlt.
  cbn [SFcompare] in Hge, Hlt.
  assert (- 52 <= e) as He1 by (destruct (Z.compare_spec (-52) e); [lia|lia|discriminate Hge]).
  assert (e <= - 3) as He2 by (destruct (Z.compare_spec e (-3)); [lia|lia|discriminate Hlt]).
  split; [|lia].
  cbn [valid_binary] in Hvalid. unfold bounded, canonical_mantissa in Hvalid.
  apply andb_true_iff in Hvalid. destruct Hvalid as [Hcan _].
  apply Z.eqb_eq in Hcan. unfold fexp, emin, d_prec, d_emax in Hcan. lia.
Qed.

Section RoundTripTheorem.
Context {UF : UnorderedMap string ForLoopState} {UD : UnorderedMap Z Z} {AL : Allocator}.

(** X1.  For every valid double [v] with 1 <= |v| < 1e15, STR$ prints
    [v] (as an integer, or in fixed notation with six decimals and the
    trailing zeros removed), VAL converts that text, and the result
    equals [v] under [float_equal]. *)
Theorem val_str_round_trip (mach : Machine) (v : double) :
  valid_binary d_prec d_emax v = true ->
  d_le d_one (d_fabs v) = true ->
  d_lt (d_fabs v) d_1e15 = true ->
  exists (text : string) (x : double),
    builtin_str [VDouble v] mach = (mach, Ok (VString text))
    /\ builtin_val [VString text] mach = (mach, Ok (VDouble x))
    /\ float_equal x v = true.
Proof.
  intros Hvalid Hge Hlt.
  destruct (normal_range v Hvalid Hge Hlt) as (s & m & e & -> & Hd & He).
  apply val_str_normal; assumption.
Qed.
End RoundTripTheorem.


Lemma val_str_round_trip_witness :
  exists (text : string) (x : double),
    builtin_str [VDouble d_pi_8] machine_idle = (machine_idle, Ok (VString text))
    /\ builtin_val [VString text] machine_idle = (machine_idle, Ok (VDouble x))
    /\ float_equal x d_pi_8 = true.
Proof.
  apply (val_str_round_trip machine_idle d_pi_8); vm_compute; reflexivity.
Defined.

Example val_str_pi :
  builtin_str [VDouble d_pi_8] machine_idle = (machine_idle, Ok (VString " 3.141593 "))
  /\ d_eq d_pi_8 (d_of_ratio false 3141593 1000000) = false.
Proof. split; vm_compute; reflexivity. Qed.

Lemma d_of_Z_not_negative_zero (n : Z) :
  - 1000000000000000 < n < 1000000000000000 -> d_of_Z n <> S754_zero true.
Proof.
  intros Hn.
  assert (forall p, Zpos p < 1000000000000000 -> Zpos p < 2 ^ 53) as Hp
    by (intros p; change (2 ^ 53) with 9007199254740992; lia).
  destruct n as [|p|p]; [discriminate| |].
  - rewrite d_of_Z_pos.
    destruct (binary_round_integer false p (Hp p ltac:(lia))) as (mz & k & Hbr & _).
    rewrite Hbr. discriminate.
  - rewrite d_of_Z_neg.
    destruct (binary_round_integer true p (Hp p ltac:(lia))) as (mz & k & Hbr & _).
    rewrite Hbr. discriminate.
Qed.

Section RoundTripRange.
Context {UF : UnorderedMap string ForLoopState} {UD : UnorderedMap Z Z} {AL : Allocator}.

(** C5, amended.  For every valid double [v] below 1e15 in magnitude
    that is zero or at least 1 in magnitude, STR$ prints [v], VAL
    converts that text, and the result equals [v] under
    [float_equal]; when [v] is the double of an integer, the result
    is [v] itself. *)
Theorem val_str_round_trip_outside_unit (mach : Machine) (v : double) :
  valid_binary d_prec d_emax v = true ->
  d_lt (d_fabs v) d_1e15 = true ->
  d_eq v d_zero = true \/ d_le d_one (d_fabs v) = true ->
  exists (text : string) (x : double),
    builtin_str [VDouble v] mach = (mach, Ok (VString text))
    /\ builtin_val [VString text] mach = (mach, Ok (VDouble x))
    /\ float_equal x v = true
    /\ forall n : Z,
         - 1000000000000000 < n < 1000000000000000 -> v = d_of_Z n -> x = v.
Proof.
  intros Hvalid Hlt [Hz|Hge].
  - destruct v as [s|s| |s m e];
      [|destruct s; discriminate Hz|discriminate Hz|destruct s; discriminate Hz].
    exists " 0 "%string, d_zero.
    split; [by destruct s|]. split; [reflexivity|]. split; [by destruct s|].
    intros n Hn Hv. destruct s; [|reflexivity].
    symmetry in Hv. by apply d_of_Z_not_negative_zero in Hv.
  - destruct (normal_range v Hvalid Hge Hlt) as (s & m & e & -> & Hd & He).
    destruct (val_str_normal mach s m e Hd He) as (text & x & Hs & Hv & Hfe).
    exists text, x. split; [exact Hs|]. split; [exact Hv|]. split; [exact Hfe|].
    intros n Hn Hvn.
    destruct (val_str_round_trip_integers mach n Hn) as (text' & x' & Hs' & Hv' & Hx' & _).
    rewrite <- Hvn in Hs', Hx'. rewrite Hs in Hs'. injection Hs' as <-.
    rewrite Hv in Hv'. injection Hv' as <-. exact Hx'.
Qed.
End RoundTripRange.

(** -2.5 prints as [-2.5 ] and reads back as -2.5. *)
Lemma val_str_round_trip_outside_unit_witness :
  exists (text : string) (x : double),
    builtin_str [VDouble (d_of_ratio true 5 2)] machine_idle
    = (machine_idle, Ok (VString text))
    /\ builtin_val [VString text] machine_idle = (machine_idle, Ok (VDouble x))
    /\ float_equal x (d_of_ratio true 5 2) = true
    /\ forall n : Z,
         - 1000000000000000 < n < 1000000000000000 ->
         d_of_ratio true 5 2 = d_of_Z n -> x = d_of_ratio true 5 2.
Proof.
  apply (val_str_round_trip_outside_unit machine_idle (d_of_ratio true 5 2)).
  - vm_compute. reflexivity.
  - vm_compute. reflexivity.
  - right. vm_compute. reflexivity.
Defined.
(* ===================================================================== *)
(** * The statement table: addresses, order of execution, jump targets   *)
(* ===================================================================== *)

(** ** What [build] stores *)

Lemma add_statements_spec (n : Z) (stmts : list Stmt) :
  forall (i : Z) (t : gmap (Z * Z) Stmt) (l j : Z),
    add_statements n i stmts t !! (l, j)
    = if decide (l = n /\ i <= j < i + Z.of_nat (length stmts))
      then stmts !! Z.to_nat (j - i)
      else t !! (l, j).
Proof.
  induction stmts as [|s stmts IH]; intros i t l j; cbn [add_statements length].
  - rewrite decide_False by lia. reflexivity.
  - rewrite IH. destruct (decide (l = n /\ i + 1 <= j < i + 1 + Z.of_nat (length stmts)))
      as [[-> Hj]|Hno].
    + rewrite decide_True by lia.
      replace (Z.to_nat (j - i)) with (S (Z.to_nat (j - (i + 1)))) by lia. reflexivity.
    + destruct (decide ((n, i) = (l, j))) as [[= <- <-]|Hne].
      * rewrite lookup_insert_eq, decide_True by lia.
        replace (i - i) with 0 by lia. reflexivity.
      * rewrite lookup_insert_ne by done.
        rewrite decide_False; [reflexivity|].
        intros [-> Hj]. destruct (decide (i = j)) as [->|]; [done|]. apply Hno. lia.
Qed.

Lemma foldl_build_line_numbers (ls : list Line) (st : StatementTable) :
  line_numbers_ (foldl build_line st ls) = line_numbers_ st ++ (line_number <$> ls).
Proof.
  revert st. induction ls as [|ln ls IH]; intros st; cbn [foldl fmap list_fmap].
  - by rewrite app_nil_r.
  - rewrite IH. cbn. by rewrite <- app_assoc.
Qed.

Lemma foldl_build_line_first (ls : list Line) (st : StatementTable) (n : Z) :
  line_first_stmt_ (foldl build_line st ls) !! n
  = if decide (n ∈ line_number <$> ls) then Some 0 else line_first_stmt_ st !! n.
Proof.
  revert st. induction ls as [|ln ls IH]; intros st; cbn [foldl fmap list_fmap].
  - rewrite decide_False; [done|]. apply not_elem_of_nil.
  - rewrite IH. destruct (decide (n ∈ line_number <$> ls)) as [Hin|Hout].
    + rewrite decide_True; [done|]. by apply elem_of_cons; right.
    + cbn. destruct (decide (n = line_number ln)) as [->|Hne].
      * rewrite lookup_insert_eq, decide_True; [done|]. apply elem_of_cons. by left.
      * rewrite lookup_insert_ne by done. rewrite decide_False; [done|].
        intros [?|?]%elem_of_cons; done.
Qed.

Lemma build_line_numbers (p : Program) :
  line_numbers_ (build p) ≡ₚ line_number <$> lines p.
Proof.
  cbn. rewrite merge_sort_Permutation, foldl_build_line_numbers. reflexivity.
Qed.

Lemma build_line_numbers_sorted (p : Program) : StronglySorted Z.le (line_numbers_ (build p)).
Proof.
  cbn. apply StronglySorted_merge_sort.
  - intros x y z. apply Z.le_trans.
  - intros x y. apply Z.le_ge_cases.
Qed.

Lemma foldl_build_line_other (ls : list Line) (st : StatementTable) (n j : Z) :
  n ∉ line_number <$> ls ->
  table_ (foldl build_line st ls) !! (n, j) = table_ st !! (n, j).
Proof.
  revert st. induction ls as [|x ls IH]; intros st Hn; cbn [foldl]; [done|].
  rewrite fmap_cons in Hn. apply not_elem_of_cons in Hn as [Hx Hn].
  rewrite IH by done. cbn [build_line table_].
  rewrite add_statements_spec, decide_False; [done|]. intros [? _]. done.
Qed.

(** With distinct line numbers, the address (n, j) holds statement j of
    line n. *)
Lemma foldl_build_line_table (ls : list Line) :
  forall (st : StatementTable) (ln : Line) (j : Z),
    NoDup (line_number <$> ls) -> ln ∈ ls ->
    table_ (foldl build_line st ls) !! (line_number ln, j)
    = if decide (0 <= j < Z.of_nat (length (line_statements ln)))
      then line_statements ln !! Z.to_nat j
      else table_ st !! (line_number ln, j).
Proof.
  induction ls as [|x ls IH] using rev_ind; intros st ln j Hnd Hin.
  - by apply elem_of_nil in Hin.
  - rewrite foldl_app. cbn [foldl build_line table_].
    rewrite fmap_app in Hnd. apply NoDup_app in Hnd as (Hnd & Hdis & _).
    rewrite add_statements_spec.
    apply elem_of_app in Hin as [Hin|Hin].
    + rewrite decide_False.
      * by apply IH.
      * intros [Heq _]. apply (Hdis (line_number ln)).
        -- apply list_elem_of_fmap. eauto.
        -- rewrite Heq. cbn. apply list_elem_of_singleton. reflexivity.
    + apply list_elem_of_singleton in Hin as ->.
      replace (j - 0) with j by lia.
      destruct (decide (0 <= j < Z.of_nat (length (line_statements x)))) as [Hj|Hj].
      * rewrite decide_True by lia. reflexivity.
      * rewrite decide_False by lia. apply foldl_build_line_other.
        intros Hx. apply (Hdis _ Hx). cbn. apply list_elem_of_singleton. reflexivity.
Qed.

(** X2. In a table built from a program whose line numbers are distinct,
    the address (n, j) holds exactly statement j of line n: [get] returns
    it for 0 <= j below the number of statements of the line, and nothing
    for any other offset or for a number that is not a line of the
    program. *)
Theorem build_get_statement (p : Program) :
  NoDup (line_number <$> lines p) ->
  (forall (ln : Line) (j : Z),
     ln ∈ lines p ->
     get (build p) (running_at (line_number ln) j)
     = if decide (0 <= j) then line_statements ln !! Z.to_nat j else None)
  /\ (forall n j : Z,
        n ∉ line_number <$> lines p -> get (build p) (running_at n j) = None).
Proof.
  intros Hnd. split.
  - intros ln j Hin. unfold get, build. cbn [table_ running_at pc_line pc_stmt].
    rewrite (foldl_build_line_table _ _ ln j Hnd Hin).
    cbn [StatementTable_empty table_]. rewrite lookup_empty.
    destruct (decide (0 <= j)) as [Hj|Hj].
    + destruct (decide (0 <= j < Z.of_nat (length (line_statements ln)))) as [Hlt|Hge];
        [reflexivity|].
      symmetry. apply lookup_ge_None. lia.
    + rewrite decide_False by lia. reflexivity.
  - intros n j Hn. unfold get, build. cbn [table_ running_at pc_line pc_stmt].
    rewrite foldl_build_line_other by done. apply lookup_empty.
Qed.

Lemma build_get_statement_witness :
  NoDup (line_number <$> lines clear_program)
  /\ get (build clear_program) (running_at 30 1) = Some (OnErrorStmt (Some 10) false)
  /\ get (build clear_program) (running_at 30 3) = None
  /\ get (build clear_program) (running_at 35 0) = None.
Proof.
  assert (Hnd : NoDup (line_number <$> lines clear_program)).
  { apply (bool_decide_unpack _). vm_compute. reflexivity. }
  destruct (build_get_statement clear_program Hnd) as [Hin Hout].
  assert (Hmem : line 30 [OptionBaseStmt 1; OnErrorStmt (Some 10) false; ClearStmt]
                 ∈ lines clear_program).
  { cbn. apply list_elem_of_further, list_elem_of_further, list_elem_of_here. }
  split; [exact Hnd|]. split; [|split].
  - exact (Hin _ 1 Hmem).
  - exact (Hin _ 3 Hmem).
  - apply Hout. apply (bool_decide_unpack _). vm_compute. reflexivity.
Defined.

(** ** The order of execution *)

Lemma find_first_greater (x : Z) (l : list Z) :
  StronglySorted Z.le l ->
  match upper_bound x l with
  | Some y => y ∈ l /\ x < y /\ forall z, z ∈ l -> x < z -> y <= z
  | None => forall z, z ∈ l -> z <= x
  end.
Proof.
  unfold upper_bound. induction 1 as [|a l Hs IH Hall]; cbn [List.find].
  - intros z Hz. by apply elem_of_nil in Hz.
  - destruct (x <? a) eqn:Hxa.
    + apply Z.ltb_lt in Hxa. split; [by left|]. split; [done|].
      intros z [->|Hz]%elem_of_cons _; [lia|].
      rewrite Forall_forall in Hall. by apply Hall.
    + apply Z.ltb_ge in Hxa. destruct (List.find _ l) as [y|].
      * destruct IH as (Hy & Hxy & Hmin). split; [by right|]. split; [done|].
        intros z [->|Hz]%elem_of_cons Hxz; [lia|]. by apply Hmin.
      * intros z [->|Hz]%elem_of_cons; [done|]. by apply IH.
Qed.

(** X3. Sequential order.  [next] stays on the line while it has a
    further statement; otherwise it goes to the first statement slot of
    the least line number of the program that is greater than the current
    line, whatever the order of the lines in the program text; and when
    no line number is greater it halts with reason END. *)
Theorem next_follows_line_order (p : Program) (c : PC) :
  match get (build p) (running_at (pc_line c) (pc_stmt c + 1)) with
  | Some _ => next (build p) c = running_at (pc_line c) (pc_stmt c + 1)
  | None =>
      (next (build p) c = halted END
       /\ forall l, l ∈ line_number <$> lines p -> l <= pc_line c)
      \/ (exists l,
            next (build p) c = running_at l 0
            /\ l ∈ line_number <$> lines p
            /\ pc_line c < l
            /\ forall l', l' ∈ line_number <$> lines p -> pc_line c < l' -> l <= l')
  end.
Proof.
  unfold get, next. cbn [running_at pc_line pc_stmt].
  destruct (table_ (build p) !! (pc_line c, pc_stmt c + 1)) as [s|]; [reflexivity|].
  pose proof (find_first_greater (pc_line c) _ (build_line_numbers_sorted p)) as H.
  destruct (upper_bound (pc_line c) (line_numbers_ (build p))) as [y|].
  - right. exists y. destruct H as (Hy & Hlt & Hmin).
    split; [reflexivity|]. split; [by rewrite <- build_line_numbers|]. split; [done|].
    intros l' Hl'. apply Hmin. by rewrite build_line_numbers.
  - left. split; [reflexivity|]. intros l Hl. apply H. by rewrite build_line_numbers.
Qed.

(** ** Jump targets *)

Lemma find_line_build (p : Program) (n : Z) :
  find_line (build p) n
  = if decide (n ∈ line_number <$> lines p) then running_at n 0 else halted ERROR.
Proof.
  unfold find_line, build. cbn [line_first_stmt_].
  rewrite foldl_build_line_first. cbn [StatementTable_empty line_first_stmt_].
  rewrite lookup_empty. by destruct (decide _).
Qed.

Section Jumps.
Context {UF : UnorderedMap string ForLoopState} {UD : UnorderedMap Z Z} {AL : Allocator}.

(** X4. GOTO to a number that is not a line of the program.  [find_line]
    answers with the halted PC (0, 0, ERROR) and [jump_to] tests that PC
    with [valid], which looks at the address only.  So the jump raises
    Undefined line number (code 8) when the program has no statement at
    line 0; when it has one, nothing is raised and the halted PC becomes
    the jump target. *)
Theorem goto_missing_line (p : Program) (m : Machine) (n : Z) :
  statements (runtime_ m) = build p ->
  n ∉ line_number <$> lines p ->
  exec_goto n m
  = match get (build p) (running_at 0 0) with
    | None =>
        (with_runtime
           (set_last_error_line (pc_line (pc (runtime_ m)))
              (set_last_error_code ErrorCode.UNDEFINED_LINE (runtime_ m))) m,
         Throw ErrorCode.UNDEFINED_LINE)
    | Some _ =>
        (with_runtime (set_next_pc (Some (halted ERROR)) (runtime_ m)) m, Ok tt)
    end.
Proof.
  intros Hst Hn. unfold exec_goto, jump_to, bind, get_rt. cbn [runtime_].
  rewrite Hst, find_line_build, decide_False by done.
  unfold valid, get. cbn [halted running_at pc_line pc_stmt].
  destruct (table_ (build p) !! (0, 0)) as [s|] eqn:Hs.
  - rewrite bool_decide_eq_true_2 by eauto. reflexivity.
  - rewrite bool_decide_eq_false_2 by (intros [? ?]; done). reflexivity.
Qed.

(** X5. GOSUB pushes the return address before it looks for the target,
    so a GOSUB that fails with Undefined line number leaves its entry
    on the stack. *)
Theorem gosub_missing_line_keeps_entry (p : Program) (m : Machine) (n : Z) :
  statements (runtime_ m) = build p ->
  n ∉ line_number <$> lines p ->
  get (build p) (running_at 0 0) = None ->
  exists m',
    exec_gosub n m = (m', Throw ErrorCode.UNDEFINED_LINE)
    /\ exec_stack (runtime_ m')
       = exec_stack (runtime_ m) ++ [gosub_entry (next (build p) (pc (runtime_ m)))]
    /\ next_pc (runtime_ m') = next_pc (runtime_ m)
    /\ pc (runtime_ m') = pc (runtime_ m).
Proof.
  intros Hst Hn H0. unfold exec_gosub, bind, get_rt, push_entry, modify_rt.
  cbn [runtime_ with_runtime].
  unfold jump_to, bind, get_rt. cbn [runtime_ with_runtime statements set_exec_stack].
  rewrite Hst, find_line_build, decide_False by done.
  unfold valid. unfold get in H0. cbn [halted running_at pc_line pc_stmt] in *.
  rewrite H0, bool_decide_eq_false_2 by (intros [? ?]; done).
  cbn [negb]. eexists. split; [reflexivity|]. cbn. auto.
Qed.
End Jumps.

Lemma goto_missing_line_witness :
  exec_goto 35 (boot clear_program : Machine0)
  = (with_runtime
       (set_last_error_line 10
          (set_last_error_code ErrorCode.UNDEFINED_LINE (runtime_ (boot clear_program))))
       (boot clear_program),
     Throw ErrorCode.UNDEFINED_LINE).
Proof.
  refine (goto_missing_line clear_program (boot clear_program) 35 _ _).
  - reflexivity.
  - apply (bool_decide_unpack _). vm_compute. reflexivity.
Defined.

Lemma gosub_missing_line_keeps_entry_witness :
  exists m' : Machine0,
    exec_gosub 35 (boot clear_program) = (m', Throw ErrorCode.UNDEFINED_LINE)
    /\ exec_stack (runtime_ m') = [gosub_entry (running_at 20 0)]
    /\ next_pc (runtime_ m') = None
    /\ pc (runtime_ m') = running_at 10 0.
Proof.
  refine (gosub_missing_line_keeps_entry clear_program (boot clear_program) 35 _ _ _).
  - reflexivity.
  - apply (bool_decide_unpack _). vm_compute. reflexivity.
  - vm_compute. reflexivity.
Defined.
(* ===================================================================== *)
(** * Arrays: bounds, row-major addressing, automatic dimensioning       *)
(* ===================================================================== *)

Lemma extent_rev (base : Z) (dims : list Z) : extent base (rev dims) = extent base dims.
Proof.
  unfold extent. induction dims as [|d dims IH]; [reflexivity|].
  cbn [rev foldr]. rewrite foldr_app. cbn [foldr]. rewrite <- IH.
  generalize (rev dims). intros l. induction l as [|x l IHl]; cbn [foldr]; [lia|].
  rewrite IHl. lia.
Qed.

Lemma extent_pos (base : Z) (dims : list Z) :
  Forall (bound_ok base) dims -> 1 <= extent base dims.
Proof.
  induction 1 as [|d dims [Hd _] _ IH]; cbn [extent foldr]; [lia|].
  fold (extent base dims). nia.
Qed.

Lemma Forall_rev_1 {A} (P : A -> Prop) (l : list A) : Forall P l -> Forall P (rev l).
Proof.
  induction 1 as [|a l Ha _ IH]; cbn [rev]; [constructor|].
  apply Forall_app. split; [done|]. by constructor.
Qed.

Lemma int_of_Some (z : Z) : INT_MIN <= z <= INT_MAX -> int_of z = Some z.
Proof.
  intros H. unfold int_of.
  destruct (INT_MIN <=? z) eqn:H1; [|apply Z.leb_gt in H1; lia].
  destruct (z <=? INT_MAX) eqn:H2; [|apply Z.leb_gt in H2; lia].
  reflexivity.
Qed.

Lemma int_of_None (z : Z) : int_of z = None -> ~ INT_MIN <= z <= INT_MAX.
Proof. intros H Hr. by rewrite int_of_Some in H. Qed.

Lemma INT_MAX_lt : INT_MAX < 2 ^ 64.
Proof. vm_compute. reflexivity. Qed.

Lemma INT_MIN_neg : INT_MIN < 0.
Proof. vm_compute. reflexivity. Qed.

(** For a bound the [int] arithmetic can work with, the extent is the
    mathematical one. *)
Lemma dim_extent_ok (base d : Z) :
  bound_ok base d -> dim_extent base d = Some (d + 1 - base).
Proof.
  intros (Hd & H1 & H2). unfold dim_extent.
  rewrite int_of_Some by lia. cbn.
  apply int_of_Some. pose proof INT_MIN_neg. lia.
Qed.

(** A subscript within its bound is an [int] away from the base. *)
Lemma in_bounds_index_ok (base : Z) (indices dims : list Z) :
  Forall (bound_ok base) dims ->
  Forall2 (fun i d => base <= i <= d) indices dims ->
  Forall (index_ok base) indices.
Proof.
  intros Hb H. revert Hb. induction H as [|i d is' ds' Hid _ IH]; intros Hb; [constructor|].
  inversion Hb as [|? ? (Hd & H1 & H2) Hb']; subst.
  constructor; [|by apply IH].
  unfold index_ok. pose proof INT_MIN_neg. lia.
Qed.


(** The accumulating loop of [array_index].  As long as the products
    stay below 2^64 it computes the row-major offset when every subscript
    is within its bound, and stops with Subscript out of range at a
    subscript that is not; it is undefined only at a subscript whose
    distance from the base is not an [int]. *)
Lemma array_index_loop_spec (base : Z) (ris rds : list Z) :
  length ris = length rds ->
  Forall (bound_ok base) rds ->
  forall idx mult : Z,
    0 <= idx < mult ->
    mult * extent base rds < 2 ^ 64 ->
    match array_index_loop base ris rds idx mult with
    | Ok r => Forall2 (fun i d => base <= i <= d) ris rds
              /\ r = idx + mult * offset base ris rds
    | Throw c => c = ErrorCode.SUBSCRIPT_OUT_OF_RANGE
                 /\ ~ Forall2 (fun i d => base <= i <= d) ris rds
    | Undefined _ => ~ Forall (index_ok base) ris
    | Abort => False
    end.
Proof.
  revert rds. induction ris as [|i ris IH]; intros [|d rds] Hlen Hb idx mult Hidx Hfit;
    try discriminate Hlen; cbn [array_index_loop offset].
  - split; [constructor|lia].
  - inversion Hb as [|? ? Hd Hb']; subst.
    rewrite (dim_extent_ok _ _ Hd). destruct Hd as (Hd & H1 & H2).
    cbn [extent foldr] in Hfit. fold (extent base rds) in Hfit.
    pose proof (extent_pos _ _ Hb') as Hpos.
    destruct (int_of (i - base)) as [index|] eqn:Hi.
    2:{ apply int_of_None in Hi. intros HF. inversion HF; subst. done. }
    assert (index = i - base) as ->.
    { unfold int_of in Hi. destruct (_ && _); [by injection Hi|discriminate]. }
    destruct ((i - base <? 0) || (d + 1 - base <=? i - base)) eqn:Hout.
    + split; [reflexivity|]. intros Hall. inversion Hall; subst.
      apply orb_true_iff in Hout as [Hlt|Hge]; [apply Z.ltb_lt in Hlt|apply Z.leb_le in Hge]; lia.
    + apply orb_false_iff in Hout as [Hlt Hge].
      apply Z.ltb_ge in Hlt. apply Z.leb_gt in Hge.
      injection Hlen as Hlen.
      assert (0 <= (i - base) * mult) as Hp0 by nia.
      assert (idx + (i - base) * mult < mult * (d + 1 - base)) as Hp1 by nia.
      assert (mult * (d + 1 - base) < 2 ^ 64) as Hp2 by nia.
      unfold wrap_size_t.
      rewrite (Z.mod_small ((i - base) * mult)) by lia.
      rewrite (Z.mod_small (idx + (i - base) * mult)) by lia.
      rewrite (Z.mod_small (mult * (d + 1 - base))) by nia.
      specialize (IH rds Hlen Hb' (idx + (i - base) * mult) (mult * (d + 1 - base))
                    ltac:(lia) ltac:(nia)).
      destruct (array_index_loop base ris rds _ _) as [r|c| |k]; try done.
      * destruct IH as [Hall ->]. split; [constructor; [lia|done]|lia].
      * destruct IH as [-> Hno]. split; [reflexivity|].
        intros Hall. inversion Hall; subst. done.
      * intros HF. inversion HF; subst. done.
Qed.

Lemma offset_range (base : Z) (ris rds : list Z) :
  Forall2 (fun i d => base <= i <= d) ris rds ->
  0 <= offset base ris rds < extent base rds.
Proof.
  induction 1 as [|i d ris rds Hid _ IH]; cbn [offset extent foldr]; [lia|].
  fold (extent base rds). nia.
Qed.

(** Different subscripts address different elements. *)
Lemma offset_inj (base : Z) (ris ris' rds : list Z) :
  Forall2 (fun i d => base <= i <= d) ris rds ->
  Forall2 (fun i d => base <= i <= d) ris' rds ->
  offset base ris rds = offset base ris' rds -> ris = ris'.
Proof.
  intros H. revert ris'. induction H as [|i d ris rds Hid Hall IH]; intros ris' H' Heq.
  - by inversion H'.
  - inversion H' as [|i' d' ris'' rds' Hid' Hall']; subst.
    cbn [offset] in Heq.
    pose proof (offset_range _ _ _ Hall) as Hr.
    pose proof (offset_range _ _ _ Hall') as Hr'.
    assert (offset base ris rds = offset base ris'' rds) as Hoff by nia.
    f_equal; [nia|]. by apply IH.
Qed.

Lemma Forall2_rev_1 {A B} (P : A -> B -> Prop) (l : list A) (k : list B) :
  Forall2 P l k -> Forall2 P (rev l) (rev k).
Proof.
  induction 1 as [|a b l k Hab _ IH]; cbn [rev]; [constructor|].
  apply Forall2_app; [done|]. by constructor.
Qed.

Lemma Forall2_rev_iff {A B} (P : A -> B -> Prop) (l : list A) (k : list B) :
  Forall2 P (rev l) (rev k) <-> Forall2 P l k.
Proof.
  split; intros H.
  - rewrite <- (rev_involutive l), <- (rev_involutive k). by apply Forall2_rev_1.
  - by apply Forall2_rev_1.
Qed.

(** As long as the product stays below 2^64, the size that [dim_array]
    computes is the number of subscript combinations. *)
Lemma array_total_extent (base : Z) (dims : list Z) :
  Forall (bound_ok base) dims ->
  extent base dims < 2 ^ 64 ->
  array_total base dims = Some (extent base dims).
Proof.
  intros Hall Hlt. unfold array_total.
  enough (forall acc, 0 <= acc -> acc * extent base dims < 2 ^ 64 ->
            array_total_from base dims acc = Some (acc * extent base dims)) as H.
  { rewrite H by lia. f_equal. lia. }
  clear Hlt. induction Hall as [|d dims Hd Hall IH]; intros acc Hacc Hlt;
    cbn [array_total_from extent foldr] in *; [f_equal; lia|].
  fold (extent base dims) in *.
  pose proof (extent_pos _ _ Hall) as Hpos.
  rewrite (dim_extent_ok _ _ Hd). destruct Hd as (Hd & H1 & H2). cbn.
  pose proof INT_MAX_lt.
  unfold wrap_size_t.
  rewrite (Z.mod_small (d + 1 - base)) by lia.
  rewrite Z.mod_small by nia.
  rewrite IH by nia. f_equal. lia.
Qed.

(** The wrap of the [size_t] products is visible beyond that: with the
    bounds (65535, 65535, 65535, 65535, 1) the product 2^65 of the five
    extents wraps to 0, and the subscripts (32768, 0, 0, 0, 0), whose
    row-major offset is 2^64, are mapped to the index 0. *)
Example array_index_wraps :
  array_total 0 [65535; 65535; 65535; 65535; 1] = Some 0
  /\ array_index_loop 0 (rev [32768; 0; 0; 0; 0]) (rev [65535; 65535; 65535; 65535; 1]) 0 1
     = Ok 0
  /\ array_total 0 [2147483647] = None.
Proof. repeat split; vm_compute; reflexivity. Qed.

Section Arrays.
Context {UF : UnorderedMap string ForLoopState} {UD : UnorderedMap Z Z} {AL : Allocator}.

Lemma array_index_spec (rt : Runtime) (arr : ArrayData) (indices : list Z) :
  Forall (bound_ok (array_base rt)) (arr_dimensions arr) ->
  extent (array_base rt) (arr_dimensions arr) < 2 ^ 64 ->
  match array_index rt arr indices with
  | Ok idx =>
      in_bounds (array_base rt) indices (arr_dimensions arr)
      /\ idx = offset (array_base rt) (rev indices) (rev (arr_dimensions arr))
      /\ 0 <= idx < extent (array_base rt) (arr_dimensions arr)
  | Throw c =>
      c = ErrorCode.SUBSCRIPT_OUT_OF_RANGE
      /\ ~ in_bounds (array_base rt) indices (arr_dimensions arr)
  | Undefined _ => ~ Forall (index_ok (array_base rt)) indices
  | Abort => False
  end.
Proof.
  intros Hb Hfit. unfold array_index, in_bounds.
  destruct (length indices =? length (arr_dimensions arr))%nat eqn:Hlen; cbn [negb].
  - apply Nat.eqb_eq in Hlen.
    pose proof (array_index_loop_spec (array_base rt) (rev indices)
                  (rev (arr_dimensions arr))) as H.
    rewrite !length_rev in H.
    specialize (H Hlen (Forall_rev_1 _ _ Hb) 0 1 ltac:(lia)).
    rewrite extent_rev in H. specialize (H ltac:(lia)).
    destruct (array_index_loop _ _ _ _ _) as [r|c| |k]; try done.
    + destruct H as [Hall ->]. split; [by apply Forall2_rev_iff|]. split; [lia|].
      rewrite <- (extent_rev _ (arr_dimensions arr)).
      pose proof (offset_range _ _ _ Hall). lia.
    + destruct H as [-> Hno]. split; [reflexivity|]. by rewrite <- Forall2_rev_iff.
    + intros HF. by apply H, Forall_rev_1.
  - apply Nat.eqb_neq in Hlen. split; [reflexivity|].
    intros Hall. apply Forall2_length in Hall. done.
Qed.

(** X6. [array_index] on an array whose bounds are at or above the
    base and small enough for the [int] arithmetic, and whose number of
    elements is below 2^64, so that no [size_t] product wraps.  A
    subscript list with one subscript per dimension, each between the
    base and the declared bound, gets its row-major offset, which is
    below the number of elements.  Every other list whose subscripts
    are an [int] away from the base gets Subscript out of range
    (code 9). *)
Theorem array_index_checks_bounds (rt : Runtime) (arr : ArrayData) (indices : list Z) :
  let base := array_base rt in
  let dims := arr_dimensions arr in
  Forall (bound_ok base) dims ->
  extent base dims < 2 ^ 64 ->
  (in_bounds base indices dims ->
   array_index rt arr indices = Ok (offset base (rev indices) (rev dims))
   /\ 0 <= offset base (rev indices) (rev dims) < extent base dims)
  /\ (~ in_bounds base indices dims ->
      Forall (index_ok base) indices ->
      array_index rt arr indices = Throw ErrorCode.SUBSCRIPT_OUT_OF_RANGE).
Proof.
  intros base dims Hb Hfit. pose proof (array_index_spec rt arr indices Hb Hfit) as H.
  destruct (array_index rt arr indices) as [idx|c| |k]; try done.
  - destruct H as (Hin & -> & Hrange). split; [done|]. intros Hout. done.
  - destruct H as [-> Hout]. split; [|done]. intros Hin. done.
  - split.
    + intros Hin. exfalso. apply H. by apply (in_bounds_index_ok _ _ dims).
    + intros _ Hok. done.
Qed.

Lemma dim_array_fresh (name : string) (dims : list Z) (t : VarType) (rt : Runtime) :
  arrays_ rt !! name = None ->
  Forall (bound_ok (array_base rt)) dims ->
  extent (array_base rt) dims <= vector_max_size ->
  allocates (extent (array_base rt) dims) = true ->
  let arr := {| arr_dimensions := dims;
                arr_data := replicate (Z.to_nat (extent (array_base rt) dims))
                              (default_for_type t);
                arr_type := t |} in
  dim_array name dims t rt = (set_arrays_ (<[name := arr]> (arrays_ rt)) rt, Ok tt)
  /\ array_sized (array_base rt) arr.
Proof.
  intros Hnone Hall Hmax Hal arr. unfold dim_array. rewrite Hnone.
  assert (vector_max_size < 2 ^ 64) as Hv by (vm_compute; reflexivity).
  rewrite array_total_extent by (done || lia).
  destruct (vector_max_size <? extent (array_base rt) dims) eqn:Hbig;
    [apply Z.ltb_lt in Hbig; lia|].
  rewrite Hal, andb_false_r.
  split; [reflexivity|]. split; [exact Hall|]. split; [|exact Hmax].
  cbn [arr arr_data arr_dimensions]. rewrite length_replicate.
  pose proof (extent_pos _ _ Hall). lia.
Qed.

(** A request that the allocator refuses ends the call with
    [std::bad_alloc] and leaves the runtime as it was. *)
Lemma dim_array_refused (name : string) (dims : list Z) (t : VarType) (rt : Runtime) :
  arrays_ rt !! name = None ->
  Forall (bound_ok (array_base rt)) dims ->
  extent (array_base rt) dims <= vector_max_size ->
  allocates (extent (array_base rt) dims) = false ->
  dim_array name dims t rt = (rt, Abort).
Proof.
  intros Hnone Hall Hmax Hal. unfold dim_array. rewrite Hnone.
  assert (vector_max_size < 2 ^ 64) as Hv by (vm_compute; reflexivity).
  rewrite array_total_extent by (done || lia).
  destruct (vector_max_size <? extent (array_base rt) dims); [reflexivity|].
  rewrite Hal. pose proof (extent_pos _ _ Hall) as Hpos.
  destruct (0 <? extent (array_base rt) dims) eqn:H0; [reflexivity|].
  apply Z.ltb_ge in H0. lia.
Qed.

Lemma get_array_present (name : string) (indices : list Z) (rt : Runtime) (arr : ArrayData) :
  arrays_ rt !! name = Some arr ->
  get_array name indices rt
  = match array_index rt arr indices with
    | Ok idx =>
        match arr_data arr !! Z.to_nat idx with
        | Some v => (rt, Ok v)
        | None => (rt, Undefined OutOfBounds)
        end
    | Throw c => (rt, Throw c)
    | Abort => (rt, Abort)
    | Undefined k => (rt, Undefined k)
    end.
Proof. intros Harr. unfold get_array, auto_dim. rewrite Harr. reflexivity. Qed.

(** Reads from an array that [dim_array] has just made. *)
Lemma get_array_sized_default (name : string) (t : VarType) (rt : Runtime)
    (arr : ArrayData) (indices : list Z) :
  arrays_ rt !! name = Some arr ->
  array_sized (array_base rt) arr ->
  arr_data arr = replicate (Z.to_nat (extent (array_base rt) (arr_dimensions arr)))
                   (default_for_type t) ->
  (in_bounds (array_base rt) indices (arr_dimensions arr) ->
   get_array name indices rt = (rt, Ok (default_for_type t)))
  /\ (~ in_bounds (array_base rt) indices (arr_dimensions arr) ->
      Forall (index_ok (array_base rt)) indices ->
      get_array name indices rt = (rt, Throw ErrorCode.SUBSCRIPT_OUT_OF_RANGE)).
Proof.
  intros Harr (Hb & Hsize & Hmax) Hdata.
  assert (vector_max_size < 2 ^ 64) as Hv by (vm_compute; reflexivity).
  rewrite (get_array_present _ _ _ _ Harr).
  pose proof (array_index_spec rt arr indices Hb ltac:(lia)) as Hidx.
  destruct (array_index rt arr indices) as [idx|c| |k]; try done.
  - destruct Hidx as (Hin & _ & Hrange). split; [|done].
    intros _. rewrite Hdata, lookup_replicate_2 by lia. reflexivity.
  - destruct Hidx as [-> Hout]. split; [done|]. reflexivity.
  - split.
    + intros Hin. exfalso. apply Hidx. by apply (in_bounds_index_ok _ _ (arr_dimensions arr)).
    + intros _ Hok. done.
Qed.

(** X7. DIM and the first reads.  Declaring a new array whose bounds
    are at or above the base (and small enough for the [int]
    arithmetic), with a number of elements that a vector can hold,
    either ends with [std::bad_alloc] and the runtime unchanged, when
    the allocator refuses the request, or succeeds.  After a
    successful DIM every subscript list within the bounds reads the
    zero value of the element type, and every other list whose
    subscripts are an [int] away from the base raises Subscript out of
    range; neither read changes the runtime. *)
Theorem dim_then_get (name : string) (dims : list Z) (t : VarType) (rt : Runtime) :
  arrays_ rt !! name = None ->
  Forall (bound_ok (array_base rt)) dims ->
  extent (array_base rt) dims <= vector_max_size ->
  (allocates (extent (array_base rt) dims) = false ->
   dim_array name dims t rt = (rt, Abort))
  /\ (allocates (extent (array_base rt) dims) = true ->
      exists rt',
        dim_array name dims t rt = (rt', Ok tt)
        /\ forall indices,
             (in_bounds (array_base rt) indices dims ->
              get_array name indices rt' = (rt', Ok (default_for_type t)))
             /\ (~ in_bounds (array_base rt) indices dims ->
                 Forall (index_ok (array_base rt)) indices ->
                 get_array name indices rt'
                 = (rt', Throw ErrorCode.SUBSCRIPT_OUT_OF_RANGE))).
Proof.
  intros Hnone Hall Hmax. split; [by apply dim_array_refused|]. intros Hal.
  destruct (dim_array_fresh name dims t rt Hnone Hall Hmax Hal) as [Hdim Hsized].
  eexists. split; [exact Hdim|].
  intros indices.
  set (arr := {| arr_dimensions := dims; arr_data := _; arr_type := t |}) in *.
  set (rt' := set_arrays_ _ rt).
  assert (arrays_ rt' !! name = Some arr) as Harr by apply lookup_insert_eq.
  exact (get_array_sized_default name t rt' arr indices Harr Hsized eq_refl).
Qed.

(** X8. Storing an element and reading it back.  In an array that has
    one element per combination of subscripts (bounds at or above the
    base and within the [int] arithmetic, and no more elements than a
    vector can hold), a store at subscripts
    within the bounds succeeds, a read at the same subscripts returns
    the stored (coerced) value, and a read at any other subscripts
    within the bounds returns what it returned before the store. *)
Theorem set_array_then_get (name : string) (indices : list Z) (value v : Value)
    (rt : Runtime) (arr : ArrayData) :
  arrays_ rt !! name = Some arr ->
  array_sized (array_base rt) arr ->
  in_bounds (array_base rt) indices (arr_dimensions arr) ->
  coerce_to value (arr_type arr) = Some v ->
  exists rt',
    set_array name indices value rt = (rt', Ok tt)
    /\ get_array name indices rt' = (rt', Ok v)
    /\ forall other,
         in_bounds (array_base rt) other (arr_dimensions arr) ->
         other <> indices ->
         exists w,
           get_array name other rt = (rt, Ok w)
           /\ get_array name other rt' = (rt', Ok w).
Proof.
  intros Harr (Hb & Hsize & Hmax) Hin Hco.
  assert (extent (array_base rt) (arr_dimensions arr) < 2 ^ 64) as Hfit.
  { assert (vector_max_size < 2 ^ 64) as Hv by (vm_compute; reflexivity). lia. }
  unfold set_array, auto_dim. rewrite Harr.
  pose proof (array_index_spec rt arr indices Hb Hfit) as Hidx.
  destruct (array_index rt arr indices) as [idx|c| |k] eqn:Hix; try done;
    [|by destruct Hidx as [_ Hno]
     |exfalso; apply Hidx; by apply (in_bounds_index_ok _ _ (arr_dimensions arr))].
  destruct Hidx as (_ & Hoff & Hrange). rewrite Hco.
  assert (Z.to_nat idx < length (arr_data arr))%nat as Hlt by lia.
  apply Nat.ltb_lt in Hlt as Hltb. rewrite Hltb.
  set (arr' := {| arr_dimensions := arr_dimensions arr;
                  arr_data := <[Z.to_nat idx := v]> (arr_data arr);
                  arr_type := arr_type arr |}).
  set (rt' := set_arrays_ (<[name := arr']> (arrays_ rt)) rt).
  exists rt'. split; [reflexivity|].
  assert (arrays_ rt' !! name = Some arr') as Harr' by apply lookup_insert_eq.
  assert (forall l, array_index rt' arr' l = array_index rt arr l) as Hsame by reflexivity.
  split.
  - rewrite (get_array_present _ _ _ _ Harr'), Hsame, Hix.
    cbn [arr' arr_data]. rewrite list_lookup_insert_eq by done. reflexivity.
  - intros other Hother Hne.
    rewrite (get_array_present _ _ _ _ Harr'), (get_array_present _ _ _ _ Harr), Hsame.
    pose proof (array_index_spec rt arr other Hb Hfit) as Hidx'.
    destruct (array_index rt arr other) as [idx'|c| |k]; try done;
      [|by destruct Hidx' as [_ Hno]
       |exfalso; apply Hidx'; by apply (in_bounds_index_ok _ _ (arr_dimensions arr))].
    destruct Hidx' as (_ & Hoff' & Hrange').
    assert (idx' <> idx) as Hdiff.
    { intros Heq. apply Hne.
      rewrite <- (rev_involutive other), <- (rev_involutive indices).
      f_equal.
      eapply (offset_inj (array_base rt) _ _ (rev (arr_dimensions arr)));
        [by apply Forall2_rev_iff|by apply Forall2_rev_iff|congruence]. }
    cbn [arr' arr_data]. rewrite list_lookup_insert_ne by lia.
    destruct (arr_data arr !! Z.to_nat idx') as [w|] eqn:Hw.
    + exists w. done.
    + apply lookup_ge_None in Hw. lia.
Qed.

Lemma extent_replicate (base : Z) (k : nat) :
  extent base (replicate k 10) = (11 - base) ^ Z.of_nat k.
Proof.
  induction k as [|k IH]; cbn [replicate extent foldr]; [reflexivity|].
  fold (extent base (replicate k 10)). rewrite IH.
  rewrite Nat2Z.inj_succ, Z.pow_succ_r by lia. lia.
Qed.

(** X9. The first access to an array that was never declared declares
    it with the bound 10 for each of the [n] subscripts given, before
    the subscripts are checked.  With OPTION BASE [b] (0 or 1), when
    the [(11 - b) ^ n] elements are a number a vector can hold and the
    allocator grants them, and each subscript is an [int] away from
    the base, the access reads the zero value of the name's type when
    every subscript is between the base and 10, raises Subscript out
    of range otherwise, and in both cases the array exists afterwards:
    a later DIM of the name raises Duplicate definition (code 10).
    When the allocator refuses the elements the access ends with
    [std::bad_alloc] and declares nothing. *)
Theorem first_access_declares_array (name : string) (indices : list Z) (rt : Runtime) :
  let count := (11 - array_base rt) ^ Z.of_nat (length indices) in
  arrays_ rt !! name = None ->
  0 <= array_base rt <= 1 ->
  count <= vector_max_size ->
  Forall (index_ok (array_base rt)) indices ->
  (allocates count = false -> get_array name indices rt = (rt, Abort))
  /\ (allocates count = true ->
      exists rt',
        get_array name indices rt
        = (rt', if decide (in_bounds (array_base rt) indices (replicate (length indices) 10))
                then Ok (default_for_type (resolve_type rt name))
                else Throw ErrorCode.SUBSCRIPT_OUT_OF_RANGE)
        /\ has_array rt' name = true
        /\ forall dims t,
             dim_array name dims t rt' = (rt', Throw ErrorCode.DUPLICATE_DEFINITION)).
Proof.
  intros count Hnone Hbase Hmax Hok.
  assert (Forall (bound_ok (array_base rt)) (replicate (length indices) 10)) as Hall.
  { apply Forall_replicate. unfold bound_ok.
    change INT_MIN with (-2147483648). change INT_MAX with 2147483647. lia. }
  pose proof (extent_replicate (array_base rt) (length indices)) as Hext.
  fold count in Hext. rewrite <- Hext in *.
  split.
  - intros Hal. unfold get_array, auto_dim. rewrite Hnone.
    rewrite (dim_array_refused name _ (resolve_type rt name) rt Hnone Hall Hmax Hal).
    reflexivity.
  - intros Hal.
    destruct (dim_array_fresh name (replicate (length indices) 10)
                (resolve_type rt name) rt Hnone Hall Hmax Hal) as [Hdim Hsized].
    set (arr := {| arr_dimensions := replicate (length indices) 10;
                   arr_data := _; arr_type := _ |}) in *.
    set (rt' := set_arrays_ _ rt) in *.
    assert (arrays_ rt' !! name = Some arr) as Harr by apply lookup_insert_eq.
    exists rt'. split; [|split].
    + unfold get_array at 1, auto_dim. rewrite Hnone, Hdim, Harr.
      destruct (get_array_sized_default name (resolve_type rt name) rt' arr indices
                  Harr Hsized eq_refl) as [Hin Hout].
      rewrite (get_array_present _ _ _ _ Harr) in Hin, Hout.
      destruct (decide (in_bounds (array_base rt) indices (replicate (length indices) 10)))
        as [Hd|Hd].
      * exact (Hin Hd).
      * exact (Hout Hd Hok).
    + unfold has_array. rewrite Harr. apply bool_decide_eq_true_2. eauto.
    + intros dims t. unfold dim_array. rewrite Harr. reflexivity.
Qed.
End Arrays.

Lemma dim_then_get_witness :
  exists rt' : Runtime0,
    dim_array "a" [2; 3] SINGLE Runtime_new = (rt', Ok tt)
    /\ forall indices,
         (in_bounds 0 indices [2; 3] ->
          get_array "a" indices rt' = (rt', Ok (VSingle d_zero)))
         /\ (~ in_bounds 0 indices [2; 3] ->
             Forall (index_ok 0) indices ->
             get_array "a" indices rt' = (rt', Throw ErrorCode.SUBSCRIPT_OUT_OF_RANGE)).
Proof.
  refine (proj2 (dim_then_get "a" [2; 3] SINGLE (Runtime_new : Runtime0) _ _ _) _).
  - vm_compute. reflexivity.
  - apply (bool_decide_unpack _). vm_compute. reflexivity.
  - vm_compute. discriminate.
  - vm_compute. reflexivity.
Defined.

Lemma set_array_then_get_witness :
  exists rt' : Runtime0,
    set_array "a" [1; 2] (VDouble d_one) runtime_with_array = (rt', Ok tt)
    /\ get_array "a" [1; 2] rt' = (rt', Ok (VSingle (to_single d_one)))
    /\ forall other,
         in_bounds 0 other [2; 3] ->
         other <> [1; 2] ->
         exists w,
           get_array "a" other runtime_with_array = (runtime_with_array, Ok w)
           /\ get_array "a" other rt' = (rt', Ok w).
Proof.
  refine (set_array_then_get "a" [1; 2] (VDouble d_one) (VSingle (to_single d_one))
            runtime_with_array array_2_3 _ _ _ _).
  - vm_compute. reflexivity.
  - split; [apply (bool_decide_unpack _); vm_compute; reflexivity|].
    split; [vm_compute; reflexivity|vm_compute; discriminate].
  - apply (bool_decide_unpack _). vm_compute. reflexivity.
  - reflexivity.
Defined.

Lemma first_access_declares_array_witness :
  exists rt' : Runtime0,
    get_array "b" [11] Runtime_new = (rt', Throw ErrorCode.SUBSCRIPT_OUT_OF_RANGE)
    /\ has_array rt' "b" = true
    /\ forall dims t,
         dim_array "b" dims t rt' = (rt', Throw ErrorCode.DUPLICATE_DEFINITION).
Proof.
  refine (proj2 (first_access_declares_array "b" [11] (Runtime_new : Runtime0) _ _ _ _) _).
  - vm_compute. reflexivity.
  - vm_compute. split; discriminate.
  - vm_compute. discriminate.
  - apply (bool_decide_unpack _). vm_compute. reflexivity.
  - vm_compute. reflexivity.
Defined.

Lemma array_index_checks_bounds_witness :
  array_index runtime_with_array array_2_3 [1; 2] = Ok 6 /\ 0 <= 6 < 12.
Proof.
  refine (proj1 (array_index_checks_bounds runtime_with_array array_2_3 [1; 2] _ _) _).
  - apply (bool_decide_unpack _). vm_compute. reflexivity.
  - vm_compute. reflexivity.
  - apply (bool_decide_unpack _). vm_compute. reflexivity.
Defined.
(* ===================================================================== *)
(** * DATA, READ and RESTORE                                             *)
(* ===================================================================== *)

Section Data.
Context {UF : UnorderedMap string ForLoopState} {UD : UnorderedMap Z Z} {AL : Allocator}.

Lemma collect_stmts_values (n : Z) (stmts : list Stmt) (acc : list Value * umap Z Z) :
  (foldl (collect_stmt n) acc stmts).1 = acc.1 ++ concat (data_of_stmt <$> stmts).
Proof.
  revert acc. induction stmts as [|s stmts IH]; intros acc; cbn [foldl fmap list_fmap concat].
  - by rewrite app_nil_r.
  - rewrite IH. destruct s; cbn [collect_stmt data_of_stmt fst app]; try reflexivity.
    by rewrite <- app_assoc.
Qed.

Lemma collect_lines_values (ls : list Line) (acc : list Value * umap Z Z) :
  (foldl collect_line acc ls).1 = acc.1 ++ concat (data_of_line <$> ls).
Proof.
  revert acc. induction ls as [|ln ls IH]; intros acc; cbn [foldl fmap list_fmap concat].
  - by rewrite app_nil_r.
  - rewrite IH. unfold collect_line. rewrite collect_stmts_values.
    by rewrite <- app_assoc.
Qed.

Lemma load_data_values (p : Program) (rt : Runtime) :
  data_values (load p rt) = data_of_program p /\ data_ptr (load p rt) = 0.
Proof.
  split; [|reflexivity]. unfold load, collect_data.
  cbn [set_pc set_user_functions set_data_ptr set_data_line_map set_data_values data_values].
  apply (collect_lines_values (lines p) ([], um_empty)).
Qed.

Lemma set_data_ptr_twice (a b : Z) (rt : Runtime) :
  set_data_ptr a (set_data_ptr b rt) = set_data_ptr a rt.
Proof. reflexivity. Qed.

Lemma read_many_from (n : nat) :
  forall (rt : Runtime) (k : nat),
    data_ptr rt = Z.of_nat k ->
    (k <= length (data_values rt))%nat ->
    read_many n rt
    = if decide (k + n <= length (data_values rt))%nat
      then (set_data_ptr (Z.of_nat (k + n)) rt, Ok (take n (drop k (data_values rt))))
      else (set_data_ptr (Z.of_nat (length (data_values rt))) rt,
            Throw ErrorCode.OUT_OF_DATA).
Proof.
  induction n as [|n IH]; intros rt k Hptr Hk; cbn [read_many].
  - rewrite decide_True by lia. rewrite Nat.add_0_r, <- Hptr. reflexivity.
  - unfold read_data. rewrite Hptr.
    destruct (Z.of_nat (length (data_values rt)) <=? Z.of_nat k) eqn:Hend.
    + apply Z.leb_le in Hend. rewrite decide_False by lia.
      assert (length (data_values rt) = k) as <- by lia.
      rewrite <- Hptr. reflexivity.
    + apply Z.leb_gt in Hend. rewrite Nat2Z.id.
      destruct (data_values rt !! k) as [v|] eqn:Hv;
        [|apply lookup_ge_None in Hv; lia].
      rewrite (IH (set_data_ptr (Z.of_nat k + 1) rt) (S k)); cbn [set_data_ptr data_values data_ptr];
        [|lia|lia].
      destruct (decide (S k + n <= length (data_values rt))%nat) as [Hfit|Hno].
      * rewrite decide_True by lia.
        rewrite (drop_S _ _ _ Hv). cbn [take].
        replace (S k + n)%nat with (k + S n)%nat by lia. reflexivity.
      * rewrite decide_False by lia. reflexivity.
Qed.

(** X10. After [load], the pool holds the values of all DATA statements
    in the order of the program text, and [n] reads in a row return its
    first [n] values in that order.  When fewer than [n] values are
    left, the reads stop with Out of DATA (code 4) and the read position
    stays at the end of the pool. *)
Theorem reads_follow_program_text (p : Program) (rt : Runtime) (n : nat) :
  read_many n (load p rt)
  = if decide (n <= length (data_of_program p))%nat
    then (set_data_ptr (Z.of_nat n) (load p rt), Ok (take n (data_of_program p)))
    else (set_data_ptr (Z.of_nat (length (data_of_program p))) (load p rt),
          Throw ErrorCode.OUT_OF_DATA).
Proof.
  destruct (load_data_values p rt) as [Hvals Hptr].
  rewrite (read_many_from n (load p rt) 0) by (rewrite ?Hptr; (reflexivity || lia)).
  rewrite Hvals. reflexivity.
Qed.
End Data.

(** ** The line map, for every implementation of [std::unordered_map] *)

Section LineMap.
Context {UF : UnorderedMap string ForLoopState} {UD : UnorderedMap Z Z} {AL : Allocator}.

Lemma um_keys_assign (k k' v : Z) (m : umap Z Z) :
  k ∈ (um_items (um_assign k' v m)).*1 <-> k = k' \/ k ∈ (um_items m).*1.
Proof.
  destruct (decide (k' ∈ (um_items m).*1)) as [Hin|Hout].
  - rewrite (um_assign_present _ _ _ Hin).
    assert (((λ kv : Z * Z, if decide (kv.1 = k') then (k', v) else kv) <$> um_items m).*1
            = (um_items m).*1) as ->.
    { rewrite <- list_fmap_compose. apply list_fmap_ext.
      intros i [a b] _. cbn. destruct (decide (a = k')) as [->|]; reflexivity. }
    split; [by right|]. intros [->|H]; done.
  - rewrite (um_assign_fresh _ _ _ Hout). cbn. apply elem_of_cons.
Qed.

Lemma um_find_none (k : Z) (m : umap Z Z) :
  k ∉ (um_items m).*1 -> um_find k m = None.
Proof.
  intros Hk. unfold um_find.
  destruct (List.find _ (um_items m)) as [[a b]|] eqn:Hf; [|reflexivity].
  apply find_some in Hf as [Hin Heq]. cbn in Heq.
  apply bool_decide_eq_true_1 in Heq. subst a. exfalso. apply Hk.
  apply list_elem_of_fmap. exists (k, b). split; [reflexivity|]. by apply list_elem_of_In.
Qed.

(** The keys of the map are lines that hold a DATA statement. *)
Lemma collect_stmts_keys (n : Z) (stmts : list Stmt) (acc : list Value * umap Z Z) (k : Z) :
  k ∈ (um_items (foldl (collect_stmt n) acc stmts).2).*1 ->
  k ∈ (um_items acc.2).*1 \/ (k = n /\ existsb is_data_stmt stmts = true).
Proof.
  revert acc. induction stmts as [|s stmts IH]; intros acc Hk; cbn [foldl existsb] in *.
  - by left.
  - apply IH in Hk as [Hk|[-> Hex]].
    + destruct s; cbn [collect_stmt snd is_data_stmt orb] in *; try (by left).
      apply um_keys_assign in Hk as [->|Hk]; [by right|by left].
    + right. split; [done|]. rewrite Hex. apply orb_true_r.
Qed.

Lemma collect_lines_keys (ls : list Line) (acc : list Value * umap Z Z) (k : Z) :
  k ∈ (um_items (foldl collect_line acc ls).2).*1 ->
  k ∈ (um_items acc.2).*1
  \/ exists ln, ln ∈ ls /\ line_number ln = k /\ has_data ln = true.
Proof.
  revert acc. induction ls as [|ln ls IH]; intros acc Hk; cbn [foldl] in *.
  - by left.
  - apply IH in Hk as [Hk|(ln' & Hin & Hnum & Hd)].
    + apply collect_stmts_keys in Hk as [Hk|[-> Hex]]; [by left|].
      right. exists ln. split; [apply list_elem_of_here|done].
    + right. exists ln'. split; [by apply list_elem_of_further|done].
Qed.

(** X11. RESTORE to a line number beyond every line that holds a DATA
    statement puts the read position at the end of the pool, so the
    next READ raises Out of DATA (code 4).  This does not depend on the
    iteration order of the line map. *)
Theorem restore_beyond_last_data (p : Program) (rt : Runtime) (l : Z) :
  (forall ln, ln ∈ lines p -> has_data ln = true -> line_number ln < l) ->
  let rt' := set_data_ptr (Z.of_nat (length (data_of_program p))) (load p rt) in
  restore_data (Some l) (load p rt) = rt'
  /\ read_data rt' = (rt', Throw ErrorCode.OUT_OF_DATA).
Proof.
  intros Hbelow rt'.
  destruct (load_data_values p rt) as [Hvals _].
  assert (forall k, k ∈ (um_items (data_line_map (load p rt))).*1 -> k < l) as Hkeys.
  { intros k Hk. apply (collect_lines_keys (lines p) ([], um_empty)) in Hk
      as [Hk|(ln & Hin & <- & Hd)]; [|by apply Hbelow].
    cbn in Hk. rewrite um_items_empty in Hk. by apply elem_of_nil in Hk. }
  split.
  - unfold restore_data. rewrite um_find_none.
    + destruct (List.find _ _) as [[a b]|] eqn:Hf.
      * apply find_some in Hf as [Hin Hle]. cbn in Hle. apply Z.leb_le in Hle.
        assert (a < l); [|lia]. apply Hkeys.
        apply list_elem_of_fmap. exists (a, b). split; [reflexivity|].
        by apply list_elem_of_In.
      * rewrite Hvals. reflexivity.
    + intros Hl. apply Hkeys in Hl. lia.
  - unfold read_data. cbn [rt' set_data_ptr data_ptr data_values]. rewrite Hvals.
    rewrite Z.leb_refl. reflexivity.
Qed.
End LineMap.

Lemma restore_beyond_last_data_witness :
  let rt' : Runtime0 := set_data_ptr 2 (load data_twice_program Runtime_new) in
  restore_data (Some 20) (load data_twice_program Runtime_new) = rt'
  /\ read_data rt' = (rt', Throw ErrorCode.OUT_OF_DATA).
Proof.
  refine (restore_beyond_last_data data_twice_program Runtime_new 20 _).
  intros ln Hin Hd. cbn in Hin.
  apply elem_of_cons in Hin as [->|Hin]; [vm_compute; reflexivity|].
  apply list_elem_of_singleton in Hin as ->. vm_compute in Hd. discriminate Hd.
Defined.

Section RestoreLine.
Context {UF : UnorderedMap string ForLoopState} {UD : UnorderedMap Z Z} {AL : Allocator}.

Lemma um_items_assign_other (a b k v : Z) (m : umap Z Z) :
  a <> k -> (a, b) ∈ um_items (um_assign k v m) <-> (a, b) ∈ um_items m.
Proof.
  intros Hne. destruct (decide (k ∈ (um_items m).*1)) as [Hin|Hout].
  - rewrite (um_assign_present _ _ _ Hin), list_elem_of_fmap. split.
    + intros ([a0 b0] & Heq & Hin0). cbn in Heq.
      destruct (decide (a0 = k)); [congruence|]. by rewrite Heq.
    + intros Hab. exists (a, b). split; [|done]. cbn. by rewrite decide_False.
  - rewrite (um_assign_fresh _ _ _ Hout), elem_of_cons. split; [|by right].
    intros [[= ? ?]|?]; [congruence|done].
Qed.

Lemma um_items_assign_fresh (k v b : Z) (m : umap Z Z) :
  k ∉ (um_items m).*1 -> (k, b) ∈ um_items (um_assign k v m) <-> b = v.
Proof.
  intros Hout. rewrite (um_assign_fresh _ _ _ Hout), elem_of_cons. split.
  - intros [[= ->]|Hin]; [done|]. exfalso. apply Hout.
    apply list_elem_of_fmap. by exists (k, b).
  - intros ->. by left.
Qed.

Lemma um_find_maps_to (n idx : Z) (m : umap Z Z) : maps_to n idx m -> um_find n m = Some idx.
Proof.
  intros [[v Hv] Hall]. unfold um_find.
  destruct (List.find _ (um_items m)) as [[a b]|] eqn:Hf.
  - apply find_some in Hf as [Hin Heq]. cbn in Heq.
    apply bool_decide_eq_true_1 in Heq. subst a.
    apply list_elem_of_In in Hin. cbn. f_equal. by apply Hall.
  - exfalso. apply list_elem_of_In in Hv.
    apply (find_none _ _ Hf) in Hv. cbn in Hv.
    by apply bool_decide_eq_false_1 in Hv.
Qed.

Lemma maps_to_assign_other (n idx k v : Z) (m : umap Z Z) :
  k <> n -> maps_to n idx m -> maps_to n idx (um_assign k v m).
Proof.
  intros Hne [[w Hw] Hall]. split.
  - exists w. by apply um_items_assign_other.
  - intros w' Hw'. apply Hall. by apply um_items_assign_other in Hw'.
Qed.

Lemma maps_to_assign_fresh (n idx : Z) (m : umap Z Z) :
  n ∉ (um_items m).*1 -> maps_to n idx (um_assign n idx m).
Proof.
  intros Hout. split.
  - exists idx. by apply um_items_assign_fresh.
  - intros v Hv. by apply um_items_assign_fresh in Hv.
Qed.

Lemma collect_stmts_no_data (n : Z) (stmts : list Stmt) (acc : list Value * umap Z Z) :
  existsb is_data_stmt stmts = false -> foldl (collect_stmt n) acc stmts = acc.
Proof.
  revert acc. induction stmts as [|s stmts IH]; intros acc Hno; cbn [foldl existsb] in *;
    [reflexivity|].
  apply orb_false_iff in Hno as [Hs Hno]. rewrite IH by done.
  destruct s; try reflexivity. discriminate Hs.
Qed.

Lemma data_of_no_data (stmts : list Stmt) :
  existsb is_data_stmt stmts = false -> concat (data_of_stmt <$> stmts) = [].
Proof.
  induction stmts as [|s stmts IH]; intros Hno; cbn [existsb fmap list_fmap concat] in *;
    [reflexivity|].
  apply orb_false_iff in Hno as [Hs Hno]. rewrite IH by done.
  destruct s; try reflexivity. discriminate Hs.
Qed.

Lemma collect_stmts_maps_to (n idx k : Z) (stmts : list Stmt) (acc : list Value * umap Z Z) :
  k <> n -> maps_to n idx acc.2 -> maps_to n idx (foldl (collect_stmt k) acc stmts).2.
Proof.
  intros Hne. revert acc. induction stmts as [|s stmts IH]; intros acc Hm; cbn [foldl];
    [done|].
  apply IH. destruct s; try done. cbn [collect_stmt snd]. by apply maps_to_assign_other.
Qed.

Lemma collect_lines_maps_to (n idx : Z) (ls : list Line) (acc : list Value * umap Z Z) :
  n ∉ line_number <$> ls ->
  maps_to n idx acc.2 -> maps_to n idx (foldl collect_line acc ls).2.
Proof.
  revert acc. induction ls as [|ln ls IH]; intros acc Hn Hm; cbn [foldl]; [done|].
  rewrite fmap_cons in Hn. apply not_elem_of_cons in Hn as [Hne Hn].
  apply IH; [done|]. unfold collect_line. apply collect_stmts_maps_to; [congruence|done].
Qed.

(** X12. RESTORE to a line that holds one DATA statement, in a program
    with distinct line numbers, puts the read position at the first
    value of that statement: the reads that follow return its values
    and then the values of the DATA statements after it in the program
    text.  This holds whatever the iteration order of the line map. *)
Theorem restore_line_reads_its_data
    (p : Program) (rt : Runtime) (before after : list Line) (ln : Line)
    (s1 s2 : list Stmt) (vs : list Value) (k : nat) :
  lines p = before ++ ln :: after ->
  NoDup (line_number <$> lines p) ->
  line_statements ln = s1 ++ DataStmt vs :: s2 ->
  existsb is_data_stmt s1 = false ->
  existsb is_data_stmt s2 = false ->
  let start := length (concat (data_of_line <$> before)) in
  let rest := vs ++ concat (data_of_line <$> after) in
  (k <= length rest)%nat ->
  restore_data (Some (line_number ln)) (load p rt)
  = set_data_ptr (Z.of_nat start) (load p rt)
  /\ read_many k (restore_data (Some (line_number ln)) (load p rt))
     = (set_data_ptr (Z.of_nat (start + k)) (load p rt), Ok (take k rest)).
Proof.
  intros Hlines Hnd Hstmts Hs1 Hs2 start rest Hk.
  destruct (load_data_values p rt) as [Hvals Hptr].
  assert (data_of_line ln = vs) as Hln.
  { unfold data_of_line. rewrite Hstmts, fmap_app, concat_app, fmap_cons.
    cbn [concat data_of_stmt]. rewrite !data_of_no_data by done.
    cbn. apply app_nil_r. }
  assert (data_of_program p = concat (data_of_line <$> before) ++ rest) as Hpool.
  { unfold data_of_program, rest. rewrite Hlines, fmap_app, concat_app, fmap_cons.
    cbn [concat]. by rewrite Hln. }
  rewrite Hlines, fmap_app, fmap_cons in Hnd.
  apply NoDup_app in Hnd as (_ & Hdis & Hnd2). apply NoDup_cons in Hnd2 as [Hafter _].
  assert (line_number ln ∉ line_number <$> before) as Hbefore.
  { intros Hin. apply (Hdis _ Hin). apply list_elem_of_here. }
  assert (um_find (line_number ln) (data_line_map (load p rt)) = Some (Z.of_nat start))
    as Hfind.
  { apply um_find_maps_to.
    change (data_line_map (load p rt)) with (foldl collect_line ([], um_empty) (lines p)).2.
    rewrite Hlines, foldl_app. cbn [foldl].
    apply collect_lines_maps_to; [done|].
    set (acc := foldl collect_line ([], um_empty) before).
    unfold collect_line. rewrite Hstmts, foldl_app. cbn [foldl].
    rewrite (collect_stmts_no_data _ s1) by done.
    rewrite (collect_stmts_no_data _ s2) by done.
    cbn [collect_stmt snd].
    assert (acc.1 = concat (data_of_line <$> before)) as ->.
    { unfold acc. by rewrite collect_lines_values. }
    apply maps_to_assign_fresh.
    intros Hin. apply (collect_lines_keys before ([], um_empty)) in Hin
      as [Hin|(ln' & Hin' & Hnum & _)].
    - cbn in Hin. rewrite um_items_empty in Hin. by apply elem_of_nil in Hin.
    - apply Hbefore. rewrite <- Hnum. apply list_elem_of_fmap. eauto. }
  assert (restore_data (Some (line_number ln)) (load p rt)
          = set_data_ptr (Z.of_nat start) (load p rt)) as Hrestore.
  { unfold restore_data. by rewrite Hfind. }
  split; [exact Hrestore|]. rewrite Hrestore.
  rewrite (read_many_from k _ start); cbn [set_data_ptr data_ptr data_values];
    [|reflexivity|rewrite Hvals, Hpool, length_app; unfold start; lia].
  rewrite Hvals, Hpool, decide_True by (rewrite length_app; unfold start; lia).
  unfold start. rewrite drop_app_length. reflexivity.
Qed.
End RestoreLine.

Lemma restore_line_reads_its_data_witness :
  restore_data (Some 30) (load data_lines_program (Runtime_new : Runtime0))
  = set_data_ptr 2 (load data_lines_program Runtime_new)
  /\ read_many 1 (restore_data (Some 30) (load data_lines_program (Runtime_new : Runtime0)))
     = (set_data_ptr 3 (load data_lines_program Runtime_new), Ok [VDouble (d_of_Z 3)]).
Proof.
  refine (restore_line_reads_its_data data_lines_program Runtime_new
            [line 10 [DataStmt [VDouble (d_of_Z 1); VDouble (d_of_Z 2)]];
             line 20 [ReadStmt [LVariable "a" SINGLE]]]
            [] (line 30 [DataStmt [VDouble (d_of_Z 3)]]) [] [] [VDouble (d_of_Z 3)] 1
            _ _ _ _ _ _).
  - reflexivity.
  - apply (bool_decide_unpack _). vm_compute. reflexivity.
  - reflexivity.
  - reflexivity.
  - reflexivity.
  - vm_compute. lia.
Defined.
(* ===================================================================== *)
(** * Subroutines, WHILE loops and trapped errors                        *)
(* ===================================================================== *)

(** ** The conversions of 16-bit integers *)

Lemma all_in_block_spec (n : nat) (f : Z -> bool) :
  forall lo, all_in_block n lo f = true ->
  forall i, lo <= i < lo + 2 ^ Z.of_nat n -> f i = true.
Proof.
  induction n as [|n IH]; intros lo H i Hi; cbn [all_in_block] in H.
  - replace i with lo by (cbn in Hi; lia). exact H.
  - apply andb_true_iff in H as [H1 H2].
    rewrite Nat2Z.inj_succ, Z.pow_succ_r in Hi by lia.
    destruct (Z.lt_ge_cases i (lo + 2 ^ Z.of_nat n)) as [Hlt|Hge].
    + apply (IH lo H1). lia.
    + apply (IH _ H2). lia.
Qed.

Lemma int16_converts_all : all_in_block 16 (-32768) int16_converts = true.
Proof. vm_compute. reflexivity. Qed.

Lemma int16_conversions (i : Z) :
  -32768 <= i <= 32767 ->
  to_integer (VInteger i) = Some i
  /\ cast_int16 (d_of_Z i) = Some i
  /\ cast_int (d_of_Z i) = Some i.
Proof.
  intros Hi. pose proof (all_in_block_spec 16 _ _ int16_converts_all i) as H.
  unfold int16_converts in H.
  destruct (to_integer (VInteger i)) as [a|]; [|by discriminate H; lia].
  destruct (cast_int16 (d_of_Z i)) as [b|]; [|by discriminate H; lia].
  destruct (cast_int (d_of_Z i)) as [c|]; [|by discriminate H; lia].
  assert (-32768 <= i < -32768 + 2 ^ Z.of_nat 16) as Hr by (change (2 ^ Z.of_nat 16) with 65536; lia).
  apply H in Hr. apply andb_true_iff in Hr as [Hr Hc]. apply andb_true_iff in Hr as [Ha Hb].
  apply Z.eqb_eq in Ha, Hb, Hc. by subst.
Qed.

Lemma wrap16_range (n : Z) : -32768 <= wrap16 n <= 32767.
Proof. unfold wrap16. pose proof (Z.mod_pos_bound (n + 32768) 65536). lia. Qed.

Section Control.
Context {UF : UnorderedMap string ForLoopState} {UD : UnorderedMap Z Z} {AL : Allocator}.
Variable pow : double -> double -> double.
Variable call_function : string -> list Value -> M Value.

Lemma last_index_top {A} (P : A -> bool) (l : list A) (x : A) :
  P x = true -> last_index P (l ++ [x]) = Some (length l).
Proof. intros Hx. by apply last_index_middle. Qed.

Lemma delete_top {A} (l : list A) (x : A) : delete (length l) (l ++ [x]) = l.
Proof. rewrite delete_middle. apply app_nil_r. Qed.

Lemma lookup_top {A} (l : list A) (x : A) : (l ++ [x]) !! length l = Some x.
Proof. by rewrite list_lookup_middle. Qed.

(** X13. GOSUB and RETURN.  A GOSUB to an existing line, the PC advance,
    a RETURN and the PC advance bring the interpreter to the statement
    after the GOSUB with the execution stack exactly as it was before
    the GOSUB: nothing else has changed. *)
Theorem gosub_return_round_trip (m : Machine) (n : Z) :
  let rt := runtime_ m in
  valid (statements rt) (find_line (statements rt) n) = true ->
  bind (exec_gosub n) (fun _ =>
  bind advance_pc (fun _ =>
  bind (exec_return None) (fun _ => advance_pc))) m
  = (with_runtime (set_next_pc None (set_pc (next (statements rt) (pc rt)) rt)) m, Ok tt).
Proof.
  intros rt Hvalid.
  unfold exec_gosub, push_entry, jump_to, exec_return, advance_pc, bind, get_rt, modify_rt.
  cbn [runtime_ with_runtime statements set_exec_stack set_next_pc set_pc next_pc
       exec_stack pc].
  fold rt. rewrite Hvalid. cbn [negb].
  cbn [runtime_ with_runtime statements set_exec_stack set_next_pc set_pc next_pc
       exec_stack pc].
  rewrite last_index_top by reflexivity. rewrite lookup_top.
  cbn [runtime_ with_runtime statements set_exec_stack set_next_pc set_pc next_pc
       exec_stack pc gosub_entry return_pc].
  rewrite delete_top. reflexivity.
Qed.

(** X14. WHILE and WEND.  When the condition is true, WHILE, the PC
    advance, WEND and the PC advance bring the interpreter back to the
    WHILE statement in the state that the evaluation of the condition
    left: same PC, same stack, no pending jump. *)
Theorem while_wend_returns_to_while (m m1 : Machine) (condition : Expr) (v : Value) :
  eval pow call_function condition m = (m1, Ok v) ->
  to_bool v = true ->
  next_pc (runtime_ m1) = None ->
  is_running (pc (runtime_ m1)) = true ->
  bind (exec_while pow call_function condition) (fun _ =>
  bind advance_pc (fun _ =>
  bind exec_wend (fun _ => advance_pc))) m
  = (m1, Ok tt).
Proof.
  intros Heval Htrue Hnext Hrun.
  unfold exec_while. unfold bind at 1 2. rewrite Heval. unfold get_rt at 1.
  cbn beta iota. rewrite Htrue.
  unfold push_entry, exec_wend, advance_pc, bind, get_rt, modify_rt.
  cbn [runtime_ with_runtime statements set_exec_stack set_next_pc set_pc next_pc
       exec_stack pc].
  rewrite Hnext, Hrun.
  cbn [runtime_ with_runtime statements set_exec_stack set_next_pc set_pc next_pc
       exec_stack pc].
  rewrite last_index_top by reflexivity. rewrite lookup_top.
  cbn [runtime_ with_runtime statements set_exec_stack set_next_pc set_pc next_pc
       exec_stack pc while_entry loop_pc].
  rewrite delete_top, <- Hnext. reflexivity.
Qed.

Ltac rt_simpl :=
  cbn [runtime_ with_runtime set_next_pc set_error_pc set_variables_ set_pc set_exec_stack
       variables_ pc error_pc next_pc exec_stack statements def_type_map].

Lemma store_int16 (name : string) (i : Z) (m : Machine) :
  resolve_type (runtime_ m) name = INTEGER ->
  -32768 <= i <= 32767 ->
  store_variable name (VInteger i) m
  = (with_runtime
       (set_variables_ (<[name := VInteger i]> (variables_ (runtime_ m))) (runtime_ m)) m,
     Ok tt).
Proof.
  intros Hty Hi. unfold store_variable, bind, get_rt, set_variable.
  rewrite Hty. cbn [coerce_to]. destruct (int16_conversions i Hi) as [-> _]. reflexivity.
Qed.

(** X15. A trapped error and RESUME NEXT.  With ON ERROR GOTO h in
    force, the handler of the tick stores the error code in ERR% and
    the line in ERL% (both reduced to 16 bits), keeps the PC of the
    failing statement and makes line h the jump target without touching
    the stack.  After the PC advance, RESUME NEXT continues at the
    successor of the failing statement, clears the captured PC, and
    resets ERR% to 0 while ERL% keeps the line. *)
Theorem trapped_error_resume_next (m : Machine) (code h : Z) :
  let rt := runtime_ m in
  error_handler_line rt = Some h ->
  error_handler_is_gosub rt = false ->
  exists m1,
    on_runtime_error code m = (m1, Ok true)
    /\ get_variable (runtime_ m1) "err%" = VInteger (wrap16 code)
    /\ get_variable (runtime_ m1) "erl%" = VInteger (wrap16 (pc_line (pc rt)))
    /\ error_pc (runtime_ m1) = Some (pc rt)
    /\ next_pc (runtime_ m1) = Some (find_line (statements rt) h)
    /\ exec_stack (runtime_ m1) = exec_stack rt
    /\ exists m2,
         bind advance_pc (fun _ => exec_resume RESUME_NEXT None) m1 = (m2, Ok tt)
         /\ next_pc (runtime_ m2) = Some (next (statements rt) (pc rt))
         /\ error_pc (runtime_ m2) = None
         /\ get_variable (runtime_ m2) "err%" = VInteger 0
         /\ get_variable (runtime_ m2) "erl%" = VInteger (wrap16 (pc_line (pc rt))).
Proof.
  intros rt Hh Hg.
  unfold on_runtime_error. unfold bind at 1, get_rt at 1. fold rt. rewrite Hh.
  unfold bind at 1. rewrite store_int16 by (reflexivity || apply wrap16_range).
  unfold bind at 1, get_rt at 1. cbn [runtime_ with_runtime].
  unfold bind at 1. rewrite store_int16 by (reflexivity || apply wrap16_range).
  cbn [runtime_ with_runtime set_variables_ pc variables_]. fold rt.
  cbn [error_handler_is_gosub set_variables_]. fold rt. rewrite Hg.
  unfold bind, modify_rt, ret. cbn [runtime_ with_runtime].
  eexists. split; [reflexivity|].
  cbn [runtime_ with_runtime set_next_pc set_error_pc set_variables_ variables_ pc
       error_pc next_pc exec_stack statements].
  split; [unfold get_variable; rt_simpl;
          rewrite lookup_insert_ne by done; by rewrite lookup_insert_eq|].
  split; [unfold get_variable; rt_simpl; by rewrite lookup_insert_eq|].
  do 3 (split; [reflexivity|]).
  unfold advance_pc, exec_resume, bind, get_rt, modify_rt. rt_simpl.
  rewrite store_err_zero. rt_simpl.
  eexists. split; [reflexivity|]. rt_simpl.
  do 2 (split; [reflexivity|]).
  split; unfold get_variable; rt_simpl.
  - by rewrite lookup_insert_eq.
  - rewrite lookup_insert_ne by done. by rewrite lookup_insert_eq.
Qed.

(** X16. An error that no handler traps.  When the statement at the PC
    raises an error and no ON ERROR handler is installed, the tick
    answers false and leaves the interpreter halted with reason ERROR at
    the address of the failing statement; the error code and that
    address are recorded, the statement is not counted as executed, and
    running on changes nothing any more. *)
Theorem untrapped_error_halts (m m2 : Machine) (stmt : Stmt) (code : Z) (fuel : nat) :
  let rt := runtime_ m in
  get (statements rt) (pc rt) = Some stmt ->
  is_running (pc rt) = true ->
  pause_requested (state_ m) = false ->
  break_requested rt = false ->
  breakpoints rt = ∅ ->
  skip_next_breakpoint (state_ m) = false ->
  trace_on rt = false ->
  execute pow call_function stmt m = (m2, Throw code) ->
  error_handler_line (runtime_ m2) = None ->
  let halted_at := with_reason ERROR (pc (runtime_ m2)) in
  exists m3,
    tick pow call_function m = (m3, Ok false)
    /\ pc (runtime_ m3) = halted_at
    /\ st_error (state_ m3) = Some {| err_code := code; err_pc := pc (runtime_ m2) |}
    /\ statements_executed (state_ m3) = statements_executed (state_ m2)
    /\ run pow call_function (S fuel) m = (m3, Ok tt)
    /\ run pow call_function fuel m3 = (m3, Ok tt).
Proof.
  intros rt Hget Hrun Hpause Hbreak Hbp Hskip Htrace Hexec Hnone halted_at.
  assert (tick pow call_function m
          = (with_runtime (set_pc halted_at (runtime_ m2))
               (with_state
                  {| st_error := Some {| err_code := code; err_pc := pc (runtime_ m2) |};
                     statements_executed := statements_executed (state_ m2);
                     pause_requested := pause_requested (state_ m2);
                     skip_next_breakpoint := skip_next_breakpoint (state_ m2) |} m2),
             Ok false)) as Htick.
  { unfold tick. fold rt. rewrite Hrun, Hpause, Hbreak, Hbp, Htrace. cbn [negb].
    rewrite bool_decide_eq_false_2 by set_solver. cbn [andb].
    unfold bind at 1. unfold set_skip_next_breakpoint, modify_state.
    rewrite Hget. unfold bind at 1. unfold ret at 1.
    unfold bind at 1. unfold execute_guarded.
    assert (with_state
              {| st_error := st_error (state_ m);
                 statements_executed := statements_executed (state_ m);
                 pause_requested := pause_requested (state_ m);
                 skip_next_breakpoint := false |} m = m) as ->.
    { rewrite <- Hskip. reflexivity. }
    rewrite Hexec. unfold on_runtime_error, bind, get_rt. rewrite Hnone.
    unfold modify_state, set_reason, modify_rt, ret. reflexivity. }
  eexists. split; [exact Htick|].
  do 3 (split; [reflexivity|]).
  split.
  - cbn [run]. unfold bind. rewrite Htick. reflexivity.
  - destruct fuel as [|fuel]; [reflexivity|].
    cbn [run]. unfold bind, tick. cbn [runtime_ with_runtime set_pc pc].
    reflexivity.
Qed.
End Control.

Lemma gosub_return_round_trip_witness :
  let m : Machine0 := boot gosub_while_program in
  bind (exec_gosub 100) (fun _ =>
  bind advance_pc (fun _ =>
  bind (exec_return None) (fun _ => advance_pc))) m
  = (with_runtime (set_next_pc None (set_pc (running_at 20 0) (runtime_ m))) m, Ok tt).
Proof.
  refine (gosub_return_round_trip (boot gosub_while_program) 100 _).
  vm_compute. reflexivity.
Defined.

Lemma while_wend_returns_to_while_witness :
  let m : Machine0 := boot gosub_while_program in
  bind (exec_while pow_exact call_embedded (NumberExpr d_one)) (fun _ =>
  bind advance_pc (fun _ =>
  bind exec_wend (fun _ => advance_pc))) m
  = (m, Ok tt).
Proof.
  refine (while_wend_returns_to_while pow_exact call_embedded
            (boot gosub_while_program) (boot gosub_while_program)
            (NumberExpr d_one) (VDouble d_one) _ _ _ _);
    vm_compute; reflexivity.
Defined.

Lemma trapped_error_resume_next_witness :
  exists m1 : Machine0,
    on_runtime_error 11 machine_at_clear = (m1, Ok true)
    /\ get_variable (runtime_ m1) "err%" = VInteger 11
    /\ get_variable (runtime_ m1) "erl%" = VInteger 30
    /\ error_pc (runtime_ m1) = Some (running_at 30 2)
    /\ next_pc (runtime_ m1) = Some (running_at 10 0)
    /\ exec_stack (runtime_ m1) = []
    /\ exists m2,
         bind advance_pc (fun _ => exec_resume RESUME_NEXT None) m1 = (m2, Ok tt)
         /\ next_pc (runtime_ m2) = Some (running_at 40 0)
         /\ error_pc (runtime_ m2) = None
         /\ get_variable (runtime_ m2) "err%" = VInteger 0
         /\ get_variable (runtime_ m2) "erl%" = VInteger 30.
Proof.
  refine (trapped_error_resume_next machine_at_clear 11 10 _ _); reflexivity.
Defined.

Lemma untrapped_error_halts_witness :
  let m : Machine0 := boot stray_return_program in
  exists m3 : Machine0,
    tick pow_exact call_embedded m = (m3, Ok false)
    /\ pc (runtime_ m3) = with_reason ERROR (running_at 10 0)
    /\ st_error (state_ m3)
       = Some {| err_code := ErrorCode.RETURN_WITHOUT_GOSUB; err_pc := running_at 10 0 |}
    /\ statements_executed (state_ m3) = 0
    /\ run pow_exact call_embedded 3 m = (m3, Ok tt)
    /\ run pow_exact call_embedded 2 m3 = (m3, Ok tt).
Proof.
  refine (untrapped_error_halts pow_exact call_embedded (boot stray_return_program)
            (fst (execute pow_exact call_embedded (ReturnStmt None)
                    (boot stray_return_program)))
            (ReturnStmt None) ErrorCode.RETURN_WITHOUT_GOSUB 2 _ _ _ _ _ _ _ _ _);
    vm_compute; reflexivity.
Defined.
(* ===================================================================== *)
(** * Operators: comparisons, logical operators, string operands         *)
(* ===================================================================== *)

Lemma SFcompare_antisym (a b : double) :
  SFcompare b a = option_map CompOpp (SFcompare a b).
Proof.
  destruct a as [sa|sa| |sa ma ea], b as [sb|sb| |sb mb eb]; cbn;
    try reflexivity; try (destruct sa; reflexivity); try (destruct sb; reflexivity);
    try (destruct sa, sb; reflexivity).
  pose proof (Pos.compare_cont_antisym ma mb Eq) as Hp. cbn [CompOpp] in Hp.
  rewrite (Z.compare_antisym ea eb), <- Hp.
  destruct sa, sb; cbn; try reflexivity;
    destruct (ea ?= eb); cbn; try reflexivity; destruct (Pos.compare_cont Eq ma mb); reflexivity.
Qed.

(** Two numbers that are not NaN are ordered in exactly one way. *)
Lemma compare_trichotomy (a b : double) :
  is_nan a = false -> is_nan b = false ->
  (d_lt a b = true /\ d_eq a b = false /\ d_gt a b = false)
  \/ (d_lt a b = false /\ d_eq a b = true /\ d_gt a b = false)
  \/ (d_lt a b = false /\ d_eq a b = false /\ d_gt a b = true).
Proof.
  intros Ha Hb. unfold d_lt, d_eq, d_gt, SFltb, SFeqb. rewrite (SFcompare_antisym a b).
  destruct (SFcompare a b) as [[| |]|] eqn:Hc; cbn; auto.
  destruct a, b; try discriminate Ha; try discriminate Hb; discriminate Hc.
Qed.

(** The 16-bit range in terms of the bits from 15 on. *)
Lemma int16_high_bits (a : Z) :
  -32768 <= a <= 32767 <-> Z.shiftr a 15 = 0 \/ Z.shiftr a 15 = -1.
Proof.
  rewrite Z.shiftr_div_pow2 by lia. change (2 ^ 15) with 32768.
  pose proof (Z.div_mod a 32768 ltac:(lia)).
  pose proof (Z.mod_pos_bound a 32768 ltac:(lia)). lia.
Qed.

Lemma int16_bitwise_closed (f : Z -> Z -> Z) (a b : Z) :
  (forall x y n, Z.shiftr (f x y) n = f (Z.shiftr x n) (Z.shiftr y n)) ->
  (forall x y, (x = 0 \/ x = -1) -> (y = 0 \/ y = -1) -> f x y = 0 \/ f x y = -1) ->
  -32768 <= a <= 32767 -> -32768 <= b <= 32767 -> -32768 <= f a b <= 32767.
Proof.
  intros Hshift Hends Ha Hb. apply int16_high_bits. rewrite Hshift.
  apply Hends; by apply int16_high_bits.
Qed.

Lemma int16_land (a b : Z) :
  -32768 <= a <= 32767 -> -32768 <= b <= 32767 -> -32768 <= Z.land a b <= 32767.
Proof.
  apply (int16_bitwise_closed Z.land); [apply Z.shiftr_land|].
  intros x y [->| ->] [->| ->]; cbn; auto.
Qed.

Lemma int16_lor (a b : Z) :
  -32768 <= a <= 32767 -> -32768 <= b <= 32767 -> -32768 <= Z.lor a b <= 32767.
Proof.
  apply (int16_bitwise_closed Z.lor); [apply Z.shiftr_lor|].
  intros x y [->| ->] [->| ->]; cbn; auto.
Qed.

Lemma int16_lxor (a b : Z) :
  -32768 <= a <= 32767 -> -32768 <= b <= 32767 -> -32768 <= Z.lxor a b <= 32767.
Proof.
  apply (int16_bitwise_closed Z.lxor); [apply Z.shiftr_lxor|].
  intros x y [->| ->] [->| ->]; cbn; auto.
Qed.

Lemma int16_lnot (a : Z) : -32768 <= a <= 32767 -> -32768 <= Z.lnot a <= 32767.
Proof. unfold Z.lnot. lia. Qed.

Section Operators.
Context {UF : UnorderedMap string ForLoopState} {UD : UnorderedMap Z Z} {AL : Allocator}.
Variable pow : double -> double -> double.
Variable call_function : string -> list Value -> M Value.

Lemma float_equal_of_eq (a b : double) : d_eq a b = true -> float_equal a b = true.
Proof. intros H. unfold float_equal. by rewrite H. Qed.

(** X17. The six relational operators agree with one another on
    numbers.  For operands that are not NaN exactly one of [a < b],
    [a = b], [a > b] is true (-1) and the others are false (0), where
    [=] is the tolerant equality; [<=] is the negation of [>], [>=] the
    negation of [<] and [<>] the negation of [=]; and no comparison
    changes the interpreter. *)
Theorem comparisons_are_consistent (m : Machine) (a b : double) :
  is_nan a = false -> is_nan b = false ->
  let cmp op := eval pow call_function (BinaryExpr op (NumberExpr a) (NumberExpr b)) m in
  exists lt eq gt : bool,
    cmp T_LESS_THAN = (m, Ok (truth lt))
    /\ cmp T_EQUAL = (m, Ok (truth eq))
    /\ cmp T_GREATER_THAN = (m, Ok (truth gt))
    /\ cmp T_LESS_EQUAL = (m, Ok (truth (negb gt)))
    /\ cmp T_GREATER_EQUAL = (m, Ok (truth (negb lt)))
    /\ cmp T_NOT_EQUAL = (m, Ok (truth (negb eq)))
    /\ eq = float_equal a b
    /\ ((lt = true /\ eq = false /\ gt = false)
        \/ (lt = false /\ eq = true /\ gt = false)
        \/ (lt = false /\ eq = false /\ gt = true)).
Proof.
  intros Ha Hb cmp.
  assert (cmp T_LESS_THAN = (m, Ok (truth (d_lt a b && negb (float_equal a b))))) as H1
    by reflexivity.
  assert (cmp T_EQUAL = (m, Ok (truth (float_equal a b)))) as H2 by reflexivity.
  assert (cmp T_GREATER_THAN = (m, Ok (truth (d_gt a b && negb (float_equal a b))))) as H3
    by reflexivity.
  assert (cmp T_LESS_EQUAL = (m, Ok (truth (d_lt a b || float_equal a b)))) as H4
    by reflexivity.
  assert (cmp T_GREATER_EQUAL = (m, Ok (truth (d_gt a b || float_equal a b)))) as H5
    by reflexivity.
  assert (cmp T_NOT_EQUAL = (m, Ok (truth (negb (float_equal a b))))) as H6 by reflexivity.
  rewrite H1, H2, H3, H4, H5, H6. clear H1 H2 H3 H4 H5 H6.
  exists (d_lt a b && negb (float_equal a b)), (float_equal a b),
         (d_gt a b && negb (float_equal a b)).
  do 3 (split; [reflexivity|]).
  destruct (float_equal a b) eqn:Hfe.
  - rewrite !andb_false_r, !orb_true_r. do 4 (split; [reflexivity|]). auto.
  - rewrite !andb_true_r, !orb_false_r.
    destruct (compare_trichotomy a b Ha Hb)
      as [(Hl & He & Hg)|[(Hl & He & Hg)|(Hl & He & Hg)]].
    + rewrite Hl, Hg. do 4 (split; [reflexivity|]). auto.
    + apply float_equal_of_eq in He. congruence.
    + rewrite Hl, Hg. do 4 (split; [reflexivity|]). auto.
Qed.

(** X18. The logical operators on 16-bit integers.  For operands that
    hold integers of the 16-bit range, AND, OR, XOR, EQV, IMP and NOT
    evaluate to the bitwise function of the two integers, the result is
    again in the 16-bit range (so results can be operands), and NOT x is
    -x - 1; nothing in the interpreter changes. *)
Theorem logical_operators_closed (m : Machine) (i j : Z) :
  -32768 <= i <= 32767 -> -32768 <= j <= 32767 ->
  let bin op :=
    eval pow call_function (BinaryExpr op (NumberExpr (d_of_Z i)) (NumberExpr (d_of_Z j))) m in
  let result r := (m, Ok (VDouble (d_of_Z r))) in
  (bin T_AND = result (Z.land i j) /\ -32768 <= Z.land i j <= 32767)
  /\ (bin T_OR = result (Z.lor i j) /\ -32768 <= Z.lor i j <= 32767)
  /\ (bin T_XOR = result (Z.lxor i j) /\ -32768 <= Z.lxor i j <= 32767)
  /\ (bin T_EQV = result (Z.lnot (Z.lxor i j)) /\ -32768 <= Z.lnot (Z.lxor i j) <= 32767)
  /\ (bin T_IMP = result (Z.lor (Z.lnot i) j) /\ -32768 <= Z.lor (Z.lnot i) j <= 32767)
  /\ (eval pow call_function (UnaryExpr T_NOT (NumberExpr (d_of_Z i))) m = result (- i - 1)
      /\ -32768 <= - i - 1 <= 32767).
Proof.
  intros Hi Hj bin result.
  destruct (int16_conversions i Hi) as (_ & Hci & _).
  destruct (int16_conversions j Hj) as (_ & Hcj & _).
  assert (forall f op,
            (forall l r, eval_binary pow op (ret (VDouble l)) (ret (VDouble r)) m
                         = int16_logic f l r m) ->
            bin op = result (f i j)) as Hbin.
  { intros f op Hop. unfold bin. cbn [eval]. rewrite Hop.
    unfold int16_logic, bind, defined. rewrite Hci, Hcj. reflexivity. }
  split; [split; [by apply Hbin|by apply int16_land]|].
  split; [split; [by apply Hbin|by apply int16_lor]|].
  split; [split; [by apply Hbin|by apply int16_lxor]|].
  split; [split; [by apply (Hbin (fun a b => Z.lnot (Z.lxor a b)))
                 |by apply int16_lnot, int16_lxor]|].
  split; [split; [by apply (Hbin (fun a b => Z.lor (Z.lnot a) b))
                 |by apply int16_lor; [apply int16_lnot|]]|].
  split; [|lia].
  unfold result. cbn [eval]. unfold eval_unary, bind, ret. cbn beta iota. cbn [to_number].
  rewrite Hci. cbn [defined]. unfold ret.
  replace (Z.lnot i) with (- i - 1) by (unfold Z.lnot; lia). reflexivity.
Qed.

(** X19. [+] with a string operand.  When both operands are strings the
    result is their concatenation if it has at most 255 characters, and
    String too long (code 15) otherwise.  When only one operand is a
    string, the number counts as the empty string: the result is the
    string operand and no error is raised. *)
Theorem plus_with_string_operand (m : Machine) (s t : string) (d : double) :
  let plus l r := eval pow call_function (BinaryExpr T_PLUS l r) m in
  plus (StringExpr s) (StringExpr t)
  = (if (255 <? Z.of_nat (String.length (s ++ t)))
     then raise_error ErrorCode.STRING_TOO_LONG m
     else (m, Ok (VString (s ++ t)%string)))
  /\ ((String.length s <= 255)%nat ->
      plus (StringExpr s) (NumberExpr d) = (m, Ok (VString s))
      /\ plus (NumberExpr d) (StringExpr s) = (m, Ok (VString s))).
Proof.
  intros plus. split.
  - unfold plus. cbn [eval]. unfold eval_binary, bind, ret. cbn.
    destruct (255 <? Z.of_nat (String.length (s ++ t))); reflexivity.
  - intros Hlen.
    assert ((255 <? Z.of_nat (String.length s)) = false) as Hfit by (apply Z.ltb_ge; lia).
    unfold plus. cbn [eval]. unfold eval_binary, bind, ret. cbn.
    change (String.append EmptyString s) with s.
    rewrite string_app_nil_r, Hfit. split; reflexivity.
Qed.

(** X20. Relational operators on two strings.  Only [=] compares the
    texts.  The other five convert both operands with [to_number],
    which is 0 for every string, so whatever the texts are, [<>], [<]
    and [>] are false (0) and [<=] and [>=] are true (-1). *)
Theorem string_comparisons_ignore_text (m : Machine) (s t : string) :
  let cmp op := eval pow call_function (BinaryExpr op (StringExpr s) (StringExpr t)) m in
  cmp T_EQUAL = (m, Ok (truth (String.eqb s t)))
  /\ cmp T_NOT_EQUAL = (m, Ok (truth false))
  /\ cmp T_LESS_THAN = (m, Ok (truth false))
  /\ cmp T_GREATER_THAN = (m, Ok (truth false))
  /\ cmp T_LESS_EQUAL = (m, Ok (truth true))
  /\ cmp T_GREATER_EQUAL = (m, Ok (truth true)).
Proof. intros cmp. repeat split; reflexivity. Qed.
End Operators.

Lemma comparisons_are_consistent_witness :
  let cmp op :=
    eval pow_exact call_embedded (BinaryExpr op (NumberExpr d_half) (NumberExpr d_one))
      machine_idle in
  exists lt eq gt : bool,
    cmp T_LESS_THAN = (machine_idle, Ok (truth lt))
    /\ cmp T_EQUAL = (machine_idle, Ok (truth eq))
    /\ cmp T_GREATER_THAN = (machine_idle, Ok (truth gt))
    /\ cmp T_LESS_EQUAL = (machine_idle, Ok (truth (negb gt)))
    /\ cmp T_GREATER_EQUAL = (machine_idle, Ok (truth (negb lt)))
    /\ cmp T_NOT_EQUAL = (machine_idle, Ok (truth (negb eq)))
    /\ eq = float_equal d_half d_one
    /\ ((lt = true /\ eq = false /\ gt = false)
        \/ (lt = false /\ eq = true /\ gt = false)
        \/ (lt = false /\ eq = false /\ gt = true)).
Proof.
  refine (comparisons_are_consistent pow_exact call_embedded machine_idle d_half d_one _ _);
    vm_compute; reflexivity.
Defined.

Lemma logical_operators_closed_witness :
  let bin op :=
    eval pow_exact call_embedded
      (BinaryExpr op (NumberExpr (d_of_Z 5)) (NumberExpr (d_of_Z (-3)))) machine_idle in
  let result r := (machine_idle, Ok (VDouble (d_of_Z r))) in
  (bin T_AND = result 5 /\ -32768 <= 5 <= 32767)
  /\ (bin T_OR = result (-3) /\ -32768 <= -3 <= 32767)
  /\ (bin T_XOR = result (-8) /\ -32768 <= -8 <= 32767)
  /\ (bin T_EQV = result 7 /\ -32768 <= 7 <= 32767)
  /\ (bin T_IMP = result (-1) /\ -32768 <= -1 <= 32767)
  /\ (eval pow_exact call_embedded (UnaryExpr T_NOT (NumberExpr (d_of_Z 5))) machine_idle
      = result (-6)
      /\ -32768 <= -6 <= 32767).
Proof.
  refine (logical_operators_closed pow_exact call_embedded machine_idle 5 (-3) _ _); lia.
Defined.

Lemma plus_with_string_operand_witness :
  eval pow_exact call_embedded (BinaryExpr T_PLUS (StringExpr "AB") (NumberExpr d_one))
    machine_idle
  = (machine_idle, Ok (VString "AB"))
  /\ eval pow_exact call_embedded (BinaryExpr T_PLUS (NumberExpr d_one) (StringExpr "AB"))
       machine_idle
     = (machine_idle, Ok (VString "AB")).
Proof.
  refine (proj2 (plus_with_string_operand pow_exact call_embedded machine_idle
                   "AB" "" d_one) _).
  vm_compute. lia.
Defined.
(* ===================================================================== *)
(** * The string functions                                               *)
(* ===================================================================== *)

Lemma substring_all (s : string) : substring 0 (String.length s) s = s.
Proof. induction s as [|c s IH]; cbn; [reflexivity|]. by rewrite IH. Qed.

Lemma substring_empty (n k : nat) : substring n k EmptyString = EmptyString.
Proof. destruct n, k; reflexivity. Qed.

Lemma substring_0_long (s : string) :
  forall k : nat, (String.length s <= k)%nat -> substring 0 k s = s.
Proof.
  induction s as [|c s IH]; intros k Hk; [apply substring_empty|].
  destruct k as [|k]; [cbn in Hk; lia|]. cbn. f_equal. apply IH. cbn in Hk. lia.
Qed.

Lemma substring_split (s : string) :
  forall n k : nat,
    (String.length s <= n + k)%nat ->
    (substring 0 n s ++ substring n k s)%string = s.
Proof.
  induction s as [|c s IH]; intros n k Hk.
  - by rewrite !substring_empty.
  - destruct n as [|n].
    + rewrite (substring_0_long (String c s) k) by lia. reflexivity.
    + cbn [substring]. rewrite string_app_cons. f_equal. apply IH. cbn in Hk. lia.
Qed.

Lemma substring_length_0 (s : string) (n : nat) :
  String.length (substring 0 n s) = Nat.min n (String.length s).
Proof.
  revert n. induction s as [|c s IH]; intros [|n]; cbn; try reflexivity. by rewrite IH.
Qed.

Lemma substring_past_end (s : string) (n k : nat) :
  (String.length s <= n)%nat -> substring n k s = EmptyString.
Proof.
  revert n. induction s as [|c s IH]; intros n Hn; [apply substring_empty|].
  destruct n as [|n]; [cbn in Hn; lia|]. cbn. apply IH. cbn in Hn. lia.
Qed.

Lemma string_of_count_length (n : nat) (c : ascii) : String.length (string_of_count n c) = n.
Proof. induction n as [|n IH]; cbn; [reflexivity|]. by rewrite IH. Qed.

Lemma string_of_count_prefix (n k : nat) (c : ascii) :
  substring 0 k (string_of_count n c) = string_of_count (Nat.min k n) c.
Proof.
  revert k. induction n as [|n IH]; intros [|k]; cbn; try reflexivity. by rewrite IH.
Qed.

Lemma index_ge (t : string) :
  forall (h : string) (n p : nat), index n t h = Some p -> (n <= p)%nat.
Proof.
  induction h as [|c h IH]; intros n p H.
  - destruct n; cbn in H; [|discriminate]. lia.
  - destruct n as [|n]; [lia|]. cbn in H.
    destruct (index n t h) as [q|] eqn:Hq; [|discriminate].
    injection H as <-. apply IH in Hq. lia.
Qed.

Lemma char_code_range (c : ascii) : 0 <= char_code c <= 255.
Proof. unfold char_code. pose proof (nat_ascii_bounded c). lia. Qed.

Lemma char_of_int_code (c : ascii) : char_of_int (char_code c) = c.
Proof.
  unfold char_of_int. pose proof (char_code_range c).
  rewrite Z.mod_small by lia. unfold char_code.
  rewrite Nat2Z.id. apply ascii_nat_embedding.
Qed.

Lemma char_code_of_int (n : Z) : 0 <= n <= 255 -> char_code (char_of_int n) = n.
Proof.
  intros Hn. unfold char_code, char_of_int. rewrite Z.mod_small by lia.
  rewrite nat_ascii_embedding by lia. lia.
Qed.

Section Strings.
Context {UF : UnorderedMap string ForLoopState} {UD : UnorderedMap Z Z} {AL : Allocator}.

Lemma int_arg_int16 (i : Z) (m : Machine) :
  -32768 <= i <= 32767 -> int_arg (VInteger i) m = (m, Ok i).
Proof.
  intros Hi. unfold int_arg. cbn [to_number].
  destruct (int16_conversions i Hi) as (_ & _ & ->). reflexivity.
Qed.

Lemma position_arg_int16 (i : Z) (m : Machine) :
  -32768 <= i <= 32767 -> position_arg (VInteger i) m = (m, Ok (i - 1)).
Proof.
  intros Hi. unfold position_arg, bind. rewrite int_arg_int16 by done.
  destruct (i =? INT_MIN) eqn:Hmin; [|reflexivity].
  apply Z.eqb_eq in Hmin. unfold INT_MIN in Hmin. lia.
Qed.

(** X21. LEFT$, MID$ and RIGHT$ cut a string without losing or adding
    characters.  For a count n from 0 to 32766, LEFT$(s, n) followed by
    MID$(s, n + 1) is s; LEFT$(s, n) has min(n, LEN(s)) characters; and
    when n <= LEN(s) <= 32767, RIGHT$(s, LEN(s) - n) is that same rest
    MID$(s, n + 1).  None of the calls changes the interpreter. *)
Theorem left_and_rest_partition (m : Machine) (s : string) (n : Z) :
  0 <= n <= 32766 ->
  exists l r : string,
    builtin_left [VString s; VInteger n] m = (m, Ok (VString l))
    /\ builtin_mid [VString s; VInteger (n + 1)] m = (m, Ok (VString r))
    /\ (l ++ r)%string = s
    /\ string_size l = Z.min n (string_size s)
    /\ (n <= string_size s <= 32767 ->
        builtin_right [VString s; VInteger (string_size s - n)] m = (m, Ok (VString r))).
Proof.
  intros Hn.
  set (l := substring 0 (Z.to_nat (Z.min n (string_size s))) s).
  set (r := substring (Z.to_nat n) (String.length s) s).
  assert (builtin_left [VString s; VInteger n] m = (m, Ok (VString l))) as Hleft.
  { unfold builtin_left, bind. cbn [get_string ret]. rewrite int_arg_int16 by lia.
    destruct (n <? 0) eqn:Hneg; [apply Z.ltb_lt in Hneg; lia|]. reflexivity. }
  assert (builtin_mid [VString s; VInteger (n + 1)] m = (m, Ok (VString r))) as Hmid.
  { unfold builtin_mid, bind. cbn [get_string ret]. rewrite position_arg_int16 by lia.
    replace (n + 1 - 1) with n by lia.
    destruct (n <? 0) eqn:Hneg; [apply Z.ltb_lt in Hneg; lia|].
    destruct (string_size s <=? n) eqn:Hend.
    - apply Z.leb_le in Hend. unfold r, string_size in *.
      rewrite substring_past_end by lia. reflexivity.
    - unfold r, string_size. by rewrite Nat2Z.id. }
  exists l, r. split; [exact Hleft|]. split; [exact Hmid|].
  unfold string_size in *. split; [|split].
  - unfold l, r. destruct (Z.le_ge_cases n (Z.of_nat (String.length s))) as [Hle|Hge].
    + rewrite Z.min_l by done. apply substring_split. lia.
    + rewrite Z.min_r by lia. rewrite Nat2Z.id, substring_all.
      rewrite substring_past_end by lia. apply string_app_nil_r.
  - unfold l. rewrite substring_length_0. lia.
  - intros Hlen. unfold builtin_right, bind. cbn [get_string ret].
    rewrite int_arg_int16 by (unfold string_size; lia). unfold string_size.
    destruct (Z.of_nat (String.length s) - n <? 0) eqn:Hneg;
      [apply Z.ltb_lt in Hneg; lia|].
    destruct (Z.of_nat (String.length s) <=? Z.of_nat (String.length s) - n) eqn:Hall.
    + apply Z.leb_le in Hall. assert (n = 0) as -> by lia.
      unfold r. cbn [Z.to_nat]. by rewrite substring_all.
    + unfold r.
      replace (Z.of_nat (String.length s) - (Z.of_nat (String.length s) - n)) with n by lia.
      reflexivity.
Qed.

(** X22. ASC and CHR$ are inverse to each other on the codes 0 to 255:
    ASC(CHR$(c)) is c, and CHR$(ASC(s)) is the first character of a
    non-empty s.  CHR$ of any other 16-bit code and ASC of the empty
    string raise Illegal function call (code 5). *)
Theorem asc_chr_inverse (m : Machine) :
  (forall c, 0 <= c <= 255 ->
     exists t, builtin_chr [VInteger c] m = (m, Ok (VString t))
               /\ builtin_asc [VString t] m = (m, Ok (VDouble (d_of_Z c))))
  /\ (forall (ch : ascii) (rest : string),
        exists v, builtin_asc [VString (String ch rest)] m = (m, Ok v)
                  /\ builtin_chr [v] m = (m, Ok (VString (String ch EmptyString))))
  /\ (forall c, -32768 <= c < 0 \/ 255 < c <= 32767 ->
        builtin_chr [VInteger c] m = raise_error ErrorCode.ILLEGAL_FUNCTION_CALL m)
  /\ builtin_asc [VString EmptyString] m = raise_error ErrorCode.ILLEGAL_FUNCTION_CALL m.
Proof.
  split; [|split; [|split]].
  - intros c Hc. eexists. split.
    + unfold builtin_chr, bind. rewrite int_arg_int16 by lia.
      destruct ((c <? 0) || (255 <? c)) eqn:Hout; [|reflexivity].
      apply orb_true_iff in Hout as [H|H]; apply Z.ltb_lt in H; lia.
    + unfold builtin_asc, bind. cbn [get_string ret]. by rewrite char_code_of_int.
  - intros ch rest. eexists. split; [reflexivity|].
    pose proof (char_code_range ch) as Hr.
    unfold builtin_chr, bind, int_arg. cbn [to_number].
    destruct (int16_conversions (char_code ch)) as (_ & _ & ->); [lia|]. cbn [defined ret].
    destruct ((char_code ch <? 0) || (255 <? char_code ch)) eqn:Hout.
    + apply orb_true_iff in Hout as [H|H]; apply Z.ltb_lt in H; lia.
    + by rewrite char_of_int_code.
  - intros c Hc. unfold builtin_chr, bind. rewrite int_arg_int16 by lia.
    destruct ((c <? 0) || (255 <? c)) eqn:Hout; [reflexivity|].
    apply orb_false_iff in Hout as [H1 H2]. apply Z.ltb_ge in H1, H2. lia.
  - reflexivity.
Qed.

(** X23. INSTR returns the first occurrence.  For a non-empty needle
    and a start position i from 1 on, INSTR(i, h, t) is 0 exactly when
    t does not occur in h at any position from i on, and otherwise the
    1-based position of the first occurrence at or after i.  The form
    without a start position is the one with i = 1. *)
Theorem instr_finds_first_occurrence (m : Machine) (h t : string) (i : Z) :
  t <> EmptyString -> 1 <= i <= 32767 ->
  let start := Z.to_nat (i - 1) in
  exists k : nat,
    builtin_instr [VInteger i; VString h; VString t] m
    = (m, Ok (VDouble (d_of_Z (Z.of_nat k))))
    /\ (i = 1 ->
        builtin_instr [VString h; VString t] m = (m, Ok (VDouble (d_of_Z (Z.of_nat k)))))
    /\ match k with
       | O => forall p, (start <= p)%nat -> substring p (String.length t) h <> t
       | S p =>
           (start <= p)%nat
           /\ substring p (String.length t) h = t
           /\ forall q, (start <= q < p)%nat -> substring q (String.length t) h <> t
       end.
Proof.
  intros Ht Hi start.
  assert (forall st, 0 <= st ->
            (let st' := if st <? 0 then 0 else st in
             if string_size h <=? st' then ret (VDouble d_zero)
             else match t with
                  | EmptyString => ret (VDouble (d_of_Z (st' + 1)))
                  | String _ _ =>
                      match index (Z.to_nat st') t h with
                      | Some pos => ret (VDouble (d_of_Z (Z.of_nat pos + 1)))
                      | None => ret (VDouble d_zero)
                      end
                  end) m
            = (m, Ok (VDouble (d_of_Z (Z.of_nat
                 (if string_size h <=? st then O
                  else match index (Z.to_nat st) t h with
                       | Some pos => S pos
                       | None => O
                       end)))))) as Hbody.
  { intros st Hst. cbn zeta.
    destruct (st <? 0) eqn:Hneg; [apply Z.ltb_lt in Hneg; lia|].
    destruct (string_size h <=? st); [reflexivity|].
    destruct t as [|c t]; [done|].
    destruct (index (Z.to_nat st) (String c t) h) as [pos|]; [|reflexivity].
    rewrite Nat2Z.inj_succ. reflexivity. }
  exists (if string_size h <=? i - 1 then O
          else match index start t h with Some pos => S pos | None => O end).
  split; [|split].
  - unfold builtin_instr. cbn [is_numeric]. unfold bind at 1.
    unfold bind at 1. rewrite position_arg_int16 by lia.
    cbn [get_string]. unfold bind at 1 2, ret at 1 2 3.
    apply (Hbody (i - 1)). lia.
  - intros ->. unfold builtin_instr. cbn [get_string]. unfold bind, ret at 1 2 3.
    apply (Hbody 0). lia.
  - destruct (string_size h <=? i - 1) eqn:Hend.
    + apply Z.leb_le in Hend. unfold string_size in Hend. intros p Hp.
      rewrite substring_past_end by (unfold start in Hp; lia).
      congruence.
    + destruct (index start t h) as [pos|] eqn:Hidx.
      * split; [by apply (index_ge t h)|]. split; [by apply (index_correct1 start)|].
        intros q [Hq1 Hq2]. by apply (index_correct2 start pos).
      * intros p Hp. by apply (index_correct3 start).
Qed.

(** X24. STRING$ and SPACE$.  For a count n from 0 to 255, STRING$(n, s)
    is n copies of the first character of a non-empty s, the same as
    STRING$ with that character's code; its LEN is n; LEFT$ of it with
    a count k is STRING$(min(k, n), s); and SPACE$(n) is STRING$(n, " "). *)
Theorem string_of_copies (m : Machine) (n k : Z) (c : ascii) (rest : string) :
  0 <= n <= 255 -> 0 <= k <= 32767 ->
  let t := string_of_count (Z.to_nat n) c in
  builtin_string [VInteger n; VString (String c rest)] m = (m, Ok (VString t))
  /\ builtin_string [VInteger n; VInteger (char_code c)] m = (m, Ok (VString t))
  /\ builtin_len [VString t] m = (m, Ok (VDouble (d_of_Z n)))
  /\ builtin_left [VString t; VInteger k] m
     = builtin_string [VInteger (Z.min k n); VString (String c rest)] m
  /\ builtin_space [VInteger n] m
     = builtin_string [VInteger n; VString (String " " EmptyString)] m.
Proof.
  intros Hn Hk t.
  assert (forall j, 0 <= j <= 255 ->
            builtin_string [VInteger j; VString (String c rest)] m
            = (m, Ok (VString (string_of_count (Z.to_nat j) c)))) as Hstr.
  { intros j Hj. unfold builtin_string, bind. rewrite int_arg_int16 by lia.
    destruct (j <? 0) eqn:Hneg; [apply Z.ltb_lt in Hneg; lia|].
    destruct (255 <? j) eqn:Hbig; [apply Z.ltb_lt in Hbig; lia|]. reflexivity. }
  split; [by apply Hstr|]. split; [|split; [|split]].
  - pose proof (char_code_range c) as Hc.
    unfold builtin_string, bind. rewrite !int_arg_int16 by lia.
    destruct (n <? 0) eqn:Hneg; [apply Z.ltb_lt in Hneg; lia|].
    destruct (255 <? n) eqn:Hbig; [apply Z.ltb_lt in Hbig; lia|].
    cbn beta iota. rewrite int_arg_int16 by lia. unfold ret.
    by rewrite char_of_int_code.
  - unfold builtin_len, bind. cbn [get_string ret]. unfold string_size, t.
    rewrite string_of_count_length. by rewrite Z2Nat.id by lia.
  - rewrite Hstr by lia. unfold builtin_left, bind. cbn [get_string ret].
    rewrite int_arg_int16 by lia.
    destruct (k <? 0) eqn:Hneg; [apply Z.ltb_lt in Hneg; lia|].
    unfold t, string_size. rewrite string_of_count_length, string_of_count_prefix.
    replace (Nat.min (Z.to_nat (Z.min k (Z.of_nat (Z.to_nat n)))) (Z.to_nat n))
      with (Z.to_nat (Z.min k n)) by lia.
    reflexivity.
  - unfold builtin_space, builtin_string, bind.
    rewrite int_arg_int16 by lia.
    destruct (n <? 0) eqn:Hneg; [apply Z.ltb_lt in Hneg; lia|].
    destruct (255 <? n) eqn:Hbig; [apply Z.ltb_lt in Hbig; lia|]. reflexivity.
Qed.
End Strings.

Lemma left_and_rest_partition_witness :
  exists l r : string,
    builtin_left [VString "HELLO"; VInteger 2] machine_idle = (machine_idle, Ok (VString l))
    /\ builtin_mid [VString "HELLO"; VInteger 3] machine_idle = (machine_idle, Ok (VString r))
    /\ (l ++ r)%string = "HELLO"%string
    /\ string_size l = 2
    /\ (2 <= 5 <= 32767 ->
        builtin_right [VString "HELLO"; VInteger 3] machine_idle
        = (machine_idle, Ok (VString r))).
Proof.
  refine (left_and_rest_partition machine_idle "HELLO" 2 _). lia.
Defined.

Lemma instr_finds_first_occurrence_witness :
  exists k : nat,
    builtin_instr [VInteger 1; VString "HELLO"; VString "L"] machine_idle
    = (machine_idle, Ok (VDouble (d_of_Z (Z.of_nat k))))
    /\ (1 = 1 ->
        builtin_instr [VString "HELLO"; VString "L"] machine_idle
        = (machine_idle, Ok (VDouble (d_of_Z (Z.of_nat k)))))
    /\ match k with
       | O => forall p, (0 <= p)%nat -> substring p 1 "HELLO" <> "L"%string
       | S p =>
           (0 <= p)%nat
           /\ substring p 1 "HELLO" = "L"%string
           /\ forall q, (0 <= q < p)%nat -> substring q 1 "HELLO" <> "L"%string
       end.
Proof.
  refine (instr_finds_first_occurrence machine_idle "HELLO" "L" 1 _ _).
  - discriminate.
  - lia.
Defined.

Lemma string_of_copies_witness :
  builtin_string [VInteger 3; VString "AB"] machine_idle = (machine_idle, Ok (VString "AAA"))
  /\ builtin_string [VInteger 3; VInteger 65] machine_idle = (machine_idle, Ok (VString "AAA"))
  /\ builtin_len [VString "AAA"] machine_idle = (machine_idle, Ok (VDouble (d_of_Z 3)))
  /\ builtin_left [VString "AAA"; VInteger 2] machine_idle
     = builtin_string [VInteger 2; VString "AB"] machine_idle
  /\ builtin_space [VInteger 3] machine_idle
     = builtin_string [VInteger 3; VString " "] machine_idle.
Proof.
  refine (string_of_copies machine_idle 3 2 "A" "B" _ _); lia.
Defined.

Lemma asc_chr_inverse_witness :
  exists t, builtin_chr [VInteger 65] machine_idle = (machine_idle, Ok (VString t))
            /\ builtin_asc [VString t] machine_idle = (machine_idle, Ok (VDouble (d_of_Z 65))).
Proof.
  refine (proj1 (asc_chr_inverse machine_idle) 65 _). lia.
Defined.
(* ===================================================================== *)
(** * The expression parser: associativity                               *)
(* ===================================================================== *)

Section Associativity.
Variable toks : list Token.
Variable dmap : gmap ascii VarType.

Lemma binary_loop_chain (ops : list TokenType) (operand : P Expr)
    (steps : list (TokenType * Expr)) :
  forall (fuel pos final : nat) (lhs : Expr),
    operator_chain toks ops operand pos steps final ->
    (length steps < fuel)%nat ->
    binary_loop toks ops operand fuel lhs pos = POk (left_nested lhs steps) final.
Proof.
  induction steps as [|[op e] steps IH]; intros fuel pos final lhs Hchain Hfuel.
  - inversion Hchain as [pos0 Hno|]; subst.
    destruct fuel as [|fuel]; [cbn in Hfuel; lia|].
    cbn [binary_loop]. rewrite Hno. reflexivity.
  - inversion Hchain as [|pos0 pos' final0 e0 steps0 Hlt Hop Hoperand Hrest]; subst.
    destruct fuel as [|fuel]; [cbn in Hfuel; lia|].
    cbn [binary_loop]. rewrite Hop. unfold pbind.
    unfold advance. apply Nat.ltb_lt in Hlt. rewrite Hlt.
    rewrite Hoperand. cbn [length] in Hfuel.
    rewrite (IH fuel pos' final _ Hrest) by lia. reflexivity.
Qed.

(** X25. Every binary level of the expression grammar is left
    associative.  When the first operand is followed by a chain of the
    level's operators, each with its operand, the level returns the
    left-nested tree ((e0 op1 e1) op2 e2) ... and stops at the first
    token that is not one of its operators. *)
Theorem left_assoc_folds_left (ops : list TokenType) (operand : P Expr)
    (steps : list (TokenType * Expr)) (fuel pos0 pos1 final : nat) (e0 : Expr) :
  operand pos0 = POk e0 pos1 ->
  operator_chain toks ops operand pos1 steps final ->
  (length steps < fuel)%nat ->
  left_assoc toks ops operand fuel pos0 = POk (left_nested e0 steps) final.
Proof.
  intros Hfirst Hchain Hfuel. unfold left_assoc, pbind. rewrite Hfirst.
  by apply binary_loop_chain.
Qed.

Lemma left_assoc_error (ops : list TokenType) (operand : P Expr) (fuel pos : nat)
    (msg : string) :
  operand pos = PError msg -> left_assoc toks ops operand fuel pos = PError msg.
Proof. intros H. unfold left_assoc, pbind. by rewrite H. Qed.

Section WithRec.
Variable rec : P Expr.

Lemma parse_primary_sign (fuel pos : nat) (t : Token) :
  toks !! pos = Some t ->
  token_eqb (tok_type t) T_MINUS || token_eqb (tok_type t) T_PLUS = true ->
  parse_primary toks dmap rec fuel pos = PError "Missing operand".
Proof.
  intros H Hsign. unfold parse_primary. rewrite !(check_at _ _ _ _ H).
  unfold current. rewrite H. cbn [default from_option id].
  destruct (tok_type t); try discriminate Hsign; reflexivity.
Qed.

(** A number followed by [^]: the rest is the exponent. *)
Lemma parse_power_cons (fuel pos : nat) (a : string) (va : double) :
  toks !! pos = Some (tok T_NUMBER a) ->
  toks !! S pos = Some (tok T_POWER "^") ->
  stod a = Some va ->
  parse_power toks dmap rec (S fuel) pos
  = pbind (parse_power toks dmap rec fuel)
      (fun rhs => pret (BinaryExpr T_POWER (NumberExpr va) rhs)) (S (S pos)).
Proof.
  intros H0 H1 Ha.
  change (parse_power toks dmap rec (S fuel) pos)
    with (pbind (parse_primary toks dmap rec fuel)
            (fun lhs => pbind (match_token toks T_POWER)
               (fun is_power : bool =>
                  if is_power
                  then pbind (parse_power toks dmap rec fuel)
                         (fun rhs => pret (BinaryExpr T_POWER lhs rhs))
                  else pret lhs)) pos).
  unfold pbind at 1. rewrite (parse_primary_number _ _ _ _ _ _ _ H0 Ha).
  unfold pbind at 1. rewrite (match_token_at _ _ _ _ H1). reflexivity.
Qed.

Lemma parse_power_sign (fuel pos : nat) (t : Token) :
  toks !! pos = Some t ->
  token_eqb (tok_type t) T_MINUS || token_eqb (tok_type t) T_PLUS = true ->
  parse_power toks dmap rec (S fuel) pos = PError "Missing operand".
Proof.
  intros H Hsign.
  change (parse_power toks dmap rec (S fuel) pos)
    with (pbind (parse_primary toks dmap rec fuel)
            (fun lhs => pbind (match_token toks T_POWER)
               (fun is_power : bool =>
                  if is_power
                  then pbind (parse_power toks dmap rec fuel)
                         (fun rhs => pret (BinaryExpr T_POWER lhs rhs))
                  else pret lhs)) pos).
  unfold pbind at 1. by rewrite (parse_primary_sign _ _ _ H Hsign).
Qed.

Lemma levels_error (fuel pos : nat) (t : Token) (msg : string) :
  toks !! pos = Some t ->
  token_eqb (tok_type t) T_NOT = false ->
  parse_unary toks dmap rec fuel pos = PError msg ->
  parse_imp_expr toks dmap rec (S fuel) pos = PError msg.
Proof.
  intros H Hn Hu.
  unfold parse_imp_expr, parse_eqv_expr, parse_xor_expr, parse_or_expr, parse_and_expr.
  do 5 apply left_assoc_error.
  cbn [parse_not_expr]. unfold pbind at 1.
  rewrite (match_token_at _ _ _ _ H), Hn.
  unfold parse_comparison, parse_additive, parse_mod_expr, parse_int_div_expr,
    parse_multiplicative.
  do 5 apply left_assoc_error. exact Hu.
Qed.
End WithRec.
End Associativity.

(** X26. [^] is right associative: [a ^ b ^ c] parses as [a ^ (b ^ c)]. *)
Theorem power_is_right_associative (dmap : gmap ascii VarType) (a b c : string)
    (va vb vc : double) (k : nat) :
  stod a = Some va -> stod b = Some vb -> stod c = Some vc ->
  parse_expression (power_chain_tokens a b c) dmap (7 + k)%nat 0%nat
  = POk (BinaryExpr T_POWER (NumberExpr va)
           (BinaryExpr T_POWER (NumberExpr vb) (NumberExpr vc))) 5%nat.
Proof.
  intros Ha Hb Hc. change (7 + k)%nat with (S (S (S (S (S (S (S k))))))).
  cbn [parse_expression].
  eapply levels_pass; [reflexivity|reflexivity| |reflexivity].
  rewrite (parse_unary_plain _ _ _ _ 0 (tok T_NUMBER a)); [|reflexivity..].
  rewrite (parse_power_cons _ _ _ _ 0 a va); [|reflexivity|reflexivity|exact Ha].
  unfold pbind.
  rewrite (parse_power_pair _ _ _ _ 2 b c vb vc (tok T_END_OF_FILE ""));
    [reflexivity|reflexivity..|exact Hb|exact Hc].
Qed.

(** X27. A sign directly after [^] is not accepted: the exponent is parsed
    as a power expression, which starts with a primary, so [a ^ -b] and
    [a ^ +b] end with the parse error "Missing operand" whatever follows
    the sign. *)
Theorem sign_after_power_is_rejected (dmap : gmap ascii VarType) (a : string) (va : double)
    (sign : Token) (rest : list Token) (k : nat) :
  stod a = Some va ->
  token_eqb (tok_type sign) T_MINUS || token_eqb (tok_type sign) T_PLUS = true ->
  parse_expression (power_sign_tokens a sign rest) dmap (6 + k)%nat 0%nat
  = PError "Missing operand".
Proof.
  intros Ha Hsign. change (6 + k)%nat with (S (S (S (S (S (S k)))))).
  cbn [parse_expression].
  eapply levels_error; [reflexivity|reflexivity|].
  rewrite (parse_unary_plain _ _ _ _ 0 (tok T_NUMBER a)); [|reflexivity..].
  rewrite (parse_power_cons _ _ _ _ 0 a va); [|reflexivity|reflexivity|exact Ha].
  unfold pbind.
  rewrite (parse_power_sign _ _ _ _ 2 sign); [reflexivity|reflexivity|exact Hsign].
Qed.

Lemma left_assoc_folds_left_witness :
  let toks := minus_chain_tokens "1" "2" "3" in
  let operand := parse_mod_expr toks ∅ (parse_expression toks ∅ 0%nat) 3%nat in
  left_assoc toks [T_PLUS; T_MINUS] operand 3%nat 0%nat
  = POk (BinaryExpr T_MINUS
           (BinaryExpr T_MINUS (NumberExpr (d_of_Z 1)) (NumberExpr (d_of_Z 2)))
           (NumberExpr (d_of_Z 3))) 5%nat.
Proof.
  intros toks operand.
  refine (left_assoc_folds_left toks [T_PLUS; T_MINUS] operand
            [(T_MINUS, NumberExpr (d_of_Z 2)); (T_MINUS, NumberExpr (d_of_Z 3))]
            3%nat 0%nat 1%nat 5%nat (NumberExpr (d_of_Z 1)) _ _ _).
  - vm_compute. reflexivity.
  - refine (chain_step toks [T_PLUS; T_MINUS] operand 1%nat 3%nat 5%nat (NumberExpr (d_of_Z 2))
              [(T_MINUS, NumberExpr (d_of_Z 3))] _ _ _ _);
      [vm_compute; lia|vm_compute; reflexivity|vm_compute; reflexivity|].
    refine (chain_step toks [T_PLUS; T_MINUS] operand 3%nat 5%nat 5%nat (NumberExpr (d_of_Z 3)) [] _ _ _ _);
      [vm_compute; lia|vm_compute; reflexivity|vm_compute; reflexivity|].
    apply chain_end. vm_compute. reflexivity.
  - vm_compute. lia.
Defined.

Lemma power_is_right_associative_witness :
  parse_expression (power_chain_tokens "2" "3" "2") ∅ 7%nat 0%nat
  = POk (BinaryExpr T_POWER (NumberExpr (d_of_Z 2))
           (BinaryExpr T_POWER (NumberExpr (d_of_Z 3)) (NumberExpr (d_of_Z 2)))) 5%nat.
Proof.
  refine (power_is_right_associative ∅ "2" "3" "2" (d_of_Z 2) (d_of_Z 3) (d_of_Z 2) 0%nat _ _ _);
    vm_compute; reflexivity.
Defined.

Lemma sign_after_power_is_rejected_witness :
  parse_expression
    (power_sign_tokens "2" (tok T_MINUS "-") [tok T_NUMBER "1"; tok T_END_OF_FILE ""]) ∅ 6%nat 0%nat
  = PError "Missing operand".
Proof.
  refine (sign_after_power_is_rejected ∅ "2" (d_of_Z 2) (tok T_MINUS "-")
            [tok T_NUMBER "1"; tok T_END_OF_FILE ""] 0%nat _ _);
    vm_compute; reflexivity.
Defined.
(* ===================================================================== *)
(** * STR$ and VAL on INTEGER values                                     *)
(* ===================================================================== *)

Section IntegerText.
Context {UF : UnorderedMap string ForLoopState} {UD : UnorderedMap Z Z} {AL : Allocator}.

(** X28. STR$ of an INTEGER value prints the same text as STR$ of the
    double with that value (a leading space or minus sign, the decimal
    digits, a trailing space); VAL reads exactly that double back, and
    converting it to INTEGER gives the original value: the round trip
    through text loses nothing on 16-bit integers. *)
Theorem integer_text_round_trip (m : Machine) (i : Z) :
  -32768 <= i <= 32767 ->
  exists text : string,
    builtin_str [VInteger i] m = (m, Ok (VString text))
    /\ builtin_str [VDouble (d_of_Z i)] m = (m, Ok (VString text))
    /\ builtin_val [VString text] m = (m, Ok (VDouble (d_of_Z i)))
    /\ to_integer (VDouble (d_of_Z i)) = Some i.
Proof.
  intros Hi.
  assert (to_integer (VDouble (d_of_Z i)) = Some i) as Hback.
  { destruct (int16_conversions i Hi) as [H _]. exact H. }
  assert (forall (s : bool) (p : positive), Zpos p <= 32768 ->
            exists text,
              text = String (if s then "-" else " ") (dec_of_nonneg (Zpos p) ++ " ")
              /\ builtin_str [VDouble (binary_round d_prec d_emax s p 0)] m
                 = (m, Ok (VString text))
              /\ builtin_val [VString text] m
                 = (m, Ok (VDouble (binary_round d_prec d_emax s p 0)))) as Hrepr.
  { intros s p Hp.
    assert (Zpos p < 2 ^ 53) as Hp53 by (change (2 ^ 53) with 9007199254740992; lia).
    destruct (binary_round_integer s p Hp53) as (mz & k & Hbr & Hk & Hm & Hd).
    destruct (val_str_integer_repr m s p mz k Hp53 Hbr ltac:(lia) Hm) as [Hs Hv].
    rewrite Hbr. eexists. split; [reflexivity|]. split; [exact Hs|exact Hv]. }
  destruct i as [|p|p].
  - exists " 0 "%string. repeat split; reflexivity.
  - rewrite d_of_Z_pos in *. destruct (Hrepr false p ltac:(lia)) as (text & -> & Hs & Hv).
    eexists. split; [|split; [exact Hs|split; [exact Hv|exact Hback]]]. reflexivity.
  - rewrite d_of_Z_neg in *. destruct (Hrepr true p ltac:(lia)) as (text & -> & Hs & Hv).
    eexists. split; [|split; [exact Hs|split; [exact Hv|exact Hback]]]. reflexivity.
Qed.
End IntegerText.

Lemma integer_text_round_trip_witness :
  exists text : string,
    builtin_str [VInteger (-1234)] machine_idle = (machine_idle, Ok (VString text))
    /\ builtin_str [VDouble (d_of_Z (-1234))] machine_idle = (machine_idle, Ok (VString text))
    /\ builtin_val [VString text] machine_idle = (machine_idle, Ok (VDouble (d_of_Z (-1234))))
    /\ to_integer (VDouble (d_of_Z (-1234))) = Some (-1234).
Proof.
  refine (integer_text_round_trip machine_idle (-1234) _). lia.
Defined.
(* ===================================================================== *)
(** * A FOR loop counts                                                  *)
(* ===================================================================== *)

Lemma sf_same_eq (x y : spec_float) : sf_same x y = true -> x = y.
Proof.
  destruct x as [s|s| |s m e], y as [s'|s'| |s' m' e']; cbn; try discriminate;
    try (intros H; apply Bool.eqb_prop in H; by subst); [reflexivity|].
  intros H. apply andb_true_iff in H as [H He]. apply andb_true_iff in H as [Hs Hm].
  apply Bool.eqb_prop in Hs. apply Pos.eqb_eq in Hm. apply Z.eqb_eq in He. by subst.
Qed.

Lemma counts_exactly_all : all_in_block 16 (-32768) counts_exactly = true.
Proof. vm_compute. reflexivity. Qed.

Lemma counting_is_exact (j : Z) :
  -32768 <= j <= 32767 ->
  of_single (to_single (d_of_Z j)) = d_of_Z j
  /\ d_add (d_of_Z j) (d_of_Z 1) = d_of_Z (j + 1).
Proof.
  intros Hj. pose proof (all_in_block_spec 16 _ _ counts_exactly_all j) as H.
  assert (-32768 <= j < -32768 + 2 ^ Z.of_nat 16) as Hr
    by (change (2 ^ Z.of_nat 16) with 65536; lia).
  apply H in Hr. unfold counts_exactly in Hr. apply andb_true_iff in Hr as [H1 H2].
  split; by apply sf_same_eq.
Qed.

(** The doubles of integers compare as the integers do. *)
Lemma SFcompare_negative (m1 m2 : positive) (e1 e2 : Z) :
  SFcompare (S754_finite true m1 e1) (S754_finite true m2 e2)
  = option_map CompOpp (SFcompare (S754_finite false m1 e1) (S754_finite false m2 e2)).
Proof. cbn. destruct (e1 ?= e2); reflexivity. Qed.

Lemma SFcompare_positive_integers (p q : positive) :
  Zpos p < 2 ^ 53 -> Zpos q < 2 ^ 53 ->
  SFcompare (binary_round d_prec d_emax false p 0) (binary_round d_prec d_emax false q 0)
  = Some (Zpos p ?= Zpos q).
Proof.
  intros Hp Hq.
  destruct (binary_round_integer false p Hp) as (m1 & k1 & -> & Hk1 & Hm1 & Hd1).
  destruct (binary_round_integer false q Hq) as (m2 & k2 & -> & Hk2 & Hm2 & Hd2).
  rewrite SFcompare_normal by (done || lia). f_equal. unfold at_scale.
  rewrite Hm1, Hm2.
  replace (Z.pos p * 2 ^ k1 * 2 ^ (- k1 + 200)) with (Z.pos p * 2 ^ 200).
  2:{ rewrite <- Z.mul_assoc, <- Z.pow_add_r by lia. do 2 f_equal. lia. }
  replace (Z.pos q * 2 ^ k2 * 2 ^ (- k2 + 200)) with (Z.pos q * 2 ^ 200).
  2:{ rewrite <- Z.mul_assoc, <- Z.pow_add_r by lia. do 2 f_equal. lia. }
  assert (0 < 2 ^ 200) as Hpos by (apply Z.pow_pos_nonneg; lia).
  destruct (Z.compare_spec (Z.pos p) (Z.pos q)) as [Heq|Hlt|Hgt].
  - rewrite Heq. apply Z.compare_refl.
  - apply Z.compare_lt_iff. by apply Z.mul_lt_mono_pos_r.
  - apply Z.compare_gt_iff. by apply Z.mul_lt_mono_pos_r.
Qed.

Lemma shifted_exponent_unique (p m m' : positive) (k k' : Z) :
  0 <= k -> 0 <= k' ->
  Zpos m = Zpos p * 2 ^ k -> Zpos m' = Zpos p * 2 ^ k' ->
  digits2_pos m = 53%positive -> digits2_pos m' = 53%positive ->
  k = k' /\ m = m'.
Proof.
  intros Hk Hk' Hm Hm' Hd Hd'.
  pose proof (mantissa_53 m Hd) as Hr. pose proof (mantissa_53 m' Hd') as Hr'.
  assert (forall i j x y : Z, 0 <= i < j ->
            2 ^ 52 <= x < 2 ^ 53 -> 2 ^ 52 <= y < 2 ^ 53 ->
            x = Zpos p * 2 ^ i -> y = Zpos p * 2 ^ j -> False) as Hno.
  { intros i j x y Hij Hx Hy Hxi Hyj.
    replace j with (i + (j - i)) in Hyj by lia. rewrite Z.pow_add_r in Hyj by lia.
    assert (2 <= 2 ^ (j - i)).
    { change 2 with (2 ^ 1) at 1. apply Z.pow_le_mono_r; lia. }
    assert (0 < 2 ^ i) by (apply Z.pow_pos_nonneg; lia).
    nia. }
  assert (k = k') as <-.
  { destruct (Z.lt_trichotomy k k') as [Hlt|[Heq|Hgt]]; [|done|].
    - exfalso. apply (Hno k k' (Zpos m) (Zpos m')); (done || lia).
    - exfalso. apply (Hno k' k (Zpos m') (Zpos m)); (done || lia). }
  split; [reflexivity|]. lia.
Qed.

Lemma d_of_Z_compare (x y : Z) :
  Z.abs x < 2 ^ 53 -> Z.abs y < 2 ^ 53 ->
  SFcompare (d_of_Z x) (d_of_Z y) = Some (x ?= y).
Proof.
  intros Hx Hy.
  assert (forall s p, Zpos p < 2 ^ 53 ->
            exists m k, binary_round d_prec d_emax s p 0 = S754_finite s m k) as Hfin.
  { intros s p Hp. destruct (binary_round_integer s p Hp) as (m & k & -> & _). eauto. }
  destruct x as [|p|p], y as [|q|q]; rewrite ?d_of_Z_pos, ?d_of_Z_neg.
  - reflexivity.
  - destruct (Hfin false q ltac:(lia)) as (m & k & ->). reflexivity.
  - destruct (Hfin true q ltac:(lia)) as (m & k & ->). reflexivity.
  - destruct (Hfin false p ltac:(lia)) as (m & k & ->). reflexivity.
  - apply SFcompare_positive_integers; lia.
  - destruct (Hfin false p ltac:(lia)) as (m & k & ->).
    destruct (Hfin true q ltac:(lia)) as (m' & k' & ->). reflexivity.
  - destruct (Hfin true p ltac:(lia)) as (m & k & ->). reflexivity.
  - destruct (Hfin true p ltac:(lia)) as (m & k & ->).
    destruct (Hfin false q ltac:(lia)) as (m' & k' & ->). reflexivity.
  - pose proof (SFcompare_positive_integers p q ltac:(lia) ltac:(lia)) as Hc.
    destruct (binary_round_integer true p ltac:(lia)) as (m1 & k1 & H1 & Hk1 & Hm1 & Hd1).
    destruct (binary_round_integer false p ltac:(lia)) as (m1' & k1' & H1' & Hk1' & Hm1' & Hd1').
    destruct (binary_round_integer true q ltac:(lia)) as (m2 & k2 & H2 & Hk2 & Hm2 & Hd2).
    destruct (binary_round_integer false q ltac:(lia)) as (m2' & k2' & H2' & Hk2' & Hm2' & Hd2').
    destruct (shifted_exponent_unique p m1 m1' k1 k1') as [<- <-]; try (done || lia).
    destruct (shifted_exponent_unique q m2 m2' k2 k2') as [<- <-]; try (done || lia).
    rewrite H1, H2, SFcompare_negative, <- H1', <- H2', Hc. cbn.
    by rewrite <- Pos.compare_antisym.
Qed.
Section ForLoop.
Context {UF : UnorderedMap string ForLoopState} {UD : UnorderedMap Z Z} {AL : Allocator}.
Variable pow : double -> double -> double.
Variable call_function : string -> list Value -> M Value.

(** A tick that nothing suspends runs the statement at the PC. *)
Lemma tick_plain (m : Machine) (stmt : Stmt) :
  let rt := runtime_ m in
  get (statements rt) (pc rt) = Some stmt ->
  is_running (pc rt) = true ->
  pause_requested (state_ m) = false ->
  break_requested rt = false ->
  breakpoints rt = ∅ ->
  skip_next_breakpoint (state_ m) = false ->
  trace_on rt = false ->
  tick pow call_function m
  = bind (execute_guarded pow call_function stmt)
      (fun continue =>
         if continue : bool then
           bind advance_pc (fun _ => bind get_rt (fun rt => ret (is_running (pc rt))))
         else ret false) m.
Proof.
  intros rt Hget Hrun Hpause Hbreak Hbp Hskip Htrace.
  unfold tick. fold rt. rewrite Hrun, Hpause, Hbreak, Hbp, Htrace. cbn [negb].
  rewrite bool_decide_eq_false_2 by set_solver. cbn [andb].
  unfold bind at 1. unfold set_skip_next_breakpoint, modify_state.
  rewrite Hget. unfold bind at 1. unfold ret at 1.
  assert (with_state
            {| st_error := st_error (state_ m);
               statements_executed := statements_executed (state_ m);
               pause_requested := pause_requested (state_ m);
               skip_next_breakpoint := false |} m = m) as ->.
  { rewrite <- Hskip. reflexivity. }
  reflexivity.
Qed.

Lemma um_find_single (v : string) (st : ForLoopState) :
  um_find v (um_assign v st um_empty) = Some st.
Proof.
  unfold um_find. rewrite um_items_first_assign. cbn.
  by rewrite bool_decide_eq_true_2.
Qed.

Lemma um_find_erased (v : string) (fs : umap string ForLoopState) :
  um_find v (um_erase v fs) = None.
Proof.
  unfold um_find. rewrite um_erase_items.
  destruct (List.find _ _) as [[k x]|] eqn:Hf; [|reflexivity].
  apply find_some in Hf as [Hin Hk]. cbn in Hk. apply bool_decide_eq_true_1 in Hk.
  apply list_elem_of_In, list_elem_of_filter in Hin as [Hne _]. cbn in Hne. done.
Qed.

Lemma counter_value_number (t : VarType) (j : Z) :
  t <> STRING -> -32768 <= j <= 32767 ->
  to_number (counter_value t j) = d_of_Z j
  /\ coerce_to (VDouble (d_of_Z j)) t = Some (counter_value t j).
Proof.
  intros Ht Hj. destruct (counting_is_exact j Hj) as [Hs _].
  destruct (int16_conversions j Hj) as [Hi _].
  destruct t; try done; cbn [counter_value to_number coerce_to]; split; try done.
  change (to_integer (VDouble (d_of_Z j))) with (to_integer (VInteger j)).
  by rewrite Hi.
Qed.

Lemma d_gt_integers (x y : Z) :
  -32768 <= x <= 32767 -> -32768 <= y <= 32767 ->
  d_gt (d_of_Z x) (d_of_Z y) = (y <? x) /\ d_lt (d_of_Z x) (d_of_Z y) = (x <? y).
Proof.
  intros Hx Hy. unfold d_gt, d_lt, SFltb.
  assert (2 ^ 53 = 9007199254740992) as Hp by reflexivity.
  rewrite !d_of_Z_compare by lia. unfold Z.ltb.
  split; [destruct (y ?= x)|destruct (x ?= y)]; reflexivity.
Qed.

Variable v : string.
Variables a b : Z.
Let p := count_program v a b.
Let t := resolve_type (load p Runtime_new) v.
Hypothesis Ht : t <> STRING.
Hypothesis Ha : -32768 <= a.
Hypothesis Hab : a <= b.
Hypothesis Hb : b <= 32766.

Lemma store_counter (m : Machine) (j : Z) :
  resolve_type (runtime_ m) v = t -> -32768 <= j <= 32767 ->
  store_variable v (VDouble (d_of_Z j)) m
  = (with_runtime
       (set_variables_ (<[v := counter_value t j]> (variables_ (runtime_ m))) (runtime_ m)) m,
     Ok tt).
Proof.
  intros Hty Hj. unfold store_variable, bind, get_rt, set_variable. rewrite Hty.
  destruct (counter_value_number t j Ht Hj) as [_ ->]. reflexivity.
Qed.

Lemma step_is_positive : d_gt (d_of_Z 1) d_zero = true /\ d_lt (d_of_Z 1) d_zero = false.
Proof. split; reflexivity. Qed.

Lemma tick_for : tick pow call_function (boot p) = (loop_machine v a b a, Ok true).
Proof.
  rewrite (tick_plain _ (ForStmt v (NumberExpr (d_of_Z a)) (NumberExpr (d_of_Z b)) None));
    try reflexivity.
  unfold bind at 1. unfold execute_guarded. cbn [execute].
  unfold exec_for. cbn [eval]. unfold bind at 1 2 3 4, ret at 1 2 3.
  cbn beta iota. cbn [to_number].
  rewrite store_counter by (reflexivity || lia).
  destruct step_is_positive as [-> ->].
  destruct (d_gt_integers a b ltac:(lia) ltac:(lia)) as [-> _].
  assert ((b <? a) = false) as -> by (apply Z.ltb_ge; lia).
  cbn [andb orb].
  unfold loop_machine. replace (1 + (a - a)) with (0 + 1) by lia.
  reflexivity.
Qed.

Lemma loop_machine_type (j : Z) : resolve_type (runtime_ (loop_machine v a b j)) v = t.
Proof. reflexivity. Qed.

Lemma tick_next (j : Z) :
  a <= j <= b ->
  tick pow call_function (loop_machine v a b j)
  = (if j <? b then loop_machine v a b (j + 1) else after_loop_machine v a b, Ok true).
Proof.
  intros Hj.
  rewrite (tick_plain _ (NextStmt [v])); try reflexivity.
  unfold bind at 1. unfold execute_guarded. cbn [execute].
  unfold exec_next. cbn [next_var_names]. unfold bind at 1, ret at 1.
  cbn [next_loop]. unfold bind at 1, get_rt at 1.
  change (for_states (runtime_ (loop_machine v a b j)))
    with (um_assign v {| resume_pc := running_at 10 0; end_value := d_of_Z b;
                         step_value := d_of_Z 1 |} um_empty).
  rewrite um_find_single. cbn [step_value end_value resume_pc].
  assert (get_variable (runtime_ (loop_machine v a b j)) v = counter_value t j) as ->.
  { unfold get_variable, loop_machine. cbn [runtime_ set_pc set_for_states set_variables_
      variables_]. by rewrite lookup_insert_eq. }
  destruct (counter_value_number t j Ht ltac:(lia)) as [-> _].
  destruct (counting_is_exact j ltac:(lia)) as [_ ->].
  unfold bind at 1. rewrite store_counter by (apply loop_machine_type || lia).
  destruct step_is_positive as [-> _].
  destruct (d_gt_integers (j + 1) b ltac:(lia) ltac:(lia)) as [-> _].
  assert (<[v := counter_value t (j + 1)]> (variables_ (runtime_ (loop_machine v a b j)))
          = <[v := counter_value t (j + 1)]>
              (variables_ (load (count_program v a b) Runtime_new))) as ->.
  { unfold loop_machine. cbn [runtime_ set_pc set_for_states set_variables_ variables_].
    apply insert_insert_eq. }
  destruct (j <? b) eqn:Hlt.
  - apply Z.ltb_lt in Hlt. assert ((b <? j + 1) = false) as -> by (apply Z.ltb_ge; lia).
    unfold loop_machine. replace (1 + (j + 1 - a)) with (1 + (j - a) + 1) by lia.
    reflexivity.
  - apply Z.ltb_ge in Hlt. assert ((b <? j + 1) = true) as -> by (apply Z.ltb_lt; lia).
    assert (j = b) as -> by lia.
    unfold after_loop_machine, loop_machine.
    replace (1 + (b + 1 - a)) with (1 + (b - a) + 1) by lia.
    reflexivity.
Qed.

Lemma tick_end :
  exists m',
    tick pow call_function (after_loop_machine v a b) = (m', Ok false)
    /\ pc (runtime_ m') = halted END
    /\ statements_executed (state_ m') = b - a + 3
    /\ st_error (state_ m') = None
    /\ to_number (get_variable (runtime_ m') v) = d_of_Z (b + 1)
    /\ um_find v (for_states (runtime_ m')) = None.
Proof.
  rewrite (tick_plain _ EndStmt); try reflexivity.
  eexists. split; [reflexivity|]. split; [reflexivity|].
  split; [cbn; lia|]. split; [reflexivity|]. split.
  - assert (get_variable (runtime_ (after_loop_machine v a b)) v = counter_value t (b + 1))
      as Hv.
    { unfold get_variable, after_loop_machine, loop_machine.
      cbn [runtime_ with_runtime set_pc set_for_states set_variables_ variables_].
      by rewrite lookup_insert_eq. }
    destruct (counter_value_number t (b + 1) Ht ltac:(lia)) as [<- _].
    rewrite <- Hv. reflexivity.
  - apply (um_find_erased v).
Qed.

Lemma run_halted (fuel : nat) (m : Machine) :
  is_running (pc (runtime_ m)) = false -> run pow call_function fuel m = (m, Ok tt).
Proof.
  intros Hrun. destruct fuel as [|fuel]; [reflexivity|].
  cbn [run]. unfold bind, tick. rewrite Hrun. reflexivity.
Qed.

Lemma run_loop (k : nat) :
  forall (j : Z) (extra : nat),
    a <= j -> j + Z.of_nat k = b ->
    exists m',
      run pow call_function (S (S k) + extra) (loop_machine v a b j) = (m', Ok tt)
      /\ pc (runtime_ m') = halted END
      /\ statements_executed (state_ m') = b - a + 3
      /\ st_error (state_ m') = None
      /\ to_number (get_variable (runtime_ m') v) = d_of_Z (b + 1)
      /\ um_find v (for_states (runtime_ m')) = None.
Proof.
  induction k as [|k IH]; intros j extra Hj Hk.
  - assert (j = b) as -> by lia.
    destruct tick_end as (m' & Htick & Hpc & Hrest).
    exists m'. split; [|by split].
    cbn [Nat.add run]. unfold bind at 1. rewrite tick_next by lia.
    rewrite Z.ltb_irrefl. unfold bind at 1. rewrite Htick. reflexivity.
  - destruct (IH (j + 1) extra ltac:(lia) ltac:(lia)) as (m' & Hrun & Hrest).
    exists m'. split; [|exact Hrest].
    change (S (S (S k)) + extra)%nat with (S (S (S k) + extra)).
    cbn [run]. unfold bind at 1. rewrite tick_next by lia.
    assert ((j <? b) = true) as -> by (apply Z.ltb_lt; lia).
    exact Hrun.
Qed.
End ForLoop.

Section CountingLoopRuns.
Context {UF : UnorderedMap string ForLoopState} {UD : UnorderedMap Z Z} {AL : Allocator}.
Variable pow : double -> double -> double.
Variable call_function : string -> list Value -> M Value.

(** X29. A FOR loop counts.  For a numeric loop variable v and 16-bit
    bounds a <= b (b below 32767), the program
    [10 FOR v = a TO b], [20 NEXT v], [30 END] runs exactly b - a + 3
    statements (the FOR, b - a + 1 times the NEXT, the END) and then
    halts with reason END and without an error; v then holds b + 1 and
    the loop record of v is gone.  More fuel changes nothing. *)
Theorem for_loop_counts (v : string) (a b : Z) (extra : nat) :
  resolve_type (load (count_program v a b) Runtime_new) v <> STRING ->
  -32768 <= a -> a <= b -> b <= 32766 ->
  exists m',
    run pow call_function (Z.to_nat (b - a + 3) + extra) (boot (count_program v a b))
    = (m', Ok tt)
    /\ pc (runtime_ m') = halted END
    /\ statements_executed (state_ m') = b - a + 3
    /\ st_error (state_ m') = None
    /\ to_number (get_variable (runtime_ m') v) = d_of_Z (b + 1)
    /\ um_find v (for_states (runtime_ m')) = None.
Proof.
  intros Ht Ha Hab Hb.
  destruct (run_loop pow call_function v a b Ht Ha Hab Hb (Z.to_nat (b - a)) a extra
              ltac:(lia) ltac:(lia)) as (m' & Hrun & Hrest).
  exists m'. split; [|exact Hrest].
  replace (Z.to_nat (b - a + 3) + extra)%nat
    with (S (S (S (Z.to_nat (b - a))) + extra)) by lia.
  cbn [run]. unfold bind at 1.
  rewrite (tick_for pow call_function v a b Ht Ha Hab Hb).
  exact Hrun.
Qed.
End CountingLoopRuns.

Lemma for_loop_counts_witness :
  exists m' : Machine0,
    run pow_exact call_embedded 8 (boot (count_program "i" 1 5)) = (m', Ok tt)
    /\ pc (runtime_ m') = halted END
    /\ statements_executed (state_ m') = 7
    /\ st_error (state_ m') = None
    /\ to_number (get_variable (runtime_ m') "i") = d_of_Z 6
    /\ um_find "i" (for_states (runtime_ m')) = None.
Proof.
  refine (for_loop_counts pow_exact call_embedded "i" 1 5 1 _ _ _ _).
  - vm_compute. discriminate.
  - lia.
  - lia.
  - lia.
Defined.
(* ===================================================================== *)
(** * Integer division and MOD on integers                               *)
(* ===================================================================== *)

Lemma d_of_Z_is_zero (b : Z) : Z.abs b < 2 ^ 53 -> d_eq (d_of_Z b) d_zero = (b =? 0).
Proof.
  intros Hb. unfold d_eq, SFeqb. change d_zero with (d_of_Z 0).
  rewrite d_of_Z_compare by (done || (cbn; lia)). unfold Z.eqb.
  destruct b; reflexivity.
Qed.

Section IntegerDivision.
Context {UF : UnorderedMap string ForLoopState} {UD : UnorderedMap Z Z} {AL : Allocator}.
Variable pow : double -> double -> double.
Variable call_function : string -> list Value -> M Value.

(** X30. [\] and MOD on 16-bit integers.  With a zero divisor both
    raise Division by zero (code 11).  Otherwise [a \ b] is the quotient
    truncated toward zero and [a MOD b] the remainder of that division:
    [a = b * (a \ b) + a MOD b], the remainder is smaller than the
    divisor in magnitude and has the sign of the dividend; the
    interpreter is unchanged. *)
Theorem integer_division_on_integers (m : Machine) (a b : Z) :
  -32768 <= a <= 32767 -> -32768 <= b <= 32767 ->
  let operation op :=
    eval pow call_function (BinaryExpr op (NumberExpr (d_of_Z a)) (NumberExpr (d_of_Z b))) m in
  if b =? 0
  then operation T_BACKSLASH = raise_error ErrorCode.DIVISION_BY_ZERO m
       /\ operation T_MOD = raise_error ErrorCode.DIVISION_BY_ZERO m
  else operation T_BACKSLASH = (m, Ok (VDouble (d_of_Z (Z.quot a b))))
       /\ operation T_MOD = (m, Ok (VDouble (d_of_Z (Z.rem a b))))
       /\ a = b * Z.quot a b + Z.rem a b
       /\ Z.abs (Z.rem a b) < Z.abs b
       /\ 0 <= Z.rem a b * a.
Proof.
  intros Ha Hb operation.
  assert (2 ^ 53 = 9007199254740992) as Hp by reflexivity.
  pose proof (d_of_Z_is_zero b ltac:(lia)) as Hzero.
  destruct (int16_conversions a Ha) as (_ & _ & Hca).
  destruct (int16_conversions b Hb) as (_ & _ & Hcb).
  assert (forall rem : bool,
            operation (if rem then T_MOD else T_BACKSLASH)
            = if b =? 0 then raise_error ErrorCode.DIVISION_BY_ZERO m
              else (m, Ok (VDouble (d_of_Z (if rem then Z.rem a b else Z.quot a b)))))
    as Hop.
  { intros rem. unfold operation.
    destruct rem; cbn [eval]; unfold eval_binary;
      cbn [token_eqb token_code Z.eqb orb]; unfold bind, ret; cbn [to_number];
      rewrite Hzero; (destruct (b =? 0) eqn:Hb0; [reflexivity|]);
      unfold int_divide, bind, defined; rewrite Hca, Hcb; unfold ret; rewrite Hb0;
      (assert ((a =? INT_MIN) = false) as -> by (apply Z.eqb_neq; unfold INT_MIN; lia));
      reflexivity. }
  pose proof (Hop false) as Hq. pose proof (Hop true) as Hr. cbv iota in Hq, Hr.
  destruct (b =? 0) eqn:Hb0; [by split|].
  apply Z.eqb_neq in Hb0.
  split; [exact Hq|]. split; [exact Hr|]. split; [apply Z.quot_rem'|].
  split; [by apply Z.rem_bound_abs|]. apply Z.rem_sign_mul. exact Hb0.
Qed.
End IntegerDivision.

Lemma integer_division_on_integers_witness :
  let operation op :=
    eval pow_exact call_embedded
      (BinaryExpr op (NumberExpr (d_of_Z (-7))) (NumberExpr (d_of_Z 2))) machine_idle in
  operation T_BACKSLASH = (machine_idle, Ok (VDouble (d_of_Z (-3))))
  /\ operation T_MOD = (machine_idle, Ok (VDouble (d_of_Z (-1))))
  /\ -7 = 2 * -3 + -1
  /\ Z.abs (-1) < Z.abs 2
  /\ 0 <= -1 * -7.
Proof.
  refine (integer_division_on_integers pow_exact call_embedded machine_idle (-7) 2 _ _); lia.
Defined.
(* ===================================================================== *)
(** * Rounding to binary32 yields a binary32 number                      *)
(* ===================================================================== *)

Lemma Zdigits2_bounds (m : Z) :
  0 < m -> 0 < Zdigits2 m /\ 2 ^ (Zdigits2 m - 1) <= m < 2 ^ Zdigits2 m.
Proof.
  intros Hm. destruct m as [|p|p]; [lia| |lia]. cbn [Zdigits2].
  split; [lia|]. split; [apply digits2_pos_lower'|apply digits2_pos_upper].
Qed.

Lemma Zdigits2_unique (m k : Z) :
  0 < k -> 2 ^ (k - 1) <= m < 2 ^ k -> Zdigits2 m = k.
Proof.
  intros Hk Hm.
  assert (0 < 2 ^ (k - 1)) by (apply Z.pow_pos_nonneg; lia).
  destruct m as [|p|p]; [lia| |lia]. cbn [Zdigits2]. by apply digits2_pos_between.
Qed.

(** The number of bits of [m / 2^n]. *)
Lemma Zdigits2_shift (m n : Z) :
  0 < m -> 0 <= n ->
  let m' := m / 2 ^ n in
  0 <= m'
  /\ (Zdigits2 m <= n -> m' = 0)
  /\ (n < Zdigits2 m -> 0 < m' /\ Zdigits2 m' = Zdigits2 m - n).
Proof.
  intros Hm Hn m'. destruct (Zdigits2_bounds m Hm) as (HD & Hlo & Hhi).
  assert (0 < 2 ^ n) as Hp by (apply Z.pow_pos_nonneg; lia).
  split; [apply Z.div_pos; lia|]. split.
  - intros Hle. apply Z.div_small. split; [lia|].
    assert (2 ^ Zdigits2 m <= 2 ^ n) by (apply Z.pow_le_mono_r; lia). lia.
  - intros Hlt.
    assert (2 ^ (Zdigits2 m - 1) = 2 ^ (Zdigits2 m - n - 1) * 2 ^ n) as E1
      by (rewrite <- Z.pow_add_r by lia; f_equal; lia).
    assert (2 ^ Zdigits2 m = 2 ^ (Zdigits2 m - n) * 2 ^ n) as E2
      by (rewrite <- Z.pow_add_r by lia; f_equal; lia).
    assert (2 ^ (Zdigits2 m - n - 1) <= m' < 2 ^ (Zdigits2 m - n)) as Hb.
    { subst m'. split.
      - apply Z.div_le_lower_bound; lia.
      - apply Z.div_lt_upper_bound; lia. }
    assert (0 < 2 ^ (Zdigits2 m - n - 1)) by (apply Z.pow_pos_nonneg; lia).
    split; [lia|]. apply Zdigits2_unique; [lia|exact Hb].
Qed.

(** The number of bits of a successor: the same, or one more when the
    successor is a power of two. *)
Lemma Zdigits2_succ (m : Z) :
  0 <= m ->
  Zdigits2 (m + 1) = Zdigits2 m
  \/ (m + 1 = 2 ^ Zdigits2 m /\ Zdigits2 (m + 1) = Zdigits2 m + 1).
Proof.
  intros Hm. destruct (Z.eq_dec m 0) as [->|Hne]; [right; split; reflexivity|].
  destruct (Zdigits2_bounds m ltac:(lia)) as (HD & Hlo & Hhi).
  destruct (Z.eq_dec (m + 1) (2 ^ Zdigits2 m)) as [Heq|Hlt].
  - right. split; [exact Heq|]. apply Zdigits2_unique; [lia|].
    replace (Zdigits2 m + 1 - 1) with (Zdigits2 m) by lia.
    rewrite Z.pow_add_r by lia. change (2 ^ 1) with 2. lia.
  - left. apply Zdigits2_unique; [lia|]. lia.
Qed.

Lemma s_fexp_eq (x : Z) : fexp s_prec s_emax x = Z.max (x - 24) (- 149).
Proof. reflexivity. Qed.

(** [binary_round_aux] on an exact mantissa that is not shorter than the
    format asks for: the result is a number of the format. *)
Lemma binary_round_aux_single_valid (s : bool) (m : positive) (e : Z) :
  e <= fexp s_prec s_emax (Zpos (digits2_pos m) + e) ->
  valid_binary s_prec s_emax (binary_round_aux s_prec s_emax s (Zpos m) e loc_Exact) = true.
Proof.
  intros He. unfold binary_round_aux. unfold shr_fexp at 1.
  set (D := Zdigits2 (Zpos m)) in *. change (Zpos (digits2_pos m)) with D in He.
  set (n := fexp s_prec s_emax (D + e) - e).
  assert (0 <= n) as Hn by (unfold n; lia).
  assert (shr_inv (Zpos m) 1 (shr_record_of_loc (Zpos m) loc_Exact)) as Hinv0.
  { split; [cbn; lia|]. exists 0. split; [cbn; lia|]. unfold loc_ok. cbn. lia. }
  destruct (shr_inv_shift (Zpos m) 1 _ e n ltac:(lia) Hn Hinv0) as (mrs' & -> & Hinv' & Hm').
  cbn [shr_m shr_record_of_loc] in Hm'.
  destruct (round_nearest_even_inv (Zpos m) (1 * 2 ^ n) mrs'
              ltac:(assert (0 < 2 ^ n) by (apply Z.pow_pos_nonneg; lia); lia) Hinv')
    as [Hq _].
  set (q := round_nearest_even (shr_m mrs') (loc_of_shr_record mrs')) in *.
  set (m' := shr_m mrs') in *.
  set (e' := e + n) in *.
  destruct (Zdigits2_shift (Zpos m) n ltac:(lia) Hn) as (Hm0 & Hzero & Hpos).
  rewrite <- Hm' in Hm0, Hzero, Hpos. fold D in Hzero, Hpos.
  (* the facts about m' and e' *)
  assert (- 149 <= e' /\ Zdigits2 m' <= 24 /\ (Zdigits2 m' = 24 \/ e' = - 149)) as (He1 & Hd1 & Hd2).
  { unfold e', n. rewrite s_fexp_eq in *.
    destruct (Z_lt_le_dec n D) as [Hlt|Hle].
    - destruct (Hpos Hlt) as [_ ->]. unfold n. rewrite s_fexp_eq. lia.
    - rewrite (Hzero Hle). cbn [Zdigits2]. unfold n in Hle. rewrite s_fexp_eq in Hle. lia. }
  assert (0 <= q /\ (Zdigits2 q = Zdigits2 m'
                     \/ (q = 2 ^ Zdigits2 m' /\ Zdigits2 q = Zdigits2 m' + 1))) as (Hq0 & Hdq).
  { destruct Hq as [->| ->]; [split; [lia|left; reflexivity]|].
    split; [lia|]. apply Zdigits2_succ. lia. }
  unfold shr_fexp. rewrite s_fexp_eq.
  destruct (Z.eq_dec (Zdigits2 q) 25) as [H25|Hn25].
  - (* the carry into a 25th bit *)
    destruct Hdq as [Hsame|[Hpow Hdq]]; [lia|].
    assert (Zdigits2 m' = 24) as H24 by lia. rewrite H24 in Hpow.
    replace (Z.max (Zdigits2 q + e' - 24) (-149) - e') with 1 by lia.
    rewrite Hpow. change (2 ^ 24) with 16777216.
    cbn [shr_record_of_loc shr SpecFloat.iter_pos shr_1 shr_m].
    destruct (e' + 1 <=? s_emax - s_prec) eqn:Hb; [|reflexivity].
    cbn [valid_binary]. unfold bounded, canonical_mantissa. rewrite Hb, andb_true_r.
    apply Z.eqb_eq. rewrite s_fexp_eq.
    change (Zpos (digits2_pos 8388608)) with 24. lia.
  - (* no carry *)
    assert (Zdigits2 q <= 24) as Hle by (destruct Hdq as [E|[_ E]]; lia).
    assert (Zdigits2 q = 24 \/ e' = - 149) as Hcan.
    { destruct Hd2 as [H24|He']; [|by right]. left. destruct Hdq as [E|[_ E]]; lia. }
    assert (0 <= Zdigits2 q) as Hdq0.
    { destruct q as [|p|p]; cbn [Zdigits2]; lia. }
    replace (Z.max (Zdigits2 q + e' - 24) (-149) - e') with 0 by lia.
    cbn [shr]. destruct (loc_of_record_of_loc q loc_Exact) as [_ ->].
    destruct q as [|qp|qp]; [reflexivity| |lia].
    destruct (e' <=? s_emax - s_prec) eqn:Hb; [|reflexivity].
    cbn [valid_binary]. unfold bounded, canonical_mantissa. rewrite Hb, andb_true_r.
    apply Z.eqb_eq. rewrite s_fexp_eq. cbn [Zdigits2] in *. lia.
Qed.

(** The alignment that [binary_round] starts with. *)
Lemma shl_align_single (m : positive) (e : Z) :
  let '(mz, ez) := shl_align m e (fexp s_prec s_emax (Zpos (digits2_pos m) + e)) in
  ez <= fexp s_prec s_emax (Zpos (digits2_pos mz) + ez).
Proof.
  set (t := fexp s_prec s_emax (Zpos (digits2_pos m) + e)).
  pose proof (shl_align_fst m e t) as Hfst.
  unfold shl_align in *. destruct (t - e) as [|d|d] eqn:Hd.
  - fold t. lia.
  - fold t. lia.
  - cbn [fst] in Hfst. specialize (Hfst ltac:(lia)).
    assert (Zdigits2 (Zpos (Pos.iter xO m d)) = Zpos (digits2_pos m) + (e - t)) as Hdg.
    { destruct (Zdigits2_bounds (Zpos m) ltac:(lia)) as (HD & Hlo & Hhi).
      cbn [Zdigits2] in HD, Hlo, Hhi.
      assert (0 < 2 ^ (e - t)) by (apply Z.pow_pos_nonneg; lia).
      apply Zdigits2_unique; [lia|]. rewrite Hfst.
      replace (Zpos (digits2_pos m) + (e - t) - 1) with (Zpos (digits2_pos m) - 1 + (e - t)) by lia.
      rewrite !Z.pow_add_r by lia. nia. }
    cbn [Zdigits2] in Hdg. rewrite Hdg.
    replace (Zpos (digits2_pos m) + (e - t) + t) with (Zpos (digits2_pos m) + e) by lia.
    fold t. lia.
Qed.

(** [static_cast<float>(d)] is a binary32 number, whatever [d] is. *)
Lemma to_single_valid (d : double) : valid_binary s_prec s_emax (to_single d) = true.
Proof.
  destruct d as [s|s| |s m e]; try reflexivity.
  unfold to_single, binary_round.
  pose proof (shl_align_single m e) as H.
  destruct (shl_align m e _) as [mz ez].
  by apply binary_round_aux_single_valid.
Qed.
(* ===================================================================== *)
(** * The typing invariant of the scalar store                           *)
(* ===================================================================== *)

Section StoreTypingProofs.
Context {UF : UnorderedMap string ForLoopState} {UD : UnorderedMap Z Z} {AL : Allocator}.

Lemma has_type_default (t : VarType) : has_type (default_value t) t.
Proof. destruct t; cbn; done. Qed.

Lemma has_type_get_type (v : Value) (t : VarType) : has_type v t -> get_type v = t.
Proof. by destruct v, t. Qed.

(** [to_integer] saturates or casts to [int16_t]. *)
Lemma to_integer_range (v : Value) (i : Z) :
  to_integer v = Some i -> - 32768 <= i <= 32767.
Proof.
  unfold to_integer.
  destruct (d_ge _ _); [intros [= <-]; lia|].
  destruct (d_le _ _); [intros [= <-]; lia|].
  unfold cast_int16, cast_signed.
  destruct (d_trunc _) as [z|]; [|done].
  destruct (_ && _) eqn:H; [|done]. intros [= <-].
  apply andb_true_iff in H as [H1 H2]. apply Z.leb_le in H1. apply Z.ltb_lt in H2.
  change (2 ^ (16 - 1)) with 32768 in *. lia.
Qed.

(** A coercion that is defined yields a value of the target type. *)
Lemma coerce_to_has_type (v v' : Value) (t : VarType) :
  coerce_to v t = Some v' -> has_type v' t.
Proof.
  destruct t; cbn.
  - destruct (to_integer v) as [i|] eqn:E; cbn; [|done]. intros [= <-]. cbn.
    by apply to_integer_range in E.
  - intros [= <-]. cbn. apply to_single_valid.
  - by intros [= <-].
  - intros [= <-]. by destruct v.
Qed.

Lemma resolve_type_same_map (rt rt' : Runtime) (name : string) :
  def_type_map rt' = def_type_map rt -> resolve_type rt' name = resolve_type rt name.
Proof. intros H. unfold resolve_type. by rewrite H. Qed.

Lemma resolve_type_erl (rt : Runtime) : resolve_type rt "erl%" = INTEGER.
Proof. reflexivity. Qed.

Lemma typed_store_other (rt rt' : Runtime) :
  variables_ rt' = variables_ rt -> def_type_map rt' = def_type_map rt ->
  typed_store rt -> typed_store rt'.
Proof.
  intros Hv Hd H name v Hlook. rewrite Hv in Hlook.
  rewrite (resolve_type_same_map rt rt') by done. by apply H.
Qed.

(** A store that holds only ERR% and ERL%, both 16-bit integers, is
    typed whatever the letter types are. *)
Lemma typed_store_system (rt : Runtime) (err erl : Value) :
  variables_ rt = <["erl%" := erl]> (<["err%" := err]> ∅) ->
  has_type err INTEGER -> has_type erl INTEGER -> typed_store rt.
Proof.
  intros Hv Herr Herl name v. rewrite Hv.
  intros [[<- <-]|[_ [[<- <-]|[_ H]]%lookup_insert_Some]]%lookup_insert_Some.
  - by rewrite resolve_type_erl.
  - by rewrite resolve_type_err.
  - by rewrite lookup_empty in H.
Qed.

Lemma typed_store_new : typed_store Runtime_new.
Proof. apply (typed_store_system _ (VInteger 0) (VInteger 0)); [reflexivity| |]; cbn; lia. Qed.

Lemma typed_store_load (p : Program) : typed_store (load p Runtime_new).
Proof. apply (typed_store_system _ (VInteger 0) (VInteger 0)); [reflexivity| |]; cbn; lia. Qed.

Lemma variables_at_integer (rt : Runtime) (name : string) :
  typed_store rt -> resolve_type rt name = INTEGER ->
  has_type (variables_at rt name) INTEGER.
Proof.
  intros H Hname. unfold variables_at.
  destruct (variables_ rt !! name) as [v|] eqn:Hv; cbn; [|lia].
  rewrite <- Hname. by apply H.
Qed.

Lemma typed_store_reset (rt : Runtime) : typed_store rt -> typed_store (reset rt).
Proof.
  intros H.
  apply (typed_store_system _ (variables_at rt "err%") (variables_at rt "erl%"));
    [reflexivity| |]; by apply variables_at_integer.
Qed.

Lemma typed_store_clear (rt : Runtime) : typed_store rt -> typed_store (clear rt).
Proof.
  intros H. apply (typed_store_other (reset rt)); [reflexivity|reflexivity|].
  by apply typed_store_reset.
Qed.

(** [set_variable] stores the value coerced to the resolved type of
    the name and leaves the other cells alone. *)
Lemma set_variable_stores (rt rt' : Runtime) (name : string) (value : Value) :
  set_variable name value rt = Some rt' ->
  exists v, coerce_to value (resolve_type rt name) = Some v
            /\ variables_ rt' = <[name := v]> (variables_ rt)
            /\ def_type_map rt' = def_type_map rt.
Proof.
  unfold set_variable.
  destruct (coerce_to value (resolve_type rt name)) as [v|]; cbn; [|done].
  intros [= <-]. by exists v.
Qed.

Lemma typed_store_set_variable (rt rt' : Runtime) (name : string) (value : Value) :
  typed_store rt -> set_variable name value rt = Some rt' -> typed_store rt'.
Proof.
  intros H (v & Hv & Hvars & Hmap)%set_variable_stores name' v'.
  rewrite Hvars, (resolve_type_same_map rt rt') by done.
  intros [[<- <-]|[_ Hold]]%lookup_insert_Some.
  - by apply coerce_to_has_type in Hv.
  - by apply H.
Qed.

(** The assignment is defined whenever the coercion is; only a NaN
    going to an INTEGER variable is not. *)
Lemma set_variable_defined (rt : Runtime) (name : string) (value : Value) :
  (resolve_type rt name = INTEGER -> is_Some (to_integer value)) ->
  is_Some (set_variable name value rt).
Proof.
  intros H. unfold set_variable.
  destruct (resolve_type rt name); cbn; [|done..].
  destruct (H eq_refl) as [i ->]. done.
Qed.

(** ** The array and DATA members do not touch the scalar store *)

Lemma dim_array_frame (name : string) (dims : list Z) (t : VarType) (rt : Runtime) :
  variables_ (dim_array name dims t rt).1 = variables_ rt
  /\ def_type_map (dim_array name dims t rt).1 = def_type_map rt.
Proof. unfold dim_array. repeat case_match; split; reflexivity. Qed.

Lemma auto_dim_frame (name : string) (indices : list Z) (rt : Runtime) :
  variables_ (auto_dim name indices rt).1 = variables_ rt
  /\ def_type_map (auto_dim name indices rt).1 = def_type_map rt.
Proof.
  unfold auto_dim. destruct (arrays_ rt !! name); [split; reflexivity|].
  pose proof (dim_array_frame name (replicate (length indices) 10) (resolve_type rt name) rt)
    as H.
  destruct (dim_array _ _ _ rt) as [rt' [[]|c| |k]]; cbn in *; try exact H.
  destruct (arrays_ rt' !! name); exact H.
Qed.

Lemma get_array_frame (name : string) (indices : list Z) (rt : Runtime) :
  variables_ (get_array name indices rt).1 = variables_ rt
  /\ def_type_map (get_array name indices rt).1 = def_type_map rt.
Proof.
  unfold get_array. pose proof (auto_dim_frame name indices rt) as H.
  destruct (auto_dim name indices rt) as [rt' [arr|c| |k]]; cbn in *; try exact H.
  repeat case_match; exact H.
Qed.

Lemma set_array_frame (name : string) (indices : list Z) (value : Value) (rt : Runtime) :
  variables_ (set_array name indices value rt).1 = variables_ rt
  /\ def_type_map (set_array name indices value rt).1 = def_type_map rt.
Proof.
  unfold set_array. pose proof (auto_dim_frame name indices rt) as H.
  destruct (auto_dim name indices rt) as [rt' [arr|c| |k]]; cbn in *; try exact H.
  repeat case_match; exact H.
Qed.

Lemma read_data_frame (rt : Runtime) :
  variables_ (read_data rt).1 = variables_ rt
  /\ def_type_map (read_data rt).1 = def_type_map rt.
Proof. unfold read_data. repeat case_match; split; reflexivity. Qed.

(** ** Member functions of the interpreter *)

Lemma keeps_ret {A} (a : A) : keeps_typed (ret a).
Proof. intros m H. exact H. Qed.

Lemma keeps_bind {A B} (c : M A) (k : A -> M B) :
  keeps_typed c -> (forall a, keeps_typed (k a)) -> keeps_typed (bind c k).
Proof.
  intros Hc Hk m H. unfold bind. specialize (Hc m H).
  destruct (c m) as [m' [a|code| |why]]; cbn in *; try exact Hc. by apply Hk.
Qed.

Lemma keeps_get_rt : keeps_typed get_rt.
Proof. intros m H. exact H. Qed.

Lemma keeps_undefined {A} (why : UBKind) : keeps_typed (undefined (A := A) why).
Proof. intros m H. exact H. Qed.

Lemma keeps_abort {A} : keeps_typed (abort (A := A)).
Proof. intros m H. exact H. Qed.

Lemma keeps_defined {A} (why : UBKind) (o : option A) : keeps_typed (defined why o).
Proof. destruct o; intros m H; exact H. Qed.

Lemma keeps_raise_error {A} (code : Z) : keeps_typed (raise_error (A := A) code).
Proof. intros m H. eapply typed_store_other; [| |exact H]; reflexivity. Qed.

Lemma keeps_modify_rt (f : Runtime -> Runtime) :
  (forall rt, typed_store rt -> typed_store (f rt)) -> keeps_typed (modify_rt f).
Proof. intros Hf m H. by apply Hf. Qed.

(** An update of a member other than the store and the letter types. *)
Lemma keeps_frame (f : Runtime -> Runtime) :
  (forall rt, variables_ (f rt) = variables_ rt) ->
  (forall rt, def_type_map (f rt) = def_type_map rt) ->
  keeps_typed (modify_rt f).
Proof. intros Hv Hd. apply keeps_modify_rt. intros rt. by apply typed_store_other. Qed.

Lemma keeps_lift_rt {A} (f : Runtime -> Runtime * Res A) :
  (forall rt, variables_ (f rt).1 = variables_ rt /\ def_type_map (f rt).1 = def_type_map rt) ->
  keeps_typed (lift_rt f).
Proof.
  intros Hf m H. unfold lift_rt. specialize (Hf (runtime_ m)).
  destruct (f (runtime_ m)) as [rt' r]; cbn in *.
  destruct Hf as [Hv Hd]. by apply (typed_store_other (runtime_ m)).
Qed.

Lemma keeps_modify_state (f : InterpreterState -> InterpreterState) :
  keeps_typed (modify_state f).
Proof. intros m H. exact H. Qed.

Lemma keeps_store_variable (name : string) (value : Value) :
  keeps_typed (store_variable name value).
Proof.
  intros m H. unfold store_variable, bind, get_rt, defined.
  destruct (set_variable name value (runtime_ m)) as [rt'|] eqn:E; cbn; [|exact H].
  by apply (typed_store_set_variable (runtime_ m) rt' name value).
Qed.

Ltac keeps_step :=
  lazymatch goal with
  | |- keeps_typed (bind _ _) => apply keeps_bind; [|intros ?]
  | |- keeps_typed (ret _) => apply keeps_ret
  | |- keeps_typed get_rt => apply keeps_get_rt
  | |- keeps_typed (undefined _) => apply keeps_undefined
  | |- keeps_typed abort => apply keeps_abort
  | |- keeps_typed (defined _ _) => apply keeps_defined
  | |- keeps_typed (raise_error _) => apply keeps_raise_error
  | |- keeps_typed (store_variable _ _) => apply keeps_store_variable
  | |- keeps_typed (modify_state _) => apply keeps_modify_state
  | |- keeps_typed (modify_rt _) => apply keeps_frame; intros ?; reflexivity
  | |- keeps_typed (lift_rt (get_array _ _)) => apply keeps_lift_rt, get_array_frame
  | |- keeps_typed (lift_rt (set_array _ _ _)) => apply keeps_lift_rt, set_array_frame
  | |- keeps_typed (lift_rt (dim_array _ _ _)) => apply keeps_lift_rt, dim_array_frame
  | |- keeps_typed (lift_rt read_data) => apply keeps_lift_rt, read_data_frame
  | |- keeps_typed (if ?b then _ else _) => destruct b
  | |- keeps_typed (match ?x with _ => _ end) => destruct x
  | |- keeps_typed (let _ := _ in _) => cbv zeta
  end.

Ltac keeps_auto := repeat (first [assumption | keeps_step]).

Lemma keeps_jump_to (line : Z) : keeps_typed (jump_to line).
Proof. unfold jump_to. keeps_auto. Qed.

Lemma keeps_push_entry (e : StackEntry) : keeps_typed (push_entry e).
Proof. unfold push_entry. keeps_auto. Qed.

Lemma keeps_get_string (v : Value) : keeps_typed (get_string v).
Proof. unfold get_string. keeps_auto. Qed.

Lemma keeps_set_reason (r : StopReason) : keeps_typed (set_reason r).
Proof. unfold set_reason. keeps_auto. Qed.

Ltac keeps_more :=
  repeat (first [assumption | keeps_step | apply keeps_jump_to | apply keeps_push_entry
                | apply keeps_get_string | apply keeps_set_reason]).

Lemma keeps_advance_pc : keeps_typed advance_pc.
Proof. unfold advance_pc. keeps_auto. Qed.

Lemma keeps_int_divide (rem : bool) (l r : double) : keeps_typed (int_divide rem l r).
Proof. unfold int_divide. keeps_auto. Qed.

Lemma keeps_int16_logic (f : Z -> Z -> Z) (l r : double) : keeps_typed (int16_logic f l r).
Proof. unfold int16_logic. keeps_auto. Qed.

(** The built-ins embedded here only read their arguments. *)
Lemma keeps_builtin_str (args : list Value) : keeps_typed (builtin_str args).
Proof. unfold builtin_str. keeps_auto. Qed.

Lemma keeps_builtin_val (args : list Value) : keeps_typed (builtin_val args).
Proof. unfold builtin_val. keeps_auto. apply keeps_get_string. Qed.

Lemma keeps_call_embedded (name : string) (args : list Value) :
  keeps_typed (call_embedded name args).
Proof.
  unfold call_embedded. keeps_auto; [apply keeps_builtin_str|apply keeps_builtin_val].
Qed.

Section Interpreter.
Variable pow : double -> double -> double.
Variable call_function : string -> list Value -> M Value.

(** Whatever the function dispatch runs leaves a typed store typed:
    the built-ins do not write variables, and a DEF FN call binds
    its parameters with [set_variable]. *)
Hypothesis Hcall : forall name args, keeps_typed (call_function name args).

Lemma keeps_eval_binary (op : TokenType) (el er : M Value) :
  keeps_typed el -> keeps_typed er -> keeps_typed (eval_binary pow op el er).
Proof.
  intros Hl Hr. unfold eval_binary.
  apply keeps_bind.
  { keeps_auto. }
  intros [v|]; [apply keeps_ret|].
  apply keeps_bind; [exact Hl|]. intros lv.
  apply keeps_bind; [exact Hr|]. intros rv. cbv zeta.
  destruct op; keeps_auto;
    first [apply keeps_int_divide | apply keeps_int16_logic | apply keeps_get_string].
Qed.

Lemma keeps_eval_unary (op : TokenType) (e : M Value) :
  keeps_typed e -> keeps_typed (eval_unary op e).
Proof. intros He. unfold eval_unary. keeps_auto. Qed.

Lemma keeps_eval_args (ev : Expr -> M Value) (l : list Expr) :
  Forall (fun a => keeps_typed (ev a)) l ->
  keeps_typed ((fix eval_args (l : list Expr) : M (list Value) :=
                  match l with
                  | [] => ret []
                  | a :: l' => bind (ev a) (fun v => bind (eval_args l') (fun vs => ret (v :: vs)))
                  end) l).
Proof. induction 1 as [|a l Ha _ IH]; keeps_auto. Qed.

Lemma keeps_eval_indices (ev : Expr -> M Value) (l : list Expr) :
  Forall (fun a => keeps_typed (ev a)) l ->
  keeps_typed ((fix eval_indices (l : list Expr) : M (list Z) :=
                  match l with
                  | [] => ret []
                  | a :: l' =>
                      bind (ev a) (fun v =>
                      bind (defined FloatToInt (cast_int (to_number v))) (fun i =>
                      bind (eval_indices l') (fun is' => ret (i :: is'))))
                  end) l).
Proof. induction 1 as [|a l Ha _ IH]; keeps_auto. Qed.

Lemma keeps_eval : forall e : Expr, keeps_typed (eval pow call_function e).
Proof.
  fix IH 1. intros e.
  destruct e as [v|s|name t|op l r|op e|name args|name indices t]; cbn [eval].
  - apply keeps_ret.
  - apply keeps_ret.
  - keeps_auto.
  - apply keeps_eval_binary; apply IH.
  - apply keeps_eval_unary; apply IH.
  - apply keeps_bind; [|intros vals; apply Hcall].
    apply (keeps_eval_args (eval pow call_function)).
    induction args as [|a args IHargs]; constructor; [apply IH|exact IHargs].
  - apply keeps_bind; [|intros idxs; keeps_auto].
    apply (keeps_eval_indices (eval pow call_function)).
    induction indices as [|a indices IHi]; constructor; [apply IH|exact IHi].
Qed.

Lemma keeps_eval_ints (l : list Expr) : keeps_typed (eval_ints pow call_function l).
Proof.
  induction l as [|a l IH]; cbn [eval_ints]; keeps_auto; apply keeps_eval.
Qed.

Lemma keeps_get_lvalue (lv : LValue) : keeps_typed (get_lvalue pow call_function lv).
Proof. unfold get_lvalue. keeps_auto. apply keeps_eval_ints. Qed.

Lemma keeps_set_lvalue (lv : LValue) (val : Value) :
  keeps_typed (set_lvalue pow call_function lv val).
Proof. unfold set_lvalue. keeps_auto. apply keeps_eval_ints. Qed.

Lemma keeps_for_scan (fuel : nat) (name : string) (scan : PC) (depth : Z) :
  keeps_typed (for_scan fuel name scan depth).
Proof.
  revert scan depth. induction fuel as [|fuel IH]; intros scan depth; cbn [for_scan];
    [apply keeps_undefined|].
  apply keeps_bind; [apply keeps_get_rt|]. intros rt. cbv zeta.
  destruct (negb _); [apply keeps_raise_error|].
  destruct (get _ _); [|apply keeps_undefined].
  destruct (0 <? _); [apply IH|apply keeps_ret].
Qed.

Lemma keeps_while_scan (fuel : nat) (scan : PC) (depth : Z) :
  keeps_typed (while_scan fuel scan depth).
Proof.
  revert scan depth. induction fuel as [|fuel IH]; intros scan depth; cbn [while_scan];
    [apply keeps_undefined|].
  apply keeps_bind; [apply keeps_get_rt|]. intros rt. cbv zeta.
  destruct (negb _); [apply keeps_raise_error|].
  destruct (get _ _); [|apply keeps_undefined].
  destruct (0 <? _); [apply IH|apply keeps_ret].
Qed.

Lemma keeps_exec_for (v : string) (a b : Expr) (step : option Expr) :
  keeps_typed (exec_for pow call_function v a b step).
Proof.
  unfold exec_for.
  apply keeps_bind; [apply keeps_eval|]. intros sv. cbv zeta.
  apply keeps_bind; [apply keeps_eval|]. intros ev.
  apply keeps_bind.
  { destruct step; keeps_auto. apply keeps_eval. }
  intros step_val. keeps_auto. apply keeps_for_scan.
Qed.

Lemma keeps_next_loop (names : list string) : keeps_typed (next_loop names).
Proof. induction names as [|name names IH]; cbn [next_loop]; keeps_auto. Qed.

Lemma keeps_exec_next (variables : list string) : keeps_typed (exec_next variables).
Proof.
  unfold exec_next. apply keeps_bind; [|intros names; apply keeps_next_loop].
  unfold next_var_names. keeps_auto.
Qed.

Lemma keeps_exec_while (condition : Expr) :
  keeps_typed (exec_while pow call_function condition).
Proof.
  unfold exec_while. apply keeps_bind; [apply keeps_eval|]. intros cond.
  keeps_auto; first [apply keeps_push_entry | apply keeps_while_scan].
Qed.

Lemma keeps_exec_wend : keeps_typed exec_wend.
Proof. unfold exec_wend. keeps_auto. Qed.

Lemma keeps_exec_gosub (l : Z) : keeps_typed (exec_gosub l).
Proof. unfold exec_gosub. keeps_auto; first [apply keeps_push_entry | apply keeps_jump_to]. Qed.

Lemma keeps_exec_return (l : option Z) : keeps_typed (exec_return l).
Proof. unfold exec_return. keeps_auto. Qed.

Lemma keeps_exec_on_goto (sel : Expr) (targets : list Z) :
  keeps_typed (exec_on_goto pow call_function sel targets).
Proof.
  unfold exec_on_goto. apply keeps_bind; [apply keeps_eval|]. intros v.
  keeps_auto. apply keeps_jump_to.
Qed.

Lemma keeps_exec_on_gosub (sel : Expr) (targets : list Z) :
  keeps_typed (exec_on_gosub pow call_function sel targets).
Proof.
  unfold exec_on_gosub. apply keeps_bind; [apply keeps_eval|]. intros v.
  keeps_auto; first [apply keeps_push_entry | apply keeps_jump_to].
Qed.

Lemma keeps_exec_read (variables : list LValue) :
  keeps_typed (exec_read pow call_function variables).
Proof.
  induction variables as [|var rest IH]; cbn [exec_read]; keeps_auto.
  apply keeps_set_lvalue.
Qed.

Lemma keeps_exec_dim (arrays : list ArrayDecl) :
  keeps_typed (exec_dim pow call_function arrays).
Proof.
  induction arrays as [|decl rest IH]; cbn [exec_dim]; keeps_auto.
  apply keeps_eval_ints.
Qed.

Lemma keeps_exec_swap (var1 var2 : LValue) :
  keeps_typed (exec_swap pow call_function var1 var2).
Proof.
  unfold exec_swap. keeps_auto; first [apply keeps_get_lvalue | apply keeps_set_lvalue].
Qed.

Lemma keeps_exec_erase (arrays : list string) : keeps_typed (exec_erase arrays).
Proof.
  unfold exec_erase. apply keeps_modify_rt. intros rt H.
  revert rt H. induction arrays as [|name arrays IH]; intros rt H; cbn [foldl]; [exact H|].
  apply IH. eapply typed_store_other; [| |exact H]; reflexivity.
Qed.

Lemma keeps_exec_clear : keeps_typed exec_clear.
Proof. unfold exec_clear. apply keeps_modify_rt, typed_store_reset. Qed.

Lemma keeps_exec_error (code : Expr) : keeps_typed (exec_error pow call_function code).
Proof.
  unfold exec_error. apply keeps_bind; [apply keeps_eval|]. intros v. keeps_auto.
Qed.

Lemma keeps_exec_resume (rtype : ResumeType) (l : option Z) :
  keeps_typed (exec_resume rtype l).
Proof. unfold exec_resume. keeps_more. Qed.

Lemma keeps_run_inline (exec : Stmt -> M unit) (l : list Stmt) :
  Forall (fun s => keeps_typed (exec s)) l ->
  keeps_typed ((fix run_inline (l : list Stmt) : M unit :=
                  match l with
                  | [] => ret tt
                  | s :: l' =>
                      bind (exec s) (fun _ =>
                      bind get_rt (fun rt =>
                      if is_running (pc rt) then run_inline l' else ret tt))
                  end) l).
Proof. induction 1 as [|s l Hs _ IH]; keeps_auto. Qed.

(** Every statement leaves a typed store typed. *)
Lemma keeps_execute : forall stmt : Stmt, keeps_typed (execute pow call_function stmt).
Proof.
  fix IH 1. intros stmt. destruct stmt; cbn [execute].
  - unfold exec_let. apply keeps_bind; [apply keeps_eval|]. intros v. apply keeps_set_lvalue.
  - assert (forall l : list Stmt,
              Forall (fun s => keeps_typed (execute pow call_function s)) l) as Hall.
    { intros l. induction l as [|s l IHl]; constructor; [apply IH|exact IHl]. }
    apply keeps_bind; [apply keeps_eval|]. intros cond.
    destruct (to_bool cond).
    + destruct then_line; [apply keeps_jump_to|].
      apply (keeps_run_inline (execute pow call_function)), Hall.
    + destruct else_line; [apply keeps_jump_to|].
      apply (keeps_run_inline (execute pow call_function)), Hall.
  - apply keeps_exec_for.
  - apply keeps_exec_next.
  - apply keeps_exec_while.
  - apply keeps_exec_wend.
  - apply keeps_jump_to.
  - apply keeps_exec_gosub.
  - apply keeps_exec_return.
  - apply keeps_exec_on_goto.
  - apply keeps_exec_on_gosub.
  - unfold exec_data. keeps_auto.
  - apply keeps_exec_read.
  - unfold exec_restore. apply keeps_frame; intros rt; unfold restore_data; repeat case_match; reflexivity.
  - apply keeps_exec_dim.
  - unfold exec_def_fn. keeps_auto.
  - apply keeps_ret.
  - unfold exec_end. keeps_auto.
  - unfold exec_stop. keeps_auto.
  - apply keeps_ret.
  - apply keeps_exec_swap.
  - apply keeps_exec_erase.
  - apply keeps_exec_clear.
  - unfold exec_option_base. keeps_auto.
  - unfold exec_tron. keeps_auto.
  - unfold exec_troff. keeps_auto.
  - apply keeps_exec_error.
  - unfold exec_on_error. keeps_auto.
  - apply keeps_exec_resume.
Qed.

Lemma keeps_on_runtime_error (code : Z) : keeps_typed (on_runtime_error code).
Proof. unfold on_runtime_error. keeps_auto; first [apply keeps_push_entry | apply keeps_set_reason]. Qed.

Lemma keeps_execute_guarded (stmt : Stmt) :
  keeps_typed (execute_guarded pow call_function stmt).
Proof.
  intros m H. unfold execute_guarded. pose proof (keeps_execute stmt m H) as He.
  destruct (execute pow call_function stmt m) as [m' [[]|code| |why]]; cbn in *;
    try exact He.
  by apply keeps_on_runtime_error.
Qed.

(** A tick of the interpreter leaves a typed store typed. *)
Lemma keeps_tick : keeps_typed (tick pow call_function).
Proof.
  intros m H. unfold tick.
  destruct (negb _); [exact H|].
  destruct (pause_requested _).
  { revert m H. change (keeps_typed (bind (set_reason STOP) (fun _ => ret false))).
    keeps_auto. apply keeps_set_reason. }
  destruct (break_requested _).
  { revert m H.
    change (keeps_typed (bind (modify_rt (set_break_requested false))
                           (fun _ => bind (set_reason BREAK) (fun _ => ret false)))).
    keeps_auto. apply keeps_set_reason. }
  destruct (_ && _).
  { revert m H.
    change (keeps_typed (bind (set_reason BREAKPOINT)
                           (fun _ => bind (set_skip_next_breakpoint true)
                                       (fun _ => ret false)))).
    keeps_auto; [apply keeps_set_reason|unfold set_skip_next_breakpoint; keeps_auto]. }
  generalize (runtime_ m) at 1 2 3 4. intros rt0. revert m H.
  match goal with |- forall m, _ -> typed_store (runtime_ (?c m).1) =>
    change (keeps_typed c) end.
  apply keeps_bind; [unfold set_skip_next_breakpoint; keeps_auto|]. intros _.
  destruct (get _ _) as [stmt|]; [|keeps_auto].
  apply keeps_bind.
  { destruct (trace_on rt0); [|apply keeps_ret]. intros m H. exact H. }
  intros _. apply keeps_bind; [apply keeps_execute_guarded|]. intros continue.
  destruct continue; keeps_auto. apply keeps_advance_pc.
Qed.

Lemma keeps_run (fuel : nat) : keeps_typed (run pow call_function fuel).
Proof.
  induction fuel as [|fuel IH]; cbn [run]; [apply keeps_ret|].
  apply keeps_bind; [apply keeps_tick|]. intros continue.
  destruct continue; [exact IH|apply keeps_ret].
Qed.

(** Every runtime the interpreter can be in has a typed store. *)
Lemma store_reachable_typed (rt : Runtime) :
  store_reachable pow call_function rt -> typed_store rt.
Proof.
  induction 1 as [|p|rt rt' name value _ IH Hset|rt _ IH|rt _ IH|rt rt' _ IH Hv Hd|m _ IH].
  - apply typed_store_new.
  - apply typed_store_load.
  - by apply (typed_store_set_variable rt rt' name value).
  - by apply typed_store_reset.
  - by apply typed_store_clear.
  - by apply (typed_store_other rt rt').
  - by apply keeps_tick.
Qed.

(** The runtime of an interpreter that runs stays among them. *)
Lemma run_reachable (fuel : nat) (m : Machine) :
  store_reachable pow call_function (runtime_ m) ->
  store_reachable pow call_function (runtime_ (run pow call_function fuel m).1).
Proof.
  revert m. induction fuel as [|fuel IH]; intros m H; cbn [run]; [exact H|].
  unfold bind. pose proof (reach_tick pow call_function m H) as Ht.
  destruct (tick pow call_function m) as [m' [[]|code| |why]]; cbn in *; try exact Ht.
  by apply IH.
Qed.

(** C7.  In every runtime that the interpreter can be in (a new one,
    one with a program loaded, and whatever the store operations and
    the ticks of the interpreter make of it), a read of the scalar
    store returns a value of the resolved type of the name: the
    alternative of the variant is the one of that type, an INTEGER
    is a 16-bit integer and a SINGLE a binary32 number.  A name that
    was never assigned reads as the zero of its type.  An assignment
    stores the value that [coerce_to] makes of the right-hand value
    for that type, which is again of the type; it changes neither
    the type of the name nor what the other names read, and the
    runtime is again one the interpreter can be in. *)
Theorem read_has_resolved_type (rt : Runtime) (name : string) :
  store_reachable pow call_function rt ->
  let t := resolve_type rt name in
  has_type (get_variable rt name) t
  /\ get_type (get_variable rt name) = t
  /\ (variables_ rt !! name = None ->
      get_variable rt name
      = match t with
        | INTEGER => VInteger 0
        | SINGLE => VSingle (S754_zero false)
        | DOUBLE => VDouble (S754_zero false)
        | STRING => VString EmptyString
        end)
  /\ forall (value : Value) (rt' : Runtime),
       set_variable name value rt = Some rt' ->
       coerce_to value t = Some (get_variable rt' name)
       /\ has_type (get_variable rt' name) t
       /\ resolve_type rt' name = t
       /\ (forall other, other <> name -> get_variable rt' other = get_variable rt other)
       /\ store_reachable pow call_function rt'.
Proof.
  intros Hreach t. pose proof (store_reachable_typed rt Hreach) as H.
  assert (has_type (get_variable rt name) t) as Hread.
  { unfold get_variable. destruct (variables_ rt !! name) as [v|] eqn:Hv.
    - by apply H.
    - apply has_type_default. }
  split; [exact Hread|]. split; [by apply has_type_get_type|]. split.
  { intros Hnone. unfold get_variable. rewrite Hnone. subst t.
    by destruct (resolve_type rt name). }
  intros value rt' Hset.
  destruct (set_variable_stores rt rt' name value Hset) as (v & Hv & Hvars & Hmap).
  assert (get_variable rt' name = v) as Hget.
  { unfold get_variable. by rewrite Hvars, lookup_insert_eq. }
  rewrite Hget. split; [exact Hv|]. split; [by apply coerce_to_has_type in Hv|].
  split; [by apply resolve_type_same_map|]. split.
  - intros other Hne. unfold get_variable.
    rewrite Hvars, lookup_insert_ne, (resolve_type_same_map rt rt') by done. reflexivity.
  - by apply (reach_set_variable pow call_function rt rt' name value).
Qed.
End Interpreter.
End StoreTypingProofs.

(** The interpreter has run [defint_program]: N, INTEGER by DEFINT, holds
    the 2.5 assigned to it as the integer 2; Y holds 0.1 rounded to
    binary32, which is 13421773 * 2^-27; Z# was never assigned. *)
Lemma read_has_resolved_type_witness :
  store_reachable pow_exact call_embedded runtime_after_stores
  /\ (let t := resolve_type runtime_after_stores "y" in
      has_type (get_variable runtime_after_stores "y") t
      /\ get_type (get_variable runtime_after_stores "y") = t
      /\ (variables_ runtime_after_stores !! "y" = None ->
          get_variable runtime_after_stores "y"
          = match t with
            | INTEGER => VInteger 0
            | SINGLE => VSingle (S754_zero false)
            | DOUBLE => VDouble (S754_zero false)
            | STRING => VString EmptyString
            end)
      /\ forall (value : Value) (rt' : Runtime),
           set_variable "y" value runtime_after_stores = Some rt' ->
           coerce_to value t = Some (get_variable rt' "y")
           /\ has_type (get_variable rt' "y") t
           /\ resolve_type rt' "y" = t
           /\ (forall other, other <> "y" -> get_variable rt' other
                                             = get_variable runtime_after_stores other)
           /\ store_reachable pow_exact call_embedded rt')
  /\ get_variable runtime_after_stores "n" = VInteger 2
  /\ get_variable runtime_after_stores "x$" = VString "A"
  /\ get_variable runtime_after_stores "y" = VSingle (S754_finite false 13421773 (-27))
  /\ get_variable runtime_after_stores "z#" = VDouble (S754_zero false).
Proof.
  assert (H : store_reachable pow_exact call_embedded runtime_after_stores).
  { apply (run_reachable pow_exact call_embedded 4 (boot defint_program)), reach_load. }
  split; [exact H|].
  split; [exact (read_has_resolved_type pow_exact call_embedded keeps_call_embedded
                   runtime_after_stores "y" H)|].
  repeat split; vm_compute; reflexivity.
Defined.
